(** * The delayed-queue engine of nsqd: a shallow embedding

    The development follows the two source files of the engine:
    - the delay queue core (package nsqd, [DelayQueue]): key layout of the
      ordered index store, the put / confirm / empty / peek operations and
      the replica entry points;
    - the segmented log writer ([diskQueueWriter]): write positions, appends
      and rollback.

    Integers are mathematical integers with the conversions of the source
    ([uint16], [uint64], [int64], [int32]) written out.  Byte strings are
    lists of bytes; Go strings are byte strings.  A bolt bucket is an
    association list kept strictly ascending in the byte order of its keys,
    which is the order a bolt cursor walks. *)

From Stdlib Require Import ZArith List Lia Bool Sorted.
From Stdlib Require Import Strings.Byte.
From Stdlib Require Strings.String DecimalString DecimalPos.
Import ListNotations.
Local Open Scope Z_scope.

(** ** Machine integers *)

Definition uint16 (z : Z) : Z := z mod 2 ^ 16.
Definition uint64 (z : Z) : Z := z mod 2 ^ 64.
Definition int64 (z : Z) : Z := (z + 2 ^ 63) mod 2 ^ 64 - 2 ^ 63.
Definition int32 (z : Z) : Z := (z + 2 ^ 31) mod 2 ^ 32 - 2 ^ 31.

Definition is_int64 (z : Z) : Prop := - 2 ^ 63 <= z < 2 ^ 63.
Definition is_uint64 (z : Z) : Prop := 0 <= z < 2 ^ 64.
Definition is_int32 (z : Z) : Prop := - 2 ^ 31 <= z < 2 ^ 31.

(** ** Byte strings *)

Definition bytes := list byte.

Definition byte_of_Z (z : Z) : byte :=
  match Byte.of_N (Z.to_N (z mod 256)) with
  | Some b => b
  | None => x00
  end.

Definition Z_of_byte (b : byte) : Z := Z.of_N (Byte.to_N b).

Definition len {A} (l : list A) : Z := Z.of_nat (length l).

(** [bytes.Compare]: lexicographic order on unsigned bytes. *)
Fixpoint bytes_compare (a b : bytes) : comparison :=
  match a, b with
  | [], [] => Eq
  | [], _ :: _ => Lt
  | _ :: _, [] => Gt
  | x :: a', y :: b' =>
      match Z.compare (Z_of_byte x) (Z_of_byte y) with
      | Eq => bytes_compare a' b'
      | c => c
      end
  end.

Definition bytes_eqb (a b : bytes) : bool :=
  match bytes_compare a b with Eq => true | _ => false end.

Definition bytes_lt (a b : bytes) : Prop := bytes_compare a b = Lt.

(** [bytes.HasPrefix s prefix]. *)
Fixpoint HasPrefix (s prefix : bytes) {struct prefix} : bool :=
  match prefix, s with
  | [], _ => true
  | _ :: _, [] => false
  | p :: prefix', x :: s' => Byte.eqb p x && HasPrefix s' prefix'
  end.

(** The slice [b[lo:hi]] for [lo <= hi <= len b]. *)
Definition slice (lo hi : nat) (b : bytes) : bytes := firstn (hi - lo) (skipn lo b).

(** [binary.BigEndian]: [PutUint n] writes the low [n] bytes of its argument,
    most significant first; [Uint] reads them back. *)
Fixpoint PutUint (n : nat) (x : Z) : bytes :=
  match n with
  | O => []
  | S n' => byte_of_Z (x / 256 ^ Z.of_nat n') :: PutUint n' x
  end.

Definition Uint (b : bytes) : Z :=
  fold_left (fun acc x => acc * 256 + Z_of_byte x) b 0.

Definition PutUint16 (x : Z) : bytes := PutUint 2 x.
Definition PutUint64 (x : Z) : bytes := PutUint 8 x.

(** [strconv.Itoa]. *)
Definition Itoa (z : Z) : bytes :=
  String.list_byte_of_string (DecimalString.NilZero.string_of_int (Z.to_int z)).

(** ** Errors *)

Inductive error : Type :=
| errExitingNew            (* errors.New("exiting") *)
| ErrExiting
| ErrInvalidMessageID
| errInvalidDelayedMessage (* errors.New("invalid delayed message") *)
| ErrWriteOffsetMismatch
| errRawMessageNumber      (* "delayed raw message number must be 1." *)
| errInvalidRawData        (* "invalid raw message data: ..." *)
| errDecodeMessage         (* failure of DecodeDelayedMessage *)
| errWriteSizeMismatch     (* "write message size mismatch: ..." *)
| errInvalidWriteSize      (* "invalid message write size ..." *)
| ErrInvalidOffset
| errStatFile              (* os.Stat on a missing data file *)
| errBucketKeyNotFound
| errInvalidBufferLength   (* "invalid buffer length" *)
| errSliceBounds           (* run-time panic: slice bounds out of range *)
| ErrKeyRequired           (* bolt *)
| ErrKeyTooLarge           (* bolt *)
| ErrValueTooLarge         (* bolt *)
| errEmptyChannelName      (* "empty delayed channel name should be given" *)
| errAtoi.                 (* strconv.Atoi *)

Inductive result (A : Type) : Type :=
| Ok (a : A)
| Err (e : error).
Arguments Ok {A} a.
Arguments Err {A} e.

Definition error_eqb (a b : error) : bool :=
  match a, b with
  | errExitingNew, errExitingNew | ErrExiting, ErrExiting
  | ErrInvalidMessageID, ErrInvalidMessageID
  | errInvalidDelayedMessage, errInvalidDelayedMessage
  | ErrWriteOffsetMismatch, ErrWriteOffsetMismatch
  | errRawMessageNumber, errRawMessageNumber
  | errInvalidRawData, errInvalidRawData
  | errDecodeMessage, errDecodeMessage
  | errWriteSizeMismatch, errWriteSizeMismatch
  | errInvalidWriteSize, errInvalidWriteSize
  | ErrInvalidOffset, ErrInvalidOffset
  | errStatFile, errStatFile
  | errBucketKeyNotFound, errBucketKeyNotFound
  | errInvalidBufferLength, errInvalidBufferLength
  | errSliceBounds, errSliceBounds
  | ErrKeyRequired, ErrKeyRequired
  | ErrKeyTooLarge, ErrKeyTooLarge
  | ErrValueTooLarge, ErrValueTooLarge
  | errEmptyChannelName, errEmptyChannelName
  | errAtoi, errAtoi => true
  | _, _ => false
  end.

(** [strconv.Atoi] on a byte string: an optional sign, then decimal digits;
    the value has to fit the 64-bit [int]. *)
Fixpoint atoiDigits (acc : Z) (s : bytes) : option Z :=
  match s with
  | [] => Some acc
  | c :: s' =>
      let d := Z_of_byte c - 48 in
      if (0 <=? d) && (d <=? 9) then atoiDigits (acc * 10 + d) s' else None
  end.

Definition Atoi (s : bytes) : result Z :=
  match s with
  | [] => Err errAtoi
  | c :: s' =>
      let neg := Byte.eqb c "-"%byte in
      let body := if neg || Byte.eqb c "+"%byte then s' else s in
      match body with
      | [] => Err errAtoi
      | _ :: _ =>
          match atoiDigits 0 body with
          | None => Err errAtoi
          | Some n =>
              let v := if neg then - n else n in
              if (- 2 ^ 63 <=? v) && (v <? 2 ^ 63) then Ok v else Err errAtoi
          end
      end
  end.

(** The digits of a decimal number as bytes, most significant first. *)
Definition digitsOf (u : Decimal.uint) : bytes :=
  String.list_byte_of_string (DecimalString.NilEmpty.string_of_uint u).

(** ** The ordered key/value store (bolt)

    A bucket maps byte-string keys to values and is walked by a cursor in
    ascending byte order of the keys.  It is kept as a strictly ascending
    association list.  [Seek] positions a cursor on the first key not below
    its argument; the cursor position is the list of entries still ahead. *)

Module Bolt.

Definition Bucket (V : Type) : Type := list (bytes * V).

Fixpoint Get {V} (k : bytes) (b : Bucket V) : option V :=
  match b with
  | [] => None
  | (k', v) :: b' =>
      match bytes_compare k k' with
      | Lt => None
      | Eq => Some v
      | Gt => Get k b'
      end
  end.

Fixpoint insert {V} (k : bytes) (v : V) (b : Bucket V) : Bucket V :=
  match b with
  | [] => [(k, v)]
  | (k', v') :: b' =>
      match bytes_compare k k' with
      | Lt => (k, v) :: b
      | Eq => (k, v) :: b'
      | Gt => (k', v') :: insert k v b'
      end
  end.

(** [Bucket.Delete]: removing a key that is absent is not an error. *)
Fixpoint Delete {V} (k : bytes) (b : Bucket V) : Bucket V :=
  match b with
  | [] => []
  | (k', v') :: b' =>
      match bytes_compare k k' with
      | Lt => b
      | Eq => b'
      | Gt => (k', v') :: Delete k b'
      end
  end.

Definition MaxKeySize : Z := 32768.
Definition MaxValueSize : Z := 2 ^ 31 - 2.

(** [Bucket.Put] with the argument checks of bolt. *)
Definition Put (k v : bytes) (b : Bucket bytes) : result (Bucket bytes) :=
  if len k =? 0 then Err ErrKeyRequired
  else if len k >? MaxKeySize then Err ErrKeyTooLarge
  else if len v >? MaxValueSize then Err ErrValueTooLarge
  else Ok (insert k v b).

(** [Cursor.Seek]: the entries from the first key [>= seek] on. *)
Fixpoint Seek {V} (seek : bytes) (b : Bucket V) : Bucket V :=
  match b with
  | [] => []
  | (k, v) :: b' =>
      match bytes_compare k seek with
      | Lt => Seek seek b'
      | _ => b
      end
  end.

Definition keys {V} (b : Bucket V) : list bytes := map fst b.

(** Strictly ascending keys. *)
Definition sorted {V} (b : Bucket V) : Prop := StronglySorted bytes_lt (keys b).

End Bolt.

(** ** Key layout of the index store *)

Definition MinDelayedType : Z := 1.
Definition ChannelDelayed : Z := 1.
Definition PubDelayed : Z := 2.
Definition TransactionDelayed : Z := 3.
Definition MaxDelayedType : Z := 4.
Definition txMaxBatch : Z := 10000.

Definition dash : byte := "-"%byte.
Module Literals.
Import String.
Local Open Scope string_scope.
Definition synced_offset : bytes := list_byte_of_string "synced_offset".
Definition counter_ : bytes := list_byte_of_string "counter_".
End Literals.

Definition syncedOffsetKey : bytes := Literals.synced_offset.
Definition counterPrefix : bytes := Literals.counter_.

(** The declaration of [MessageID] is not in the files at hand.  It is taken
    as the unsigned 64-bit integer that [nextMsgID] converts from, so the
    conversion [MessageID(x)] is [uint64]. *)
Definition MessageID (z : Z) : Z := uint64 z.

Definition getDelayedMsgDBIndexValue (ts id : Z) : bytes :=
  byte_of_Z 1 :: PutUint64 (uint64 ts) ++ PutUint64 (uint64 id).

Definition getDelayedMsgDBPrefixKey (dt : Z) (ch : bytes) : bytes :=
  PutUint16 (uint16 dt) ++ dash :: PutUint16 (uint16 (len ch)) ++ ch.

Definition getDelayedMsgDBKey (dt : Z) (ch : bytes) (ts id : Z) : bytes :=
  PutUint16 (uint16 dt) ++ dash :: PutUint16 (uint16 (len ch)) ++ ch
    ++ PutUint64 (uint64 ts) ++ PutUint64 (uint64 id).

Definition getDelayedMsgDBIndexKey (dt : Z) (ch : bytes) (id : Z) : bytes :=
  PutUint16 (uint16 dt) ++ dash :: PutUint16 (uint16 (len ch)) ++ ch
    ++ PutUint64 (uint64 id).

(** [decodeDelayedMsgDBKey] returns type, timestamp, id and channel.  A key
    that passes both length tests and is still too short for the two 8-byte
    fields makes the slice expressions fail at run time. *)
Definition decodeDelayedMsgDBKey (b : bytes) : result (Z * Z * Z * bytes) :=
  if len b <? 2 + 1 + 2 + 8 + 8 then Err errInvalidBufferLength
  else
    let dt := Uint (slice 0 2 b) in
    let chLen := Z.to_nat (Uint (slice 3 5 b)) in
    let pos := (5 + chLen)%nat in
    if len b <? Z.of_nat pos then Err errInvalidBufferLength
    else if len b <? Z.of_nat pos + 16 then Err errSliceBounds
    else
      let ch := slice 5 pos b in
      let ts := int64 (Uint (slice pos (pos + 8) b)) in
      let id := int64 (Uint (slice (pos + 8) (pos + 16) b)) in
      Ok (dt, ts, MessageID id, ch).

(** [decodeDelayedMsgDBIndexKey] returns type, id and channel, with the same
    two length tests. *)
Definition decodeDelayedMsgDBIndexKey (b : bytes) : result (Z * Z * bytes) :=
  if len b <? 2 + 1 + 2 + 8 then Err errInvalidBufferLength
  else
    let dt := Uint (slice 0 2 b) in
    let chLen := Z.to_nat (Uint (slice 3 5 b)) in
    let pos := (5 + chLen)%nat in
    if len b <? Z.of_nat pos then Err errInvalidBufferLength
    else if len b <? Z.of_nat pos + 8 then Err errSliceBounds
    else
      let ch := slice 5 pos b in
      let id := int64 (Uint (slice pos (pos + 8) b)) in
      Ok (dt, MessageID id, ch).

(** ** Messages *)

Record Message : Type := {
  ID : Z;
  TraceID : Z;
  Body : bytes;
  Timestamp : Z;
  DelayedType : Z;
  DelayedTs : Z;
  DelayedOrigID : Z;
  DelayedChannel : bytes
}.

Definition zeroMessage : Message :=
  {| ID := 0; TraceID := 0; Body := []; Timestamp := 0; DelayedType := 0;
     DelayedTs := 0; DelayedOrigID := 0; DelayedChannel := [] |}.

Definition setID (m : Message) (id : Z) : Message :=
  {| ID := id; TraceID := TraceID m; Body := Body m; Timestamp := Timestamp m;
     DelayedType := DelayedType m; DelayedTs := DelayedTs m;
     DelayedOrigID := DelayedOrigID m; DelayedChannel := DelayedChannel m |}.

(** The fields of a message lie in the ranges of their Go types. *)
Definition wfMessage (m : Message) : Prop :=
  is_uint64 (ID m) /\ is_uint64 (TraceID m) /\ is_int64 (Timestamp m) /\
  is_int32 (DelayedType m) /\ is_int64 (DelayedTs m) /\ is_uint64 (DelayedOrigID m).

Definition IsValidDelayedMessage (m : Message) : bool :=
  if DelayedType m =? ChannelDelayed then
    (DelayedOrigID m >? 0) && (len (DelayedChannel m) >? 0) && (DelayedTs m >? 0)
  else if DelayedType m =? PubDelayed then
    DelayedTs m >? 0
  else if DelayedType m =? TransactionDelayed then
    true
  else false.

(** The wire encoding of a delayed message ([Message.WriteDelayedTo] and
    [DecodeDelayedMessage]) is defined outside the files at hand; the engine
    is parameterised by it.  The second argument is the [isExt] flag. *)
Class Codec : Type := {
  WriteDelayedTo : Message -> bool -> bytes;
  DecodeDelayedMessage : bytes -> bool -> option Message
}.

(** What the engine relies on: decoding inverts encoding, and decoded
    fields are in range. *)
Class CodecOk (C : Codec) : Prop := {
  decode_encode : forall m ext, wfMessage m ->
    DecodeDelayedMessage (WriteDelayedTo m ext) ext = Some m;
  decode_wf : forall b ext m, DecodeDelayedMessage b ext = Some m -> wfMessage m
}.

(** ** The segmented log writer *)

Module DiskQueue.

Record diskQueueOffset : Type := { FileNum : Z; Pos : Z }.

Record diskQueueEndInfo : Type := {
  EndOffset : diskQueueOffset;
  virtualEnd : Z;
  totalMsgCnt : Z
}.

Definition Offset (e : diskQueueEndInfo) : Z := virtualEnd e.
Definition TotalMsgCnt (e : diskQueueEndInfo) : Z := totalMsgCnt e.

Definition zeroEndInfo : diskQueueEndInfo :=
  {| EndOffset := {| FileNum := 0; Pos := 0 |}; virtualEnd := 0; totalMsgCnt := 0 |}.

(** [dataFiles] records the size of each data file on disk, by file number:
    what [os.Stat] reports.  File operations themselves are taken to
    succeed; writes are accounted for as if flushed. *)
Record diskQueueWriter : Type := {
  diskWriteEnd : diskQueueEndInfo;
  diskReadEnd : diskQueueEndInfo;
  diskQueueStart : diskQueueEndInfo;
  maxBytesPerFile : Z;
  minMsgSize : Z;
  maxMsgSize : Z;
  exitFlag : Z;
  needSync : bool;
  dataFiles : list (Z * Z)
}.

Definition setEnds (d : diskQueueWriter) (we re : diskQueueEndInfo) : diskQueueWriter :=
  {| diskWriteEnd := we; diskReadEnd := re; diskQueueStart := diskQueueStart d;
     maxBytesPerFile := maxBytesPerFile d; minMsgSize := minMsgSize d;
     maxMsgSize := maxMsgSize d; exitFlag := exitFlag d; needSync := needSync d;
     dataFiles := dataFiles d |}.

Definition setNeedSync (d : diskQueueWriter) (b : bool) : diskQueueWriter :=
  {| diskWriteEnd := diskWriteEnd d; diskReadEnd := diskReadEnd d;
     diskQueueStart := diskQueueStart d;
     maxBytesPerFile := maxBytesPerFile d; minMsgSize := minMsgSize d;
     maxMsgSize := maxMsgSize d; exitFlag := exitFlag d; needSync := b;
     dataFiles := dataFiles d |}.

Definition setFiles (d : diskQueueWriter) (fs : list (Z * Z)) : diskQueueWriter :=
  {| diskWriteEnd := diskWriteEnd d; diskReadEnd := diskReadEnd d;
     diskQueueStart := diskQueueStart d;
     maxBytesPerFile := maxBytesPerFile d; minMsgSize := minMsgSize d;
     maxMsgSize := maxMsgSize d; exitFlag := exitFlag d; needSync := needSync d;
     dataFiles := fs |}.

Fixpoint fileSize (n : Z) (fs : list (Z * Z)) : option Z :=
  match fs with
  | [] => None
  | (n', sz) :: fs' => if n =? n' then Some sz else fileSize n fs'
  end.

Definition removeFile (n : Z) (fs : list (Z * Z)) : list (Z * Z) :=
  filter (fun e => negb (n =? fst e)) fs.

Definition setFileSize (n sz : Z) (fs : list (Z * Z)) : list (Z * Z) :=
  (n, sz) :: removeFile n fs.

Definition GetQueueWriteEnd (d : diskQueueWriter) : diskQueueEndInfo := diskWriteEnd d.

(** [sync]: flush, fsync, [diskReadEnd = diskWriteEnd], persist metadata. *)
Definition sync (d : diskQueueWriter) : diskQueueWriter :=
  setNeedSync (setEnds d (diskWriteEnd d) (diskWriteEnd d)) false.

(** The tail of [truncateDiskQueueToWriteEnd]: data files after the write
    file are renamed away, one number after the other, until one is missing. *)
Fixpoint renameRolled (fuel : nat) (n : Z) (fs : list (Z * Z)) : list (Z * Z) :=
  match fuel with
  | O => fs
  | S fuel' =>
      match fileSize n fs with
      | None => fs
      | Some _ => renameRolled fuel' (n + 1) (removeFile n fs)
      end
  end.

Definition truncateDiskQueueToWriteEnd (d : diskQueueWriter) : diskQueueWriter :=
  let cur := FileNum (EndOffset (diskWriteEnd d)) in
  let fs := setFileSize cur (Pos (EndOffset (diskWriteEnd d))) (dataFiles d) in
  setFiles d (renameRolled (length fs) (cur + 1) fs).

Definition withPos (e : diskQueueEndInfo) (fileNum pos : Z) : diskQueueEndInfo :=
  {| EndOffset := {| FileNum := fileNum; Pos := pos |};
     virtualEnd := virtualEnd e; totalMsgCnt := totalMsgCnt e |}.

(** The head of [writeOne]: without an open write file, the file of the
    write end is opened, and created empty when it is missing. *)
Definition openWriteFile (d : diskQueueWriter) : diskQueueWriter :=
  let cur := FileNum (EndOffset (diskWriteEnd d)) in
  match fileSize cur (dataFiles d) with
  | Some _ => d
  | None => setFiles d (setFileSize cur 0 (dataFiles d))
  end.

(** [writeOne]: returns the write offset, the bytes written and the new
    write end.  The write file is opened before the size of the record is
    looked at. *)
Definition writeOne (d : diskQueueWriter) (data : bytes) (isRaw : bool) (msgCnt : Z)
  : diskQueueWriter * result (Z * Z * diskQueueEndInfo) :=
  let d0 := openWriteFile d in
  let dataLen := int32 (len data) in
  if negb isRaw && ((dataLen <? minMsgSize d0) || (dataLen >? maxMsgSize d0)) then
    (d0, Err errInvalidWriteSize)
  else
    let we := diskWriteEnd d0 in
    let writeOffset := Offset we in
    let totalBytes := if isRaw then dataLen else int64 (dataLen + 4) in
    let cnt := if isRaw then int64 msgCnt else 1 in
    let pos' := int64 (Pos (EndOffset we) + totalBytes) in
    let we1 :=
      {| EndOffset := {| FileNum := FileNum (EndOffset we); Pos := pos' |};
         virtualEnd := int64 (virtualEnd we + totalBytes);
         totalMsgCnt := int64 (totalMsgCnt we + cnt) |} in
    let cur := FileNum (EndOffset we) in
    let grown :=
      match fileSize cur (dataFiles d0) with
      | Some sz => Z.max sz pos'
      | None => pos'
      end in
    let d1 :=
      setFiles (setEnds d0 we1 (diskReadEnd d0)) (setFileSize cur grown (dataFiles d0)) in
    let d2 :=
      if pos' >=? maxBytesPerFile d0 then
        let d' := sync d1 in
        let we2 := withPos we1 (int64 (cur + 1)) 0 in
        setEnds d' we2 we2
      else d1 in
    (d2, Ok (writeOffset, int32 totalBytes, diskWriteEnd d2)).

Definition PutV2 (d : diskQueueWriter) (data : bytes)
  : diskQueueWriter * (Z * Z * diskQueueEndInfo * option error) :=
  if exitFlag d =? 1 then (d, (0, 0, zeroEndInfo, Some errExitingNew))
  else
    match writeOne d data false 0 with
    | (d', Ok (offset, writeBytes, dend)) =>
        (setNeedSync d' true, (offset, writeBytes, dend, None))
    | (d', Err e) => (setNeedSync d' true, (0, 0, zeroEndInfo, Some e))
    end.

Definition PutRawV2 (d : diskQueueWriter) (data : bytes) (msgCnt : Z)
  : diskQueueWriter * (Z * Z * diskQueueEndInfo * option error) :=
  if exitFlag d =? 1 then (d, (0, 0, zeroEndInfo, Some errExitingNew))
  else
    match writeOne d data true msgCnt with
    | (d', Ok (offset, writeBytes, dend)) =>
        (setNeedSync d' true, (offset, writeBytes, dend, None))
    | (d', Err e) => (setNeedSync d' true, (0, 0, zeroEndInfo, Some e))
    end.

(** [RollbackWriteV2]; [diffCnt] is a [uint64], converted with [int64]. *)
Definition RollbackWriteV2 (d : diskQueueWriter) (offset diffCnt : Z)
  : diskQueueWriter * (diskQueueEndInfo * option error) :=
  if (offset <? virtualEnd (diskQueueStart d))
     || (int64 (TotalMsgCnt (diskWriteEnd d) - int64 diffCnt)
           <? TotalMsgCnt (diskQueueStart d)) then
    (d, (diskWriteEnd d, Some ErrInvalidOffset))
  else
    let d1 := if needSync d then sync d else d in
    let we := diskWriteEnd d1 in
    if offset >? Offset we then (d1, (we, Some ErrInvalidOffset))
    else if offset <? int64 (Offset we - Pos (EndOffset we)) then
      (d1, (we, Some ErrInvalidOffset))
    else
      let we' :=
        {| EndOffset :=
             {| FileNum := FileNum (EndOffset we);
                Pos := int64 (Pos (EndOffset we) - int64 (Offset we - offset)) |};
           virtualEnd := offset;
           totalMsgCnt := int64 (totalMsgCnt we + int64 (-1 * int64 diffCnt)) |} in
      let re := diskReadEnd d1 in
      let re' :=
        if (Pos (EndOffset re) >? Pos (EndOffset we')) || (Offset re >? Offset we')
        then we' else re in
      let d2 := truncateDiskQueueToWriteEnd (setEnds d1 we' re') in
      (d2, (diskWriteEnd d2, None)).

(** The file walk of [ResetWriteEndV2]: step back over whole files until
    the target offset lies in the current one. *)
Fixpoint resetWalk (fuel : nat) (fs : list (Z * Z)) (offset newEnd fileNum writePos : Z)
  : result (Z * Z * Z) :=
  if offset <? int64 (newEnd - writePos) then
    match fuel with
    | O => Err ErrInvalidOffset
    | S fuel' =>
        let newEnd' := int64 (newEnd - writePos) in
        let fileNum' := int64 (fileNum - 1) in
        if fileNum' <? 0 then Err ErrInvalidOffset
        else
          match fileSize fileNum' fs with
          | None => Err errStatFile
          | Some sz => resetWalk fuel' fs offset newEnd' fileNum' sz
          end
    end
  else Ok (newEnd, fileNum, writePos).

Definition ResetWriteEndV2 (d : diskQueueWriter) (offset totalCnt : Z)
  : diskQueueWriter * (diskQueueEndInfo * option error) :=
  if (offset <? virtualEnd (diskQueueStart d))
     || (totalCnt <? TotalMsgCnt (diskQueueStart d)) then
    (d, (diskWriteEnd d, Some ErrInvalidOffset))
  else if offset >? Offset (diskWriteEnd d) then
    (d, (diskWriteEnd d, Some ErrInvalidOffset))
  else
    let d1 := if needSync d then sync d else d in
    if offset =? 0 then
      (* closeCurrentFile, then both ends go back to the queue start *)
      let d2 := truncateDiskQueueToWriteEnd (setEnds d1 (diskQueueStart d1) (diskQueueStart d1)) in
      (d2, (diskWriteEnd d2, None))
    else
      let we := diskWriteEnd d1 in
      match resetWalk (S (Z.to_nat (FileNum (EndOffset we)))) (dataFiles d1) offset
              (Offset we) (FileNum (EndOffset we)) (Pos (EndOffset we)) with
      | Err e => (d1, (we, Some e))
      | Ok (newEnd, fileNum, writePos) =>
          let we' :=
            {| EndOffset :=
                 {| FileNum := fileNum;
                    Pos := int64 (writePos - int64 (newEnd - offset)) |};
               virtualEnd := offset;
               totalMsgCnt := totalCnt |} in
          let d2 := truncateDiskQueueToWriteEnd (setEnds d1 we' we') in
          (d2, (diskWriteEnd d2, None))
      end.

(** [Flush]. *)
Definition Flush (d : diskQueueWriter) : diskQueueWriter * option error :=
  if exitFlag d =? 1 then (d, Some errExitingNew)
  else if needSync d then (sync d, None)
  else (d, None).

(** [RollbackWrite] and [ResetWriteEnd] keep the error alone. *)
Definition RollbackWrite (d : diskQueueWriter) (offset diffCnt : Z)
  : diskQueueWriter * option error :=
  let '(d', (_, err)) := RollbackWriteV2 d offset diffCnt in (d', err).

Definition ResetWriteEnd (d : diskQueueWriter) (offset totalCnt : Z)
  : diskQueueWriter * option error :=
  let '(d', (_, err)) := ResetWriteEndV2 d offset totalCnt in (d', err).

Definition setStart (d : diskQueueWriter) (s : diskQueueEndInfo) : diskQueueWriter :=
  {| diskWriteEnd := diskWriteEnd d; diskReadEnd := diskReadEnd d;
     diskQueueStart := s;
     maxBytesPerFile := maxBytesPerFile d; minMsgSize := minMsgSize d;
     maxMsgSize := maxMsgSize d; exitFlag := exitFlag d; needSync := needSync d;
     dataFiles := dataFiles d |}.

Definition setExitFlag (d : diskQueueWriter) (f : Z) : diskQueueWriter :=
  {| diskWriteEnd := diskWriteEnd d; diskReadEnd := diskReadEnd d;
     diskQueueStart := diskQueueStart d;
     maxBytesPerFile := maxBytesPerFile d; minMsgSize := minMsgSize d;
     maxMsgSize := maxMsgSize d; exitFlag := f; needSync := needSync d;
     dataFiles := dataFiles d |}.

Definition GetQueueReadStart (d : diskQueueWriter) : diskQueueEndInfo := diskQueueStart d.
Definition GetQueueReadEnd (d : diskQueueWriter) : diskQueueEndInfo := diskReadEnd d.

(** [closeCurrentFile]: the buffer is flushed and the read end follows the
    write end. *)
Definition closeCurrentFile (d : diskQueueWriter) : diskQueueWriter :=
  setEnds d (diskWriteEnd d) (diskWriteEnd d).

Definition MAX_QUEUE_OFFSET_META_DATA_KEEP : Z := 100.

(** The data files numbered from [lo] to [hi] are removed. *)
Definition removeFiles (lo hi : Z) (fs : list (Z * Z)) : list (Z * Z) :=
  filter (fun e => negb ((lo <=? fst e) && (fst e <=? hi))) fs.

(** [cleanOldData]: the data files up to the write file are removed and the
    queue starts afresh in the next file; offset and count carry on. *)
Definition cleanOldData (d : diskQueueWriter) : diskQueueWriter :=
  let d1 := closeCurrentFile d in
  let n := int64 (FileNum (EndOffset (diskQueueStart d1)) - MAX_QUEUE_OFFSET_META_DATA_KEEP - 1) in
  let cleanStartFileNum := if n <? 0 then 0 else n in
  let cur := FileNum (EndOffset (diskWriteEnd d1)) in
  let d2 := setFiles d1 (removeFiles cleanStartFileNum cur (dataFiles d1)) in
  let we := withPos (diskWriteEnd d2) (int64 (cur + 1)) 0 in
  setStart (setEnds d2 we we) we.

(** [deleteAllFiles]; with [deleted] the metadata files go as well, which
    leaves the positions as they are. *)
Definition deleteAllFiles (d : diskQueueWriter) (deleted : bool)
  : diskQueueWriter * option error :=
  (cleanOldData d, None).

Definition Empty (d : diskQueueWriter) : diskQueueWriter * option error :=
  if exitFlag d =? 1 then (d, Some errExitingNew)
  else deleteAllFiles d false.

Definition exit (d : diskQueueWriter) (deleted : bool) : diskQueueWriter * option error :=
  let d1 := sync (setExitFlag d 1) in
  if deleted then deleteAllFiles d1 deleted else (d1, None).

Definition Close (d : diskQueueWriter) : diskQueueWriter * option error := exit d false.
Definition Delete (d : diskQueueWriter) : diskQueueWriter * option error := exit d true.

(** [ResetWriteWithQueueStart]: the log is emptied and restarts at the
    offset and count of [queueStart]. *)
Definition ResetWriteWithQueueStart (d : diskQueueWriter) (queueStart : diskQueueEndInfo)
  : diskQueueWriter * option error :=
  let d1 := cleanOldData d in
  let s :=
    {| EndOffset := EndOffset (diskWriteEnd d1);
       virtualEnd := Offset queueStart;
       totalMsgCnt := TotalMsgCnt queueStart |} in
  (setStart (setEnds d1 s s) s, None).

End DiskQueue.

(** *** Operations of the writer *)

Inductive WriterOp : Type :=
| WPutV2 (data : bytes)
| WPutRawV2 (data : bytes) (msgCnt : Z)
| WRollbackWriteV2 (offset diffCnt : Z)
| WResetWriteEndV2 (offset totalCnt : Z)
| WFlush
| WEmpty
| WResetWriteWithQueueStart (queueStart : DiskQueue.diskQueueEndInfo)
| WClose
| WDelete.

(** The writer after one operation. *)
Definition writerStep (d : DiskQueue.diskQueueWriter) (op : WriterOp)
  : DiskQueue.diskQueueWriter :=
  match op with
  | WPutV2 data => fst (DiskQueue.PutV2 d data)
  | WPutRawV2 data msgCnt => fst (DiskQueue.PutRawV2 d data msgCnt)
  | WRollbackWriteV2 offset diffCnt => fst (DiskQueue.RollbackWriteV2 d offset diffCnt)
  | WResetWriteEndV2 offset totalCnt => fst (DiskQueue.ResetWriteEndV2 d offset totalCnt)
  | WFlush => fst (DiskQueue.Flush d)
  | WEmpty => fst (DiskQueue.Empty d)
  | WResetWriteWithQueueStart queueStart =>
      fst (DiskQueue.ResetWriteWithQueueStart d queueStart)
  | WClose => fst (DiskQueue.Close d)
  | WDelete => fst (DiskQueue.Delete d)
  end.

(** ** The delay queue core *)

Record KV : Type := {
  delayed_message : Bolt.Bucket bytes;
  delayed_message_index : Bolt.Bucket bytes;
  meta : Bolt.Bucket bytes
}.

Definition emptyKV : KV :=
  {| delayed_message := []; delayed_message_index := []; meta := [] |}.

Definition withMsgs (kv : KV) (b : Bolt.Bucket bytes) : KV :=
  {| delayed_message := b; delayed_message_index := delayed_message_index kv;
     meta := meta kv |}.
Definition withIndex (kv : KV) (b : Bolt.Bucket bytes) : KV :=
  {| delayed_message := delayed_message kv; delayed_message_index := b;
     meta := meta kv |}.
Definition withMeta (kv : KV) (b : Bolt.Bucket bytes) : KV :=
  {| delayed_message := delayed_message kv;
     delayed_message_index := delayed_message_index kv; meta := b |}.

(** [DB.Update]: the transaction body works on the store; when it returns
    an error the transaction is rolled back. *)
Definition Update {A} (kv : KV) (body : KV -> KV * A * option error)
  : KV * A * option error :=
  match body kv with
  | (kv', a, None) => (kv', a, None)
  | (_, a, Some e) => (kv, a, Some e)
  end.

(** An injected id generator ([MsgIDGenerator]): some sequence of ids, and
    how far it has been consumed. *)
Record MsgIDGenerator : Type := { idSeq : nat -> Z; idPos : nat }.

Definition NextID (g : MsgIDGenerator) : Z * MsgIDGenerator :=
  (uint64 (idSeq g (idPos g)), {| idSeq := idSeq g; idPos := S (idPos g) |}).

(** The map from channel to its oldest known delivery time. *)
Definition ChannelMap : Type := Bolt.Bucket Z.

Record DelayQueue : Type := {
  backend : DiskQueue.diskQueueWriter;
  exitFlag : Z;
  msgIDCursor : option MsgIDGenerator;
  defaultIDSeq : Z;
  needFlush : Z;
  putBuffer : bytes;
  kvStore : KV;
  SyncEvery : Z;
  lastSyncCnt : Z;
  isExt : Z;
  oldestChannelDelayedTs : ChannelMap
}.

Definition withBackend (q : DelayQueue) (d : DiskQueue.diskQueueWriter) : DelayQueue :=
  {| backend := d; exitFlag := exitFlag q; msgIDCursor := msgIDCursor q;
     defaultIDSeq := defaultIDSeq q; needFlush := needFlush q;
     putBuffer := putBuffer q; kvStore := kvStore q; SyncEvery := SyncEvery q;
     lastSyncCnt := lastSyncCnt q; isExt := isExt q;
     oldestChannelDelayedTs := oldestChannelDelayedTs q |}.

Definition withIDs (q : DelayQueue) (g : option MsgIDGenerator) (s : Z) : DelayQueue :=
  {| backend := backend q; exitFlag := exitFlag q; msgIDCursor := g;
     defaultIDSeq := s; needFlush := needFlush q;
     putBuffer := putBuffer q; kvStore := kvStore q; SyncEvery := SyncEvery q;
     lastSyncCnt := lastSyncCnt q; isExt := isExt q;
     oldestChannelDelayedTs := oldestChannelDelayedTs q |}.

Definition withNeedFlush (q : DelayQueue) (f : Z) : DelayQueue :=
  {| backend := backend q; exitFlag := exitFlag q; msgIDCursor := msgIDCursor q;
     defaultIDSeq := defaultIDSeq q; needFlush := f;
     putBuffer := putBuffer q; kvStore := kvStore q; SyncEvery := SyncEvery q;
     lastSyncCnt := lastSyncCnt q; isExt := isExt q;
     oldestChannelDelayedTs := oldestChannelDelayedTs q |}.

Definition withPutBuffer (q : DelayQueue) (b : bytes) : DelayQueue :=
  {| backend := backend q; exitFlag := exitFlag q; msgIDCursor := msgIDCursor q;
     defaultIDSeq := defaultIDSeq q; needFlush := needFlush q;
     putBuffer := b; kvStore := kvStore q; SyncEvery := SyncEvery q;
     lastSyncCnt := lastSyncCnt q; isExt := isExt q;
     oldestChannelDelayedTs := oldestChannelDelayedTs q |}.

Definition withKV (q : DelayQueue) (kv : KV) : DelayQueue :=
  {| backend := backend q; exitFlag := exitFlag q; msgIDCursor := msgIDCursor q;
     defaultIDSeq := defaultIDSeq q; needFlush := needFlush q;
     putBuffer := putBuffer q; kvStore := kv; SyncEvery := SyncEvery q;
     lastSyncCnt := lastSyncCnt q; isExt := isExt q;
     oldestChannelDelayedTs := oldestChannelDelayedTs q |}.

Definition withLastSyncCnt (q : DelayQueue) (c : Z) : DelayQueue :=
  {| backend := backend q; exitFlag := exitFlag q; msgIDCursor := msgIDCursor q;
     defaultIDSeq := defaultIDSeq q; needFlush := needFlush q;
     putBuffer := putBuffer q; kvStore := kvStore q; SyncEvery := SyncEvery q;
     lastSyncCnt := c; isExt := isExt q;
     oldestChannelDelayedTs := oldestChannelDelayedTs q |}.

Definition withOldest (q : DelayQueue) (o : ChannelMap) : DelayQueue :=
  {| backend := backend q; exitFlag := exitFlag q; msgIDCursor := msgIDCursor q;
     defaultIDSeq := defaultIDSeq q; needFlush := needFlush q;
     putBuffer := putBuffer q; kvStore := kvStore q; SyncEvery := SyncEvery q;
     lastSyncCnt := lastSyncCnt q; isExt := isExt q;
     oldestChannelDelayedTs := o |}.

Definition IsExt (q : DelayQueue) : bool := isExt q =? 1.

Definition nextMsgID (q : DelayQueue) : Z * DelayQueue :=
  match msgIDCursor q with
  | Some g =>
      let '(id, g') := NextID g in
      (MessageID id, withIDs q (Some g') (defaultIDSeq q))
  | None =>
      let id := uint64 (defaultIDSeq q + 1) in
      (MessageID id, withIDs q None id)
  end.

(** The counter cell as the writers read it: absent or not 8 bytes long
    counts as zero. *)
Definition counterKey (dt : Z) (ch : bytes) : bytes :=
  counterPrefix ++ getDelayedMsgDBPrefixKey dt ch.

Definition readCounter (b : Bolt.Bucket bytes) (cntKey : bytes) : Z :=
  match Bolt.Get cntKey b with
  | Some cntBytes => if len cntBytes =? 8 then Uint cntBytes else 0
  | None => 0
  end.

(** Update a slot of a slice. *)
Fixpoint update {A} (i : nat) (x : A) (l : list A) : list A :=
  match l, i with
  | [], _ => []
  | _ :: l', O => x :: l'
  | y :: l', S i' => y :: update i' x l'
  end.

Definition isEmpty (s : bytes) : bool := match s with [] => true | _ => false end.

Section Engine.
Context {C : Codec}.

Definition deleteMsgIndex (msgData : bytes) (tx : KV) (ext : bool) : KV * option error :=
  match DecodeDelayedMessage msgData ext with
  | None => (tx, Some errDecodeMessage)
  | Some m =>
      let msgIndexKey :=
        getDelayedMsgDBIndexKey (DelayedType m) (DelayedChannel m) (DelayedOrigID m) in
      (withIndex tx (Bolt.Delete msgIndexKey (delayed_message_index tx)), None)
  end.

Definition deleteBucketKey (dt : Z) (ch : bytes) (ts id : Z) (tx : KV) (ext : bool)
  : KV * option error :=
  let msgKey := getDelayedMsgDBKey dt ch ts id in
  let oldV := Bolt.Get msgKey (delayed_message tx) in
  let tx1 := withMsgs tx (Bolt.Delete msgKey (delayed_message tx)) in
  match oldV with
  | Some old =>
      match deleteMsgIndex old tx1 ext with
      | (tx2, Some e) => (tx2, Some e)
      | (tx2, None) =>
          let cntKey := counterKey dt ch in
          let cnt := readCounter (meta tx2) cntKey in
          if cnt >? 0 then
            match Bolt.Put cntKey (PutUint64 (cnt - 1)) (meta tx2) with
            | Err e => (tx2, Some e)
            | Ok b => (withMeta tx2 b, None)
            end
          else (tx2, None)
      end
  | None => (tx1, Some errBucketKeyNotFound)
  end.

(** The store transaction of [put]. *)
Definition putTx (m : Message) (msgKey buf : bytes) (dendOffset : Z) (ext : bool)
  (tx : KV) : KV * option error :=
  let oldV := Bolt.Get msgKey (delayed_message tx) in
  let exists_ := match oldV with Some _ => true | None => false end in
  let written : KV * option error :=
    if exists_ && (match oldV with Some old => bytes_eqb old buf | None => false end)
    then (tx, None)
    else
      match Bolt.Put msgKey buf (delayed_message tx) with
      | Err e => (tx, Some e)
      | Ok b =>
          let tx1 := withMsgs tx b in
          let dropped :=
            match oldV with
            | Some old => deleteMsgIndex old tx1 ext
            | None => (tx1, None)
            end in
          match dropped with
          | (tx2, Some e) => (tx2, Some e)
          | (tx2, None) =>
              let newIndexKey :=
                getDelayedMsgDBIndexKey (DelayedType m) (DelayedChannel m)
                  (DelayedOrigID m) in
              let d := getDelayedMsgDBIndexValue (DelayedTs m) (DelayedOrigID m) in
              match Bolt.Put newIndexKey d (delayed_message_index tx2) with
              | Err e => (tx2, Some e)
              | Ok bi => (withIndex tx2 bi, None)
              end
          end
      end in
  match written with
  | (tx3, Some e) => (tx3, Some e)
  | (tx3, None) =>
      let counted : KV * option error :=
        if negb exists_ then
          let cntKey := counterKey (DelayedType m) (DelayedChannel m) in
          let cnt := readCounter (meta tx3) cntKey in
          match Bolt.Put cntKey (PutUint64 (uint64 (cnt + 1))) (meta tx3) with
          | Err e => (tx3, Some e)
          | Ok bm => (withMeta tx3 bm, None)
          end
        else (tx3, None) in
      match counted with
      | (tx4, Some e) => (tx4, Some e)
      | (tx4, None) =>
          match Bolt.Put syncedOffsetKey (Itoa dendOffset) (meta tx4) with
          | Err e => (tx4, Some e)
          | Ok bm => (withMeta tx4 bm, None)
          end
      end
  end.

Definition unitTx (r : KV * option error) : KV * unit * option error :=
  (fst r, tt, snd r).

Definition writeDelayedMessageToBackendWithCheck (msg : Message) (checkSize : Z)
  (bq : DiskQueue.diskQueueWriter) (ext : bool)
  : DiskQueue.diskQueueWriter * bytes * (Z * Z * DiskQueue.diskQueueEndInfo * option error) :=
  let buf := WriteDelayedTo msg ext in
  let wsize := len buf in
  if (checkSize >? 0) && negb (checkSize =? int64 (wsize + 4)) then
    (bq, buf, (0, 0, DiskQueue.zeroEndInfo, Some errWriteSizeMismatch))
  else
    let '(bq', r) := DiskQueue.PutV2 bq buf in (bq', buf, r).

Definition flush (q : DelayQueue) : DelayQueue * option error :=
  if needFlush q =? 1 then
    let q1 := withNeedFlush q 0 in
    let q2 := withLastSyncCnt q1
                (DiskQueue.TotalMsgCnt (DiskQueue.GetQueueWriteEnd (backend q1))) in
    let '(d, err) := DiskQueue.Flush (backend q2) in
    (withBackend q2 d, err)
  else (q, None).

(** [put], in the order of the source: the message of a raw record is
    decoded, an id is assigned when there is none, the record is appended to
    the log, the index store is updated in one transaction, then the oldest
    delivery time of the channel and the flush. *)

Definition putDecode (q : DelayQueue) (m0 : Message) (rawData : option bytes)
  : result Message :=
  match rawData with
  | Some raw =>
      if len raw <? 4 then Err errInvalidRawData
      else
        match DecodeDelayedMessage (skipn 4 raw) (IsExt q) with
        | None => Err errDecodeMessage
        | Some m => Ok m
        end
  | None => Ok m0
  end.

Definition putAssignID (q : DelayQueue) (m : Message) : Message * DelayQueue :=
  if ID m <=? 0 then
    let '(id, q') := nextMsgID q in (setID m id, q')
  else (m, q).

(** The append.  The first component of the outcome is set when the raw
    branch returns at once on a size mismatch.  In the raw branch the error
    of [PutRawV2] lands in a variable local to that branch, so the outer
    error stays nil. *)
Definition putAppend (q : DelayQueue) (m : Message) (rawData : option bytes)
  (checkSize : Z)
  : DelayQueue * bool * (Z * Z * DiskQueue.diskQueueEndInfo * option error) :=
  match rawData with
  | Some raw =>
      let q2 := withPutBuffer q (WriteDelayedTo m (IsExt q)) in
      let '(d, (offset, writeBytes, dend, err)) :=
        DiskQueue.PutRawV2 (backend q2) raw 1 in
      let q3 := withBackend q2 d in
      if (checkSize >? 0) && negb (checkSize =? writeBytes) then
        (q3, true, (0, 0, dend, err))
      else (q3, false, (offset, writeBytes, dend, None))
  | None =>
      let '(d, buf, r) :=
        writeDelayedMessageToBackendWithCheck m checkSize (backend q) (IsExt q) in
      (withBackend (withPutBuffer q buf) d, false, r)
  end.

Definition putStore (q : DelayQueue) (m : Message) (dend : DiskQueue.diskQueueEndInfo)
  : KV * option error :=
  let msgKey :=
    getDelayedMsgDBKey (DelayedType m) (DelayedChannel m) (DelayedTs m) (ID m) in
  let '(kv, _, err) :=
    Update (kvStore q)
      (fun tx => unitTx (putTx m msgKey (putBuffer q) (DiskQueue.Offset dend) (IsExt q) tx)) in
  (kv, err).

Definition putOldest (q : DelayQueue) (m : Message) : DelayQueue :=
  if DelayedType m =? ChannelDelayed then
    match Bolt.Get (DelayedChannel m) (oldestChannelDelayedTs q) with
    | Some oldest =>
        if (oldest =? 0) || (DelayedTs m <? oldest) then
          withOldest q (Bolt.insert (DelayedChannel m) (DelayedTs m)
                          (oldestChannelDelayedTs q))
        else q
    | None =>
        withOldest q (Bolt.insert (DelayedChannel m) (DelayedTs m)
                        (oldestChannelDelayedTs q))
    end
  else q.

Definition putSync (q : DelayQueue) (dend : DiskQueue.diskQueueEndInfo) : DelayQueue :=
  if (SyncEvery q =? 1)
     || (int64 (DiskQueue.TotalMsgCnt dend - lastSyncCnt q) >=? SyncEvery q)
  then fst (flush q) else q.

(** [put] returns the id, the write offset, the bytes written, the write
    end and the error. *)
Definition put (q : DelayQueue) (m0 : Message) (rawData : option bytes)
  (trace : bool) (checkSize : Z)
  : DelayQueue * (Z * Z * Z * DiskQueue.diskQueueEndInfo * option error) :=
  match putDecode q m0 rawData with
  | Err e => (q, (0, 0, 0, DiskQueue.zeroEndInfo, Some e))
  | Ok m1 =>
      let '(m, q1) := putAssignID q m1 in
      match putAppend q1 m rawData checkSize with
      | (q3, true, (offset, writeBytes, dend, err)) =>
          (q3, (0, offset, writeBytes, dend, err))
      | (q3, false, (offset, writeBytes, dend, Some e)) =>
          (withNeedFlush q3 1, (ID m, offset, writeBytes, dend, Some e))
      | (q3, false, (offset, writeBytes, dend, None)) =>
          let q4 := withNeedFlush q3 1 in
          match putStore q4 m dend with
          | (_, Some e) => (q4, (ID m, offset, writeBytes, dend, Some e))
          | (kv, None) =>
              let q5 := withKV q4 kv in
              let q6 := putOldest q5 m in
              let q7 := putSync q6 dend in
              (q7, (ID m, offset, writeBytes, dend, None))
          end
      end
  end.

Definition PutDelayMessage (q : DelayQueue) (m : Message)
  : DelayQueue * (Z * Z * Z * option DiskQueue.diskQueueEndInfo * option error) :=
  if exitFlag q =? 1 then (q, (0, 0, 0, None, Some errExitingNew))
  else if ID m >? 0 then (q, (0, 0, 0, None, Some ErrInvalidMessageID))
  else if negb (IsValidDelayedMessage m) then
    (q, (0, 0, 0, None, Some errInvalidDelayedMessage))
  else
    let '(q', (id, offset, writeBytes, dend, err)) := put q m None true 0 in
    (q', (id, offset, writeBytes, Some dend, err)).

Definition ResetBackendEndNoLock (q : DelayQueue) (vend totalCnt : Z)
  : DelayQueue * option error :=
  let old := DiskQueue.GetQueueWriteEnd (backend q) in
  if (DiskQueue.Offset old =? vend) && (DiskQueue.TotalMsgCnt old =? totalCnt) then
    (q, None)
  else
    let '(d, (_, err)) := DiskQueue.ResetWriteEndV2 (backend q) vend totalCnt in
    (withNeedFlush (withBackend q d) 1, err).

Definition RollbackNoLock (q : DelayQueue) (vend diffCnt : Z) : DelayQueue * option error :=
  let '(d, (_, err)) := DiskQueue.RollbackWriteV2 (backend q) vend diffCnt in
  (withNeedFlush (withBackend q d) 1, err).

Definition TotalMessageCnt (q : DelayQueue) : Z :=
  uint64 (DiskQueue.TotalMsgCnt (DiskQueue.GetQueueWriteEnd (backend q))).

Definition TotalDataSize (q : DelayQueue) : Z :=
  DiskQueue.Offset (DiskQueue.GetQueueWriteEnd (backend q)).

Definition PutRawDataOnReplica (q : DelayQueue) (rawData : option bytes)
  (offset checkSize msgNum : Z)
  : DelayQueue * result DiskQueue.diskQueueEndInfo :=
  if exitFlag q =? 1 then (q, Err ErrExiting)
  else
    let wend := DiskQueue.GetQueueWriteEnd (backend q) in
    if negb (DiskQueue.Offset wend =? offset) then (q, Err ErrWriteOffsetMismatch)
    else if negb (msgNum =? 1) then (q, Err errRawMessageNumber)
    else
      match put q zeroMessage rawData false checkSize with
      | (q', (_, _, _, _, Some e)) =>
          (fst (ResetBackendEndNoLock q' (DiskQueue.Offset wend) (DiskQueue.TotalMsgCnt wend)),
           Err e)
      | (q', (_, _, _, dend, None)) => (q', Ok dend)
      end.

Definition PutMessageOnReplica (q : DelayQueue) (m : Message) (offset checkSize : Z)
  : DelayQueue * result DiskQueue.diskQueueEndInfo :=
  if exitFlag q =? 1 then (q, Err ErrExiting)
  else
    let wend := DiskQueue.GetQueueWriteEnd (backend q) in
    if negb (DiskQueue.Offset wend =? offset) then (q, Err ErrWriteOffsetMismatch)
    else if negb (IsValidDelayedMessage m) then (q, Err errInvalidDelayedMessage)
    else
      match put q m None false checkSize with
      | (q', (_, _, _, _, Some e)) =>
          (fst (ResetBackendEndNoLock q' (DiskQueue.Offset wend) (DiskQueue.TotalMsgCnt wend)),
           Err e)
      | (q', (_, _, _, dend, None)) => (q', Ok dend)
      end.

Definition ConfirmedMessage (q : DelayQueue) (msg : Message) : DelayQueue * option error :=
  let '(kv, _, err) :=
    Update (kvStore q)
      (fun tx => unitTx (deleteBucketKey (DelayedType msg) (DelayedChannel msg)
                           (DelayedTs msg) (DelayedOrigID msg) tx (IsExt q))) in
  (withKV q kv, err).

Definition GetCurrentDelayedCnt (q : DelayQueue) (dt : Z) (channel : bytes) : result Z :=
  match Bolt.Get (counterKey dt channel) (meta (kvStore q)) with
  | Some cntBytes =>
      if len cntBytes <? 8 then Err errSliceBounds else Ok (Uint (slice 0 8 cntBytes))
  | None => Ok 0
  end.

(** [GetSyncedOffset]: the cell is parsed as a decimal number; a missing
    cell is the empty string. *)
Definition GetSyncedOffset (q : DelayQueue) : result Z :=
  match Bolt.Get syncedOffsetKey (meta (kvStore q)) with
  | Some v => Atoi v
  | None => Atoi []
  end.

Definition IsChannelMessageDelayed (q : DelayQueue) (msgID : Z) (ch : bytes) : bool :=
  match Bolt.Get (getDelayedMsgDBIndexKey ChannelDelayed ch msgID)
          (delayed_message_index (kvStore q)) with
  | Some _ => true
  | None => false
  end.

(** One pass of [emptyDelayedUntil]: the body of its store transaction.
    [cur] is the cursor (the entries from the current key on), [batched] the
    counter shared with the outer loop.  The pass only ever deletes the key
    under the cursor, so the keys ahead are those seen at [Seek]. *)
Fixpoint emptyUntilScan (ext : bool) (prefix : bytes) (dt peekTs id : Z) (ch : bytes)
  (cur : Bolt.Bucket bytes) (batched : Z) (tx : KV) : KV * Z * option error :=
  match cur with
  | [] => (tx, batched, None)
  | (k, _) :: next =>
      if negb (HasPrefix k prefix) then (tx, batched, None)
      else if batched >? txMaxBatch then (tx, batched, None)
      else
        match decodeDelayedMsgDBKey k with
        | Err errSliceBounds => (tx, batched, Some errSliceBounds)
        | Err _ => emptyUntilScan ext prefix dt peekTs id ch next batched tx
        | Ok (_, delayedTs, delayedID, delayedCh) =>
            if delayedTs >? peekTs then (tx, batched, None)
            else if (delayedTs =? peekTs) && (delayedID >=? id) then (tx, batched, None)
            else if negb (bytes_eqb delayedCh ch) then
              emptyUntilScan ext prefix dt peekTs id ch next batched tx
            else
              match deleteBucketKey dt ch delayedTs delayedID tx ext with
              | (tx', None) =>
                  emptyUntilScan ext prefix dt peekTs id ch next (batched + 1) tx'
              | (tx', Some e) =>
                  if error_eqb e errBucketKeyNotFound then
                    emptyUntilScan ext prefix dt peekTs id ch next (batched + 1) tx'
                  else (tx', batched, Some e)
              end
        end
  end.

Definition emptyUntilPass (ext : bool) (dt peekTs id : Z) (ch : bytes) (kv : KV)
  : KV * Z * option error :=
  let prefix := getDelayedMsgDBPrefixKey dt ch in
  Update kv (fun tx =>
    emptyUntilScan ext prefix dt peekTs id ch
      (Bolt.Seek prefix (delayed_message tx)) 0 tx).

(** The outer loop: passes are repeated until one does no work.  [fuel]
    bounds the number of passes; [None] means the bound was reached. *)
Fixpoint emptyUntilLoop (fuel : nat) (ext : bool) (dt peekTs id : Z) (ch : bytes)
  (kv : KV) : option (KV * option error) :=
  match fuel with
  | O => None
  | S fuel' =>
      match emptyUntilPass ext dt peekTs id ch kv with
      | (kv', _, Some e) => Some (kv', Some e)
      | (kv', batched, None) =>
          if batched =? 0 then Some (kv', None)
          else emptyUntilLoop fuel' ext dt peekTs id ch kv'
      end
  end.

Definition emptyDelayedUntil (fuel : nat) (q : DelayQueue) (dt peekTs id : Z) (ch : bytes)
  : option (DelayQueue * option error) :=
  match emptyUntilLoop fuel (IsExt q) dt peekTs id ch (kvStore q) with
  | None => None
  | Some (kv, Some e) => Some (withKV q kv, Some e)
  | Some (kv, None) =>
      let q1 := withKV q kv in
      if (dt =? ChannelDelayed) && negb (isEmpty ch) then
        Some (withOldest q1 (Bolt.insert ch peekTs (oldestChannelDelayedTs q1)), None)
      else Some (q1, None)
  end.

Fixpoint emptyAllScan (ext : bool) (prefix : bytes) (dt : Z) (ch : bytes)
  (cur : Bolt.Bucket bytes) (batched : Z) (tx : KV) : KV * Z * option error :=
  match cur with
  | [] => (tx, batched, None)
  | (k, _) :: next =>
      if negb (HasPrefix k prefix) then (tx, batched, None)
      else if batched >? txMaxBatch then (tx, batched, None)
      else
        match decodeDelayedMsgDBKey k with
        | Err errSliceBounds => (tx, batched, Some errSliceBounds)
        | Err _ => emptyAllScan ext prefix dt ch next batched tx
        | Ok (delayedType, delayedTs, delayedID, delayedCh) =>
            if negb (delayedType =? uint16 dt) then
              emptyAllScan ext prefix dt ch next batched tx
            else if negb (isEmpty ch) && negb (bytes_eqb delayedCh ch) then
              emptyAllScan ext prefix dt ch next batched tx
            else
              match deleteBucketKey delayedType delayedCh delayedTs delayedID tx ext with
              | (tx', None) => emptyAllScan ext prefix dt ch next (batched + 1) tx'
              | (tx', Some e) =>
                  if error_eqb e errBucketKeyNotFound then
                    emptyAllScan ext prefix dt ch next (batched + 1) tx'
                  else (tx', batched, Some e)
              end
        end
  end.

Definition emptyAllPass (ext : bool) (dt : Z) (ch : bytes) (kv : KV)
  : KV * Z * option error :=
  let prefix := getDelayedMsgDBPrefixKey dt ch in
  Update kv (fun tx =>
    emptyAllScan ext prefix dt ch (Bolt.Seek prefix (delayed_message tx)) 0 tx).

Fixpoint emptyAllLoop (fuel : nat) (ext : bool) (dt : Z) (ch : bytes) (kv : KV)
  : option (KV * option error) :=
  match fuel with
  | O => None
  | S fuel' =>
      match emptyAllPass ext dt ch kv with
      | (kv', _, Some e) => Some (kv', Some e)
      | (kv', batched, None) =>
          if batched =? 0 then Some (kv', None)
          else emptyAllLoop fuel' ext dt ch kv'
      end
  end.

(** [now] is the reading of the clock, in nanoseconds. *)
Definition emptyAllDelayedType (fuel : nat) (now : Z) (q : DelayQueue) (dt : Z) (ch : bytes)
  : option (DelayQueue * option error) :=
  match emptyAllLoop fuel (IsExt q) dt ch (kvStore q) with
  | None => None
  | Some (kv, Some e) => Some (withKV q kv, Some e)
  | Some (kv, None) =>
      let q1 := withKV q kv in
      if (dt =? ChannelDelayed) && negb (isEmpty ch) then
        Some (withOldest q1
                (Bolt.insert ch (int64 (now + 3600 * 1000000000))
                   (oldestChannelDelayedTs q1)), None)
      else Some (q1, None)
  end.

Definition EmptyDelayedType (fuel : nat) (now : Z) (q : DelayQueue) (dt : Z)
  : option (DelayQueue * option error) :=
  emptyAllDelayedType fuel now q dt [].

Definition EmptyDelayedChannel (fuel : nat) (now : Z) (q : DelayQueue) (ch : bytes)
  : option (DelayQueue * option error) :=
  if isEmpty ch then Some (q, Some errEmptyChannelName)
  else emptyAllDelayedType fuel now q ChannelDelayed ch.

(** The scan of [PeekRecentTimeoutWithFilter] under its read transaction.
    It threads [oldest], the slot index and the result slice. *)
Fixpoint peekScan (ext : bool) (prefix : bytes) (peekTs filterType : Z)
  (filterChannel : bytes) (cur : Bolt.Bucket bytes) (oldest : Z) (idx : nat)
  (results : list Message) : Z * nat * list Message * option error :=
  match cur with
  | [] => (oldest, idx, results, None)
  | (k, v) :: next =>
      if negb (HasPrefix k prefix) then (oldest, idx, results, None)
      else
        match decodeDelayedMsgDBKey k with
        | Err errSliceBounds => (oldest, idx, results, Some errSliceBounds)
        | Err _ =>
            peekScan ext prefix peekTs filterType filterChannel next oldest idx results
        | Ok (_, delayedTs, _, delayedCh) =>
            let oldest' :=
              if (oldest =? 0) && (filterType =? ChannelDelayed)
                 && negb (isEmpty filterChannel)
              then delayedTs else oldest in
            if (delayedTs >? peekTs) || (Z.of_nat idx >=? len results) then
              (oldest', idx, results, None)
            else if negb (isEmpty filterChannel) && negb (bytes_eqb delayedCh filterChannel)
            then peekScan ext prefix peekTs filterType filterChannel next oldest' idx results
            else
              match DecodeDelayedMessage v ext with
              | None =>
                  peekScan ext prefix peekTs filterType filterChannel next oldest' idx results
              | Some m =>
                  if (filterType >=? 0) && negb (filterType =? DelayedType m) then
                    peekScan ext prefix peekTs filterType filterChannel next oldest' idx
                      results
                  else
                    peekScan ext prefix peekTs filterType filterChannel next oldest'
                      (S idx) (update idx m results)
              end
        end
  end.

(** The early exit of the peek: the channel's oldest known delivery time is
    already past the deadline. *)
Definition peekIgnored (q : DelayQueue) (peekTs filterType : Z) (filterChannel : bytes)
  : bool :=
  if (filterType =? ChannelDelayed) && negb (isEmpty filterChannel) then
    match Bolt.Get filterChannel (oldestChannelDelayedTs q) with
    | Some oldest => oldest >? peekTs
    | None => false
    end
  else false.

Definition peekPrefix (filterType : Z) (filterChannel : bytes) : bytes :=
  if filterType >? 0 then getDelayedMsgDBPrefixKey filterType filterChannel else [].

(** Returns the number of slots written, the result slice and the error. *)
Definition PeekRecentTimeoutWithFilter (q : DelayQueue) (results : list Message)
  (peekTs filterType : Z) (filterChannel : bytes)
  : DelayQueue * (nat * list Message * option error) :=
  if peekIgnored q peekTs filterType filterChannel then (q, (O, results, None))
  else
    let prefix := peekPrefix filterType filterChannel in
    let '(oldest, idx, results', err) :=
      peekScan (IsExt q) prefix peekTs filterType filterChannel
        (Bolt.Seek prefix (delayed_message (kvStore q))) 0 O results in
    match err with
    | None =>
        if oldest >? 0 then
          (withOldest q (Bolt.insert filterChannel oldest (oldestChannelDelayedTs q)),
           (idx, results', None))
        else (q, (idx, results', None))
    | Some e => (q, (idx, results', Some e))
    end.

Definition PeekRecentChannelTimeout (q : DelayQueue) (now : Z) (results : list Message)
  (ch : bytes) : DelayQueue * (nat * list Message * option error) :=
  PeekRecentTimeoutWithFilter q results now ChannelDelayed ch.

Definition PeekRecentDelayedPub (q : DelayQueue) (now : Z) (results : list Message)
  : DelayQueue * (nat * list Message * option error) :=
  PeekRecentTimeoutWithFilter q results now PubDelayed [].

(** [now] is the reading of the clock, in nanoseconds. *)
Definition PeekAll (q : DelayQueue) (now : Z) (results : list Message)
  : DelayQueue * (nat * list Message * option error) :=
  PeekRecentTimeoutWithFilter q results
    (int64 (now + 24 * 365 * 3600 * 1000000000)) (-1) [].

(** [GetOldestConsumedState].  The scan for one prefix stops at the first
    key under the prefix whose channel is [origCh]. *)
Fixpoint oldestScan (prefix origCh : bytes) (cur : Bolt.Bucket bytes)
  : result (option bytes) :=
  match cur with
  | [] => Ok None
  | (k, _) :: next =>
      if negb (HasPrefix k prefix) then Ok None
      else
        match decodeDelayedMsgDBKey k with
        | Err errSliceBounds => Err errSliceBounds
        | Err _ => oldestScan prefix origCh next
        | Ok (_, _, _, delayedCh) =>
            if negb (bytes_eqb delayedCh origCh) then oldestScan prefix origCh next
            else Ok (Some k)
        end
  end.

(** The delayed types from [lo] up to [lo + n - 1]. *)
Fixpoint typesFrom (lo : Z) (n : nat) : list Z :=
  match n with
  | O => []
  | S n' => lo :: typesFrom (lo + 1) n'
  end.

(** The types other than [ChannelDelayed], in the order of the loop. *)
Definition otherTypes : list Z :=
  filter (fun t => negb (t =? ChannelDelayed))
    (typesFrom MinDelayedType (Z.to_nat (MaxDelayedType - MinDelayedType))).

(** [cntList]: the counter of each of the other types, under the empty
    channel. *)
Fixpoint otherCounts (q : DelayQueue) (types : list Z) : result (list (Z * Z)) :=
  match types with
  | [] => Ok []
  | t :: rest =>
      match GetCurrentDelayedCnt q t [] with
      | Err e => Err e
      | Ok cnt =>
          match otherCounts q rest with
          | Err e => Err e
          | Ok l => Ok ((t, cnt) :: l)
          end
      end
  end.

(** [channelCntList]: a map from channel to counter, filled in the order of
    [chList]. *)
Fixpoint channelCounts (q : DelayQueue) (chList : list bytes) (acc : ChannelMap)
  : result ChannelMap :=
  match chList with
  | [] => Ok acc
  | ch :: rest =>
      match GetCurrentDelayedCnt q ChannelDelayed ch with
      | Err e => Err e
      | Ok cnt => channelCounts q rest (Bolt.insert ch cnt acc)
      end
  end.

(** [keyList]: for each prefix, with the channel it stands for, the first
    key the scan finds. *)
Fixpoint oldestKeys (b : Bolt.Bucket bytes) (prefixList : list (bytes * bytes))
  : result (list bytes) :=
  match prefixList with
  | [] => Ok []
  | (prefix, origCh) :: rest =>
      match oldestScan prefix origCh (Bolt.Seek prefix b) with
      | Err e => Err e
      | Ok found =>
          match oldestKeys b rest with
          | Err e => Err e
          | Ok ks => Ok (match found with Some k => k :: ks | None => ks end)
          end
      end
  end.

(** Returns the key list, the counters of the other types and the counters
    of the channels.  Where the source returns three nils on an error, or
    stops on a slice out of range, the error is returned. *)
Definition GetOldestConsumedState (q : DelayQueue) (chList : list bytes)
  (includeOthers : bool) : result (list bytes * list (Z * Z) * ChannelMap) :=
  let others := if includeOthers then otherTypes else [] in
  match otherCounts q others with
  | Err e => Err e
  | Ok cntList =>
      match channelCounts q chList [] with
      | Err e => Err e
      | Ok channelCntList =>
          let prefixList :=
            map (fun t => (getDelayedMsgDBPrefixKey t [], [])) others
            ++ map (fun ch => (getDelayedMsgDBPrefixKey ChannelDelayed ch, ch)) chList in
          match oldestKeys (delayed_message (kvStore q)) prefixList with
          | Err e => Err e
          | Ok keyList => Ok (keyList, cntList, channelCntList)
          end
      end
  end.

(** *** Sequences of operations *)

Inductive Op : Type :=
| OpPutDelayMessage (m : Message)
| OpPutRawDataOnReplica (rawData : option bytes) (offset checkSize msgNum : Z)
| OpPutMessageOnReplica (m : Message) (offset checkSize : Z)
| OpConfirmedMessage (msg : Message)
| OpEmptyDelayedUntil (dt peekTs id : Z) (ch : bytes)
| OpEmptyAllDelayedType (now dt : Z) (ch : bytes).

Definition errOf {A} (r : result A) : option error :=
  match r with Ok _ => None | Err e => Some e end.

(** The passes of an empty operation are bounded by the number of stored
    keys plus one. *)
Definition passBound (q : DelayQueue) : nat := S (length (delayed_message (kvStore q))).

(** [UpdateConsumedState].  The calls it makes drop the error they return;
    a slice out of range inside one of them stops the run.  [None]: a pass
    bound was reached. *)
Definition afterEmpty (r : option (DelayQueue * option error))
  (next : DelayQueue -> option (result DelayQueue)) : option (result DelayQueue) :=
  match r with
  | None => None
  | Some (_, Some errSliceBounds) => Some (Err errSliceBounds)
  | Some (q', _) => next q'
  end.

(** The loop over the key list. *)
Fixpoint updateKeys (q : DelayQueue) (keyList : list bytes) : option (result DelayQueue) :=
  match keyList with
  | [] => Some (Ok q)
  | k :: rest =>
      match decodeDelayedMsgDBKey k with
      | Err errSliceBounds => Some (Err errSliceBounds)
      | Err _ => updateKeys q rest
      | Ok (dt, dts, id, delayedCh) =>
          afterEmpty (emptyDelayedUntil (passBound q) q dt dts id delayedCh)
            (fun q' => updateKeys q' rest)
      end
  end.

(** The loops over the two maps.  A map comes as the list of its entries in
    the order the loop visits them, each with the reading of the clock at
    its turn. *)
Fixpoint updateTypes (q : DelayQueue) (cntList : list (Z * Z * Z))
  : option (result DelayQueue) :=
  match cntList with
  | [] => Some (Ok q)
  | (dt, cnt, now) :: rest =>
      if (cnt =? 0) && negb (dt =? ChannelDelayed) then
        afterEmpty (EmptyDelayedType (passBound q) now q dt)
          (fun q' => updateTypes q' rest)
      else updateTypes q rest
  end.

Fixpoint updateChannels (q : DelayQueue) (channelCntList : list (bytes * Z * Z))
  : option (result DelayQueue) :=
  match channelCntList with
  | [] => Some (Ok q)
  | (ch, cnt, now) :: rest =>
      if cnt =? 0 then
        afterEmpty (EmptyDelayedChannel (passBound q) now q ch)
          (fun q' => updateChannels q' rest)
      else updateChannels q rest
  end.

Definition UpdateConsumedState (q : DelayQueue) (keyList : list bytes)
  (cntList : list (Z * Z * Z)) (channelCntList : list (bytes * Z * Z))
  : option (result DelayQueue) :=
  match updateKeys q keyList with
  | Some (Ok q1) =>
      match updateTypes q1 cntList with
      | Some (Ok q2) => updateChannels q2 channelCntList
      | r => r
      end
  | r => r
  end.

(** One operation: the engine afterwards and the error returned. *)
Definition step (q : DelayQueue) (op : Op) : option (DelayQueue * option error) :=
  match op with
  | OpPutDelayMessage m =>
      let '(q', (_, _, _, _, err)) := PutDelayMessage q m in Some (q', err)
  | OpPutRawDataOnReplica rawData offset checkSize msgNum =>
      let '(q', r) := PutRawDataOnReplica q rawData offset checkSize msgNum in
      Some (q', errOf r)
  | OpPutMessageOnReplica m offset checkSize =>
      let '(q', r) := PutMessageOnReplica q m offset checkSize in Some (q', errOf r)
  | OpConfirmedMessage msg => Some (ConfirmedMessage q msg)
  | OpEmptyDelayedUntil dt peekTs id ch =>
      emptyDelayedUntil (passBound q) q dt peekTs id ch
  | OpEmptyAllDelayedType now dt ch =>
      emptyAllDelayedType (passBound q) now q dt ch
  end.

(** A sequence of operations each of which succeeds. *)
Fixpoint runOps (q : DelayQueue) (ops : list Op) : option DelayQueue :=
  match ops with
  | [] => Some q
  | op :: ops' =>
      match step q op with
      | Some (q', None) => runOps q' ops'
      | _ => None
      end
  end.

(** The same, with a check on the engine after every operation. *)
Fixpoint runOpsWhile (P : DelayQueue -> bool) (q : DelayQueue) (ops : list Op)
  : option DelayQueue :=
  match ops with
  | [] => Some q
  | op :: ops' =>
      match step q op with
      | Some (q', None) => if P q' then runOpsWhile P q' ops' else None
      | _ => None
      end
  end.

End Engine.

(** A freshly created engine: the three buckets exist and are empty. *)
Definition newDelayQueue (d : DiskQueue.diskQueueWriter) (idGen : option MsgIDGenerator)
  (ext : bool) : DelayQueue :=
  {| backend := d; exitFlag := 0; msgIDCursor := idGen; defaultIDSeq := 0;
     needFlush := 0; putBuffer := []; kvStore := emptyKV; SyncEvery := 0;
     lastSyncCnt := 0; isExt := if ext then 1 else 0;
     oldestChannelDelayedTs := [] |}.

(** ** A plain wire format, to run the engine on examples

    Fixed-width big-endian fields, the channel with a marker byte before
    each of its bytes and a closing zero, then the body. *)

Module PlainCodec.

Fixpoint putStr (s : bytes) : bytes :=
  match s with
  | [] => [x00]
  | c :: s' => x01 :: c :: putStr s'
  end.

Fixpoint getStr (b : bytes) : option (bytes * bytes) :=
  match b with
  | [] => None
  | h :: t =>
      if Byte.eqb h x00 then Some ([], t)
      else
        match t with
        | [] => None
        | c :: rest =>
            match getStr rest with
            | Some (s, r) => Some (c :: s, r)
            | None => None
            end
        end
  end.

Definition getUint (n : nat) (b : bytes) : option (Z * bytes) :=
  if (length b <? n)%nat then None else Some (Uint (firstn n b), skipn n b).

Definition encode (m : Message) (ext : bool) : bytes :=
  PutUint64 (ID m) ++ PutUint64 (TraceID m) ++ PutUint64 (uint64 (Timestamp m))
    ++ PutUint 4 (DelayedType m) ++ PutUint64 (uint64 (DelayedTs m))
    ++ PutUint64 (DelayedOrigID m) ++ putStr (DelayedChannel m) ++ Body m.

Definition decode (b : bytes) (ext : bool) : option Message :=
  match getUint 8 b with
  | None => None
  | Some (id, b1) =>
  match getUint 8 b1 with
  | None => None
  | Some (trace, b2) =>
  match getUint 8 b2 with
  | None => None
  | Some (stamp, b3) =>
  match getUint 4 b3 with
  | None => None
  | Some (dt, b4) =>
  match getUint 8 b4 with
  | None => None
  | Some (ts, b5) =>
  match getUint 8 b5 with
  | None => None
  | Some (orig, b6) =>
  match getStr b6 with
  | None => None
  | Some (ch, body) =>
      Some {| ID := id; TraceID := trace; Body := body; Timestamp := int64 stamp;
              DelayedType := int32 dt; DelayedTs := int64 ts;
              DelayedOrigID := orig; DelayedChannel := ch |}
  end end end end end end end.

#[export] Instance codec : Codec :=
  {| WriteDelayedTo := encode; DecodeDelayedMessage := decode |}.

End PlainCodec.

(** * The vocabulary of the statements

    Predicates on stores and messages in which the properties of the engine
    are stated, each built from the functions above. *)

(** [k] lies before every key of [b]. *)
Definition below {V} (k : bytes) (b : Bolt.Bucket V) : Prop :=
  Forall (fun e => bytes_lt k (fst e)) b.

(** Counting the keys that satisfy a test. *)
Definition countKeys {V} (f : bytes -> bool) (b : Bolt.Bucket V) : nat :=
  length (filter f (Bolt.keys b)).

(** The messages [IsValidDelayedMessage] turns away. *)
Definition invalidDelayed (m : Message) : Prop :=
  (DelayedType m = ChannelDelayed /\
     (DelayedOrigID m <= 0 \/ DelayedChannel m = [] \/ DelayedTs m <= 0))
  \/ (DelayedType m = PubDelayed /\ DelayedTs m <= 0)
  \/ (DelayedType m <> ChannelDelayed /\ DelayedType m <> PubDelayed
      /\ DelayedType m <> TransactionDelayed).

(** The errors a store transaction can end with. *)
Definition storeError (e : error) : Prop :=
  e = errDecodeMessage \/ e = ErrKeyRequired \/ e = ErrKeyTooLarge \/ e = ErrValueTooLarge.

(** The errors of the append to the log. *)
Definition appendError (e : error) : Prop :=
  e = errExitingNew \/ e = errInvalidWriteSize \/ e = errWriteSizeMismatch.

(** Fields that the phases of [put] leave alone. *)
Definition sameStore (q q' : DelayQueue) : Prop :=
  kvStore q' = kvStore q /\ isExt q' = isExt q /\ exitFlag q' = exitFlag q.

(** The key, the index key and the index row of a message. *)
Definition msgKeyOf (m : Message) : bytes :=
  getDelayedMsgDBKey (DelayedType m) (DelayedChannel m) (DelayedTs m) (ID m).

Definition indexKeyOf (m : Message) : bytes :=
  getDelayedMsgDBIndexKey (DelayedType m) (DelayedChannel m) (DelayedOrigID m).

Definition indexValueOf (m : Message) : bytes :=
  getDelayedMsgDBIndexValue (DelayedTs m) (DelayedOrigID m).

(** Number of stored keys under the prefix of [(dt, ch)]. *)
Definition keyCount (kv : KV) (dt : Z) (ch : bytes) : Z :=
  Z.of_nat (countKeys (fun k => HasPrefix k (getDelayedMsgDBPrefixKey dt ch))
              (delayed_message kv)).

(** The positions and counts of a writer are non-negative [int64] values. *)
Definition wfEnd (e : DiskQueue.diskQueueEndInfo) : Prop :=
  0 <= DiskQueue.Pos (DiskQueue.EndOffset e) < 2 ^ 63
  /\ 0 <= DiskQueue.virtualEnd e < 2 ^ 63
  /\ 0 <= DiskQueue.totalMsgCnt e < 2 ^ 63.

Definition wfWriter (d : DiskQueue.diskQueueWriter) : Prop :=
  wfEnd (DiskQueue.diskWriteEnd d) /\ wfEnd (DiskQueue.diskQueueStart d).

(** An append of [n] bytes keeps the position, the offset, the count and
    the file number of the write end within [int64]. *)
Definition roomFor (d : DiskQueue.diskQueueWriter) (n : Z) : Prop :=
  let we := DiskQueue.diskWriteEnd d in
  DiskQueue.Pos (DiskQueue.EndOffset we) + n < 2 ^ 63
  /\ DiskQueue.virtualEnd we + n < 2 ^ 63
  /\ DiskQueue.totalMsgCnt we + 1 < 2 ^ 63
  /\ 0 <= DiskQueue.FileNum (DiskQueue.EndOffset we)
  /\ DiskQueue.FileNum (DiskQueue.EndOffset we) + 1 < 2 ^ 63.

(** The virtual offsets of the queue start, the read end and the write end
    are in this order. *)
Definition endsOrdered (d : DiskQueue.diskQueueWriter) : Prop :=
  DiskQueue.virtualEnd (DiskQueue.diskQueueStart d)
    <= DiskQueue.virtualEnd (DiskQueue.diskReadEnd d)
  /\ DiskQueue.virtualEnd (DiskQueue.diskReadEnd d)
    <= DiskQueue.virtualEnd (DiskQueue.diskWriteEnd d).

(** The types and channels [GetOldestConsumedState] looks at. *)
Definition consumedTargets (chList : list bytes) (includeOthers : bool)
  : list (Z * bytes) :=
  (if includeOthers then [(PubDelayed, []); (TransactionDelayed, [])] else [])
  ++ map (fun ch => (ChannelDelayed, ch)) chList.

(** An append does not take the virtual offset past [int64]. *)
Definition opFits (d : DiskQueue.diskQueueWriter) (op : WriterOp) : Prop :=
  match op with
  | WPutV2 data =>
      len data + 4 < 2 ^ 31
      /\ DiskQueue.virtualEnd (DiskQueue.diskWriteEnd d) + len data + 4 < 2 ^ 63
  | WPutRawV2 data _ =>
      len data < 2 ^ 31
      /\ DiskQueue.virtualEnd (DiskQueue.diskWriteEnd d) + len data < 2 ^ 63
  | _ => True
  end.

(** The stored delivery times under the prefix of [(dt, ch)] are not
    negative. *)
Definition tsNonneg (dt : Z) (ch : bytes) (kv : KV) : Prop :=
  forall k v t ts i c,
    Bolt.Get k (delayed_message kv) = Some v ->
    HasPrefix k (getDelayedMsgDBPrefixKey dt ch) = true ->
    decodeDelayedMsgDBKey k = Ok (t, ts, i, c) -> 0 <= ts.

(** The least stored key under the prefix of some type and channel whose
    stored delivery times are not negative. *)
Definition leastKey (kv : KV) (k : bytes) : Prop :=
  exists dt ch v,
    Bolt.Get k (delayed_message kv) = Some v
    /\ HasPrefix k (getDelayedMsgDBPrefixKey dt ch) = true
    /\ tsNonneg dt ch kv
    /\ forall k' v', Bolt.Get k' (delayed_message kv) = Some v' ->
                     HasPrefix k' (getDelayedMsgDBPrefixKey dt ch) = true ->
                     bytes_compare k k' <> Gt.

(** A test that implies it: no stored key decodes to a negative delivery
    time. *)
Definition noNegativeTs (kv : KV) : bool :=
  forallb (fun e => match decodeDelayedMsgDBKey (fst e) with
                    | Ok (_, ts, _, _) => 0 <=? ts
                    | Err _ => true
                    end) (delayed_message kv).

(** The cursor of a pass: ascending entries whose keys are all still stored. *)
Definition ahead (cur : Bolt.Bucket bytes) (tx : KV) : Prop :=
  Bolt.sorted cur /\
  forall k v, In (k, v) cur -> exists v', Bolt.Get k (delayed_message tx) = Some v'.

(** The messages handed to the engine have fields in the ranges of their
    Go types. *)
Definition wfOp (op : Op) : Prop :=
  match op with
  | OpPutDelayMessage m => wfMessage m
  | OpPutMessageOnReplica m _ _ => wfMessage m
  | _ => True
  end.

(** No byte string occurs twice. *)
Fixpoint distinct (l : list bytes) : bool :=
  match l with
  | [] => true
  | x :: l' => negb (existsb (bytes_eqb x) l') && distinct l'
  end.

(** The order of two keys: type, channel length, channel bytes, delivery
    time and id, the numbers compared as unsigned. *)
Definition keyOrder (dt : Z) (ch : bytes) (ts id : Z) (dt' : Z) (ch' : bytes) (ts' id' : Z)
  : comparison :=
  match uint16 dt ?= uint16 dt' with
  | Eq =>
      match len ch ?= len ch' with
      | Eq =>
          match bytes_compare ch ch' with
          | Eq =>
              match uint64 ts ?= uint64 ts' with
              | Eq => uint64 id ?= uint64 id'
              | r => r
              end
          | r => r
          end
      | r => r
      end
  | r => r
  end.

(** The keys a pass of [emptyDelayedUntil] may delete: under the prefix, of
    the channel, and before [(peekTs, id)]. *)
Definition dueKey (dt peekTs id : Z) (ch : bytes) (k : bytes) : bool :=
  HasPrefix k (getDelayedMsgDBPrefixKey dt ch) &&
  match decodeDelayedMsgDBKey k with
  | Ok (_, delayedTs, delayedID, delayedCh) =>
      ((delayedTs <? peekTs) || ((delayedTs =? peekTs) && (delayedID <? id)))
      && bytes_eqb delayedCh ch
  | Err _ => false
  end.

(** The number of such keys at the front of a cursor. *)
Fixpoint leadingDue (dt peekTs id : Z) (ch : bytes) (cur : Bolt.Bucket bytes) : Z :=
  match cur with
  | [] => 0
  | (k, _) :: next =>
      if dueKey dt peekTs id ch k then 1 + leadingDue dt peekTs id ch next else 0
  end.

Section Predicates.
Context {C : Codec}.

(** Every stored entry is the record of a message under that message's key. *)
Definition entriesOk (ext : bool) (kv : KV) : Prop :=
  forall k v, Bolt.Get k (delayed_message kv) = Some v ->
    exists m, DecodeDelayedMessage v ext = Some m /\ k = msgKeyOf m
              /\ len k <= Bolt.MaxKeySize.

(** The three buckets are ascending and the entries are records. *)
Definition storeWf (ext : bool) (kv : KV) : Prop :=
  Bolt.sorted (delayed_message kv) /\ Bolt.sorted (delayed_message_index kv)
  /\ Bolt.sorted (meta kv) /\ entriesOk ext kv.

(** Every counter cell holds the number of keys under its prefix. *)
Definition countersOk (kv : KV) : Prop :=
  forall dt ch,
    readCounter (meta kv) (counterKey dt ch) = keyCount kv dt ch
    /\ (forall cb, Bolt.Get (counterKey dt ch) (meta kv) = Some cb -> len cb = 8).

(** The invariant of the counters; [n] bounds the number of keys. *)
Definition storeOk (ext : bool) (n : nat) (kv : KV) : Prop :=
  storeWf ext kv /\ countersOk kv /\ (length (delayed_message kv) <= n)%nat.

(** Every row of the index belongs to a stored key: same type and channel,
    and the row records the delivery time and original id of that key's
    message. *)
Definition rowsMatched (ext : bool) (kv : KV) : Prop :=
  forall ik iv, Bolt.Get ik (delayed_message_index kv) = Some iv ->
    exists k v m,
      Bolt.Get k (delayed_message kv) = Some v /\ DecodeDelayedMessage v ext = Some m
      /\ ik = indexKeyOf m /\ iv = indexValueOf m.

(** Every stored key has its row. *)
Definition keysMatched (ext : bool) (kv : KV) : Prop :=
  forall k v m,
    Bolt.Get k (delayed_message kv) = Some v -> DecodeDelayedMessage v ext = Some m ->
    Bolt.Get (indexKeyOf m) (delayed_message_index kv) = Some (indexValueOf m).

(** No two stored keys carry the same (type, channel, original id). *)
Definition uniqueOrig (ext : bool) (kv : KV) : Prop :=
  forall k1 v1 m1 k2 v2 m2,
    Bolt.Get k1 (delayed_message kv) = Some v1 -> DecodeDelayedMessage v1 ext = Some m1 ->
    Bolt.Get k2 (delayed_message kv) = Some v2 -> DecodeDelayedMessage v2 ext = Some m2 ->
    indexKeyOf m1 = indexKeyOf m2 -> k1 = k2.

(** The same as a test. *)
Definition indexKeysOf (ext : bool) (b : Bolt.Bucket bytes) : list bytes :=
  flat_map (fun e => match DecodeDelayedMessage (snd e) ext with
                     | Some m => [indexKeyOf m]
                     | None => []
                     end) b.

Definition distinctOrig (ext : bool) (kv : KV) : bool :=
  distinct (indexKeysOf ext (delayed_message kv)).

Definition distinctOrigQ (q : DelayQueue) : bool := distinctOrig (IsExt q) (kvStore q).

(** Every stored key is the key of its message and has that message's row. *)
Definition everyKeyHasRow (ext : bool) (kv : KV) : Prop :=
  forall k v, Bolt.Get k (delayed_message kv) = Some v ->
    exists m, DecodeDelayedMessage v ext = Some m /\ k = msgKeyOf m
      /\ Bolt.Get (indexKeyOf m) (delayed_message_index kv) = Some (indexValueOf m).

(** The invariants of the index: the rows alone, and rows and keys paired. *)
Definition rowsInv (ext : bool) (kv : KV) : Prop :=
  storeWf ext kv /\ rowsMatched ext kv.

Definition pairedInv (ext : bool) (kv : KV) : Prop :=
  storeWf ext kv /\ rowsMatched ext kv /\ keysMatched ext kv /\ uniqueOrig ext kv.

(** A message returned by a peek, with the stored key it was read from. *)
Definition peeked (ext : bool) (kv : KV) (peekTs filterType : Z) (filterChannel : bytes)
  (k : bytes) (m : Message) : Prop :=
  exists v t ts id ch,
    Bolt.Get k (delayed_message kv) = Some v
    /\ DecodeDelayedMessage v ext = Some m
    /\ decodeDelayedMsgDBKey k = Ok (t, ts, id, ch)
    /\ ts <= peekTs
    /\ HasPrefix k (peekPrefix filterType filterChannel) = true
    /\ (filterChannel <> [] -> ch = filterChannel)
    /\ (0 <= filterType -> DelayedType m = filterType).

(** The engine [q'] has the format flag of [q], a well-formed store, and
    holds under each key what the store [kv0] holds. *)
Definition sameMessages (kv0 : KV) (q q' : DelayQueue) : Prop :=
  IsExt q' = IsExt q /\ storeWf (IsExt q) (kvStore q')
  /\ forall k, Bolt.Get k (delayed_message (kvStore q')) = Bolt.Get k (delayed_message kv0).

End Predicates.

(** * Example engines and messages

    Concrete inputs on which the statements are run, with the plain wire
    format. *)

Definition exampleWriter (offset : Z) : DiskQueue.diskQueueWriter :=
  {| DiskQueue.diskWriteEnd :=
       {| DiskQueue.EndOffset := {| DiskQueue.FileNum := 0; DiskQueue.Pos := offset |};
          DiskQueue.virtualEnd := offset; DiskQueue.totalMsgCnt := 5 |};
     DiskQueue.diskReadEnd :=
       {| DiskQueue.EndOffset := {| DiskQueue.FileNum := 0; DiskQueue.Pos := offset |};
          DiskQueue.virtualEnd := offset; DiskQueue.totalMsgCnt := 5 |};
     DiskQueue.diskQueueStart := DiskQueue.zeroEndInfo;
     DiskQueue.maxBytesPerFile := 1024; DiskQueue.minMsgSize := 0;
     DiskQueue.maxMsgSize := 1000; DiskQueue.exitFlag := 0;
     DiskQueue.needSync := false; DiskQueue.dataFiles := [(0, offset)] |}.

(** A fresh engine. *)
Definition exampleQueue : DelayQueue := newDelayQueue (exampleWriter 0) None false.

(** A follower whose log ends at offset 100. *)
Definition follower : DelayQueue := newDelayQueue (exampleWriter 100) None false.

(** The same engine once it has been told to exit. *)
Definition exitingQueue : DelayQueue :=
  {| backend := exampleWriter 100; exitFlag := 1; msgIDCursor := None; defaultIDSeq := 0;
     needFlush := 0; putBuffer := []; kvStore := emptyKV; SyncEvery := 0;
     lastSyncCnt := 0; isExt := 0; oldestChannelDelayedTs := [] |}.

(** An engine whose injected generator hands out the id 3. *)
Definition generatorQueue : DelayQueue :=
  newDelayQueue (exampleWriter 0) (Some {| idSeq := fun _ => 3; idPos := 0 |}) false.

(** An engine whose injected generator hands out the id 0. *)
Definition zeroGenQueue : DelayQueue :=
  newDelayQueue (exampleWriter 0) (Some {| idSeq := fun _ => 0; idPos := 0 |}) false.

Definition channelMessage (id ts orig : Z) (ch body : bytes) : Message :=
  {| ID := id; TraceID := 0; Body := body; Timestamp := 0;
     DelayedType := ChannelDelayed; DelayedTs := ts; DelayedOrigID := orig;
     DelayedChannel := ch |}.

Definition chanC : bytes := ["c"%byte].

Definition offsetOf (q : DelayQueue) : Z :=
  DiskQueue.Offset (DiskQueue.GetQueueWriteEnd (backend q)).

Definition orElse (r : option DelayQueue) (q : DelayQueue) : DelayQueue :=
  match r with Some q' => q' | None => q end.

(** Two puts on channel "c" with different original ids. *)
Definition twoPuts : list Op :=
  [OpPutDelayMessage (channelMessage 0 100 5 chanC []);
   OpPutDelayMessage (channelMessage 0 200 6 chanC [])].

Definition afterTwoPuts : DelayQueue :=
  orElse (runOps (C := PlainCodec.codec) exampleQueue twoPuts) exampleQueue.

(** Two puts sharing the original id 5, then the earlier one is emptied. *)
Definition sharedOrigOps : list Op :=
  [OpPutDelayMessage (channelMessage 0 100 5 chanC []);
   OpPutDelayMessage (channelMessage 0 200 5 chanC []);
   OpEmptyDelayedUntil ChannelDelayed 150 0 chanC].

Definition afterSharedOrig : DelayQueue :=
  orElse (runOps (C := PlainCodec.codec) exampleQueue sharedOrigOps) exampleQueue.

(** The three messages of the peek scenario, put as a replica receives them. *)
Definition msgOne : Message := channelMessage 1 200 7 chanC [].
Definition msgTwo : Message := channelMessage 2 100 8 chanC [].
Definition msgThree : Message := channelMessage 0 200 9 chanC [].

Definition putThree (q : DelayQueue) : DelayQueue :=
  let q1 := fst (PutMessageOnReplica (C := PlainCodec.codec) q msgOne (offsetOf q) 0) in
  let q2 := fst (PutMessageOnReplica (C := PlainCodec.codec) q1 msgTwo (offsetOf q1) 0) in
  fst (PutMessageOnReplica (C := PlainCodec.codec) q2 msgThree (offsetOf q2) 0).

(** The errors of the three puts. *)
Definition putThreeErrors (q : DelayQueue) : list (option error) :=
  let r1 := PutMessageOnReplica (C := PlainCodec.codec) q msgOne (offsetOf q) 0 in
  let r2 := PutMessageOnReplica (C := PlainCodec.codec) (fst r1) msgTwo (offsetOf (fst r1)) 0 in
  let r3 := PutMessageOnReplica (C := PlainCodec.codec) (fst r2) msgThree (offsetOf (fst r2)) 0 in
  [errOf (snd r1); errOf (snd r2); errOf (snd r3)].

Definition threeSlots : list Message := [zeroMessage; zeroMessage; zeroMessage].

(** A put on the fresh engine, and the same message with the assigned id 1
    in the place of its original id. *)
Definition firstMsg : Message := channelMessage 0 100 5 chanC [].
Definition firstSwapped : Message := channelMessage 0 100 1 chanC [].
Definition afterFirstPut : DelayQueue :=
  fst (PutDelayMessage (C := PlainCodec.codec) exampleQueue firstMsg).

(** A third put after [twoPuts]; the engine assigns it the id 3. *)
Definition thirdMsg : Message := channelMessage 0 300 7 chanC [].
Definition thirdSwapped : Message := channelMessage 0 300 3 chanC [].
Definition thirdPut :
  DelayQueue * (Z * Z * Z * option DiskQueue.diskQueueEndInfo * option error) :=
  PutDelayMessage (C := PlainCodec.codec) afterTwoPuts thirdMsg.

(** The [i]-th of a run of messages on channel c, all due at time 100. *)
Definition bulkMessage (i : nat) : Message :=
  channelMessage (Z.of_nat i) 100 (Z.of_nat i) chanC [].

(** The puts of the first [n] of them. *)
Definition bulkPuts (n : nat) : list Op :=
  map (fun i => OpPutDelayMessage (channelMessage 0 100 (Z.of_nat i) chanC [])) (seq 1 n).

Section Bulk.
Context {C : Codec}.

Definition bulkEntry (ext : bool) (i : nat) : bytes * bytes :=
  (msgKeyOf (bulkMessage i), WriteDelayedTo (bulkMessage i) ext).

Definition bulkRow (i : nat) : bytes * bytes :=
  (indexKeyOf (bulkMessage i), indexValueOf (bulkMessage i)).

(** The store that holds the messages 1 to [n], with their index rows and
    their counter: what [bulkPuts n] builds on a fresh engine. *)
Definition bulkStore (ext : bool) (n : nat) : KV :=
  {| delayed_message := map (bulkEntry ext) (seq 1 n);
     delayed_message_index := map bulkRow (seq 1 n);
     meta := [(counterKey ChannelDelayed chanC, PutUint64 (Z.of_nat n))] |}.

End Bulk.

(** Two more messages than a batch may hold. *)
Definition overBatch : nat := Z.to_nat (txMaxBatch + 2).

(** A record of three bytes, its append to the writer whose log ends at
    offset 100, and to the one whose write file is nearly full. *)
Definition exampleRecord : bytes := [x01; x02; x03].

Definition examplePut
  : DiskQueue.diskQueueWriter * (Z * Z * DiskQueue.diskQueueEndInfo * option error) :=
  DiskQueue.PutV2 (exampleWriter 100) exampleRecord.

Definition rollingPut
  : DiskQueue.diskQueueWriter * (Z * Z * DiskQueue.diskQueueEndInfo * option error) :=
  DiskQueue.PutV2 (exampleWriter 1020) exampleRecord.

(** A writer that has written nothing yet, with no data file, and the
    append of an empty record, which is below its least record size. *)
Definition freshWriter : DiskQueue.diskQueueWriter :=
  {| DiskQueue.diskWriteEnd := DiskQueue.zeroEndInfo;
     DiskQueue.diskReadEnd := DiskQueue.zeroEndInfo;
     DiskQueue.diskQueueStart := DiskQueue.zeroEndInfo;
     DiskQueue.maxBytesPerFile := 1024; DiskQueue.minMsgSize := 1;
     DiskQueue.maxMsgSize := 1000; DiskQueue.exitFlag := 0;
     DiskQueue.needSync := false; DiskQueue.dataFiles := [] |}.

Definition refusedPut
  : DiskQueue.diskQueueWriter * (Z * Z * DiskQueue.diskQueueEndInfo * option error) :=
  DiskQueue.PutV2 freshWriter [].

(** The write end of [exampleWriter]. *)
Definition exampleEnd (offset : Z) : DiskQueue.diskQueueEndInfo :=
  {| DiskQueue.EndOffset := {| DiskQueue.FileNum := 0; DiskQueue.Pos := offset |};
     DiskQueue.virtualEnd := offset; DiskQueue.totalMsgCnt := 5 |}.

(** The follower after a replica put whose size check does not match. *)
Definition afterFailedPut : DelayQueue :=
  fst (PutMessageOnReplica (C := PlainCodec.codec) follower msgOne 100 999).

(** The raw record of [msgOne] as a replica receives it: four bytes of
    length, then the message. *)
Definition rawOne : bytes :=
  PutUint 4 (len (PlainCodec.encode msgOne false)) ++ PlainCodec.encode msgOne false.

(** * Byte strings and big-endian numbers *)

Lemma Z_of_byte_range (b : byte) : 0 <= Z_of_byte b < 256.
Proof.
  unfold Z_of_byte. pose proof (Byte.to_N_bounded b). lia.
Qed.

Lemma Z_of_byte_inj (a b : byte) : Z_of_byte a = Z_of_byte b -> a = b.
Proof.
  unfold Z_of_byte. intros H. apply N2Z.inj in H.
  pose proof (Byte.of_to_N a) as Ha. pose proof (Byte.of_to_N b) as Hb.
  rewrite H in Ha. congruence.
Qed.

Lemma Z_of_byte_of_Z (z : Z) : Z_of_byte (byte_of_Z z) = z mod 256.
Proof.
  unfold byte_of_Z, Z_of_byte.
  pose proof (Z.mod_pos_bound z 256 ltac:(lia)) as Hr.
  destruct (Byte.of_N (Z.to_N (z mod 256))) as [b|] eqn:E.
  - apply Byte.to_of_N in E. rewrite E. lia.
  - apply Byte.of_N_None_iff in E. lia.
Qed.

Lemma byte_eqb_eq (a b : byte) : Byte.eqb a b = true <-> a = b.
Proof.
  split; [apply Byte.byte_dec_bl | apply Byte.byte_dec_lb].
Qed.

Lemma bytes_compare_refl (a : bytes) : bytes_compare a a = Eq.
Proof.
  induction a as [|x a IH]; simpl; [reflexivity|].
  now rewrite Z.compare_refl.
Qed.

Lemma bytes_compare_eq (a b : bytes) : bytes_compare a b = Eq -> a = b.
Proof.
  revert b; induction a as [|x a IH]; intros [|y b]; simpl; try discriminate; auto.
  destruct (Z.compare_spec (Z_of_byte x) (Z_of_byte y)) as [E| |]; try discriminate.
  intros H. apply Z_of_byte_inj in E. f_equal; auto.
Qed.

Lemma bytes_compare_antisym (a b : bytes) :
  bytes_compare b a = CompOpp (bytes_compare a b).
Proof.
  revert b; induction a as [|x a IH]; intros [|y b]; simpl; auto.
  rewrite (Z.compare_antisym (Z_of_byte x) (Z_of_byte y)).
  destruct (Z_of_byte x ?= Z_of_byte y); simpl; auto.
Qed.

Lemma bytes_lt_trans (a b c : bytes) : bytes_lt a b -> bytes_lt b c -> bytes_lt a c.
Proof.
  unfold bytes_lt. revert b c; induction a as [|x a IH]; intros [|y b] [|z c]; simpl;
    try discriminate; auto.
  destruct (Z.compare_spec (Z_of_byte x) (Z_of_byte y)) as [E|L|G]; try discriminate;
  destruct (Z.compare_spec (Z_of_byte y) (Z_of_byte z)) as [E'|L'|G']; try discriminate;
  intros H1 H2.
  - rewrite E, E', Z.compare_refl. eauto.
  - rewrite E. now apply Z.compare_lt_iff in L' as ->.
  - rewrite <- E'. now apply Z.compare_lt_iff in L as ->.
  - assert (Z_of_byte x < Z_of_byte z) as L'' by lia.
    now apply Z.compare_lt_iff in L'' as ->.
Qed.

Lemma bytes_lt_irrefl (a : bytes) : ~ bytes_lt a a.
Proof.
  unfold bytes_lt. rewrite bytes_compare_refl. discriminate.
Qed.

Lemma bytes_compare_gt_lt (a b : bytes) : bytes_compare a b = Gt -> bytes_lt b a.
Proof.
  unfold bytes_lt. rewrite (bytes_compare_antisym a b). intros ->. reflexivity.
Qed.

Lemma bytes_eqb_eq (a b : bytes) : bytes_eqb a b = true <-> a = b.
Proof.
  unfold bytes_eqb. split.
  - destruct (bytes_compare a b) eqn:E; try discriminate. intros _. now apply bytes_compare_eq.
  - intros ->. now rewrite bytes_compare_refl.
Qed.

Lemma bytes_eqb_refl (a : bytes) : bytes_eqb a a = true.
Proof. now apply bytes_eqb_eq. Qed.

Lemma bytes_eqb_neq (a b : bytes) : bytes_eqb a b = false <-> a <> b.
Proof.
  rewrite <- bytes_eqb_eq. destruct (bytes_eqb a b); split; congruence.
Qed.

Lemma HasPrefix_app (p r : bytes) : HasPrefix (p ++ r) p = true.
Proof.
  induction p as [|x p IH]; simpl; [reflexivity|].
  rewrite IH, andb_true_r. now apply byte_eqb_eq.
Qed.

Lemma HasPrefix_inv (s p : bytes) : HasPrefix s p = true -> exists r, s = p ++ r.
Proof.
  revert s; induction p as [|x p IH]; intros s H; simpl in *.
  - now exists s.
  - destruct s as [|y s]; [discriminate|].
    apply andb_true_iff in H as [E H]. apply byte_eqb_eq in E. subst y.
    destruct (IH _ H) as [r ->]. now exists r.
Qed.

Lemma length_PutUint (n : nat) (x : Z) : length (PutUint n x) = n.
Proof. induction n; simpl; auto. Qed.

Lemma Uint_acc (b : bytes) (acc : Z) :
  fold_left (fun a x => a * 256 + Z_of_byte x) b acc
  = acc * 256 ^ len b + Uint b.
Proof.
  unfold Uint, len. revert acc; induction b as [|x b IH]; intros acc.
  - simpl. lia.
  - cbn [fold_left length]. rewrite IH. rewrite (IH (0 * 256 + Z_of_byte x)).
    rewrite Nat2Z.inj_succ, Z.pow_succ_r by lia. lia.
Qed.

Lemma Uint_cons (x : byte) (b : bytes) :
  Uint (x :: b) = Z_of_byte x * 256 ^ len b + Uint b.
Proof.
  unfold Uint at 1. cbn [fold_left]. rewrite Uint_acc. lia.
Qed.

Lemma Uint_PutUint (n : nat) (x : Z) : Uint (PutUint n x) = x mod 256 ^ Z.of_nat n.
Proof.
  induction n as [|n IH].
  - simpl. now rewrite Z.mod_1_r.
  - cbn [PutUint]. rewrite Uint_cons, IH, Z_of_byte_of_Z.
    unfold len. rewrite length_PutUint.
    rewrite Nat2Z.inj_succ, Z.pow_succ_r by lia.
    assert (0 < 256 ^ Z.of_nat n) by (apply Z.pow_pos_nonneg; lia).
    rewrite (Z.mul_comm 256). rewrite Z.rem_mul_r by lia. lia.
Qed.

Lemma Uint_range (b : bytes) : 0 <= Uint b < 256 ^ len b.
Proof.
  induction b as [|x b IH].
  - cbn. lia.
  - rewrite Uint_cons. unfold len in *. cbn [length].
    rewrite Nat2Z.inj_succ, Z.pow_succ_r by lia.
    pose proof (Z_of_byte_range x). nia.
Qed.

(** * Machine integers and keys *)

Lemma slice_0 (n : nat) (a r : bytes) : length a = n -> slice 0 n (a ++ r) = a.
Proof.
  intros <-. unfold slice. rewrite Nat.sub_0_r. cbn [skipn].
  rewrite firstn_app, Nat.sub_diag, firstn_all. cbn. now rewrite app_nil_r.
Qed.

Lemma slice_shift (lo hi : nat) (a r : bytes) :
  length a = lo -> slice lo hi (a ++ r) = slice 0 (hi - lo) r.
Proof.
  intros <-. unfold slice. rewrite skipn_app, Nat.sub_diag, skipn_all. cbn [skipn app].
  now rewrite Nat.sub_0_r.
Qed.

Lemma slice_mid (lo hi : nat) (a b c : bytes) :
  length a = lo -> hi = (lo + length b)%nat -> slice lo hi (a ++ b ++ c) = b.
Proof.
  intros Ha ->. rewrite slice_shift by assumption.
  replace (lo + length b - lo)%nat with (length b) by lia.
  now apply slice_0.
Qed.

Lemma uint16_idem (z : Z) : uint16 (uint16 z) = uint16 z.
Proof. unfold uint16. now rewrite Z.mod_mod by lia. Qed.

Lemma uint64_idem (z : Z) : uint64 (uint64 z) = uint64 z.
Proof. unfold uint64. now rewrite Z.mod_mod by lia. Qed.

Lemma uint64_small (z : Z) : is_uint64 z -> uint64 z = z.
Proof. unfold is_uint64, uint64. intros. now apply Z.mod_small. Qed.

Lemma uint16_small (z : Z) : 0 <= z < 65536 -> uint16 z = z.
Proof. unfold uint16. intros. apply Z.mod_small. lia. Qed.

Lemma int64_small (z : Z) : is_int64 z -> int64 z = z.
Proof. unfold is_int64, int64. intros. rewrite Z.mod_small; lia. Qed.

Lemma int64_range (z : Z) : is_int64 (int64 z).
Proof.
  unfold is_int64, int64. pose proof (Z.mod_pos_bound (z + 2 ^ 63) (2 ^ 64) ltac:(lia)). lia.
Qed.

Lemma uint64_range (z : Z) : is_uint64 (uint64 z).
Proof. unfold is_uint64, uint64. apply Z.mod_pos_bound. lia. Qed.

Lemma uint64_int64 (z : Z) : uint64 (int64 z) = uint64 z.
Proof.
  unfold uint64, int64.
  rewrite Zminus_mod, Zmod_mod.
  rewrite <- Zminus_mod. f_equal. lia.
Qed.

Lemma int64_uint64 (z : Z) : int64 (uint64 z) = int64 z.
Proof.
  unfold uint64, int64. rewrite Zplus_mod, Zmod_mod, <- Zplus_mod. reflexivity.
Qed.

Lemma Uint_PutUint16 (z : Z) : Uint (PutUint16 z) = uint16 z.
Proof. unfold PutUint16. now rewrite Uint_PutUint. Qed.

Lemma Uint_PutUint64 (z : Z) : Uint (PutUint64 z) = uint64 z.
Proof. unfold PutUint64. now rewrite Uint_PutUint. Qed.

Lemma length_PutUint16 (z : Z) : length (PutUint16 z) = 2%nat.
Proof. apply length_PutUint. Qed.

Lemma length_PutUint64 (z : Z) : length (PutUint64 z) = 8%nat.
Proof. apply length_PutUint. Qed.

Lemma PutUint_mod (n : nat) (x : Z) : PutUint n (x mod 256 ^ Z.of_nat n) = PutUint n x.
Proof.
  assert (G : forall k m x, (k <= m)%nat ->
             PutUint k (x mod 256 ^ Z.of_nat m) = PutUint k x).
  { clear. induction k as [|k IH]; intros m x Hk; [reflexivity|].
    cbn [PutUint]. rewrite IH by lia. f_equal.
    unfold byte_of_Z. do 2 f_equal.
    replace (256 ^ Z.of_nat m) with (256 ^ Z.of_nat k * 256 ^ (Z.of_nat m - Z.of_nat k))
      by (rewrite <- Z.pow_add_r by lia; f_equal; lia).
    assert (0 < 256 ^ Z.of_nat k) by (apply Z.pow_pos_nonneg; lia).
    assert (0 < 256 ^ (Z.of_nat m - Z.of_nat k)) by (apply Z.pow_pos_nonneg; lia).
    rewrite Z.rem_mul_r by lia.
    rewrite (Z.mul_comm (256 ^ Z.of_nat k)), Z.div_add by lia.
    rewrite (Z.div_small (x mod _)) by (apply Z.mod_pos_bound; lia).
    cbn [Z.add].
    replace (Z.of_nat m - Z.of_nat k) with (1 + (Z.of_nat m - Z.of_nat k - 1)) by lia.
    rewrite Z.pow_add_r by lia. change (256 ^ 1) with 256.
    assert (0 < 256 ^ (Z.of_nat m - Z.of_nat k - 1)) by (apply Z.pow_pos_nonneg; lia).
    rewrite Z.rem_mul_r by lia.
    rewrite (Z.mul_comm 256), Z.mod_add by lia. now rewrite Zmod_mod. }
  now apply G.
Qed.

Lemma PutUint64_uint64 (x : Z) : PutUint64 (uint64 x) = PutUint64 x.
Proof. unfold PutUint64, uint64. exact (PutUint_mod 8 x). Qed.

Lemma PutUint16_uint16 (x : Z) : PutUint16 (uint16 x) = PutUint16 x.
Proof. unfold PutUint16, uint16. exact (PutUint_mod 2 x). Qed.

Lemma PutUint64_inj (x y : Z) : PutUint64 x = PutUint64 y -> uint64 x = uint64 y.
Proof. intros H. rewrite <- !Uint_PutUint64. now rewrite H. Qed.

Lemma PutUint16_inj (x y : Z) : PutUint16 x = PutUint16 y -> uint16 x = uint16 y.
Proof. intros H. rewrite <- !Uint_PutUint16. now rewrite H. Qed.

(** Key layout *)

Lemma key_prefix (dt : Z) (ch : bytes) (ts id : Z) :
  getDelayedMsgDBKey dt ch ts id
  = getDelayedMsgDBPrefixKey dt ch ++ PutUint64 (uint64 ts) ++ PutUint64 (uint64 id).
Proof.
  unfold getDelayedMsgDBKey, getDelayedMsgDBPrefixKey.
  rewrite <- !app_assoc. cbn [app]. now rewrite <- !app_assoc.
Qed.

Lemma index_key_prefix (dt : Z) (ch : bytes) (id : Z) :
  getDelayedMsgDBIndexKey dt ch id
  = getDelayedMsgDBPrefixKey dt ch ++ PutUint64 (uint64 id).
Proof.
  unfold getDelayedMsgDBIndexKey, getDelayedMsgDBPrefixKey.
  rewrite <- !app_assoc. cbn [app]. now rewrite <- !app_assoc.
Qed.

Lemma length_prefix (dt : Z) (ch : bytes) :
  length (getDelayedMsgDBPrefixKey dt ch) = (5 + length ch)%nat.
Proof.
  unfold getDelayedMsgDBPrefixKey.
  rewrite length_app, length_PutUint16. cbn [length].
  rewrite length_app, length_PutUint16. lia.
Qed.

Lemma length_key (dt : Z) (ch : bytes) (ts id : Z) :
  length (getDelayedMsgDBKey dt ch ts id) = (21 + length ch)%nat.
Proof.
  rewrite key_prefix, !length_app, length_prefix, !length_PutUint64. lia.
Qed.

Lemma length_index_key (dt : Z) (ch : bytes) (id : Z) :
  length (getDelayedMsgDBIndexKey dt ch id) = (13 + length ch)%nat.
Proof.
  rewrite index_key_prefix, !length_app, length_prefix, !length_PutUint64. lia.
Qed.

Lemma decode_key (dt : Z) (ch : bytes) (ts id : Z) :
  len ch < 65536 ->
  decodeDelayedMsgDBKey (getDelayedMsgDBKey dt ch ts id)
  = Ok (uint16 dt, int64 ts, uint64 id, ch).
Proof.
  intros Hch. unfold decodeDelayedMsgDBKey.
  assert (Hlen : len (getDelayedMsgDBKey dt ch ts id) = 21 + len ch).
  { unfold len. rewrite length_key. lia. }
  rewrite Hlen.
  assert (Hc : 0 <= len ch) by (unfold len; lia).
  destruct (Z.ltb_spec (21 + len ch) (2 + 1 + 2 + 8 + 8)) as [?|_]; [lia|].
  unfold getDelayedMsgDBKey.
  set (A := PutUint16 (uint16 dt)). set (L := PutUint16 (uint16 (len ch))).
  set (T := PutUint64 (uint64 ts)). set (I := PutUint64 (uint64 id)).
  assert (HA : length A = 2%nat) by apply length_PutUint16.
  assert (HL : length L = 2%nat) by apply length_PutUint16.
  assert (HT : length T = 8%nat) by apply length_PutUint64.
  assert (HI : length I = 8%nat) by apply length_PutUint64.
  set (K := A ++ dash :: L ++ ch ++ T ++ I).
  assert (E0 : slice 0 2 K = A) by now apply slice_0.
  assert (E3 : slice 3 5 K = L).
  { replace K with ((A ++ [dash]) ++ L ++ (ch ++ T ++ I))
      by (unfold K; now rewrite <- !app_assoc).
    apply slice_mid; rewrite ?length_app, ?HA, ?HL; reflexivity. }
  rewrite E3.
  assert (HUL : Z.to_nat (Uint L) = length ch).
  { unfold L. rewrite Uint_PutUint16, uint16_idem, uint16_small by lia. unfold len. lia. }
  rewrite !HUL.
  destruct (Z.ltb_spec (21 + len ch) (Z.of_nat (5 + length ch))) as [?|_];
    [unfold len in *; lia|].
  destruct (Z.ltb_spec (21 + len ch) (Z.of_nat (5 + length ch) + 16)) as [?|_];
    [unfold len in *; lia|].
  assert (Ech : slice 5 (5 + length ch) K = ch).
  { replace K with ((A ++ [dash] ++ L) ++ ch ++ (T ++ I))
      by (unfold K; now rewrite <- !app_assoc).
    apply slice_mid; rewrite ?length_app, ?HA, ?HL; reflexivity. }
  assert (Ets : slice (5 + length ch) (5 + length ch + 8) K = T).
  { replace K with ((A ++ [dash] ++ L ++ ch) ++ T ++ I)
      by (unfold K; now rewrite <- !app_assoc).
    apply slice_mid; rewrite ?length_app, ?HA, ?HL, ?HT; cbn [length]; lia. }
  assert (Eid : slice (5 + length ch + 8) (5 + length ch + 16) K = I).
  { replace K with ((A ++ [dash] ++ L ++ ch ++ T) ++ I ++ [])
      by (unfold K; rewrite <- !app_assoc, app_nil_r; reflexivity).
    apply slice_mid; rewrite ?length_app, ?HA, ?HL, ?HT, ?HI; cbn [length]; lia. }
  rewrite E0, Ech, Ets, Eid. unfold A, T, I.
  rewrite Uint_PutUint16, !Uint_PutUint64, uint16_idem, !uint64_idem.
  unfold MessageID. now rewrite !int64_uint64, uint64_int64.
Qed.

(** * Buckets *)

Lemma app_eq_length {A} (a a' x y : list A) :
  length a = length a' -> a ++ x = a' ++ y -> a = a' /\ x = y.
Proof.
  revert a'; induction a as [|h a IH]; intros [|h' a'] Hl H; try discriminate; auto.
  cbn in *. injection H as -> H. destruct (IH a' ltac:(lia) H) as [-> ->]. auto.
Qed.

Lemma HasPrefix_length (s p : bytes) : HasPrefix s p = true -> (length p <= length s)%nat.
Proof.
  intros H. apply HasPrefix_inv in H as [r ->]. rewrite length_app. lia.
Qed.

Lemma HasPrefix_key_prefix (dt : Z) (ch : bytes) (ts id : Z) :
  HasPrefix (getDelayedMsgDBKey dt ch ts id) (getDelayedMsgDBPrefixKey dt ch) = true.
Proof. rewrite key_prefix. apply HasPrefix_app. Qed.

Lemma prefix_eq_inv (dt dt' : Z) (ch ch' : bytes) :
  getDelayedMsgDBPrefixKey dt ch = getDelayedMsgDBPrefixKey dt' ch' ->
  len ch' < 65536 ->
  PutUint16 (uint16 dt) = PutUint16 (uint16 dt') /\ ch = ch'.
Proof.
  unfold getDelayedMsgDBPrefixKey. intros H Hc.
  apply app_eq_length in H as [HA H]; [|now rewrite !length_PutUint16].
  apply (f_equal (@tl byte)) in H; cbn [tl] in H.
  apply app_eq_length in H as [HL H]; [|now rewrite !length_PutUint16].
  auto.
Qed.

(** A key that starts with the prefix of [(dt, ch)] belongs to it. *)
Lemma HasPrefix_key_inv (t dt : Z) (c ch : bytes) (ts id : Z) :
  len c < 65536 ->
  HasPrefix (getDelayedMsgDBKey t c ts id) (getDelayedMsgDBPrefixKey dt ch) = true ->
  PutUint16 (uint16 dt) = PutUint16 (uint16 t) /\ ch = c.
Proof.
  intros Hc H. pose proof (HasPrefix_length _ _ H) as Hlen.
  rewrite length_key, length_prefix in Hlen.
  apply HasPrefix_inv in H as [r H].
  unfold getDelayedMsgDBKey, getDelayedMsgDBPrefixKey in H.
  rewrite <- !app_assoc in H. cbn [app] in H. rewrite <- !app_assoc in H.
  apply app_eq_length in H as [HA H]; [|now rewrite !length_PutUint16].
  apply (f_equal (@tl byte)) in H; cbn [tl] in H.
  apply app_eq_length in H as [HL H]; [|now rewrite !length_PutUint16].
  split; [congruence|].
  apply PutUint16_inj in HL. rewrite !uint16_idem in HL.
  assert (Hl : len ch = len c).
  { unfold len in *. rewrite (uint16_small (Z.of_nat (length c))) in HL by lia.
    unfold uint16 in HL.
    destruct (Z.ltb_spec (Z.of_nat (length ch)) 65536) as [Hs|Hs].
    - rewrite Z.mod_small in HL by lia. lia.
    - change (2 ^ 16) with 65536 in HL.
      assert (Z.of_nat (length ch) mod 65536 = Z.of_nat (length ch) - 65536).
      { symmetry. apply (Zmod_unique _ _ 1); lia. }
      lia. }
  symmetry in H. apply app_eq_length in H as [-> _]; [reflexivity|].
  unfold len in Hl. lia.
Qed.

Lemma counterKey_inj (dt dt' : Z) (ch ch' : bytes) :
  counterKey dt ch = counterKey dt' ch' ->
  getDelayedMsgDBPrefixKey dt ch = getDelayedMsgDBPrefixKey dt' ch'.
Proof. unfold counterKey. apply app_inv_head. Qed.

Lemma counterKey_not_synced (dt : Z) (ch : bytes) : counterKey dt ch <> syncedOffsetKey.
Proof.
  intros H. apply (f_equal (fun l => Z_of_byte (hd x00 l))) in H.
  unfold counterKey, syncedOffsetKey in H. vm_compute in H. discriminate.
Qed.

(** Buckets *)

Section BucketFacts.
Context {V : Type}.
Implicit Types (b : Bolt.Bucket V) (k : bytes) (v : V).

Lemma sorted_cons_inv k v b :
  Bolt.sorted ((k, v) :: b) -> Bolt.sorted b /\ below k b.
Proof.
  unfold Bolt.sorted, Bolt.keys, below. cbn [map fst]. intros H.
  apply StronglySorted_inv in H as [H1 H2]. split; [assumption|].
  rewrite Forall_forall in *. intros e He. apply H2. now apply in_map.
Qed.

Lemma sorted_cons k v b : Bolt.sorted b -> below k b -> Bolt.sorted ((k, v) :: b).
Proof.
  unfold Bolt.sorted, Bolt.keys, below. cbn [map fst]. intros H1 H2.
  constructor; [assumption|]. rewrite Forall_forall in *. intros x Hx.
  apply in_map_iff in Hx as [e [<- He]]. auto.
Qed.

Lemma sorted_nil : Bolt.sorted (@nil (bytes * V)).
Proof. constructor. Qed.

Lemma below_trans k k' b : bytes_lt k k' -> below k' b -> below k b.
Proof.
  unfold below. intros H. apply Forall_impl. intros e. now apply bytes_lt_trans.
Qed.

Lemma Get_below k b : below k b -> Bolt.Get k b = None.
Proof.
  destruct b as [|[k' v'] b]; [reflexivity|].
  intros H. apply Forall_inv in H. cbn in *. unfold bytes_lt in H. now rewrite H.
Qed.

Lemma Get_In k v b : Bolt.sorted b -> Bolt.Get k b = Some v <-> In (k, v) b.
Proof.
  induction b as [|[k' v'] b IH]; intros Hs; cbn [Bolt.Get In].
  - split; [discriminate|tauto].
  - apply sorted_cons_inv in Hs as [Hs Hb].
    destruct (bytes_compare k k') eqn:E.
    + apply bytes_compare_eq in E. subst k'. split.
      * intros [= ->]. now left.
      * intros [[= ->]|Hin]; [reflexivity|].
        unfold below in Hb. rewrite Forall_forall in Hb. apply Hb in Hin.
        now apply bytes_lt_irrefl in Hin.
    + split; [discriminate|].
      intros [[= -> ->]|Hin]; [now rewrite bytes_compare_refl in E|].
      unfold below in Hb. rewrite Forall_forall in Hb. apply Hb in Hin. cbn in Hin.
      exfalso. apply (bytes_lt_irrefl k). eapply bytes_lt_trans; [exact E|exact Hin].
    + rewrite (IH Hs). split; [tauto|].
      intros [[= -> ->]|Hin]; [now rewrite bytes_compare_refl in E|assumption].
Qed.

Lemma Get_insert_same k v b : Bolt.Get k (Bolt.insert k v b) = Some v.
Proof.
  induction b as [|[k' v'] b IH]; cbn [Bolt.Get Bolt.insert].
  - now rewrite bytes_compare_refl.
  - destruct (bytes_compare k k') eqn:E; cbn [Bolt.Get]; rewrite ?bytes_compare_refl, ?E; auto.
Qed.

Lemma Get_insert_other k k' v b :
  k <> k' -> Bolt.Get k' (Bolt.insert k v b) = Bolt.Get k' b.
Proof.
  intros Hne. induction b as [|[k1 v1] b IH]; cbn [Bolt.Get Bolt.insert].
  - destruct (bytes_compare k' k) eqn:E; auto.
    apply bytes_compare_eq in E. congruence.
  - destruct (bytes_compare k k1) eqn:E; cbn [Bolt.Get].
    + apply bytes_compare_eq in E. subst k1.
      destruct (bytes_compare k' k) eqn:E'; auto.
      apply bytes_compare_eq in E'. congruence.
    + destruct (bytes_compare k' k) eqn:E'.
      * apply bytes_compare_eq in E'. congruence.
      * assert (bytes_lt k' k1) as -> by (eapply bytes_lt_trans; eassumption). reflexivity.
      * reflexivity.
    + destruct (bytes_compare k' k1); auto.
Qed.

Lemma Get_Delete_same k b : Bolt.sorted b -> Bolt.Get k (Bolt.Delete k b) = None.
Proof.
  induction b as [|[k1 v1] b IH]; intros Hs; cbn [Bolt.Get Bolt.Delete]; [reflexivity|].
  apply sorted_cons_inv in Hs as [Hs Hb].
  destruct (bytes_compare k k1) eqn:E; cbn [Bolt.Get]; rewrite ?E; auto.
  apply bytes_compare_eq in E. subst k1. now apply Get_below.
Qed.

Lemma Get_Delete_other k k' b :
  k <> k' -> Bolt.sorted b -> Bolt.Get k' (Bolt.Delete k b) = Bolt.Get k' b.
Proof.
  intros Hne. induction b as [|[k1 v1] b IH]; intros Hs; cbn [Bolt.Get Bolt.Delete];
    [reflexivity|].
  apply sorted_cons_inv in Hs as [Hs Hb].
  destruct (bytes_compare k k1) eqn:E; cbn [Bolt.Get]; auto.
  - apply bytes_compare_eq in E. subst k1.
    destruct (bytes_compare k' k) eqn:E'; auto.
    + apply bytes_compare_eq in E'. congruence.
    + apply Get_below. eapply below_trans; eassumption.
  - destruct (bytes_compare k' k1); auto.
Qed.

Lemma below_insert k k' v b : bytes_lt k k' -> below k b -> below k (Bolt.insert k' v b).
Proof.
  intros Hlt. induction b as [|[k1 v1] b IH]; intros Hb; cbn [Bolt.insert].
  - constructor; [assumption|constructor].
  - pose proof (Forall_inv Hb) as H1. pose proof (Forall_inv_tail Hb) as H2.
    destruct (bytes_compare k' k1).
    + constructor; [exact Hlt|exact H2].
    + constructor; [exact Hlt|exact Hb].
    + constructor; [exact H1|exact (IH H2)].
Qed.

Lemma below_Delete k k' b : below k b -> below k (Bolt.Delete k' b).
Proof.
  induction b as [|[k1 v1] b IH]; intros Hb; cbn [Bolt.Delete]; [assumption|].
  pose proof (Forall_inv Hb) as H1. pose proof (Forall_inv_tail Hb) as H2.
  destruct (bytes_compare k' k1); auto. constructor; [exact H1|exact (IH H2)].
Qed.

Lemma sorted_insert k v b : Bolt.sorted b -> Bolt.sorted (Bolt.insert k v b).
Proof.
  induction b as [|[k1 v1] b IH]; intros Hs; cbn [Bolt.insert].
  - apply sorted_cons; [apply sorted_nil|constructor].
  - pose proof (sorted_cons_inv _ _ _ Hs) as [Hs' Hb].
    destruct (bytes_compare k k1) eqn:E.
    + apply bytes_compare_eq in E. subst k1. now apply sorted_cons.
    + apply sorted_cons; [assumption|]. constructor; [assumption|].
      eapply below_trans; eassumption.
    + apply sorted_cons; [auto|]. apply below_insert; [|assumption].
      now apply bytes_compare_gt_lt.
Qed.

Lemma sorted_Delete k b : Bolt.sorted b -> Bolt.sorted (Bolt.Delete k b).
Proof.
  induction b as [|[k1 v1] b IH]; intros Hs; cbn [Bolt.Delete]; [assumption|].
  pose proof (sorted_cons_inv _ _ _ Hs) as [Hs' Hb].
  destruct (bytes_compare k k1); auto.
  apply sorted_cons; auto. now apply below_Delete.
Qed.

Lemma Delete_absent k b : Bolt.Get k b = None -> Bolt.Delete k b = b.
Proof.
  induction b as [|[k1 v1] b IH]; cbn [Bolt.Get Bolt.Delete]; [reflexivity|].
  destruct (bytes_compare k k1); try discriminate; auto.
  intros H. now rewrite IH.
Qed.

Lemma Delete_insert k v b : Bolt.Get k b = None -> Bolt.Delete k (Bolt.insert k v b) = b.
Proof.
  induction b as [|[k1 v1] b IH]; cbn [Bolt.Get Bolt.Delete Bolt.insert].
  - now rewrite bytes_compare_refl.
  - destruct (bytes_compare k k1) eqn:E; try discriminate; cbn [Bolt.Delete].
    + now rewrite bytes_compare_refl.
    + rewrite E. intros H. now rewrite IH.
Qed.

Lemma countKeys_insert_new f k v b :
  Bolt.Get k b = None ->
  countKeys f (Bolt.insert k v b) = ((if f k then 1 else 0) + countKeys f b)%nat.
Proof.
  unfold countKeys, Bolt.keys.
  induction b as [|[k1 v1] b IH]; cbn [Bolt.Get Bolt.insert map fst filter].
  - destruct (f k); reflexivity.
  - destruct (bytes_compare k k1) eqn:E; try discriminate; intros H;
      cbn [map fst filter].
    + destruct (f k); reflexivity.
    + specialize (IH H). destruct (f k1); cbn [length]; rewrite IH; destruct (f k); lia.
Qed.

Lemma countKeys_insert_old f k v v' b :
  Bolt.Get k b = Some v' -> countKeys f (Bolt.insert k v b) = countKeys f b.
Proof.
  unfold countKeys, Bolt.keys.
  induction b as [|[k1 v1] b IH]; cbn [Bolt.Get Bolt.insert map fst filter]; [discriminate|].
  destruct (bytes_compare k k1) eqn:E; try discriminate; intros H; cbn [map fst filter].
  - apply bytes_compare_eq in E. now subst.
  - destruct (f k1); cbn [length]; now rewrite IH.
Qed.

Lemma countKeys_Delete f k v b :
  Bolt.Get k b = Some v ->
  countKeys f b = ((if f k then 1 else 0) + countKeys f (Bolt.Delete k b))%nat.
Proof.
  unfold countKeys, Bolt.keys.
  induction b as [|[k1 v1] b IH]; cbn [Bolt.Get Bolt.Delete map fst filter]; [discriminate|].
  destruct (bytes_compare k k1) eqn:E; try discriminate; intros H; cbn [map fst filter].
  - apply bytes_compare_eq in E. subst. destruct (f k1); reflexivity.
  - destruct (f k1), (f k) eqn:Fk; cbn [length]; rewrite (IH H), ?Fk; lia.
Qed.

Lemma length_insert_le k v b : (length (Bolt.insert k v b) <= S (length b))%nat.
Proof.
  induction b as [|[k1 v1] b IH]; cbn [Bolt.insert length]; [lia|].
  destruct (bytes_compare k k1); cbn [length]; lia.
Qed.

Lemma length_Delete_le k b : (length (Bolt.Delete k b) <= length b)%nat.
Proof.
  induction b as [|[k1 v1] b IH]; cbn [Bolt.Delete length]; [lia|].
  destruct (bytes_compare k k1); cbn [length]; lia.
Qed.

Lemma length_Delete k v b :
  Bolt.Get k b = Some v -> length b = S (length (Bolt.Delete k b)).
Proof.
  induction b as [|[k1 v1] b IH]; cbn [Bolt.Get Bolt.Delete length]; [discriminate|].
  destruct (bytes_compare k k1); try discriminate; auto.
Qed.

Lemma countKeys_le_length f b : (countKeys f b <= length b)%nat.
Proof.
  unfold countKeys, Bolt.keys. rewrite <- (length_map fst b). apply filter_length_le.
Qed.

Lemma Seek_suffix s b : exists pre, b = pre ++ Bolt.Seek s b.
Proof.
  induction b as [|[k1 v1] b [pre IH]]; cbn [Bolt.Seek].
  - now exists [].
  - destruct (bytes_compare k1 s).
    + now exists [].
    + exists ((k1, v1) :: pre). cbn. now f_equal.
    + now exists [].
Qed.

End BucketFacts.

(** * The phases of [put] *)

Ltac case_match :=
  match goal with
  | |- context [match ?x with _ => _ end] => destruct x eqn:?
  | H : context [match ?x with _ => _ end] |- _ => destruct x eqn:?
  end.

Lemma IsValidDelayedMessage_false (m : Message) :
  IsValidDelayedMessage m = false <-> invalidDelayed m.
Proof.
  unfold IsValidDelayedMessage, invalidDelayed, ChannelDelayed, PubDelayed,
    TransactionDelayed, len.
  destruct (Z.eqb_spec (DelayedType m) 1) as [E1|E1];
  [|destruct (Z.eqb_spec (DelayedType m) 2) as [E2|E2];
    [|destruct (Z.eqb_spec (DelayedType m) 3) as [E3|E3]]].
  - rewrite !andb_false_iff, !Z.gtb_ltb, !Z.ltb_ge.
    destruct (DelayedChannel m) as [|c ch]; cbn [length];
      intuition (try lia; try discriminate).
  - rewrite Z.gtb_ltb, Z.ltb_ge. intuition (try lia; try discriminate).
  - intuition (try lia; try discriminate).
  - intuition (try lia; try discriminate).
Qed.

Section EngineFacts.
Context {C : Codec}.

Lemma deleteMsgIndex_error old tx ext tx' e :
  deleteMsgIndex old tx ext = (tx', Some e) -> e = errDecodeMessage.
Proof.
  unfold deleteMsgIndex. destruct (DecodeDelayedMessage old ext); intros [= <- <-]; reflexivity.
Qed.

Lemma Put_error k v b e :
  Bolt.Put k v b = Err e -> e = ErrKeyRequired \/ e = ErrKeyTooLarge \/ e = ErrValueTooLarge.
Proof.
  unfold Bolt.Put. repeat case_match; intros [= <-]; auto.
Qed.

Lemma putTx_error m msgKey buf off ext tx tx' e :
  putTx m msgKey buf off ext tx = (tx', Some e) -> storeError e.
Proof.
  unfold putTx, storeError. intros H.
  repeat (case_match; try discriminate);
    repeat match goal with
    | H : (_, _) = (_, _) |- _ => injection H as ? ?; subst
    | H : deleteMsgIndex _ _ _ = (_, Some _) |- _ => apply deleteMsgIndex_error in H; subst
    | H : Bolt.Put _ _ _ = Err _ |- _ => apply Put_error in H
    end; try discriminate; try tauto.
Qed.

Lemma sameStore_refl q : sameStore q q.
Proof. repeat split. Qed.

Lemma sameStore_trans q1 q2 q3 : sameStore q1 q2 -> sameStore q2 q3 -> sameStore q1 q3.
Proof. unfold sameStore. intuition congruence. Qed.

Lemma sameStore_IsExt q q' : sameStore q q' -> IsExt q' = IsExt q.
Proof. unfold IsExt. intros (_ & -> & _). reflexivity. Qed.

Lemma nextMsgID_spec q id q' :
  nextMsgID q = (id, q') -> sameStore q q' /\ is_uint64 id.
Proof.
  unfold nextMsgID, NextID, MessageID. destruct (msgIDCursor q); intros [= <- <-];
    (split; [repeat split|apply uint64_range]).
Qed.

Lemma putAssignID_spec q m m' q1 :
  putAssignID q m = (m', q1) ->
  sameStore q q1 /\
  ((m' = m /\ 0 < ID m) \/ exists id, m' = setID m id /\ is_uint64 id /\ ID m <= 0).
Proof.
  unfold putAssignID. destruct (Z.leb_spec (ID m) 0).
  - destruct (nextMsgID q) as [id q'] eqn:E. intros [= <- <-].
    apply nextMsgID_spec in E as [E1 E2]. split; [assumption|]. right. now exists id.
  - intros [= <- <-]. split; [apply sameStore_refl|]. left. auto.
Qed.

Lemma flush_sameStore q : sameStore q (fst (flush q)).
Proof.
  unfold flush. destruct (needFlush q =? 1); [|apply sameStore_refl].
  destruct (DiskQueue.Flush _); repeat split.
Qed.

Lemma putAppend_spec q m raw cs q3 early r :
  putAppend q m raw cs = (q3, early, r) ->
  sameStore q q3 /\ putBuffer q3 = WriteDelayedTo m (IsExt q).
Proof.
  unfold putAppend. destruct raw as [raw|].
  - destruct (DiskQueue.PutRawV2 _ _ _) as [d [[[offset writeBytes] dend] err]].
    destruct (_ && _); intros [= <- <- <-]; repeat split.
  - unfold writeDelayedMessageToBackendWithCheck.
    destruct (_ && _).
    + intros [= <- <- <-]; repeat split.
    + destruct (DiskQueue.PutV2 _ _) as [d r']. intros [= <- <- <-]; repeat split.
Qed.

Lemma writeOne_error d data isRaw cnt d' e :
  DiskQueue.writeOne d data isRaw cnt = (d', Err e) -> e = errInvalidWriteSize.
Proof.
  unfold DiskQueue.writeOne. destruct (_ && _); intros [= <- <-]. reflexivity.
Qed.

Lemma putAppend_error q m raw cs q3 early off wb dend e :
  putAppend q m raw cs = (q3, early, (off, wb, dend, Some e)) -> appendError e.
Proof.
  unfold putAppend, appendError. destruct raw as [raw|].
  - unfold DiskQueue.PutRawV2.
    destruct (DiskQueue.exitFlag _ =? 1).
    + destruct (_ && _); intros [= <- <- <- <- <- <-]. auto.
    + destruct (DiskQueue.writeOne _ _ _ _) as [d' [[[o w] de]|e']] eqn:E;
        destruct (_ && _); intros [= <- <- <- <- <- <-].
      apply writeOne_error in E. auto.
  - unfold writeDelayedMessageToBackendWithCheck.
    destruct (_ && _).
    + intros [= <- <- <- <- <- <-]. auto.
    + unfold DiskQueue.PutV2. destruct (DiskQueue.exitFlag _ =? 1).
      * intros [= <- <- <- <- <- <-]. auto.
      * destruct (DiskQueue.writeOne _ _ _ _) as [d' [[[o w] de]|e']] eqn:E;
          intros [= <- <- <- <- <- <-].
        apply writeOne_error in E. auto.
Qed.

Lemma putOldest_sameStore q m : sameStore q (putOldest q m).
Proof.
  unfold putOldest. repeat case_match; repeat split.
Qed.

Lemma putSync_sameStore q dend : sameStore q (putSync q dend).
Proof.
  unfold putSync. destruct (_ || _); [apply flush_sameStore|apply sameStore_refl].
Qed.

(** What [put] does to the store: nothing, or the transaction [putTx] for
    the decoded message with its id assigned. *)
Lemma put_spec q m0 raw trace cs q' id off wb dend err :
  put q m0 raw trace cs = (q', (id, off, wb, dend, err)) ->
  isExt q' = isExt q /\ exitFlag q' = exitFlag q /\
  (kvStore q' = kvStore q \/
   exists m1 m,
     putDecode q m0 raw = Ok m1 /\
     ((m = m1 /\ 0 < ID m1) \/ exists i, m = setID m1 i /\ is_uint64 i /\ ID m1 <= 0) /\
     err = None /\ id = ID m /\
     putTx m (msgKeyOf m) (WriteDelayedTo m (IsExt q)) (DiskQueue.Offset dend) (IsExt q)
       (kvStore q) = (kvStore q', None)).
Proof.
  unfold put. destruct (putDecode q m0 raw) as [m1|e] eqn:Ed.
  2:{ intros [= <- <- <- <- <- <-]. auto. }
  destruct (putAssignID q m1) as [m q1] eqn:Ea.
  apply putAssignID_spec in Ea as [S1 Hm].
  destruct (putAppend q1 m raw cs) as [[q3 early] [[[o w] de] er]] eqn:Ep.
  apply putAppend_spec in Ep as [S3 Hbuf].
  pose proof (sameStore_trans _ _ _ S1 S3) as S13.
  destruct early.
  { intros [= <- <- <- <- <- <-]. destruct S13 as (? & ? & ?). auto. }
  destruct er as [e|].
  { intros [= <- <- <- <- <- <-]. destruct S13 as (? & ? & ?). auto. }
  unfold putStore, Update, unitTx. cbn [kvStore putBuffer withNeedFlush].
  replace (IsExt (withNeedFlush q3 1)) with (IsExt q)
    by (symmetry; apply (sameStore_IsExt q q3 S13)).
  rewrite Hbuf, (sameStore_IsExt _ _ S1).
  destruct S13 as (Hkv & Hext & Hexit). rewrite Hkv.
  destruct (putTx m _ _ _ _ _) as [kv kerr] eqn:Et. cbn [fst snd].
  destruct kerr as [e|].
  { intros [= <- <- <- <- <- <-]. auto. }
  intros [= <- <- <- <- <- <-].
  set (q5 := withKV (withNeedFlush q3 1) kv).
  pose proof (sameStore_trans _ _ _ (putOldest_sameStore q5 m)
                (putSync_sameStore (putOldest q5 m) de)) as (Hk & He & Hx).
  rewrite He, Hx, Hk. cbn. repeat split; auto.
  right. exists m1, m. repeat split; auto.
Qed.

Lemma put_error q m0 raw trace cs q' id off wb dend e :
  put q m0 raw trace cs = (q', (id, off, wb, dend, Some e)) ->
  e = errInvalidRawData \/ e = errDecodeMessage \/ appendError e \/ storeError e.
Proof.
  unfold put. destruct (putDecode q m0 raw) as [m1|e'] eqn:Ed.
  2:{ intros [= <- <- <- <- <- <-]. unfold putDecode in Ed.
      repeat case_match; try discriminate; injection Ed as <-; auto. }
  destruct (putAssignID q m1) as [m q1].
  destruct (putAppend q1 m raw cs) as [[q3 early] [[[o w] de] er]] eqn:Ep.
  destruct early.
  { intros [= <- <- <- <- <- ->]. apply putAppend_error in Ep. auto. }
  destruct er as [e'|].
  { intros [= <- <- <- <- <- <-]. apply putAppend_error in Ep. auto. }
  unfold putStore, Update, unitTx.
  destruct (putTx m _ _ _ _ _) as [kv kerr] eqn:Et. cbn [fst snd].
  destruct kerr as [e'|]; intros [= <- <- <- <- <- <-].
  apply putTx_error in Et. auto.
Qed.

End EngineFacts.

(** * The guards of the entry points *)

Section Guards.
Context {C : Codec}.

(** C2.  A replica put whose offset differs from the end of the log returns
    an error and the engine it was given, so the write end of the log, the
    stored [synced_offset] and the whole store are unchanged.  The error is
    [ErrExiting] when the engine has been told to exit and
    [ErrWriteOffsetMismatch] otherwise. *)
Theorem replica_offset_mismatch (q : DelayQueue) (rawData : option bytes) (m : Message)
  (offset checkSize msgNum : Z) :
  offset <> DiskQueue.Offset (DiskQueue.GetQueueWriteEnd (backend q)) ->
  PutRawDataOnReplica q rawData offset checkSize msgNum
    = (q, Err (if exitFlag q =? 1 then ErrExiting else ErrWriteOffsetMismatch))
  /\ PutMessageOnReplica q m offset checkSize
    = (q, Err (if exitFlag q =? 1 then ErrExiting else ErrWriteOffsetMismatch)).
Proof.
  intros Hne. unfold PutRawDataOnReplica, PutMessageOnReplica.
  destruct (exitFlag q =? 1); [split; reflexivity|].
  destruct (Z.eqb_spec (DiskQueue.Offset (DiskQueue.GetQueueWriteEnd (backend q))) offset);
    [congruence|]. split; reflexivity.
Qed.

(** C9.  [PutDelayMessage] on a message whose id is greater than 0 returns
    an error and the engine it was given, before validating or writing
    anything: the error of an exiting engine when the exit flag is set,
    [ErrInvalidMessageID] otherwise. *)
Theorem put_rejects_assigned_id (q : DelayQueue) (m : Message) :
  ID m > 0 ->
  PutDelayMessage q m
  = (q, (0, 0, 0, None,
         Some (if exitFlag q =? 1 then errExitingNew else ErrInvalidMessageID))).
Proof.
  intros Hid. unfold PutDelayMessage. destruct (exitFlag q =? 1); [reflexivity|].
  destruct (Z.gtb_spec (ID m) 0); [reflexivity|lia].
Qed.

(** C10.  [PutRawDataOnReplica] at the offset of the write end with a
    message number other than 1 returns an error and the engine it was
    given, so nothing is written to the log or the store: [ErrExiting] when
    the exit flag is set, the message-number error otherwise. *)
Theorem raw_replica_message_number (q : DelayQueue) (rawData : option bytes)
  (offset checkSize msgNum : Z) :
  offset = DiskQueue.Offset (DiskQueue.GetQueueWriteEnd (backend q)) ->
  msgNum <> 1 ->
  PutRawDataOnReplica q rawData offset checkSize msgNum
  = (q, Err (if exitFlag q =? 1 then ErrExiting else errRawMessageNumber)).
Proof.
  intros -> Hn. unfold PutRawDataOnReplica. destruct (exitFlag q =? 1); [reflexivity|].
  rewrite Z.eqb_refl. cbn [negb].
  destruct (Z.eqb_spec msgNum 1); [congruence|reflexivity].
Qed.

(** C6.  For a message with id 0 on an engine that is not exiting,
    [PutDelayMessage] returns the invalid-delayed-message error and the
    engine unchanged exactly when the message is invalid: channel-delayed
    with original id <= 0, empty channel or delivery time <= 0; pub-delayed
    with delivery time <= 0; or of none of the three delayed types.  A
    transaction-delayed message never gets that error. *)
Theorem put_validity (q : DelayQueue) (m : Message) :
  exitFlag q <> 1 -> ID m = 0 ->
  forall q' id offset writeBytes dend err,
    PutDelayMessage q m = (q', (id, offset, writeBytes, dend, err)) ->
    ((err = Some errInvalidDelayedMessage /\ q' = q) <-> invalidDelayed m)
    /\ (DelayedType m = TransactionDelayed -> err <> Some errInvalidDelayedMessage).
Proof.
  intros Hexit Hid q' id offset writeBytes dend err. unfold PutDelayMessage.
  destruct (Z.eqb_spec (exitFlag q) 1); [contradiction|].
  destruct (Z.gtb_spec (ID m) 0); [lia|].
  assert (Hput : IsValidDelayedMessage m = true ->
          forall r, put q m None true 0 = r -> snd (snd r) <> Some errInvalidDelayedMessage).
  { intros _ [q1 [[[[i o] w] de] er]] Hp. cbn [snd]. destruct er as [e|]; [|discriminate].
    apply put_error in Hp. unfold appendError, storeError in Hp.
    intros [= ->]. repeat (destruct Hp as [Hp|Hp]; try discriminate). }
  destruct (IsValidDelayedMessage m) eqn:Ev; cbn [negb].
  - specialize (Hput eq_refl _ eq_refl).
    destruct (put q m None true 0) as [q1 [[[[i o] w] de] er]]. cbn [snd] in Hput.
    intros [= <- <- <- <- <- <-]. split.
    + split.
      * intros [He _]. contradiction.
      * intros Hinv. apply IsValidDelayedMessage_false in Hinv. congruence.
    + intros _. assumption.
  - intros [= <- <- <- <- <- <-]. split.
    + split; [intros _; now apply IsValidDelayedMessage_false|auto].
    + intros Ht. unfold IsValidDelayedMessage in Ev. rewrite Ht in Ev. discriminate.
Qed.

End Guards.

Lemma sync_ends d :
  DiskQueue.diskWriteEnd (DiskQueue.sync d) = DiskQueue.diskWriteEnd d
  /\ DiskQueue.diskQueueStart (DiskQueue.sync d) = DiskQueue.diskQueueStart d.
Proof. split; reflexivity. Qed.

(** [RollbackWriteV2] while the count fits a signed 64-bit integer: the
    call fails with [ErrInvalidOffset] exactly when the target is below the
    queue start, the count would drop below that of the queue start, the
    target is beyond the write end, or the target lies before the start of
    the current file; otherwise it sets the write end to the target and
    takes [diffCnt] off the count. *)
Lemma rollback_write (d : DiskQueue.diskQueueWriter) (offset diffCnt : Z) :
  wfWriter d -> is_int64 offset -> 0 <= diffCnt < 2 ^ 63 ->
  let we := DiskQueue.diskWriteEnd d in
  let start := DiskQueue.diskQueueStart d in
  let invalid :=
    offset < DiskQueue.virtualEnd start
    \/ DiskQueue.totalMsgCnt we - diffCnt < DiskQueue.totalMsgCnt start
    \/ offset > DiskQueue.virtualEnd we
    \/ offset < DiskQueue.virtualEnd we - DiskQueue.Pos (DiskQueue.EndOffset we) in
  forall d' e err,
    DiskQueue.RollbackWriteV2 d offset diffCnt = (d', (e, err)) ->
    (invalid -> err = Some ErrInvalidOffset)
    /\ (~ invalid ->
        err = None /\ e = DiskQueue.diskWriteEnd d'
        /\ DiskQueue.virtualEnd (DiskQueue.diskWriteEnd d') = offset
        /\ DiskQueue.totalMsgCnt (DiskQueue.diskWriteEnd d')
           = DiskQueue.totalMsgCnt we - diffCnt)
    /\ (offset = DiskQueue.virtualEnd we - DiskQueue.Pos (DiskQueue.EndOffset we) ->
        DiskQueue.virtualEnd start <= offset ->
        DiskQueue.totalMsgCnt start <= DiskQueue.totalMsgCnt we - diffCnt ->
        err = None).
Proof.
  intros [(Hp & Hv & Ht) (Hsp & Hsv & Hst)] Hoff Hdiff we start invalid d' e err.
  unfold DiskQueue.RollbackWriteV2, DiskQueue.TotalMsgCnt, DiskQueue.Offset.
  subst invalid. subst we start.
  set (we := DiskQueue.diskWriteEnd d) in *.
  set (start := DiskQueue.diskQueueStart d) in *.
  assert (Hd : int64 diffCnt = diffCnt) by (apply int64_small; unfold is_int64; lia).
  rewrite Hd.
  assert (Hs : int64 (DiskQueue.totalMsgCnt we - diffCnt) = DiskQueue.totalMsgCnt we - diffCnt).
  { apply int64_small. unfold is_int64. lia. }
  rewrite Hs.
  destruct (Z.ltb_spec offset (DiskQueue.virtualEnd start)) as [H1|H1]; cbn [orb].
  { intros [= <- <- <-]. split; [reflexivity|split; intros; exfalso; lia]. }
  destruct (Z.ltb_spec (DiskQueue.totalMsgCnt we - diffCnt) (DiskQueue.totalMsgCnt start))
    as [H2|H2].
  { intros [= <- <- <-]. split; [reflexivity|split; intros; exfalso; lia]. }
  assert (Hwe : DiskQueue.diskWriteEnd (if DiskQueue.needSync d then DiskQueue.sync d else d) = we)
    by (destruct (DiskQueue.needSync d); reflexivity).
  rewrite !Hwe.
  destruct (Z.gtb_spec offset (DiskQueue.virtualEnd we)) as [H3|H3].
  { intros [= <- <- <-]. split; [reflexivity|split; intros; exfalso; lia]. }
  assert (Hb : int64 (DiskQueue.virtualEnd we - DiskQueue.Pos (DiskQueue.EndOffset we))
               = DiskQueue.virtualEnd we - DiskQueue.Pos (DiskQueue.EndOffset we)).
  { apply int64_small. unfold is_int64. lia. }
  rewrite Hb.
  destruct (Z.ltb_spec offset (DiskQueue.virtualEnd we - DiskQueue.Pos (DiskQueue.EndOffset we)))
    as [H4|H4].
  { intros [= <- <- <-]. split; [reflexivity|split; intros; exfalso; lia]. }
  intros [= <- <- <-].
  unfold DiskQueue.truncateDiskQueueToWriteEnd. cbn.
  assert (Hn : int64 (DiskQueue.totalMsgCnt we + int64 (- diffCnt))
               = DiskQueue.totalMsgCnt we - diffCnt).
  { rewrite (int64_small (- diffCnt)) by (unfold is_int64; lia).
    apply int64_small. unfold is_int64. lia. }
  split; [intros; exfalso; lia|]. split; [|reflexivity].
  intros _. repeat split. exact Hn.
Qed.

(** C4.  [RollbackWriteV2] at a count that does not fit a signed 64-bit
    integer.  The writer holds 5 messages, its queue starts at 0 and its
    write end is at offset 100.  Rolling back to offset 40 by
    [2^64 - 1] messages would take the count below that of the queue
    start, yet the call returns no error and the count goes up by one. *)
Theorem rollback_write_huge_count :
  let d := exampleWriter 100 in
  DiskQueue.totalMsgCnt (DiskQueue.diskWriteEnd d) - (2 ^ 64 - 1)
    < DiskQueue.totalMsgCnt (DiskQueue.diskQueueStart d)
  /\ snd (snd (DiskQueue.RollbackWriteV2 d 40 (2 ^ 64 - 1))) = None
  /\ DiskQueue.totalMsgCnt (DiskQueue.diskWriteEnd (fst (DiskQueue.RollbackWriteV2 d 40 (2 ^ 64 - 1))))
     = DiskQueue.totalMsgCnt (DiskQueue.diskWriteEnd d) + 1.
Proof. vm_compute. repeat split. Qed.

(** * Store invariants *)

Section Invariants.
Context {C : Codec}.

Lemma storeWf_empty ext : storeWf ext emptyKV.
Proof.
  repeat split; try apply sorted_nil. intros k v. discriminate.
Qed.

Lemma storeOk_empty ext : storeOk ext 0 emptyKV.
Proof.
  split; [apply storeWf_empty|]. split; [|cbn; lia].
  intros dt ch. split; [reflexivity|discriminate].
Qed.

Lemma Put_ok k v b b' :
  Bolt.Put k v b = Ok b' -> b' = Bolt.insert k v b /\ len k <= Bolt.MaxKeySize.
Proof.
  unfold Bolt.Put. destruct (len k =? 0); [discriminate|].
  destruct (Z.gtb_spec (len k) Bolt.MaxKeySize); [discriminate|].
  destruct (len v >? Bolt.MaxValueSize); [discriminate|].
  intros [= <-]. auto.
Qed.

Lemma key_channel_short (m : Message) :
  len (msgKeyOf m) <= Bolt.MaxKeySize -> len (DelayedChannel m) < 65536.
Proof.
  unfold msgKeyOf, len, Bolt.MaxKeySize. rewrite length_key. lia.
Qed.

(** [deleteMsgIndex] on a decodable record drops that message's row. *)
Lemma deleteMsgIndex_ok old m tx ext :
  DecodeDelayedMessage old ext = Some m ->
  deleteMsgIndex old tx ext
  = (withIndex tx (Bolt.Delete (indexKeyOf m) (delayed_message_index tx)), None).
Proof. unfold deleteMsgIndex. now intros ->. Qed.

Lemma readCounter_insert_same b k x :
  readCounter (Bolt.insert k (PutUint64 x) b) k = uint64 x.
Proof.
  unfold readCounter. rewrite Get_insert_same.
  unfold len. rewrite length_PutUint64. cbn. apply Uint_PutUint64.
Qed.

Lemma readCounter_insert_other b k k' v :
  k <> k' -> readCounter (Bolt.insert k v b) k' = readCounter b k'.
Proof. intros H. unfold readCounter. now rewrite Get_insert_other. Qed.

Lemma readCounter_range b k : 0 <= readCounter b k < 2 ^ 64.
Proof.
  unfold readCounter. destruct (Bolt.Get k b) as [cb|]; [|lia].
  destruct (Z.eqb_spec (len cb) 8) as [E|]; [|lia].
  pose proof (Uint_range cb) as H. rewrite E in H.
  change (256 ^ 8) with (2 ^ 64) in H. lia.
Qed.

(** A stored key lies under the prefix of [(dt, ch)] exactly when the prefix
    is that of the key's own message. *)
Lemma HasPrefix_msgKey (m : Message) (dt : Z) (ch : bytes) :
  len (DelayedChannel m) < 65536 ->
  HasPrefix (msgKeyOf m) (getDelayedMsgDBPrefixKey dt ch) = true <->
  getDelayedMsgDBPrefixKey dt ch
  = getDelayedMsgDBPrefixKey (DelayedType m) (DelayedChannel m).
Proof.
  intros Hc. unfold msgKeyOf. split.
  - intros H. apply HasPrefix_key_inv in H as [HA ->]; [|assumption].
    unfold getDelayedMsgDBPrefixKey. now rewrite HA.
  - intros ->. apply HasPrefix_key_prefix.
Qed.

Lemma counterKey_eq_dec (dt dt' : Z) (ch ch' : bytes) :
  {counterKey dt ch = counterKey dt' ch'} + {counterKey dt ch <> counterKey dt' ch'}.
Proof.
  destruct (bytes_eqb (counterKey dt ch) (counterKey dt' ch')) eqn:E.
  - left. now apply bytes_eqb_eq.
  - right. now apply bytes_eqb_neq.
Qed.

(** The three outcomes of a successful [putTx]: the record is already
    there, it replaces another record under the same key, or the key is new. *)
Lemma putTx_ok m buf off ext tx tx' :
  putTx m (msgKeyOf m) buf off ext tx = (tx', None) ->
  (Bolt.Get (msgKeyOf m) (delayed_message tx) = Some buf
   /\ tx' = withMeta tx (Bolt.insert syncedOffsetKey (Itoa off) (meta tx)))
  \/ (exists old mo,
        Bolt.Get (msgKeyOf m) (delayed_message tx) = Some old /\ old <> buf
        /\ DecodeDelayedMessage old ext = Some mo
        /\ len (msgKeyOf m) <= Bolt.MaxKeySize
        /\ tx' = {| delayed_message := Bolt.insert (msgKeyOf m) buf (delayed_message tx);
                    delayed_message_index :=
                      Bolt.insert (indexKeyOf m) (indexValueOf m)
                        (Bolt.Delete (indexKeyOf mo) (delayed_message_index tx));
                    meta := Bolt.insert syncedOffsetKey (Itoa off) (meta tx) |})
  \/ (Bolt.Get (msgKeyOf m) (delayed_message tx) = None
      /\ len (msgKeyOf m) <= Bolt.MaxKeySize
      /\ tx' = {| delayed_message := Bolt.insert (msgKeyOf m) buf (delayed_message tx);
                  delayed_message_index :=
                    Bolt.insert (indexKeyOf m) (indexValueOf m) (delayed_message_index tx);
                  meta :=
                    Bolt.insert syncedOffsetKey (Itoa off) (Bolt.insert (counterKey (DelayedType m) (DelayedChannel m))
                            (PutUint64
                               (uint64
                                  (readCounter (meta tx)
                                     (counterKey (DelayedType m) (DelayedChannel m)) + 1)))
                            (meta tx)) |}).
Proof.
  unfold putTx. intros H.
  destruct (Bolt.Get (msgKeyOf m) (delayed_message tx)) as [old|] eqn:EG.
  - cbn [andb negb] in H.
    destruct (bytes_eqb old buf) eqn:Eb.
    + apply bytes_eqb_eq in Eb. subst old. left.
      destruct (Bolt.Put syncedOffsetKey _ _) as [bm|e] eqn:EP; [|discriminate].
      apply Put_ok in EP as [-> _]. injection H as <-. auto.
    + apply bytes_eqb_neq in Eb. right. left.
      destruct (Bolt.Put (msgKeyOf m) buf _) as [b|e] eqn:EP; [|discriminate].
      apply Put_ok in EP as [-> Hlen].
      unfold deleteMsgIndex in H.
      destruct (DecodeDelayedMessage old ext) as [mo|] eqn:ED; [|discriminate].
      cbn [delayed_message_index withMsgs withIndex] in H.
      destruct (Bolt.Put (getDelayedMsgDBIndexKey _ _ _) _ _) as [bi|e] eqn:EI; [|discriminate].
      apply Put_ok in EI as [-> _].
      cbn [meta withMsgs withIndex] in H.
      destruct (Bolt.Put syncedOffsetKey _ _) as [bm|e] eqn:ES; [|discriminate].
      apply Put_ok in ES as [-> _]. injection H as <-.
      exists old, mo. repeat split; auto.
  - cbn [andb negb] in H. right. right.
    destruct (Bolt.Put (msgKeyOf m) buf _) as [b|e] eqn:EP; [|discriminate].
    apply Put_ok in EP as [-> Hlen].
    cbn [delayed_message_index withMsgs withIndex] in H.
    destruct (Bolt.Put (getDelayedMsgDBIndexKey _ _ _) _ _) as [bi|e] eqn:EI; [|discriminate].
    apply Put_ok in EI as [-> _].
    cbn [meta withMsgs withIndex] in H.
    destruct (Bolt.Put (counterKey _ _) _ _) as [bc|e] eqn:EC; [|discriminate].
    apply Put_ok in EC as [-> _].
    cbn [meta withMsgs withIndex withMeta] in H.
    destruct (Bolt.Put syncedOffsetKey _ _) as [bm|e] eqn:ES; [|discriminate].
    apply Put_ok in ES as [-> _]. injection H as <-.
    repeat split; auto.
Qed.

Lemma entriesOk_insert `{!CodecOk C} ext kv m ix mt :
  entriesOk ext kv -> wfMessage m -> len (msgKeyOf m) <= Bolt.MaxKeySize ->
  entriesOk ext
    {| delayed_message := Bolt.insert (msgKeyOf m) (WriteDelayedTo m ext) (delayed_message kv);
       delayed_message_index := ix; meta := mt |}.
Proof.
  intros He Hw Hl k v. cbn [delayed_message].
  destruct (bytes_eqb (msgKeyOf m) k) eqn:E.
  - apply bytes_eqb_eq in E. subst k. rewrite Get_insert_same. intros [= <-].
    exists m. split; [now apply decode_encode|auto].
  - apply bytes_eqb_neq in E. rewrite Get_insert_other by assumption. apply He.
Qed.

Lemma putTx_storeWf `{!CodecOk C} m off ext tx tx' :
  storeWf ext tx -> wfMessage m ->
  putTx m (msgKeyOf m) (WriteDelayedTo m ext) off ext tx = (tx', None) ->
  storeWf ext tx'.
Proof.
  intros (S1 & S2 & S3 & He) Hw H.
  apply putTx_ok in H as [[_ ->]|[(old & mo & _ & _ & _ & Hl & ->)|(_ & Hl & ->)]].
  - repeat split; auto. now apply sorted_insert.
  - repeat split; cbn [delayed_message delayed_message_index meta].
    + now apply sorted_insert.
    + now apply sorted_insert, sorted_Delete.
    + now apply sorted_insert.
    + now apply entriesOk_insert.
  - repeat split; cbn [delayed_message delayed_message_index meta].
    + now apply sorted_insert.
    + now apply sorted_insert.
    + now apply sorted_insert, sorted_insert.
    + now apply entriesOk_insert.
Qed.

Lemma countersOk_sync kv off ix :
  countersOk kv ->
  countersOk {| delayed_message := delayed_message kv; delayed_message_index := ix;
                meta := Bolt.insert syncedOffsetKey (Itoa off) (meta kv) |}.
Proof.
  intros Hc dt ch. destruct (Hc dt ch) as [H1 H2].
  assert (Hne : syncedOffsetKey <> counterKey dt ch)
    by (intros E; symmetry in E; revert E; apply counterKey_not_synced).
  cbn [meta]. split.
  - rewrite readCounter_insert_other by assumption. exact H1.
  - intros cb. rewrite Get_insert_other by assumption. apply H2.
Qed.

Lemma keyCount_le kv dt ch : keyCount kv dt ch <= Z.of_nat (length (delayed_message kv)).
Proof. unfold keyCount. pose proof (countKeys_le_length (fun k => HasPrefix k (getDelayedMsgDBPrefixKey dt ch)) (delayed_message kv)). lia. Qed.

Lemma putTx_storeOk `{!CodecOk C} m off ext n tx tx' :
  storeOk ext n tx -> wfMessage m -> Z.of_nat n + 1 < 2 ^ 64 ->
  putTx m (msgKeyOf m) (WriteDelayedTo m ext) off ext tx = (tx', None) ->
  storeOk ext (S n) tx'.
Proof.
  intros (Hwf & Hc & Hn) Hw Hb H.
  split; [eapply putTx_storeWf; eassumption|].
  apply putTx_ok in H as [[_ ->]|[(old & mo & HG & _ & _ & Hl & ->)|(HG & Hl & ->)]].
  - split; [|cbn; lia]. apply (countersOk_sync tx off (delayed_message_index tx) Hc).
  - split.
    + intros dt ch.
      pose proof (countersOk_sync tx off (delayed_message_index tx) Hc dt ch) as [H1 H2].
      cbn [meta] in *. split; [|exact H2]. rewrite H1. unfold keyCount. cbn [delayed_message].
      now rewrite (countKeys_insert_old _ _ _ _ _ HG).
    + cbn [delayed_message]. pose proof (length_insert_le (msgKeyOf m) (WriteDelayedTo m ext) (delayed_message tx)).
      assert (length (Bolt.insert (msgKeyOf m) (WriteDelayedTo m ext) (delayed_message tx)) = length (delayed_message tx)); [|lia].
      { clear - HG. revert HG. generalize (delayed_message tx) as b.
        induction b as [|[k1 v1] b IH]; cbn [Bolt.Get Bolt.insert length]; [discriminate|].
        destruct (bytes_compare (msgKeyOf m) k1); try discriminate; cbn [length]; auto. }
  - split; [|cbn [delayed_message];
             pose proof (length_insert_le (msgKeyOf m) (WriteDelayedTo m ext) (delayed_message tx)); lia].
    pose proof (key_channel_short m Hl) as Hch.
    set (ck := counterKey (DelayedType m) (DelayedChannel m)).
    intros dt ch. destruct (Hc dt ch) as [H1 H2].
    assert (Hne : syncedOffsetKey <> counterKey dt ch)
      by (intros E; symmetry in E; revert E; apply counterKey_not_synced).
    cbn [meta]. unfold keyCount. cbn [delayed_message].
    rewrite (countKeys_insert_new _ _ _ _ HG).
    destruct (counterKey_eq_dec (DelayedType m) dt (DelayedChannel m) ch) as [E|E].
    + fold ck in E. rewrite <- E.
      assert (Hp : HasPrefix (msgKeyOf m) (getDelayedMsgDBPrefixKey dt ch) = true).
      { apply HasPrefix_msgKey; [assumption|]. symmetry. now apply counterKey_inj. }
      rewrite Hp. split.
      * rewrite readCounter_insert_other by (rewrite E; assumption).
        rewrite readCounter_insert_same.
        destruct (Hc (DelayedType m) (DelayedChannel m)) as [H1' _]. fold ck in H1'.
        rewrite H1'. pose proof (keyCount_le tx (DelayedType m) (DelayedChannel m)).
        assert (0 <= keyCount tx (DelayedType m) (DelayedChannel m)) by (unfold keyCount; lia).
        rewrite uint64_idem, uint64_small by (unfold is_uint64; lia).
        unfold keyCount. 
        replace (getDelayedMsgDBPrefixKey dt ch)
          with (getDelayedMsgDBPrefixKey (DelayedType m) (DelayedChannel m))
          by (now apply counterKey_inj). lia.
      * intros cb. rewrite Get_insert_other by (rewrite E; assumption).
        rewrite Get_insert_same. intros [= <-]. unfold len. now rewrite length_PutUint64.
    + assert (Hp : HasPrefix (msgKeyOf m) (getDelayedMsgDBPrefixKey dt ch) = false).
      { destruct (HasPrefix (msgKeyOf m) (getDelayedMsgDBPrefixKey dt ch)) eqn:Hp; [|reflexivity]. exfalso. apply E.
        apply HasPrefix_msgKey in Hp; [|assumption]. unfold ck, counterKey. now rewrite Hp. }
      rewrite Hp. fold ck in E. split.
      * rewrite !readCounter_insert_other by assumption. exact H1.
      * intros cb. rewrite !Get_insert_other by assumption. apply H2.
Qed.

End Invariants.

(** * Deleting a key *)

Section DeleteFacts.
Context {C : Codec}.

(** The outcomes of [deleteBucketKey]. *)
Lemma deleteBucketKey_cases dt ch ts id tx ext tx' r :
  deleteBucketKey dt ch ts id tx ext = (tx', r) ->
  let K := getDelayedMsgDBKey dt ch ts id in
  let cnt := readCounter (meta tx) (counterKey dt ch) in
  (Bolt.Get K (delayed_message tx) = None /\ r = Some errBucketKeyNotFound /\ tx' = tx)
  \/ exists old,
       Bolt.Get K (delayed_message tx) = Some old /\
       ((DecodeDelayedMessage old ext = None /\ r = Some errDecodeMessage)
        \/ exists mo,
             DecodeDelayedMessage old ext = Some mo /\
             let tx2 :=
               {| delayed_message := Bolt.Delete K (delayed_message tx);
                  delayed_message_index :=
                    Bolt.Delete (indexKeyOf mo) (delayed_message_index tx);
                  meta := meta tx |} in
             ((cnt <= 0 /\ r = None /\ tx' = tx2)
              \/ (0 < cnt /\ r = None /\
                  tx' = withMeta tx2
                          (Bolt.insert (counterKey dt ch) (PutUint64 (cnt - 1)) (meta tx)))
              \/ (0 < cnt /\ exists e, r = Some e /\ storeError e))).
Proof.
  intros H K cnt. unfold deleteBucketKey in H. fold K in H. fold cnt in H.
  destruct (Bolt.Get K (delayed_message tx)) as [old|] eqn:EG.
  - right. exists old. split; [reflexivity|].
    unfold deleteMsgIndex in H.
    destruct (DecodeDelayedMessage old ext) as [mo|] eqn:ED.
    + right. exists mo. split; [reflexivity|].
      cbn [meta withIndex withMsgs delayed_message_index] in H. fold cnt in H.
      destruct (Z.gtb_spec cnt 0) as [Hc|Hc].
      * destruct (Bolt.Put _ _ _) as [b|e] eqn:EP.
        -- apply Put_ok in EP as [-> _]. injection H as <- <-. right. left. auto.
        -- injection H as <- <-. right. right. split; [assumption|].
           exists e. split; [reflexivity|]. apply Put_error in EP. unfold storeError. tauto.
      * injection H as <- <-. left. auto.
    + injection H as <- <-. left. auto.
  - left. injection H as <- <-. repeat split.
    rewrite Delete_absent by assumption. now destruct tx.
Qed.

Lemma entriesOk_Delete ext kv k ix mt :
  Bolt.sorted (delayed_message kv) -> entriesOk ext kv ->
  entriesOk ext {| delayed_message := Bolt.Delete k (delayed_message kv);
                   delayed_message_index := ix; meta := mt |}.
Proof.
  intros Hs He k' v. cbn [delayed_message].
  destruct (bytes_eqb k k') eqn:E.
  - apply bytes_eqb_eq in E. subst k'. now rewrite Get_Delete_same.
  - apply bytes_eqb_neq in E. rewrite Get_Delete_other by assumption. apply He.
Qed.

Lemma deleteBucketKey_storeWf dt ch ts id tx ext tx' r :
  storeWf ext tx ->
  deleteBucketKey dt ch ts id tx ext = (tx', r) ->
  r = None \/ r = Some errBucketKeyNotFound ->
  storeWf ext tx'.
Proof.
  intros (S1 & S2 & S3 & He) H Hr.
  apply deleteBucketKey_cases in H. cbv zeta in H.
  destruct H as [(_ & _ & ->)|(old & HG & [[_ ->]|(mo & HD & H)])].
  - repeat split; assumption.
  - destruct Hr; discriminate.
  - destruct H as [(_ & _ & ->)|[(_ & _ & ->)|(_ & e & -> & Hs)]].
    + repeat split; cbn [delayed_message delayed_message_index meta]; auto using sorted_Delete.
      now apply entriesOk_Delete.
    + repeat split; cbn [delayed_message delayed_message_index meta withMeta];
        auto using sorted_Delete, sorted_insert.
      now apply entriesOk_Delete.
    + unfold storeError in Hs. destruct Hr as [|[= ->]]; [discriminate|].
      repeat (destruct Hs as [Hs|Hs]; try discriminate).
Qed.

(** Deleting a stored key keeps every counter equal to its key count. *)
Lemma deleteBucketKey_storeOk dt ch ts id tx ext n tx' r :
  storeOk ext n tx ->
  deleteBucketKey dt ch ts id tx ext = (tx', r) ->
  r = None \/ r = Some errBucketKeyNotFound ->
  storeOk ext n tx'
  /\ (r = None ->
      exists old, Bolt.Get (getDelayedMsgDBKey dt ch ts id) (delayed_message tx) = Some old
      /\ delayed_message tx' = Bolt.Delete (getDelayedMsgDBKey dt ch ts id) (delayed_message tx))
  /\ (r = Some errBucketKeyNotFound -> tx' = tx).
Proof.
  intros (Hwf & Hc & Hn) H Hr.
  pose proof (deleteBucketKey_storeWf _ _ _ _ _ _ _ _ Hwf H Hr) as Hwf'.
  destruct Hwf as (S1 & S2 & S3 & He).
  apply deleteBucketKey_cases in H. cbv zeta in H.
  set (K := getDelayedMsgDBKey dt ch ts id) in *.
  destruct H as [(_ & Er & Et)|(old & HG & [[_ Er]|(mo & HD & H)])].
  - subst r tx'. split; [split; [exact Hwf'|split; assumption]|].
    split; [discriminate|reflexivity].
  - subst r. destruct Hr; discriminate.
  - destruct (He _ _ HG) as (m & HDm & HK & Hl).
    pose proof (key_channel_short m) as Hch. rewrite <- HK in Hch. specialize (Hch Hl).
    assert (HpK : HasPrefix K (getDelayedMsgDBPrefixKey dt ch) = true)
      by apply HasPrefix_key_prefix.
    assert (Hpm : getDelayedMsgDBPrefixKey dt ch
                  = getDelayedMsgDBPrefixKey (DelayedType m) (DelayedChannel m)).
    { apply HasPrefix_msgKey; [assumption|]. now rewrite <- HK. }
    destruct (Hc dt ch) as [Hcnt Hcell].
    assert (Hpos : 0 < readCounter (meta tx) (counterKey dt ch)).
    { rewrite Hcnt. unfold keyCount.
      rewrite (countKeys_Delete _ _ _ _ HG), HpK. lia. }
    assert (Hlen : (length (Bolt.Delete K (delayed_message tx)) <= n)%nat)
      by (pose proof (length_Delete_le K (delayed_message tx)); lia).
    destruct H as [(Hle & _ & _)|[(_ & -> & ->)|(_ & e & -> & Hs)]].
    + lia.
    + split; [|split; [intros _; exists old; auto|discriminate]].
      split; [assumption|]. split; [|exact Hlen].
      intros dt' ch'. destruct (Hc dt' ch') as [H1 H2].
      cbn [meta withMeta]. unfold keyCount. cbn [delayed_message withMeta].
      destruct (counterKey_eq_dec dt dt' ch ch') as [E|E].
      * rewrite <- E. rewrite readCounter_insert_same. split.
        -- pose proof (readCounter_range (meta tx) (counterKey dt ch)).
           rewrite uint64_small by (unfold is_uint64; lia).
           rewrite Hcnt. unfold keyCount.
           rewrite (countKeys_Delete _ _ _ _ HG), HpK.
           apply counterKey_inj in E. rewrite <- E. lia.
        -- intros cb. rewrite Get_insert_same. intros [= <-].
           unfold len. now rewrite length_PutUint64.
      * assert (Hp : HasPrefix K (getDelayedMsgDBPrefixKey dt' ch') = false).
        { destruct (HasPrefix K (getDelayedMsgDBPrefixKey dt' ch')) eqn:Hp; [|reflexivity]. exfalso. apply E.
          rewrite HK in Hp. apply HasPrefix_msgKey in Hp; [|assumption].
          unfold counterKey. now rewrite Hpm, Hp. }
        split.
        -- rewrite readCounter_insert_other by assumption. rewrite H1. unfold keyCount.
           rewrite (countKeys_Delete (fun k => HasPrefix k (getDelayedMsgDBPrefixKey dt' ch')) _ _ _ HG), Hp.
           reflexivity.
        -- intros cb. rewrite Get_insert_other by assumption. apply H2.
    + unfold storeError in Hs. destruct Hr as [|[= ->]]; [discriminate|].
      repeat (destruct Hs as [Hs|Hs]; try discriminate).
Qed.

End DeleteFacts.

(** * The emptying passes *)

Section ScanFacts.
Context {C : Codec}.

Lemma sorted_app_r {V} (a b : Bolt.Bucket V) : Bolt.sorted (a ++ b) -> Bolt.sorted b.
Proof.
  induction a as [|[k v] a IH]; [auto|]. cbn [app]. intros H.
  apply sorted_cons_inv in H as [H _]. auto.
Qed.

Lemma ahead_Seek seek tx :
  Bolt.sorted (delayed_message tx) -> ahead (Bolt.Seek seek (delayed_message tx)) tx.
Proof.
  intros Hs. destruct (Seek_suffix seek (delayed_message tx)) as [pre E].
  split.
  - rewrite E in Hs. now apply sorted_app_r in Hs.
  - intros k v Hin. exists v. apply Get_In; [assumption|].
    rewrite E. apply in_or_app. now right.
Qed.

Lemma ahead_tail k v cur tx : ahead ((k, v) :: cur) tx -> ahead cur tx.
Proof.
  intros [Hs Hp]. apply sorted_cons_inv in Hs as [Hs _]. split; [assumption|].
  intros k' v' Hin. apply (Hp k' v'). now right.
Qed.

Lemma ahead_Delete k v cur tx tx' :
  ahead ((k, v) :: cur) tx -> Bolt.sorted (delayed_message tx) ->
  delayed_message tx' = Bolt.Delete k (delayed_message tx) ->
  ahead cur tx'.
Proof.
  intros [Hs Hp] Hst E. apply sorted_cons_inv in Hs as [Hs Hb]. split; [assumption|].
  intros k' v' Hin. destruct (Hp k' v' (or_intror Hin)) as [v'' HG].
  exists v''. rewrite E, Get_Delete_other; [assumption| |assumption].
  intros ->. unfold below in Hb. rewrite Forall_forall in Hb.
  apply Hb in Hin. now apply bytes_lt_irrefl in Hin.
Qed.

(** Decoding a stored key and building the key again gives the same key. *)
Lemma stored_key_decode ext tx k v :
  entriesOk ext tx -> Bolt.Get k (delayed_message tx) = Some v ->
  exists m, k = msgKeyOf m /\ len (DelayedChannel m) < 65536 /\
    decodeDelayedMsgDBKey k
    = Ok (uint16 (DelayedType m), int64 (DelayedTs m), uint64 (ID m), DelayedChannel m).
Proof.
  intros He HG. destruct (He _ _ HG) as (m & _ & -> & Hl).
  pose proof (key_channel_short m Hl) as Hc.
  exists m. repeat split; auto. unfold msgKeyOf. now apply decode_key.
Qed.

Lemma rebuild_key (t : Z) (c : bytes) (ts id : Z) :
  getDelayedMsgDBKey (uint16 t) c (int64 ts) (uint64 id) = getDelayedMsgDBKey t c ts id.
Proof.
  unfold getDelayedMsgDBKey. now rewrite uint16_idem, uint64_int64, uint64_idem.
Qed.

Lemma rebuild_key_prefix (m : Message) (dt : Z) (ch : bytes) :
  len (DelayedChannel m) < 65536 ->
  HasPrefix (msgKeyOf m) (getDelayedMsgDBPrefixKey dt ch) = true ->
  getDelayedMsgDBKey dt ch (int64 (DelayedTs m)) (uint64 (ID m)) = msgKeyOf m.
Proof.
  intros Hc Hp. unfold msgKeyOf in *. apply HasPrefix_key_inv in Hp as [HA ->]; [|assumption].
  unfold getDelayedMsgDBKey. now rewrite HA, uint64_int64, uint64_idem.
Qed.

Variable ext : bool.
Variable I : KV -> Prop.
Hypothesis I_wf : forall tx, I tx -> storeWf ext tx.
Hypothesis I_delete : forall dt ch ts id tx tx',
  I tx -> deleteBucketKey dt ch ts id tx ext = (tx', None) -> I tx'.

Lemma deleteBucketKey_found dt ch ts id tx tx' r old :
  Bolt.Get (getDelayedMsgDBKey dt ch ts id) (delayed_message tx) = Some old ->
  deleteBucketKey dt ch ts id tx ext = (tx', r) ->
  r <> Some errBucketKeyNotFound /\
  (r = None ->
   delayed_message tx' = Bolt.Delete (getDelayedMsgDBKey dt ch ts id) (delayed_message tx)).
Proof.
  intros HG H. apply deleteBucketKey_cases in H. cbv zeta in H.
  destruct H as [(E & _ & _)|(old' & _ & [[_ Er]|(mo & _ & H)])].
  - congruence.
  - subst r. split; [discriminate|discriminate].
  - destruct H as [(_ & Er & Et)|[(_ & Er & Et)|(_ & e & Er & Hs)]]; subst r.
    + split; [discriminate|]. intros _. now subst tx'.
    + split; [discriminate|]. intros _. now subst tx'.
    + split; [|discriminate]. unfold storeError in Hs. intros [= ->].
      repeat (destruct Hs as [Hs|Hs]; try discriminate).
Qed.

Lemma emptyUntilScan_inv dt peekTs id ch cur :
  forall batched tx tx' b',
    I tx -> ahead cur tx ->
    emptyUntilScan ext (getDelayedMsgDBPrefixKey dt ch) dt peekTs id ch cur batched tx
    = (tx', b', None) ->
    I tx' /\ batched <= b' /\
    Z.of_nat (length (delayed_message tx')) + (b' - batched)
    = Z.of_nat (length (delayed_message tx)).
Proof.
  induction cur as [|[k v] cur IH]; intros batched tx tx' b' HI Ha; cbn [emptyUntilScan].
  { intros [= <- <-]. split; [assumption|lia]. }
  destruct (HasPrefix k (getDelayedMsgDBPrefixKey dt ch)) eqn:Hp; cbn [negb].
  2:{ intros [= <- <-]. split; [assumption|lia]. }
  destruct (batched >? txMaxBatch).
  { intros [= <- <-]. split; [assumption|lia]. }
  pose proof (I_wf _ HI) as (S1 & _ & _ & He).
  destruct (proj2 Ha k v (or_introl eq_refl)) as [v' HG].
  destruct (stored_key_decode _ _ _ _ He HG) as (m & Hk & Hc & ->).
  destruct (int64 (DelayedTs m) >? peekTs).
  { intros [= <- <-]. split; [assumption|lia]. }
  destruct ((int64 (DelayedTs m) =? peekTs) && (uint64 (ID m) >=? id)).
  { intros [= <- <-]. split; [assumption|lia]. }
  destruct (bytes_eqb (DelayedChannel m) ch) eqn:Ech; cbn [negb].
  2:{ apply IH; [assumption|]. eapply ahead_tail; eassumption. }
  assert (HK : getDelayedMsgDBKey dt ch (int64 (DelayedTs m)) (uint64 (ID m)) = k).
  { subst k. apply rebuild_key_prefix; assumption. }
  rewrite <- HK in HG.
  destruct (deleteBucketKey dt ch (int64 (DelayedTs m)) (uint64 (ID m)) tx ext)
    as [tx1 r] eqn:Ed.
  destruct (deleteBucketKey_found _ _ _ _ _ _ _ _ HG Ed) as [Hnf Hdel].
  destruct r as [e|].
  - destruct (error_eqb e errBucketKeyNotFound) eqn:Ee; [|discriminate].
    destruct e; try discriminate. congruence.
  - specialize (Hdel eq_refl). rewrite HK in Hdel. intros Hrec.
    apply IH in Hrec.
    + destruct Hrec as (HI' & Hb & Hlen). split; [assumption|].
      rewrite Hdel in Hlen. rewrite HK in HG.
      rewrite (length_Delete _ _ _ HG). lia.
    + eapply I_delete; eassumption.
    + eapply ahead_Delete; eassumption.
Qed.

Lemma emptyAllScan_inv dt ch cur :
  forall batched tx tx' b',
    I tx -> ahead cur tx ->
    emptyAllScan ext (getDelayedMsgDBPrefixKey dt ch) dt ch cur batched tx
    = (tx', b', None) ->
    I tx' /\ batched <= b' /\
    Z.of_nat (length (delayed_message tx')) + (b' - batched)
    = Z.of_nat (length (delayed_message tx)).
Proof.
  induction cur as [|[k v] cur IH]; intros batched tx tx' b' HI Ha; cbn [emptyAllScan].
  { intros [= <- <-]. split; [assumption|lia]. }
  destruct (HasPrefix k (getDelayedMsgDBPrefixKey dt ch)) eqn:Hp; cbn [negb].
  2:{ intros [= <- <-]. split; [assumption|lia]. }
  destruct (batched >? txMaxBatch).
  { intros [= <- <-]. split; [assumption|lia]. }
  pose proof (I_wf _ HI) as (S1 & _ & _ & He).
  destruct (proj2 Ha k v (or_introl eq_refl)) as [v' HG].
  destruct (stored_key_decode _ _ _ _ He HG) as (m & Hk & Hc & ->).
  destruct (uint16 (DelayedType m) =? uint16 dt); cbn [negb].
  2:{ apply IH; [assumption|]. eapply ahead_tail; eassumption. }
  destruct (negb (isEmpty ch) && negb (bytes_eqb (DelayedChannel m) ch)).
  { apply IH; [assumption|]. eapply ahead_tail; eassumption. }
  assert (HK : getDelayedMsgDBKey (uint16 (DelayedType m)) (DelayedChannel m)
                 (int64 (DelayedTs m)) (uint64 (ID m)) = k).
  { subst k. apply rebuild_key. }
  rewrite <- HK in HG.
  destruct (deleteBucketKey (uint16 (DelayedType m)) (DelayedChannel m)
              (int64 (DelayedTs m)) (uint64 (ID m)) tx ext) as [tx1 r] eqn:Ed.
  destruct (deleteBucketKey_found _ _ _ _ _ _ _ _ HG Ed) as [Hnf Hdel].
  destruct r as [e|].
  - destruct (error_eqb e errBucketKeyNotFound) eqn:Ee; [|discriminate].
    destruct e; try discriminate. congruence.
  - specialize (Hdel eq_refl). rewrite HK in Hdel. intros Hrec.
    apply IH in Hrec.
    + destruct Hrec as (HI' & Hb & Hlen). split; [assumption|].
      rewrite Hdel in Hlen. rewrite HK in HG.
      rewrite (length_Delete _ _ _ HG). lia.
    + eapply I_delete; eassumption.
    + eapply ahead_Delete; eassumption.
Qed.

Lemma emptyUntilPass_inv dt peekTs id ch kv kv' b err :
  I kv -> emptyUntilPass ext dt peekTs id ch kv = (kv', b, err) ->
  I kv' /\
  (err = None ->
   0 <= b /\
   Z.of_nat (length (delayed_message kv')) + b = Z.of_nat (length (delayed_message kv))).
Proof.
  intros HI. unfold emptyUntilPass, Update.
  destruct (emptyUntilScan _ _ _ _ _ _ _ _ _) as [[tx' b'] err'] eqn:E.
  destruct err' as [e|].
  - intros [= <- <- <-]. split; [assumption|discriminate].
  - intros [= <- <- <-]. apply emptyUntilScan_inv in E; auto.
    + destruct E as (H1 & H2 & H3). split; [assumption|]. intros _. lia.
    + apply ahead_Seek. apply (I_wf _ HI).
Qed.

Lemma emptyAllPass_inv dt ch kv kv' b err :
  I kv -> emptyAllPass ext dt ch kv = (kv', b, err) ->
  I kv' /\
  (err = None ->
   0 <= b /\
   Z.of_nat (length (delayed_message kv')) + b = Z.of_nat (length (delayed_message kv))).
Proof.
  intros HI. unfold emptyAllPass, Update.
  destruct (emptyAllScan _ _ _ _ _ _ _) as [[tx' b'] err'] eqn:E.
  destruct err' as [e|].
  - intros [= <- <- <-]. split; [assumption|discriminate].
  - intros [= <- <- <-]. apply emptyAllScan_inv in E; auto.
    + destruct E as (H1 & H2 & H3). split; [assumption|]. intros _. lia.
    + apply ahead_Seek. apply (I_wf _ HI).
Qed.

Lemma emptyUntilLoop_inv dt peekTs id ch fuel :
  forall kv kv' err,
    I kv -> emptyUntilLoop fuel ext dt peekTs id ch kv = Some (kv', err) -> I kv'.
Proof.
  induction fuel as [|fuel IH]; intros kv kv' err HI; cbn [emptyUntilLoop]; [discriminate|].
  destruct (emptyUntilPass ext dt peekTs id ch kv) as [[kv1 b] e] eqn:E.
  apply emptyUntilPass_inv in E as [H1 _]; [|assumption].
  destruct e; [now intros [= <- <-]|].
  destruct (b =? 0); [now intros [= <- <-]|]. now apply IH.
Qed.

Lemma emptyAllLoop_inv dt ch fuel :
  forall kv kv' err,
    I kv -> emptyAllLoop fuel ext dt ch kv = Some (kv', err) -> I kv'.
Proof.
  induction fuel as [|fuel IH]; intros kv kv' err HI; cbn [emptyAllLoop]; [discriminate|].
  destruct (emptyAllPass ext dt ch kv) as [[kv1 b] e] eqn:E.
  apply emptyAllPass_inv in E as [H1 _]; [|assumption].
  destruct e; [now intros [= <- <-]|].
  destruct (b =? 0); [now intros [= <- <-]|]. now apply IH.
Qed.

(** The loops end within the number of stored keys plus one passes. *)
Lemma emptyUntilLoop_returns dt peekTs id ch fuel :
  forall kv, I kv -> (length (delayed_message kv) < fuel)%nat ->
    exists r, emptyUntilLoop fuel ext dt peekTs id ch kv = Some r.
Proof.
  induction fuel as [|fuel IH]; intros kv HI Hf; [lia|]. cbn [emptyUntilLoop].
  destruct (emptyUntilPass ext dt peekTs id ch kv) as [[kv1 b] e] eqn:E.
  apply emptyUntilPass_inv in E as [H1 H2]; [|assumption].
  destruct e; [eauto|]. specialize (H2 eq_refl).
  destruct (Z.eqb_spec b 0); [eauto|]. apply IH; [assumption|].
  pose proof (Nat2Z.is_nonneg (length (delayed_message kv1))). lia.
Qed.

Lemma emptyAllLoop_returns dt ch fuel :
  forall kv, I kv -> (length (delayed_message kv) < fuel)%nat ->
    exists r, emptyAllLoop fuel ext dt ch kv = Some r.
Proof.
  induction fuel as [|fuel IH]; intros kv HI Hf; [lia|]. cbn [emptyAllLoop].
  destruct (emptyAllPass ext dt ch kv) as [[kv1 b] e] eqn:E.
  apply emptyAllPass_inv in E as [H1 H2]; [|assumption].
  destruct e; [eauto|]. specialize (H2 eq_refl).
  destruct (Z.eqb_spec b 0); [eauto|]. apply IH; [assumption|].
  pose proof (Nat2Z.is_nonneg (length (delayed_message kv1))). lia.
Qed.

End ScanFacts.

(** * One operation *)

Lemma wfMessage_zero : wfMessage zeroMessage.
Proof. unfold wfMessage, is_uint64, is_int64, is_int32. cbn. lia. Qed.

Lemma wfMessage_setID m i : wfMessage m -> is_uint64 i -> wfMessage (setID m i).
Proof. unfold wfMessage. cbn. tauto. Qed.

Section StepFacts.
Context {C : Codec} `{!CodecOk C}.

Variable ext : bool.
Variables I I' G : KV -> Prop.
Hypothesis I_weaken : forall tx, I tx -> I' tx.
Hypothesis I_wf : forall tx, I tx -> storeWf ext tx.
Hypothesis I_delete : forall dt ch ts id tx tx',
  I tx -> deleteBucketKey dt ch ts id tx ext = (tx', None) -> I tx'.
Hypothesis I_put : forall m off tx tx',
  I tx -> wfMessage m ->
  putTx m (msgKeyOf m) (WriteDelayedTo m ext) off ext tx = (tx', None) ->
  G tx' -> I' tx'.

Lemma putDecode_wf q m0 raw m1 :
  (raw = None -> wfMessage m0) -> putDecode q m0 raw = Ok m1 -> wfMessage m1.
Proof.
  unfold putDecode. destruct raw as [raw|].
  - intros _. destruct (len raw <? 4); [discriminate|].
    destruct (DecodeDelayedMessage _ _) as [m|] eqn:E; [|discriminate].
    intros [= <-]. eapply decode_wf; eassumption.
  - intros H [= <-]. now apply H.
Qed.

Lemma put_inv q m0 raw trace cs q' r :
  IsExt q = ext -> I (kvStore q) -> (raw = None -> wfMessage m0) ->
  put q m0 raw trace cs = (q', r) ->
  isExt q' = isExt q /\ (G (kvStore q') -> I' (kvStore q')).
Proof.
  intros He HI Hw Hp. destruct r as [[[[id off] wb] dend] err].
  apply put_spec in Hp as (E1 & _ & [->|(m1 & m & Hd & Hm & _ & _ & Ht)]).
  - split; [assumption|]. intros _. now apply I_weaken.
  - split; [assumption|]. intros HG. rewrite He in Ht.
    eapply I_put; try eassumption.
    apply putDecode_wf in Hd; [|assumption].
    destruct Hm as [[-> _]|(i & -> & Hi & _)]; [assumption|now apply wfMessage_setID].
Qed.

Lemma ResetBackendEndNoLock_sameStore q vend cnt :
  sameStore q (fst (ResetBackendEndNoLock q vend cnt)).
Proof.
  unfold ResetBackendEndNoLock. destruct (_ && _); [apply sameStore_refl|].
  destruct (DiskQueue.ResetWriteEndV2 _ _ _) as [d [e err]]. repeat split.
Qed.

Lemma IsExt_eq q q' : isExt q' = isExt q -> IsExt q' = IsExt q.
Proof. unfold IsExt. now intros ->. Qed.

Lemma step_inv q op q' err :
  IsExt q = ext -> I (kvStore q) -> wfOp op ->
  step q op = Some (q', err) ->
  IsExt q' = ext /\ (G (kvStore q') -> I' (kvStore q')).
Proof.
  intros He HI Hw. destruct op as [m|raw off cs n|m off cs|msg|dt ts id ch|now dt ch];
    cbn [step wfOp] in *.
  - unfold PutDelayMessage.
    destruct (exitFlag q =? 1); [intros [= <- <-]; auto|].
    destruct (ID m >? 0); [intros [= <- <-]; auto|].
    destruct (negb (IsValidDelayedMessage m)); [intros [= <- <-]; auto|].
    destruct (put q m None true 0) as [q1 [[[[i o] w] de] er]] eqn:Ep.
    intros [= <- <-]. eapply put_inv in Ep; eauto.
    destruct Ep as [E1 E2]. split; [|assumption]. rewrite <- He. now apply IsExt_eq.
  - unfold PutRawDataOnReplica.
    destruct (exitFlag q =? 1); [intros [= <- <-]; auto|].
    destruct (negb _); [intros [= <- <-]; auto|].
    destruct (negb _); [intros [= <- <-]; auto|].
    destruct (put q zeroMessage raw false cs) as [q1 [[[[i o] w] de] er]] eqn:Ep.
    eapply put_inv in Ep; eauto using wfMessage_zero.
    destruct Ep as [E1 E2].
    destruct er as [e|]; intros [= <- <-].
    + destruct (ResetBackendEndNoLock_sameStore q1
                  (DiskQueue.Offset (DiskQueue.GetQueueWriteEnd (backend q)))
                  (DiskQueue.TotalMsgCnt (DiskQueue.GetQueueWriteEnd (backend q))))
        as (K1 & K2 & _).
      rewrite K1. split; [|assumption]. rewrite <- He. apply IsExt_eq. congruence.
    + split; [|assumption]. rewrite <- He. now apply IsExt_eq.
  - unfold PutMessageOnReplica.
    destruct (exitFlag q =? 1); [intros [= <- <-]; auto|].
    destruct (negb _); [intros [= <- <-]; auto|].
    destruct (negb _); [intros [= <- <-]; auto|].
    destruct (put q m None false cs) as [q1 [[[[i o] w] de] er]] eqn:Ep.
    eapply put_inv in Ep; eauto.
    destruct Ep as [E1 E2].
    destruct er as [e|]; intros [= <- <-].
    + destruct (ResetBackendEndNoLock_sameStore q1
                  (DiskQueue.Offset (DiskQueue.GetQueueWriteEnd (backend q)))
                  (DiskQueue.TotalMsgCnt (DiskQueue.GetQueueWriteEnd (backend q))))
        as (K1 & K2 & _).
      rewrite K1. split; [|assumption]. rewrite <- He. apply IsExt_eq. congruence.
    + split; [|assumption]. rewrite <- He. now apply IsExt_eq.
  - unfold ConfirmedMessage, Update, unitTx. rewrite He.
    destruct (deleteBucketKey _ _ _ _ _ _) as [kv e] eqn:Ed. cbn [fst snd].
    destruct e as [e|]; intros [= <- <-]; cbn [kvStore withKV]; (split; [exact He|]);
      intros _; apply I_weaken; [assumption|].
    eapply I_delete; eassumption.
  - unfold emptyDelayedUntil. rewrite He.
    destruct (emptyUntilLoop _ _ _ _ _ _ _) as [[kv e]|] eqn:El; [|discriminate].
    apply (emptyUntilLoop_inv ext I I_wf I_delete) in El; [|assumption].
    destruct e as [e|]; [intros [= <- <-]; cbn; auto|].
    destruct (_ && _); intros [= <- <-]; cbn; auto.
  - unfold emptyAllDelayedType. rewrite He.
    destruct (emptyAllLoop _ _ _ _ _) as [[kv e]|] eqn:El; [|discriminate].
    apply (emptyAllLoop_inv ext I I_wf I_delete) in El; [|assumption].
    destruct e as [e|]; [intros [= <- <-]; cbn; auto|].
    destruct (_ && _); intros [= <- <-]; cbn; auto.
Qed.

(** Every operation returns: the pass bound of the empty operations is
    never reached. *)
Lemma step_returns q op :
  IsExt q = ext -> I (kvStore q) -> exists r, step q op = Some r.
Proof.
  intros He HI. destruct op as [m|raw off cs n|m off cs|msg|dt ts id ch|now dt ch];
    cbn [step].
  - destruct (PutDelayMessage q m) as [q' [[[[? ?] ?] ?] ?]]. eauto.
  - destruct (PutRawDataOnReplica q raw off cs n). eauto.
  - destruct (PutMessageOnReplica q m off cs). eauto.
  - eauto.
  - unfold emptyDelayedUntil, passBound. rewrite He.
    destruct (emptyUntilLoop_returns ext I I_wf I_delete dt ts id ch
                (S (length (delayed_message (kvStore q)))) (kvStore q) HI ltac:(lia))
      as [[kv e] ->].
    destruct e; [eauto|]. destruct (_ && _); eauto.
  - unfold emptyAllDelayedType, passBound. rewrite He.
    destruct (emptyAllLoop_returns ext I I_wf I_delete dt ch
                (S (length (delayed_message (kvStore q)))) (kvStore q) HI ltac:(lia))
      as [[kv e] ->].
    destruct e; [eauto|]. destruct (_ && _); eauto.
Qed.

End StepFacts.

(** * The counters *)

Section Counters.
Context {C : Codec} `{!CodecOk C}.

Lemma storeOk_mono ext n n' kv : (n <= n')%nat -> storeOk ext n kv -> storeOk ext n' kv.
Proof. intros Hn (H1 & H2 & H3). split; [assumption|split; [assumption|lia]]. Qed.

Lemma step_storeOk ext n q op q' err :
  IsExt q = ext -> storeOk ext n (kvStore q) -> wfOp op -> Z.of_nat n + 1 < 2 ^ 64 ->
  step q op = Some (q', err) ->
  IsExt q' = ext /\ storeOk ext (S n) (kvStore q').
Proof.
  intros He HI Hw Hn Hs.
  destruct (step_inv ext (storeOk ext n) (storeOk ext (S n)) (fun _ => True)) with
    (q := q) (op := op) (q' := q') (err := err) as [E1 E2]; auto.
  - intros tx. apply storeOk_mono. lia.
  - intros tx H. apply H.
  - intros dt ch ts id tx tx' H Hd.
    now destruct (deleteBucketKey_storeOk _ _ _ _ _ _ _ _ _ H Hd (or_introl eq_refl)).
  - intros m off tx tx' H Hm Hp _. eapply putTx_storeOk; eassumption.
Qed.

Lemma runOps_storeOk ext ops :
  forall q n q',
    IsExt q = ext -> storeOk ext n (kvStore q) -> Forall wfOp ops ->
    Z.of_nat (n + length ops) < 2 ^ 64 ->
    runOps q ops = Some q' ->
    IsExt q' = ext /\ storeOk ext (n + length ops) (kvStore q').
Proof.
  induction ops as [|op ops IH]; intros q n q' He HI Hw Hn; cbn [runOps length] in *.
  - intros [= <-]. rewrite Nat.add_0_r. auto.
  - destruct (step q op) as [[q1 [e|]]|] eqn:Es; try discriminate.
    intros Hr. pose proof (Forall_inv Hw) as Hw1. pose proof (Forall_inv_tail Hw) as Hw2.
    destruct (step_storeOk ext n q op q1 None He HI Hw1 ltac:(lia) Es) as [He1 HI1].
    replace (n + S (length ops))%nat with (S n + length ops)%nat by lia.
    apply (IH q1 (S n) q' He1 HI1 Hw2); [|assumption].
    replace (S n + length ops)%nat with (n + S (length ops))%nat by lia. assumption.
Qed.

Lemma GetCurrentDelayedCnt_counter q dt ch :
  countersOk (kvStore q) ->
  GetCurrentDelayedCnt q dt ch = Ok (keyCount (kvStore q) dt ch).
Proof.
  intros Hc. destruct (Hc dt ch) as [H1 H2]. unfold GetCurrentDelayedCnt.
  unfold readCounter in H1.
  destruct (Bolt.Get (counterKey dt ch) (meta (kvStore q))) as [cb|]; [|now rewrite <- H1].
  specialize (H2 cb eq_refl). rewrite H2 in *. cbn in H1.
  change (8 <? 8) with false. cbv iota.
  rewrite <- H1. f_equal. f_equal. unfold slice, len in *. cbn [skipn].
  apply firstn_all2. lia.
Qed.

(** C1.  Counter consistency.  Start from an engine whose store is empty
    and run any sequence of put, replica put, confirm and empty operations,
    each of which succeeds, on messages whose fields are in the ranges of
    their Go types.  Then for every type and channel the counter that
    [GetCurrentDelayedCnt] reads is the number of keys of the
    [delayed_message] bucket under the prefix of that type and channel. *)
Theorem counter_consistency (q0 : DelayQueue) (ops : list Op) (q : DelayQueue) :
  kvStore q0 = emptyKV -> Forall wfOp ops -> len ops < 2 ^ 64 ->
  runOps q0 ops = Some q ->
  forall dt ch,
    GetCurrentDelayedCnt q dt ch = Ok (keyCount (kvStore q) dt ch).
Proof.
  intros H0 Hw Hn Hr dt ch. apply GetCurrentDelayedCnt_counter.
  destruct (runOps_storeOk (IsExt q0) ops q0 0 q eq_refl) as [_ (_ & H & _)]; auto.
  rewrite H0. apply storeOk_empty.
Qed.

End Counters.

(** * The plain wire format *)

Module PlainCodecFacts.
Import PlainCodec.

Lemma getUint_PutUint (n : nat) (x : Z) (rest : bytes) :
  getUint n (PutUint n x ++ rest) = Some (x mod 256 ^ Z.of_nat n, rest).
Proof.
  unfold getUint. rewrite length_app, length_PutUint.
  destruct (Nat.ltb_spec (n + length rest) n); [lia|].
  rewrite firstn_app, length_PutUint, Nat.sub_diag, firstn_all2
    by (rewrite length_PutUint; lia).
  cbn [firstn]. rewrite app_nil_r, Uint_PutUint.
  rewrite skipn_app, length_PutUint, Nat.sub_diag, skipn_all2
    by (rewrite length_PutUint; lia).
  reflexivity.
Qed.

Lemma getUint_range (n : nat) (b rest : bytes) (x : Z) :
  getUint n b = Some (x, rest) -> 0 <= x < 256 ^ Z.of_nat n.
Proof.
  unfold getUint. destruct (Nat.ltb_spec (length b) n); [discriminate|].
  intros [= <- _]. pose proof (Uint_range (firstn n b)) as H'.
  unfold len in H'. rewrite length_firstn, Nat.min_l in H' by lia. exact H'.
Qed.

Lemma getStr_putStr (s rest : bytes) : getStr (putStr s ++ rest) = Some (s, rest).
Proof.
  induction s as [|c s IH]; cbn [putStr app getStr].
  - reflexivity.
  - change (Byte.eqb x01 x00) with false. cbv iota. now rewrite IH.
Qed.

Lemma int32_small (z : Z) : is_int32 z -> int32 z = z.
Proof. unfold is_int32, int32. intros. rewrite Z.mod_small; lia. Qed.

Lemma int32_range (z : Z) : is_int32 (int32 z).
Proof.
  unfold is_int32, int32. pose proof (Z.mod_pos_bound (z + 2 ^ 31) (2 ^ 32) ltac:(lia)). lia.
Qed.

Lemma int32_mod (z : Z) : int32 (z mod 2 ^ 32) = int32 z.
Proof. unfold int32. rewrite Zplus_mod, Zmod_mod, <- Zplus_mod. reflexivity. Qed.

Lemma plain_decode_encode (m : Message) (ext : bool) :
  wfMessage m -> decode (encode m ext) ext = Some m.
Proof.
  intros (H1 & H2 & H3 & H4 & H5 & H6). unfold decode, encode, PutUint64.
  rewrite !getUint_PutUint, getStr_putStr.
  change (256 ^ Z.of_nat 8) with (2 ^ 64). change (256 ^ Z.of_nat 4) with (2 ^ 32).
  fold (uint64 (ID m)) (uint64 (TraceID m)) (uint64 (DelayedOrigID m)).
  fold (uint64 (uint64 (Timestamp m))) (uint64 (uint64 (DelayedTs m))).
  rewrite !uint64_idem, !int64_uint64, int32_mod.
  rewrite !uint64_small, !int64_small, int32_small by assumption.
  now destruct m.
Qed.

Lemma plain_decode_wf (b : bytes) (ext : bool) (m : Message) :
  decode b ext = Some m -> wfMessage m.
Proof.
  unfold decode.
  destruct (getUint 8 b) as [[id b1]|] eqn:E1; [|discriminate].
  destruct (getUint 8 b1) as [[tr b2]|] eqn:E2; [|discriminate].
  destruct (getUint 8 b2) as [[st b3]|] eqn:E3; [|discriminate].
  destruct (getUint 4 b3) as [[dt b4]|] eqn:E4; [|discriminate].
  destruct (getUint 8 b4) as [[ts b5]|] eqn:E5; [|discriminate].
  destruct (getUint 8 b5) as [[og b6]|] eqn:E6; [|discriminate].
  destruct (getStr b6) as [[ch body]|]; [|discriminate].
  intros [= <-]. unfold wfMessage. cbn.
  apply getUint_range in E1, E2, E6.
  change (256 ^ Z.of_nat 8) with (2 ^ 64) in *.
  repeat split; try apply int64_range; try apply int32_range; unfold is_uint64; lia.
Qed.

#[export] Instance codecOk : CodecOk codec.
Proof. split; [exact plain_decode_encode|exact plain_decode_wf]. Qed.

End PlainCodecFacts.

(** * Keys and index rows *)

Section Pairing.
Context {C : Codec}.

Lemma distinct_NoDup l : distinct l = true -> NoDup l.
Proof.
  induction l as [|x l IH]; cbn [distinct]; [constructor|].
  intros H. apply andb_true_iff in H as [H1 H2]. constructor; [|auto].
  intros Hin. apply negb_true_iff in H1.
  assert (existsb (bytes_eqb x) l = true); [|congruence].
  apply existsb_exists. exists x. split; [assumption|apply bytes_eqb_refl].
Qed.

Lemma indexKeysOf_In ext b k v m :
  In (k, v) b -> DecodeDelayedMessage v ext = Some m -> In (indexKeyOf m) (indexKeysOf ext b).
Proof.
  intros Hin Hd. unfold indexKeysOf. apply in_flat_map. exists (k, v).
  split; [assumption|]. cbn [snd]. rewrite Hd. now left.
Qed.

Lemma NoDup_unique ext b :
  NoDup (indexKeysOf ext b) ->
  forall k1 v1 m1 k2 v2 m2,
    In (k1, v1) b -> DecodeDelayedMessage v1 ext = Some m1 ->
    In (k2, v2) b -> DecodeDelayedMessage v2 ext = Some m2 ->
    indexKeyOf m1 = indexKeyOf m2 -> (k1, v1) = (k2, v2).
Proof.
  induction b as [|[k v] b IH]; intros Hn k1 v1 m1 k2 v2 m2 H1 D1 H2 D2 E; [destruct H1|].
  cbn [indexKeysOf flat_map snd] in Hn. fold (indexKeysOf ext b) in Hn.
  destruct H1 as [[= -> ->]|H1], H2 as [[= -> ->]|H2].
  - reflexivity.
  - exfalso. rewrite D1 in Hn. cbn [app] in Hn. apply NoDup_cons_iff in Hn as [Hn _].
    apply Hn. rewrite E. eapply indexKeysOf_In; eassumption.
  - exfalso. rewrite D2 in Hn. cbn [app] in Hn. apply NoDup_cons_iff in Hn as [Hn _].
    apply Hn. rewrite <- E. eapply indexKeysOf_In; eassumption.
  - apply (IH (NoDup_app_remove_l _ _ Hn) k1 v1 m1 k2 v2 m2); assumption.
Qed.

Lemma distinctOrig_unique ext kv :
  Bolt.sorted (delayed_message kv) -> distinctOrig ext kv = true -> uniqueOrig ext kv.
Proof.
  intros Hs Hd k1 v1 m1 k2 v2 m2 G1 D1 G2 D2 E.
  apply Get_In in G1, G2; try assumption.
  apply distinct_NoDup in Hd.
  now injection (NoDup_unique ext _ Hd _ _ _ _ _ _ G1 D1 G2 D2 E).
Qed.

Context `{!CodecOk C}.

Lemma putTx_rowsMatched ext m off tx tx' :
  storeWf ext tx -> wfMessage m -> rowsMatched ext tx ->
  putTx m (msgKeyOf m) (WriteDelayedTo m ext) off ext tx = (tx', None) ->
  rowsMatched ext tx'.
Proof.
  intros (S1 & S2 & S3 & He) Hw Hr H.
  pose proof (decode_encode m ext Hw) as Hde.
  apply putTx_ok in H as [[_ ->]|[(old & mo & HG & _ & HD & Hl & ->)|(HG & Hl & ->)]].
  - exact Hr.
  - intros ik iv. cbn [delayed_message delayed_message_index].
    destruct (bytes_eqb (indexKeyOf m) ik) eqn:E.
    + apply bytes_eqb_eq in E. subst ik. rewrite Get_insert_same. intros [= <-].
      exists (msgKeyOf m), (WriteDelayedTo m ext), m. rewrite Get_insert_same. auto.
    + apply bytes_eqb_neq in E. rewrite Get_insert_other by assumption.
      destruct (bytes_eqb (indexKeyOf mo) ik) eqn:E'.
      * apply bytes_eqb_eq in E'. subst ik. now rewrite Get_Delete_same.
      * apply bytes_eqb_neq in E'. rewrite Get_Delete_other by assumption.
        intros Hrow. destruct (Hr _ _ Hrow) as (k & v & m' & G' & D' & -> & ->).
        exists k, v, m'. repeat split; auto.
        rewrite Get_insert_other; [assumption|]. intros <-. congruence.
  - intros ik iv. cbn [delayed_message delayed_message_index].
    destruct (bytes_eqb (indexKeyOf m) ik) eqn:E.
    + apply bytes_eqb_eq in E. subst ik. rewrite Get_insert_same. intros [= <-].
      exists (msgKeyOf m), (WriteDelayedTo m ext), m. rewrite Get_insert_same. auto.
    + apply bytes_eqb_neq in E. rewrite Get_insert_other by assumption.
      intros Hrow. destruct (Hr _ _ Hrow) as (k & v & m' & G' & D' & -> & ->).
      exists k, v, m'. repeat split; auto.
      rewrite Get_insert_other; [assumption|]. intros <-. congruence.
Qed.

(** What a successful [deleteBucketKey] leaves in the two buckets. *)
Lemma deleteBucketKey_done dt ch ts id tx ext tx' :
  deleteBucketKey dt ch ts id tx ext = (tx', None) ->
  exists old mo,
    Bolt.Get (getDelayedMsgDBKey dt ch ts id) (delayed_message tx) = Some old
    /\ DecodeDelayedMessage old ext = Some mo
    /\ delayed_message tx' = Bolt.Delete (getDelayedMsgDBKey dt ch ts id) (delayed_message tx)
    /\ delayed_message_index tx'
       = Bolt.Delete (indexKeyOf mo) (delayed_message_index tx).
Proof.
  intros H. apply deleteBucketKey_cases in H. cbv zeta in H.
  destruct H as [(_ & Er & _)|(old & HG & [[_ Er]|(mo & HD & H)])]; try discriminate.
  exists old, mo.
  destruct H as [(_ & _ & ->)|[(_ & _ & ->)|(_ & e & Er & _)]]; try discriminate;
    repeat split; auto.
Qed.

Lemma deleteBucketKey_rowsMatched dt ch ts id tx ext tx' :
  storeWf ext tx -> rowsMatched ext tx ->
  deleteBucketKey dt ch ts id tx ext = (tx', None) ->
  rowsMatched ext tx'.
Proof.
  intros (S1 & S2 & S3 & He) Hr H.
  apply deleteBucketKey_done in H as (old & mo & HG & HD & E1 & E2).
  intros ik iv. rewrite E1, E2.
  destruct (bytes_eqb (indexKeyOf mo) ik) eqn:E'.
  - apply bytes_eqb_eq in E'. subst ik. now rewrite Get_Delete_same.
  - apply bytes_eqb_neq in E'. rewrite Get_Delete_other by assumption.
    intros Hrow. destruct (Hr _ _ Hrow) as (k & v & m' & G' & D' & -> & ->).
    exists k, v, m'. repeat split; auto.
    rewrite Get_Delete_other; [assumption| |assumption]. intros <-. congruence.
Qed.

Lemma putTx_keysMatched ext m off tx tx' :
  storeWf ext tx -> wfMessage m -> keysMatched ext tx -> uniqueOrig ext tx ->
  putTx m (msgKeyOf m) (WriteDelayedTo m ext) off ext tx = (tx', None) ->
  uniqueOrig ext tx' ->
  keysMatched ext tx'.
Proof.
  intros (S1 & S2 & S3 & He) Hw Hk Hu H Hu'.
  pose proof (decode_encode m ext Hw) as Hde.
  apply putTx_ok in H as [[_ ->]|[(old & mo & HG & _ & HD & Hl & ->)|(HG & Hl & ->)]].
  - exact Hk.
  - intros k v m' G' D'. cbn [delayed_message delayed_message_index] in *.
    destruct (bytes_eqb (msgKeyOf m) k) eqn:E.
    + apply bytes_eqb_eq in E. subst k. rewrite Get_insert_same in G'.
      injection G' as <-. assert (m' = m) as -> by congruence. apply Get_insert_same.
    + apply bytes_eqb_neq in E.
      assert (N1 : indexKeyOf m <> indexKeyOf m').
      { intros Eq. apply E.
        apply (Hu' (msgKeyOf m) (WriteDelayedTo m ext) m k v m'); cbn [delayed_message]; auto.
        apply Get_insert_same. }
      rewrite Get_insert_other in G' by assumption.
      assert (N2 : indexKeyOf mo <> indexKeyOf m').
      { intros Eq. apply E. apply (Hu (msgKeyOf m) old mo k v m'); auto. }
      rewrite Get_insert_other, Get_Delete_other by assumption.
      eapply Hk; eassumption.
  - intros k v m' G' D'. cbn [delayed_message delayed_message_index] in *.
    destruct (bytes_eqb (msgKeyOf m) k) eqn:E.
    + apply bytes_eqb_eq in E. subst k. rewrite Get_insert_same in G'.
      injection G' as <-. assert (m' = m) as -> by congruence. apply Get_insert_same.
    + apply bytes_eqb_neq in E.
      assert (N1 : indexKeyOf m <> indexKeyOf m').
      { intros Eq. apply E.
        apply (Hu' (msgKeyOf m) (WriteDelayedTo m ext) m k v m'); cbn [delayed_message]; auto.
        apply Get_insert_same. }
      rewrite Get_insert_other in G' by assumption.
      rewrite Get_insert_other by assumption.
      eapply Hk; eassumption.
Qed.

Lemma deleteBucketKey_keysMatched dt ch ts id tx ext tx' :
  storeWf ext tx -> keysMatched ext tx -> uniqueOrig ext tx ->
  deleteBucketKey dt ch ts id tx ext = (tx', None) ->
  keysMatched ext tx' /\ uniqueOrig ext tx'.
Proof.
  intros (S1 & S2 & S3 & He) Hk Hu H.
  apply deleteBucketKey_done in H as (old & mo & HG & HD & E1 & E2).
  set (K := getDelayedMsgDBKey dt ch ts id) in *.
  assert (Sub : forall k v, Bolt.Get k (delayed_message tx') = Some v ->
                  k <> K /\ Bolt.Get k (delayed_message tx) = Some v).
  { intros k v. rewrite E1. destruct (bytes_eqb K k) eqn:E.
    - apply bytes_eqb_eq in E. subst k. now rewrite Get_Delete_same.
    - apply bytes_eqb_neq in E. rewrite Get_Delete_other by assumption. auto. }
  split.
  - intros k v m' G' D'. apply Sub in G' as [Hne G'].
    rewrite E2, Get_Delete_other; [eapply Hk; eassumption| |assumption].
    intros Eq. apply Hne. symmetry. apply (Hu K old mo k v m'); auto.
  - intros k1 v1 m1 k2 v2 m2 G1 D1 G2 D2 Eq.
    apply Sub in G1 as [_ G1]. apply Sub in G2 as [_ G2]. eapply Hu; eassumption.
Qed.

End Pairing.

(** * Pairing of keys and rows *)

Section PairingInvariant.
Context {C : Codec} `{!CodecOk C}.

Lemma step_rowsInv ext q op q' err :
  IsExt q = ext -> rowsInv ext (kvStore q) -> wfOp op ->
  step q op = Some (q', err) ->
  IsExt q' = ext /\ rowsInv ext (kvStore q').
Proof.
  intros He HI Hw Hs.
  destruct (step_inv ext (rowsInv ext) (rowsInv ext) (fun _ => True)) with
    (q := q) (op := op) (q' := q') (err := err) as [E1 E2]; auto.
  - intros tx H. apply H.
  - intros dt ch ts id tx tx' [H1 H2] Hd. split.
    + eapply deleteBucketKey_storeWf; eauto.
    + eapply deleteBucketKey_rowsMatched; eauto.
  - intros m off tx tx' [H1 H2] Hm Hp _. split.
    + eapply putTx_storeWf; eauto.
    + eapply putTx_rowsMatched; eauto.
Qed.

Lemma step_pairedInv ext q op q' err :
  IsExt q = ext -> pairedInv ext (kvStore q) -> wfOp op ->
  step q op = Some (q', err) ->
  distinctOrig ext (kvStore q') = true ->
  IsExt q' = ext /\ pairedInv ext (kvStore q').
Proof.
  intros He HI Hw Hs Hd.
  destruct (step_inv ext (pairedInv ext) (pairedInv ext)
              (fun tx => distinctOrig ext tx = true)) with
    (q := q) (op := op) (q' := q') (err := err) as [E1 E2]; auto.
  - intros tx H. apply H.
  - intros dt ch ts id tx tx' (H1 & H2 & H3 & H4) Hdel.
    destruct (deleteBucketKey_keysMatched _ _ _ _ _ _ _ H1 H3 H4 Hdel).
    split; [eapply deleteBucketKey_storeWf; eauto|].
    split; [eapply deleteBucketKey_rowsMatched; eauto|]. split; assumption.
  - intros m off tx tx' (H1 & H2 & H3 & H4) Hm Hp HG.
    assert (W : storeWf ext tx') by (eapply putTx_storeWf; eauto).
    assert (U : uniqueOrig ext tx') by (apply distinctOrig_unique; [apply W|assumption]).
    split; [assumption|]. split; [exact (putTx_rowsMatched ext m off tx tx' H1 Hm H2 Hp)|].
    split; [exact (putTx_keysMatched ext m off tx tx' H1 Hm H3 H4 Hp U)|assumption].
Qed.

Lemma runOps_rowsInv ext ops :
  forall q q', IsExt q = ext -> rowsInv ext (kvStore q) -> Forall wfOp ops ->
    runOps q ops = Some q' -> IsExt q' = ext /\ rowsInv ext (kvStore q').
Proof.
  induction ops as [|op ops IH]; intros q q' He HI Hw; cbn [runOps].
  - intros [= <-]. auto.
  - destruct (step q op) as [[q1 [e|]]|] eqn:Es; try discriminate.
    destruct (step_rowsInv ext q op q1 None He HI (Forall_inv Hw) Es) as [He1 HI1].
    apply IH; auto. exact (Forall_inv_tail Hw).
Qed.

Lemma runOpsWhile_pairedInv ext ops :
  forall q q', IsExt q = ext -> pairedInv ext (kvStore q) -> Forall wfOp ops ->
    runOpsWhile distinctOrigQ q ops = Some q' ->
    IsExt q' = ext /\ pairedInv ext (kvStore q').
Proof.
  induction ops as [|op ops IH]; intros q q' He HI Hw; cbn [runOpsWhile].
  - intros [= <-]. auto.
  - destruct (step q op) as [[q1 [e|]]|] eqn:Es; try discriminate.
    destruct (distinctOrigQ q1) eqn:Ed; [|discriminate].
    assert (He1 : IsExt q1 = ext).
    { destruct (step_rowsInv ext q op q1 None He (conj (proj1 HI) (proj1 (proj2 HI)))
                  (Forall_inv Hw) Es) as [He1 _]. exact He1. }
    unfold distinctOrigQ in Ed. rewrite He1 in Ed.
    destruct (step_pairedInv ext q op q1 None He HI (Forall_inv Hw) Es Ed) as [_ HI1].
    apply IH; auto. exact (Forall_inv_tail Hw).
Qed.

Lemma pairedInv_empty ext : pairedInv ext emptyKV.
Proof.
  split; [apply storeWf_empty|].
  split; [|split]; intros ?; intros; discriminate.
Qed.

Lemma sorted_NoDup {V} (b : Bolt.Bucket V) : Bolt.sorted b -> NoDup (Bolt.keys b).
Proof.
  unfold Bolt.sorted. generalize (Bolt.keys b) as l. clear b.
  induction l as [|k l IH]; intros H; [constructor|].
  apply StronglySorted_inv in H as [H1 H2]. constructor; [|auto].
  intros Hin. rewrite Forall_forall in H2. apply H2 in Hin.
  now apply bytes_lt_irrefl in Hin.
Qed.

(** C3.  Pairing of keys and index rows.  After any sequence of successful
    operations from an empty store, every row of the index belongs to a
    stored key whose message has the row's type, channel and original id
    and whose delivery time and original id the row records, and no index
    key occurs twice.  When moreover no two stored keys share (type,
    channel, original id) after any of the operations, every stored key has
    its row. *)
Theorem index_pairing (q0 : DelayQueue) (ops : list Op) (q : DelayQueue) :
  kvStore q0 = emptyKV -> Forall wfOp ops ->
  (runOps q0 ops = Some q ->
     rowsMatched (IsExt q) (kvStore q)
     /\ NoDup (Bolt.keys (delayed_message_index (kvStore q))))
  /\ (runOpsWhile distinctOrigQ q0 ops = Some q ->
        everyKeyHasRow (IsExt q) (kvStore q)).
Proof.
  intros H0 Hw. split.
  - intros Hr.
    destruct (runOps_rowsInv (IsExt q0) ops q0 q eq_refl) as [He [Hwf Hrow]]; auto.
    { rewrite H0. split; [apply storeWf_empty|]. intros ik iv. discriminate. }
    rewrite He. split; [assumption|]. apply sorted_NoDup, Hwf.
  - intros Hr.
    destruct (runOpsWhile_pairedInv (IsExt q0) ops q0 q eq_refl) as [He (Hwf & _ & Hk & _)]; auto.
    { rewrite H0. apply pairedInv_empty. }
    rewrite He. intros k v HG.
    destruct (proj2 (proj2 (proj2 Hwf)) k v HG) as (m & Hd & -> & _).
    exists m. repeat split; auto. eapply Hk; eassumption.
Qed.

End PairingInvariant.

(** * Put, then confirm *)

Section RoundTrip.
Context {C : Codec} `{!CodecOk C}.

Lemma put_ok_store q m0 trace cs q' id off wb dend :
  put q m0 None trace cs = (q', (id, off, wb, dend, None)) ->
  isExt q' = isExt q /\
  exists m,
    ((m = m0 /\ 0 < ID m0) \/ exists i, m = setID m0 i /\ is_uint64 i /\ ID m0 <= 0) /\
    id = ID m /\
    putTx m (msgKeyOf m) (WriteDelayedTo m (IsExt q)) (DiskQueue.Offset dend) (IsExt q)
      (kvStore q) = (kvStore q', None).
Proof.
  unfold put. cbn [putDecode].
  destruct (putAssignID q m0) as [m q1] eqn:Ea.
  apply putAssignID_spec in Ea as [S1 Hm].
  destruct (putAppend q1 m None cs) as [[q3 early] [[[o w] de] er]] eqn:Ep.
  assert (early = false) as ->.
  { unfold putAppend in Ep. destruct (writeDelayedMessageToBackendWithCheck _ _ _ _) as [[? ?] ?].
    now injection Ep as _ <- _. }
  apply putAppend_spec in Ep as [S3 Hbuf].
  pose proof (sameStore_trans _ _ _ S1 S3) as S13.
  destruct er as [e|]; [discriminate|].
  unfold putStore, Update, unitTx. cbn [kvStore putBuffer withNeedFlush].
  replace (IsExt (withNeedFlush q3 1)) with (IsExt q)
    by (symmetry; apply (sameStore_IsExt q q3 S13)).
  rewrite Hbuf, (sameStore_IsExt _ _ S1).
  destruct S13 as (Hkv & Hext & Hexit). rewrite Hkv.
  destruct (putTx m _ _ _ _ _) as [kv kerr] eqn:Et. cbn [fst snd].
  destruct kerr as [e|]; [discriminate|].
  intros [= <- <- <- <- <-].
  set (q5 := withKV (withNeedFlush q3 1) kv).
  pose proof (sameStore_trans _ _ _ (putOldest_sameStore q5 m)
                (putSync_sameStore (putOldest q5 m) de)) as (Hk & He & Hx).
  rewrite He, Hk. cbn. split; [assumption|]. exists m. auto.
Qed.

Lemma Put_insert k v b :
  0 < len k <= Bolt.MaxKeySize -> len v <= Bolt.MaxValueSize ->
  Bolt.Put k v b = Ok (Bolt.insert k v b).
Proof.
  intros Hk Hv. unfold Bolt.Put.
  destruct (Z.eqb_spec (len k) 0); [lia|].
  destruct (Z.gtb_spec (len k) Bolt.MaxKeySize); [lia|].
  destruct (Z.gtb_spec (len v) Bolt.MaxValueSize); [lia|]. reflexivity.
Qed.

Lemma len_counterKey dt ch : len (counterKey dt ch) = 13 + len ch.
Proof.
  unfold counterKey, len. rewrite length_app, length_prefix. 
  change (length counterPrefix) with 8%nat. lia.
Qed.

Lemma GetCurrentDelayedCnt_insert q kv k x :
  Bolt.Get k (meta kv) = Some (PutUint64 x) ->
  forall dt ch, counterKey dt ch = k ->
  GetCurrentDelayedCnt (withKV q kv) dt ch = Ok (uint64 x).
Proof.
  intros HG dt ch <-. unfold GetCurrentDelayedCnt. cbn [kvStore withKV]. rewrite HG.
  unfold len. rewrite length_PutUint64. change (Z.of_nat 8 <? 8) with false. cbv iota.
  unfold slice. cbn [skipn]. rewrite firstn_all2 by (rewrite length_PutUint64; lia).
  now rewrite Uint_PutUint64.
Qed.

(** C7.  Put, then confirm.  On an engine reached from an empty store, let
    the put of a message succeed with the id [id], under a key and an index
    key that were not stored before.  Confirming a message of the same
    type, channel and delivery time whose [DelayedOrigID] is [id] (the
    caller has swapped the two ids) succeeds and leaves both buckets and
    every counter reading as they were before the put.  The meta bucket is
    not restored: [synced_offset] holds the offset the put reached. *)
Theorem put_confirm_round_trip (q0 : DelayQueue) (ops : list Op) (q : DelayQueue)
  (m : Message) (q1 : DelayQueue) (id offset writeBytes : Z)
  (dend : option DiskQueue.diskQueueEndInfo) (msg : Message) :
  kvStore q0 = emptyKV -> Forall wfOp ops -> len ops + 1 < 2 ^ 64 ->
  runOps q0 ops = Some q ->
  wfMessage m ->
  PutDelayMessage q m = (q1, (id, offset, writeBytes, dend, None)) ->
  Bolt.Get (getDelayedMsgDBKey (DelayedType m) (DelayedChannel m) (DelayedTs m) id)
    (delayed_message (kvStore q)) = None ->
  Bolt.Get (indexKeyOf m) (delayed_message_index (kvStore q)) = None ->
  DelayedType msg = DelayedType m -> DelayedChannel msg = DelayedChannel m ->
  DelayedTs msg = DelayedTs m -> DelayedOrigID msg = id ->
  exists q2 end_,
    ConfirmedMessage q1 msg = (q2, None)
    /\ dend = Some end_
    /\ delayed_message (kvStore q2) = delayed_message (kvStore q)
    /\ delayed_message_index (kvStore q2) = delayed_message_index (kvStore q)
    /\ (forall dt ch, GetCurrentDelayedCnt q2 dt ch = GetCurrentDelayedCnt q dt ch)
    /\ Bolt.Get syncedOffsetKey (meta (kvStore q2)) = Some (Itoa (DiskQueue.Offset end_)).
Proof.
  intros H0 Hw Hn Hr Hm Hput Hfresh Hrow Et Ec Ets Eid.
  destruct (runOps_storeOk (IsExt q0) ops q0 0 q eq_refl) as [_ (Hwf & Hc & Hlen)]; auto.
  { rewrite H0. apply storeOk_empty. } { unfold len in Hn. lia. }
  cbn [Nat.add] in Hlen.
  unfold PutDelayMessage in Hput.
  destruct (exitFlag q =? 1); [discriminate|].
  destruct (Z.gtb_spec (ID m) 0) as [|Hid]; [discriminate|].
  destruct (negb (IsValidDelayedMessage m)); [discriminate|].
  destruct (put q m None true 0) as [q1' [[[[i o] w] de] er]] eqn:Ep.
  injection Hput as <- <- <- <- <- ->.
  apply put_ok_store in Ep as (Hext & mm & Hmm & -> & Htx).
  destruct Hmm as [[_ ?]|(i & -> & Hi & _)]; [lia|].
  assert (Hwm : wfMessage (setID m i)) by now apply wfMessage_setID.
  set (mm := setID m i) in *.
  assert (EK : msgKeyOf mm = getDelayedMsgDBKey (DelayedType m) (DelayedChannel m) (DelayedTs m) i)
    by reflexivity.
  assert (EI : indexKeyOf mm = indexKeyOf m) by reflexivity.
  cbn [ID mm setID] in Hfresh.
  apply putTx_ok in Htx as [[HG _]|[(old & mo & HG & _)|(_ & Hl & Hkv1)]];
    [rewrite EK in HG; congruence|rewrite EK in HG; congruence|].
  set (ck := counterKey (DelayedType mm) (DelayedChannel mm)) in *.
  set (cnt := readCounter (meta (kvStore q)) ck) in *.
  assert (Hcnt : cnt = keyCount (kvStore q) (DelayedType mm) (DelayedChannel mm))
    by apply (Hc (DelayedType mm) (DelayedChannel mm)).
  assert (Hrange : 0 <= cnt /\ cnt + 1 < 2 ^ 64).
  { pose proof (keyCount_le (kvStore q) (DelayedType mm) (DelayedChannel mm)).
    pose proof (readCounter_range (meta (kvStore q)) ck). unfold len in Hn. fold cnt in H1. lia. }
  assert (Hne : syncedOffsetKey <> ck)
    by (intros E; symmetry in E; revert E; apply counterKey_not_synced).
  pose proof (decode_encode mm (IsExt q) Hwm) as Hde.
  assert (Hext' : IsExt q1' = IsExt q) by now apply IsExt_eq.
  exists (withKV q1'
            {| delayed_message := delayed_message (kvStore q);
               delayed_message_index := delayed_message_index (kvStore q);
               meta := Bolt.insert ck (PutUint64 (uint64 (cnt + 1) - 1)) (meta (kvStore q1')) |}),
         de.
  split.
  { unfold ConfirmedMessage, Update, unitTx, deleteBucketKey.
    change (ID mm) with i in Eid.
    rewrite Et, Ec, Ets, Eid, Hext', <- EK, Hkv1.
    cbn [delayed_message delayed_message_index meta withMsgs withIndex withMeta].
    rewrite Get_insert_same. unfold deleteMsgIndex. rewrite Hde.
    cbn [delayed_message delayed_message_index meta withMsgs withIndex withMeta].
    fold (indexKeyOf mm). rewrite EI.
    rewrite !Delete_insert by (rewrite ?EK; assumption).
    change (counterKey (DelayedType m) (DelayedChannel m)) with ck.
    rewrite readCounter_insert_other by assumption.
    rewrite readCounter_insert_same, uint64_idem.
    rewrite (uint64_small (cnt + 1)) by (unfold is_uint64; lia).
    destruct (Z.gtb_spec (cnt + 1) 0); [|lia].
    rewrite Put_insert.
    - cbn [fst snd]. reflexivity.
    - unfold ck. rewrite len_counterKey. unfold len, Bolt.MaxKeySize in *.
      cbn [DelayedChannel mm setID]. rewrite EK, length_key in Hl. lia.
    - unfold len. rewrite length_PutUint64. unfold Bolt.MaxValueSize. lia. }
  split; [reflexivity|]. split; [reflexivity|]. split; [reflexivity|]. split.
  - intros dt ch.
    destruct (counterKey_eq_dec dt (DelayedType mm) ch (DelayedChannel mm)) as [E|E].
    + fold ck in E. rewrite (GetCurrentDelayedCnt_counter q dt ch Hc).
      rewrite (GetCurrentDelayedCnt_insert q1' _ ck (uint64 (cnt + 1) - 1)); auto.
      * rewrite (uint64_small (cnt + 1)) by (unfold is_uint64; lia).
        rewrite uint64_small by (unfold is_uint64; lia).
        f_equal. rewrite Hcnt. unfold keyCount. apply counterKey_inj in E. rewrite E. lia.
      * cbn [meta]. apply Get_insert_same.
    + fold ck in E. unfold GetCurrentDelayedCnt. cbn [kvStore withKV meta].
      rewrite Hkv1. cbn [meta].
      assert (Hs : syncedOffsetKey <> counterKey dt ch)
        by (intros E'; symmetry in E'; revert E'; apply counterKey_not_synced).
      assert (Hk : ck <> counterKey dt ch) by congruence.
      now rewrite (Get_insert_other ck), (Get_insert_other syncedOffsetKey),
        (Get_insert_other ck) by assumption.
  - cbn [kvStore withKV meta]. rewrite Hkv1. cbn [meta].
    rewrite Get_insert_other by congruence. apply Get_insert_same.
Qed.

End RoundTrip.

(** * Peek *)

(** Order of the encoded keys *)

Lemma bytes_compare_app (a b x y : bytes) :
  length a = length b ->
  bytes_compare (a ++ x) (b ++ y)
  = match bytes_compare a b with Eq => bytes_compare x y | r => r end.
Proof.
  revert b; induction a as [|h a IH]; intros [|h' b] Hl; try discriminate; cbn [app bytes_compare].
  - reflexivity.
  - destruct (Z_of_byte h ?= Z_of_byte h'); auto.
Qed.

Lemma bytes_compare_PutUint (n : nat) (x y : Z) :
  0 <= x < 256 ^ Z.of_nat n -> 0 <= y < 256 ^ Z.of_nat n ->
  bytes_compare (PutUint n x) (PutUint n y) = (x ?= y).
Proof.
  revert x y; induction n as [|n IH]; intros x y Hx Hy.
  - cbn in *. assert (x = 0) as -> by lia. assert (y = 0) as -> by lia. reflexivity.
  - cbn [PutUint bytes_compare]. rewrite !Z_of_byte_of_Z.
    rewrite Nat2Z.inj_succ, Z.pow_succ_r in Hx, Hy by lia.
    assert (Hp : 0 < 256 ^ Z.of_nat n) by (apply Z.pow_pos_nonneg; lia).
    assert (Hxd : 0 <= x / 256 ^ Z.of_nat n < 256).
    { split; [apply Z.div_pos; lia|apply Z.div_lt_upper_bound; lia]. }
    assert (Hyd : 0 <= y / 256 ^ Z.of_nat n < 256).
    { split; [apply Z.div_pos; lia|apply Z.div_lt_upper_bound; lia]. }
    rewrite !Z.mod_small by assumption.
    pose proof (Z.div_mod x (256 ^ Z.of_nat n) ltac:(lia)) as Ex.
    pose proof (Z.div_mod y (256 ^ Z.of_nat n) ltac:(lia)) as Ey.
    pose proof (Z.mod_pos_bound x (256 ^ Z.of_nat n) Hp) as Bx.
    pose proof (Z.mod_pos_bound y (256 ^ Z.of_nat n) Hp) as By.
    destruct (Z.compare_spec (x / 256 ^ Z.of_nat n) (y / 256 ^ Z.of_nat n)) as [E|L|G].
    + rewrite <- (PutUint_mod n x), <- (PutUint_mod n y), IH by assumption.
      destruct (Z.compare_spec (x mod 256 ^ Z.of_nat n) (y mod 256 ^ Z.of_nat n));
        symmetry; [apply Z.compare_eq_iff|apply Z.compare_lt_iff|apply Z.compare_gt_iff]; nia.
    + symmetry. apply Z.compare_lt_iff. nia.
    + symmetry. apply Z.compare_gt_iff. nia.
Qed.

Lemma bytes_compare_PutUint64 (x y : Z) :
  bytes_compare (PutUint64 (uint64 x)) (PutUint64 (uint64 y)) = (uint64 x ?= uint64 y).
Proof.
  apply bytes_compare_PutUint; change (256 ^ Z.of_nat 8) with (2 ^ 64); apply uint64_range.
Qed.

Lemma bytes_compare_PutUint16 (x y : Z) :
  bytes_compare (PutUint16 (uint16 x)) (PutUint16 (uint16 y)) = (uint16 x ?= uint16 y).
Proof.
  apply bytes_compare_PutUint; change (256 ^ Z.of_nat 2) with (2 ^ 16);
    unfold uint16; apply Z.mod_pos_bound; lia.
Qed.

Lemma key_compare (dt : Z) (ch : bytes) (ts id : Z) (dt' : Z) (ch' : bytes) (ts' id' : Z) :
  len ch < 65536 -> len ch' < 65536 ->
  bytes_compare (getDelayedMsgDBKey dt ch ts id) (getDelayedMsgDBKey dt' ch' ts' id')
  = keyOrder dt ch ts id dt' ch' ts' id'.
Proof.
  intros Hc Hc'. unfold getDelayedMsgDBKey, keyOrder.
  rewrite bytes_compare_app by now rewrite !length_PutUint16.
  rewrite bytes_compare_PutUint16.
  destruct (uint16 dt ?= uint16 dt'); try reflexivity.
  cbn [bytes_compare]. rewrite Z.compare_refl.
  rewrite bytes_compare_app by now rewrite !length_PutUint16.
  rewrite bytes_compare_PutUint16.
  assert (Hl : 0 <= len ch) by (unfold len; lia).
  assert (Hl' : 0 <= len ch') by (unfold len; lia).
  rewrite !uint16_small by lia.
  destruct (Z.compare_spec (len ch) (len ch')) as [E| |]; try reflexivity.
  rewrite bytes_compare_app by (unfold len in E; lia).
  destruct (bytes_compare ch ch'); try reflexivity.
  rewrite bytes_compare_app by now rewrite !length_PutUint64.
  now rewrite !bytes_compare_PutUint64.
Qed.

Lemma length_update {A} (i : nat) (x : A) (l : list A) : length (update i x l) = length l.
Proof.
  revert i; induction l as [|y l IH]; intros [|i]; cbn [update length]; auto.
Qed.

Lemma firstn_update {A} (i : nat) (x : A) (l : list A) :
  (i < length l)%nat -> firstn (S i) (update i x l) = firstn i l ++ [x].
Proof.
  revert i; induction l as [|y l IH]; intros [|i] H; cbn [length] in H; try lia.
  - reflexivity.
  - cbn [update]. change (firstn (S (S i)) (y :: update i x l))
      with (y :: firstn (S i) (update i x l)).
    rewrite IH by lia. reflexivity.
Qed.

Section PeekFacts.
Context {C : Codec}.

Lemma peekScan_spec ext kv prefix peekTs filterType filterChannel cur :
  prefix = peekPrefix filterType filterChannel ->
  Bolt.sorted cur ->
  (forall k v, In (k, v) cur -> Bolt.Get k (delayed_message kv) = Some v) ->
  forall oldest idx results oldest' idx' results' err,
    peekScan ext prefix peekTs filterType filterChannel cur oldest idx results
    = (oldest', idx', results', err) ->
    (idx <= length results)%nat ->
    exists ks msgs,
      firstn idx' results' = firstn idx results ++ msgs
      /\ idx' = (idx + length msgs)%nat
      /\ (idx' <= length results)%nat
      /\ length results' = length results
      /\ Forall2 (peeked ext kv peekTs filterType filterChannel) ks msgs
      /\ StronglySorted bytes_lt ks
      /\ Forall (fun k => In k (Bolt.keys cur)) ks.
Proof.
  intros Hpre. induction cur as [|[k v] cur IH]; intros Hs Hin oldest idx results
    oldest' idx' results' err; cbn [peekScan].
  { intros [= <- <- <- <-] Hi. exists [], []. rewrite app_nil_r, Nat.add_0_r.
    repeat split; auto; constructor. }
  pose proof (sorted_cons_inv _ _ _ Hs) as [Hs' Hb].
  assert (Hin' : forall k0 v0, In (k0, v0) cur -> Bolt.Get k0 (delayed_message kv) = Some v0)
    by (intros; apply Hin; now right).
  assert (Stop : forall o, (o, idx, results, err) = (oldest', idx', results', err) ->
            (idx <= length results)%nat ->
            exists ks msgs,
              firstn idx' results' = firstn idx results ++ msgs
              /\ idx' = (idx + length msgs)%nat
              /\ (idx' <= length results)%nat
              /\ length results' = length results
              /\ Forall2 (peeked ext kv peekTs filterType filterChannel) ks msgs
              /\ StronglySorted bytes_lt ks
              /\ Forall (fun k0 => In k0 (Bolt.keys ((k, v) :: cur))) ks).
  { intros o [= _ <- <-] Hi. exists [], []. rewrite app_nil_r, Nat.add_0_r.
    repeat split; auto; constructor. }
  assert (Skip : forall o,
            peekScan ext prefix peekTs filterType filterChannel cur o idx results
            = (oldest', idx', results', err) ->
            (idx <= length results)%nat ->
            exists ks msgs,
              firstn idx' results' = firstn idx results ++ msgs
              /\ idx' = (idx + length msgs)%nat
              /\ (idx' <= length results)%nat
              /\ length results' = length results
              /\ Forall2 (peeked ext kv peekTs filterType filterChannel) ks msgs
              /\ StronglySorted bytes_lt ks
              /\ Forall (fun k0 => In k0 (Bolt.keys ((k, v) :: cur))) ks).
  { intros o Hr Hi. destruct (IH Hs' Hin' _ _ _ _ _ _ _ Hr Hi)
      as (ks & msgs & H1 & H2 & H3 & H4 & H5 & H6 & H7).
    exists ks, msgs. repeat split; auto.
    eapply Forall_impl; [|exact H7]. intros a Ha. now right. }
  destruct (HasPrefix k prefix) eqn:Hp; cbn [negb].
  2:{ intros [= <- <- <- <-]. now apply (Stop oldest). }
  destruct (decodeDelayedMsgDBKey k) as [[[[t ts] id] ch]|e] eqn:Ek.
  2:{ destruct e; try (now apply Skip). intros [= <- <- <- <-]. now apply (Stop oldest). }
  set (o1 := if (oldest =? 0) && (filterType =? ChannelDelayed) && negb (isEmpty filterChannel)
             then ts else oldest).
  destruct (Z.gtb_spec ts peekTs) as [Hts|Hts]; cbn [orb].
  { intros [= <- <- <- <-]. now apply (Stop o1). }
  destruct (Z.geb_spec (Z.of_nat idx) (len results)) as [Hfull|Hfull].
  { intros [= <- <- <- <-]. now apply (Stop o1). }
  destruct (negb (isEmpty filterChannel) && negb (bytes_eqb ch filterChannel)) eqn:Hch.
  { now apply Skip. }
  destruct (DecodeDelayedMessage v ext) as [m|] eqn:Ed; [|now apply Skip].
  destruct ((filterType >=? 0) && negb (filterType =? DelayedType m)) eqn:Hft.
  { now apply Skip. }
  intros Hr Hi. unfold len in Hfull.
  assert (Hlt : (idx < length results)%nat) by lia.
  apply (IH Hs' Hin') in Hr; [|rewrite length_update; lia].
  destruct Hr as (ks & msgs & H1 & H2 & H3 & H4 & H5 & H6 & H7).
  rewrite length_update in H3, H4. rewrite firstn_update in H1 by assumption.
  exists (k :: ks), (m :: msgs). repeat split; auto.
  - now rewrite <- app_assoc in H1.
  - cbn [length]. lia.
  - constructor; [|assumption].
    exists v, t, ts, id, ch. repeat split; auto.
    + apply Hin. now left.
    + now subst prefix.
    + intros Hne. destruct filterChannel as [|c fc]; [congruence|].
      cbn [isEmpty negb andb] in Hch. apply negb_false_iff in Hch. now apply bytes_eqb_eq.
    + intros Hge. destruct (Z.geb_spec filterType 0); [|lia].
      cbn [andb] in Hft. apply negb_false_iff in Hft. symmetry. now apply Z.eqb_eq.
  - constructor; [assumption|].
    rewrite Forall_forall in *. intros a Ha. apply H7 in Ha.
    unfold below in Hb. rewrite Forall_forall in Hb.
    unfold Bolt.keys in Ha. apply in_map_iff in Ha as [e [<- He]]. now apply Hb.
  - constructor; [now left|]. eapply Forall_impl; [|exact H7]. intros a Ha. now right.
Qed.

Lemma peek_general (q : DelayQueue) (results : list Message) (peekTs filterType : Z)
  (filterChannel : bytes) (q' : DelayQueue) (idx : nat) (res : list Message)
  (err : option error) :
  Bolt.sorted (delayed_message (kvStore q)) ->
  PeekRecentTimeoutWithFilter q results peekTs filterType filterChannel
  = (q', (idx, res, err)) ->
  (idx <= length results)%nat /\ length res = length results
  /\ kvStore q' = kvStore q
  /\ exists ks,
       Forall2 (peeked (IsExt q) (kvStore q) peekTs filterType filterChannel)
         ks (firstn idx res)
       /\ StronglySorted bytes_lt ks.
Proof.
  intros Hs. unfold PeekRecentTimeoutWithFilter.
  destruct (peekIgnored q peekTs filterType filterChannel).
  { intros [= <- <- <- <-]. repeat split; [lia|]. exists []. split; constructor. }
  destruct (peekScan _ _ _ _ _ _ _ _ _) as [[[oldest i] r] e] eqn:E.
  eapply peekScan_spec with (kv := kvStore q) in E; try reflexivity; try (cbn; lia).
  - destruct E as (ks & msgs & H1 & H2 & H3 & H4 & H5 & H6 & _).
    cbn [firstn app] in H1.
    assert (R : (i <= length results)%nat /\ length r = length results /\
                exists ks0, Forall2 (peeked (IsExt q) (kvStore q) peekTs filterType filterChannel)
                              ks0 (firstn i r) /\ StronglySorted bytes_lt ks0).
    { repeat split; auto. exists ks. rewrite H1. auto. }
    destruct R as (R1 & R2 & R3).
    destruct e as [e|]; [|destruct (oldest >? 0)]; intros [= <- <- <- <-];
      repeat split; auto.
  - apply ahead_Seek. exact Hs.
  - intros k v Hin. destruct (Seek_suffix (peekPrefix filterType filterChannel)
                                (delayed_message (kvStore q))) as [pre Ep].
    apply Get_In; [assumption|]. rewrite Ep. apply in_or_app. now right.
Qed.

End PeekFacts.

(** * The three-message scenario *)

Lemma bytes_compare_prefix (p r : bytes) : bytes_compare (p ++ r) p <> Lt.
Proof.
  induction p as [|x p IH]; cbn [app bytes_compare].
  - destruct r; discriminate.
  - now rewrite Z.compare_refl.
Qed.

Lemma key_lt_same (dt : Z) (ch : bytes) (ts id ts' id' : Z) :
  len ch < 65536 ->
  uint64 ts < uint64 ts' \/ (uint64 ts = uint64 ts' /\ uint64 id < uint64 id') ->
  bytes_compare (getDelayedMsgDBKey dt ch ts id) (getDelayedMsgDBKey dt ch ts' id') = Lt.
Proof.
  intros Hc H. rewrite key_compare by assumption. unfold keyOrder.
  rewrite !Z.compare_refl, bytes_compare_refl.
  destruct H as [H|[-> H]].
  - now apply Z.compare_lt_iff in H as ->.
  - rewrite Z.compare_refl. now apply Z.compare_lt_iff.
Qed.

Lemma key_gt_same (dt : Z) (ch : bytes) (ts id ts' id' : Z) :
  len ch < 65536 ->
  uint64 ts' < uint64 ts \/ (uint64 ts' = uint64 ts /\ uint64 id' < uint64 id) ->
  bytes_compare (getDelayedMsgDBKey dt ch ts id) (getDelayedMsgDBKey dt ch ts' id') = Gt.
Proof.
  intros Hc H. rewrite bytes_compare_antisym, (key_lt_same dt ch ts' id' ts id) by assumption.
  reflexivity.
Qed.

Section Scenario.
Context {C : Codec} `{!CodecOk C}.

(** One step of the peek scan on a record of the filtered channel that is
    due and fits the buffer. *)
Lemma peekScan_take ext peekTs (ch : bytes) (m : Message) next oldest idx results :
  wfMessage m -> DelayedType m = ChannelDelayed -> DelayedChannel m = ch ->
  0 < len ch < 65536 -> DelayedTs m <= peekTs -> (idx < length results)%nat ->
  peekScan ext (getDelayedMsgDBPrefixKey ChannelDelayed ch) peekTs ChannelDelayed ch
    ((msgKeyOf m, WriteDelayedTo m ext) :: next) oldest idx results
  = peekScan ext (getDelayedMsgDBPrefixKey ChannelDelayed ch) peekTs ChannelDelayed ch
      next (if oldest =? 0 then DelayedTs m else oldest) (S idx) (update idx m results).
Proof.
  intros Hw Ht Hc Hl Hts Hi. cbn [peekScan].
  assert (Hp : HasPrefix (msgKeyOf m) (getDelayedMsgDBPrefixKey ChannelDelayed ch) = true).
  { unfold msgKeyOf. rewrite Ht, Hc. apply HasPrefix_key_prefix. }
  rewrite Hp. cbn [negb]. unfold msgKeyOf at 1. rewrite decode_key by (rewrite Hc; lia).
  pose proof Hw as (_ & _ & _ & _ & Hts64 & _). rewrite (int64_small _ Hts64).
  rewrite Z.eqb_refl.
  assert (He : isEmpty ch = false) by (destruct ch; [cbn in Hl; lia|reflexivity]).
  rewrite He. cbn [negb andb]. rewrite andb_true_r.
  destruct (Z.gtb_spec (DelayedTs m) peekTs); [lia|].
  destruct (Z.geb_spec (Z.of_nat idx) (len results)); [unfold len in *; lia|].
  cbn [orb]. rewrite Hc, bytes_eqb_refl. cbn [negb].
  rewrite decode_encode by assumption.
  rewrite Ht, Z.eqb_refl. cbn [negb andb]. rewrite andb_false_r, ?andb_true_r. reflexivity.
Qed.

Lemma peek_three (q : DelayQueue) (ch : bytes) (m1 m2 m3 : Message) (g : Z)
  (results : list Message) :
  0 < len ch < 65536 ->
  wfMessage m1 -> wfMessage m2 -> wfMessage m3 ->
  DelayedType m1 = ChannelDelayed -> DelayedType m2 = ChannelDelayed ->
  DelayedType m3 = ChannelDelayed ->
  DelayedChannel m1 = ch -> DelayedChannel m2 = ch -> DelayedChannel m3 = ch ->
  DelayedTs m1 = 200 -> ID m1 = 1 -> DelayedTs m2 = 100 -> ID m2 = 2 ->
  DelayedTs m3 = 200 -> ID m3 = g -> 0 <= g < 2 ^ 64 -> g <> 1 ->
  delayed_message (kvStore q)
  = Bolt.insert (msgKeyOf m3) (WriteDelayedTo m3 (IsExt q))
      (Bolt.insert (msgKeyOf m2) (WriteDelayedTo m2 (IsExt q))
         (Bolt.insert (msgKeyOf m1) (WriteDelayedTo m1 (IsExt q)) [])) ->
  peekIgnored q 300 ChannelDelayed ch = false ->
  length results = 3%nat ->
  snd (PeekRecentTimeoutWithFilter q results 300 ChannelDelayed ch)
  = (3%nat, (if g =? 0 then [m2; m3; m1] else [m2; m1; m3]), None).
Proof.
  intros Hl W1 W2 W3 T1 T2 T3 C1 C2 C3 S1 I1 S2 I2 S3 I3 Hg Hg1 Hstore Hign Hres.
  assert (K21 : bytes_compare (msgKeyOf m2) (msgKeyOf m1) = Lt).
  { unfold msgKeyOf. rewrite T1, T2, C1, C2, S1, S2, I1, I2.
    apply key_lt_same; [lia|]. left. vm_compute. reflexivity. }
  assert (K32 : bytes_compare (msgKeyOf m3) (msgKeyOf m2) = Gt).
  { unfold msgKeyOf. rewrite T3, T2, C3, C2, S3, S2, I3, I2.
    apply key_gt_same; [lia|]. left. vm_compute. reflexivity. }
  assert (K31 : bytes_compare (msgKeyOf m3) (msgKeyOf m1) = if g =? 0 then Lt else Gt).
  { unfold msgKeyOf. rewrite T3, T1, C3, C1, S3, S1, I3, I1.
    destruct (Z.eqb_spec g 0) as [->|Hg0].
    - apply key_lt_same; [lia|]. right. split; [reflexivity|]. vm_compute. reflexivity.
    - apply key_gt_same; [lia|]. right. split; [reflexivity|].
      rewrite !uint64_small by (unfold is_uint64; lia). lia. }
  cbn [Bolt.insert] in Hstore. rewrite K21 in Hstore. cbn [Bolt.insert] in Hstore.
  rewrite K32, K31 in Hstore.
  unfold PeekRecentTimeoutWithFilter. rewrite Hign, Hstore.
  unfold peekPrefix. change (ChannelDelayed >? 0) with true. cbv iota.
  assert (HSeek : forall rest,
            Bolt.Seek (getDelayedMsgDBPrefixKey ChannelDelayed ch)
              ((msgKeyOf m2, WriteDelayedTo m2 (IsExt q)) :: rest)
            = (msgKeyOf m2, WriteDelayedTo m2 (IsExt q)) :: rest).
  { intros rest. cbn [Bolt.Seek].
    assert (Hn : bytes_compare (msgKeyOf m2) (getDelayedMsgDBPrefixKey ChannelDelayed ch) <> Lt).
    { unfold msgKeyOf. rewrite T2, C2, key_prefix. apply bytes_compare_prefix. }
    destruct (bytes_compare (msgKeyOf m2) (getDelayedMsgDBPrefixKey ChannelDelayed ch));
      congruence. }
  rewrite HSeek.
  destruct results as [|r0 [|r1 [|r2 [|r3 rs]]]]; try discriminate.
  rewrite (peekScan_take _ _ ch m2) by (cbn [length]; auto; lia).
  destruct (g =? 0).
  - rewrite (peekScan_take _ _ ch m3) by (cbn [length update]; auto; lia).
    rewrite (peekScan_take _ _ ch m1) by (cbn [length update]; auto; lia).
    cbn [peekScan update]. rewrite S1, S2, S3. cbn.
    reflexivity.
  - rewrite (peekScan_take _ _ ch m1) by (cbn [length update]; auto; lia).
    rewrite (peekScan_take _ _ ch m3) by (cbn [length update]; auto; lia).
    cbn [peekScan update]. rewrite S1, S2, S3. cbn.
    reflexivity.
Qed.

End Scenario.

(** * The batch of a pass *)

Lemma leadingDue_nonneg dt peekTs id ch cur : 0 <= leadingDue dt peekTs id ch cur.
Proof.
  induction cur as [|[k v] cur IH]; cbn [leadingDue]; [lia|].
  destruct (dueKey dt peekTs id ch k); lia.
Qed.

Section BatchFacts.
Context {C : Codec}.

Lemma deleteBucketKey_succeeds ext dt ch ts id tx old :
  storeWf ext tx ->
  Bolt.Get (getDelayedMsgDBKey dt ch ts id) (delayed_message tx) = Some old ->
  exists tx',
    deleteBucketKey dt ch ts id tx ext = (tx', None) /\
    delayed_message tx'
    = Bolt.Delete (getDelayedMsgDBKey dt ch ts id) (delayed_message tx).
Proof.
  intros (_ & _ & _ & He) HG. destruct (He _ _ HG) as (m & HD & _ & Hl).
  unfold deleteBucketKey. rewrite HG, (deleteMsgIndex_ok _ _ _ _ HD).
  destruct (readCounter _ _ >? 0).
  - unfold Bolt.Put. rewrite len_counterKey.
    unfold len in Hl. rewrite length_key in Hl.
    unfold len at 3. rewrite length_PutUint64.
    assert (H0 : 0 <= len ch) by (unfold len; lia).
    destruct (Z.eqb_spec (13 + len ch) 0); [lia|].
    destruct (Z.gtb_spec (13 + len ch) Bolt.MaxKeySize) as [Hg|_].
    { unfold len, Bolt.MaxKeySize in *. lia. }
    change (Z.of_nat 8 >? Bolt.MaxValueSize) with false. cbv iota.
    eexists. split; reflexivity.
  - eexists. split; reflexivity.
Qed.

(** A pass deletes the due keys at the front of its cursor, and stops once
    the count has gone past [txMaxBatch]. *)
Lemma emptyUntilScan_count ext dt peekTs id ch cur :
  forall batched tx,
    storeWf ext tx -> ahead cur tx -> batched <= txMaxBatch + 1 ->
    exists tx',
      emptyUntilScan ext (getDelayedMsgDBPrefixKey dt ch) dt peekTs id ch cur batched tx
      = (tx', Z.min (batched + leadingDue dt peekTs id ch cur) (txMaxBatch + 1), None)
      /\ Z.of_nat (length (delayed_message tx'))
         + (Z.min (batched + leadingDue dt peekTs id ch cur) (txMaxBatch + 1) - batched)
         = Z.of_nat (length (delayed_message tx)).
Proof.
  induction cur as [|[k v] cur IH]; intros batched tx HI Ha Hb;
    cbn [emptyUntilScan leadingDue].
  { exists tx. rewrite Z.add_0_r, Z.min_l by lia. split; [reflexivity|lia]. }
  pose proof (leadingDue_nonneg dt peekTs id ch cur) as Hn.
  unfold dueKey.
  destruct (HasPrefix k (getDelayedMsgDBPrefixKey dt ch)) eqn:Hp; cbn [negb andb].
  2:{ exists tx. rewrite Z.add_0_r, Z.min_l by lia. split; [reflexivity|lia]. }
  pose proof HI as (S1 & _ & _ & He).
  destruct (proj2 Ha k v (or_introl eq_refl)) as [v' HG].
  destruct (stored_key_decode _ _ _ _ He HG) as (m & Hk & Hc & ->).
  assert (Ech : bytes_eqb (DelayedChannel m) ch = true).
  { subst k. unfold msgKeyOf in Hp. apply HasPrefix_key_inv in Hp as [_ ->]; [|assumption].
    apply bytes_eqb_refl. }
  rewrite Ech, andb_true_r. cbn [negb].
  destruct (Z.gtb_spec batched txMaxBatch) as [Hg|Hg].
  { exists tx. rewrite Z.min_r by (destruct (_ || _); lia).
    replace (txMaxBatch + 1) with batched by lia. split; [reflexivity|lia]. }
  destruct (Z.gtb_spec (int64 (DelayedTs m)) peekTs) as [H1|H1].
  { replace (int64 (DelayedTs m) <? peekTs) with false by (symmetry; apply Z.ltb_ge; lia).
    replace (int64 (DelayedTs m) =? peekTs) with false by (symmetry; apply Z.eqb_neq; lia).
    cbn [orb andb]. exists tx. rewrite Z.add_0_r, Z.min_l by lia. split; [reflexivity|lia]. }
  destruct (Z.eqb_spec (int64 (DelayedTs m)) peekTs) as [H2|H2].
  - replace (int64 (DelayedTs m) <? peekTs) with false by (symmetry; apply Z.ltb_ge; lia).
    cbn [orb andb]. rewrite Z.geb_leb.
    destruct (Z.leb_spec id (uint64 (ID m))) as [H3|H3].
    { replace (uint64 (ID m) <? id) with false by (symmetry; apply Z.ltb_ge; lia).
      exists tx. rewrite Z.add_0_r, Z.min_l by lia. split; [reflexivity|lia]. }
    replace (uint64 (ID m) <? id) with true by (symmetry; apply Z.ltb_lt; lia).
    assert (HK : getDelayedMsgDBKey dt ch (int64 (DelayedTs m)) (uint64 (ID m)) = k).
    { subst k. apply rebuild_key_prefix; assumption. }
    rewrite <- HK in HG.
    destruct (deleteBucketKey_succeeds _ _ _ _ _ _ _ HI HG) as (tx1 & Ed & Hdel).
    rewrite Ed.
    assert (HI1 : storeWf ext tx1).
    { eapply deleteBucketKey_storeWf; [exact HI|exact Ed|now left]. }
    assert (Ha1 : ahead cur tx1).
    { rewrite HK in Hdel. eapply ahead_Delete; eassumption. }
    destruct (IH (batched + 1) tx1 HI1 Ha1 ltac:(lia)) as (tx' & E & Hlen).
    exists tx'. rewrite Z.add_assoc. split; [exact E|].
    rewrite Hdel in Hlen.
    rewrite (length_Delete _ _ _ HG). lia.
  - replace (int64 (DelayedTs m) <? peekTs) with true by (symmetry; apply Z.ltb_lt; lia).
    cbn [orb andb].
    assert (HK : getDelayedMsgDBKey dt ch (int64 (DelayedTs m)) (uint64 (ID m)) = k).
    { subst k. apply rebuild_key_prefix; assumption. }
    rewrite <- HK in HG.
    destruct (deleteBucketKey_succeeds _ _ _ _ _ _ _ HI HG) as (tx1 & Ed & Hdel).
    rewrite Ed.
    assert (HI1 : storeWf ext tx1).
    { eapply deleteBucketKey_storeWf; [exact HI|exact Ed|now left]. }
    assert (Ha1 : ahead cur tx1).
    { rewrite HK in Hdel. eapply ahead_Delete; eassumption. }
    destruct (IH (batched + 1) tx1 HI1 Ha1 ltac:(lia)) as (tx' & E & Hlen).
    exists tx'. rewrite Z.add_assoc. split; [exact E|].
    rewrite Hdel in Hlen.
    rewrite (length_Delete _ _ _ HG). lia.
Qed.

End BatchFacts.

(** * A store of many due messages *)

Section BulkFacts.
Context {C : Codec} `{!CodecOk C}.

Lemma bulk_key_lt i j :
  (i < j)%nat -> Z.of_nat j < 2 ^ 64 ->
  bytes_lt (msgKeyOf (bulkMessage i)) (msgKeyOf (bulkMessage j)).
Proof.
  intros Hij Hj. unfold bytes_lt, msgKeyOf, bulkMessage, channelMessage.
  cbn [DelayedType DelayedChannel DelayedTs ID].
  apply key_lt_same; [reflexivity|]. right. split; [reflexivity|].
  rewrite !uint64_small by (unfold is_uint64; lia). lia.
Qed.

Lemma bulk_row_lt i j :
  (i < j)%nat -> Z.of_nat j < 2 ^ 64 ->
  bytes_lt (indexKeyOf (bulkMessage i)) (indexKeyOf (bulkMessage j)).
Proof.
  intros Hij Hj. unfold bytes_lt, indexKeyOf, bulkMessage, channelMessage.
  cbn [DelayedType DelayedChannel DelayedOrigID].
  rewrite !index_key_prefix, bytes_compare_app, bytes_compare_refl by reflexivity.
  rewrite bytes_compare_PutUint64, !uint64_small by (unfold is_uint64; lia).
  apply Z.compare_lt_iff. lia.
Qed.

Lemma bulk_sorted (f : nat -> bytes * bytes) :
  (forall i j, (i < j)%nat -> Z.of_nat j < 2 ^ 64 -> bytes_lt (fst (f i)) (fst (f j))) ->
  forall n a, Z.of_nat (a + n) < 2 ^ 64 -> Bolt.sorted (map f (seq a n)).
Proof.
  intros Hf. induction n as [|n IH]; intros a Ha; cbn [seq map].
  - apply sorted_nil.
  - destruct (f a) as [k v] eqn:E. apply sorted_cons.
    + apply IH. lia.
    + unfold below. rewrite Forall_forall. intros e He.
      apply in_map_iff in He as (j & <- & Hj). apply in_seq in Hj.
      change k with (fst (k, v)). rewrite <- E. apply Hf; lia.
Qed.

Lemma bulkStore_wf ext n : Z.of_nat n + 1 < 2 ^ 64 -> storeWf ext (bulkStore ext n).
Proof.
  intros Hn.
  assert (S1 : Bolt.sorted (delayed_message (bulkStore ext n))).
  { apply bulk_sorted; [|lia]. intros i j. apply bulk_key_lt. }
  split; [exact S1|]. split; [|split].
  - apply bulk_sorted; [|lia]. intros i j. apply bulk_row_lt.
  - cbn [meta bulkStore]. apply sorted_cons; [apply sorted_nil|constructor].
  - intros k v HG. apply Get_In in HG; [|exact S1].
    cbn [delayed_message bulkStore] in HG.
    apply in_map_iff in HG as (j & E & Hj). apply in_seq in Hj.
    injection E as <- <-. exists (bulkMessage j). split; [|split].
    + apply decode_encode. unfold wfMessage, is_uint64, is_int64, is_int32, bulkMessage.
      cbn. unfold ChannelDelayed. lia.
    + reflexivity.
    + unfold msgKeyOf, len. rewrite length_key. unfold Bolt.MaxKeySize. cbn. lia.
Qed.

Lemma bulk_Seek ext n :
  Bolt.Seek (getDelayedMsgDBPrefixKey ChannelDelayed chanC)
    (delayed_message (bulkStore ext n))
  = delayed_message (bulkStore ext n).
Proof.
  cbn [delayed_message bulkStore]. destruct n as [|n]; [reflexivity|].
  cbn [seq map bulkEntry Bolt.Seek].
  pose proof (bytes_compare_prefix (getDelayedMsgDBPrefixKey ChannelDelayed chanC)
                (PutUint64 (uint64 100) ++ PutUint64 (uint64 (Z.of_nat 1)))) as H.
  unfold msgKeyOf at 1. unfold bulkMessage at 1. unfold channelMessage.
  cbn [DelayedType DelayedChannel DelayedTs ID].
  rewrite key_prefix.
  destruct (bytes_compare _ _); [reflexivity|contradiction|reflexivity].
Qed.

Lemma bulk_due ext (peekTs id : Z) n :
  100 < peekTs ->
  forall a,
    leadingDue ChannelDelayed peekTs id chanC (map (bulkEntry ext) (seq a n)) = Z.of_nat n.
Proof.
  intros Hp. induction n as [|n IH]; intros a; [reflexivity|].
  cbn [seq map leadingDue bulkEntry fst].
  assert (D : dueKey ChannelDelayed peekTs id chanC (msgKeyOf (bulkMessage a)) = true).
  { unfold dueKey, msgKeyOf, bulkMessage, channelMessage.
    cbn [DelayedType DelayedChannel DelayedTs ID].
    rewrite HasPrefix_key_prefix, decode_key by reflexivity.
    change (int64 100) with 100.
    replace (100 <? peekTs) with true by (symmetry; apply Z.ltb_lt; lia).
    now rewrite bytes_eqb_refl. }
  rewrite D, IH. lia.
Qed.

(** A pass over the store of [n] due messages deletes [n] of them, or
    [txMaxBatch + 1] when there are more. *)
Lemma bulk_pass ext (peekTs id : Z) n :
  100 < peekTs -> Z.of_nat n + 1 < 2 ^ 64 ->
  exists kv',
    emptyUntilPass ext ChannelDelayed peekTs id chanC (bulkStore ext n)
    = (kv', Z.min (Z.of_nat n) (txMaxBatch + 1), None)
    /\ Z.of_nat (length (delayed_message kv')) + Z.min (Z.of_nat n) (txMaxBatch + 1)
       = Z.of_nat n.
Proof.
  intros Hp Hn. pose proof (bulkStore_wf ext n Hn) as Hwf.
  unfold emptyUntilPass, Update. rewrite bulk_Seek.
  destruct (emptyUntilScan_count ext ChannelDelayed peekTs id chanC
              (delayed_message (bulkStore ext n)) 0 (bulkStore ext n) Hwf)
    as (kv' & E & Hlen).
  { rewrite <- (bulk_Seek ext n). apply ahead_Seek, Hwf. }
  { unfold txMaxBatch. lia. }
  cbn [delayed_message bulkStore] in E, Hlen.
  rewrite (bulk_due ext peekTs id n Hp 1) in E, Hlen. cbn [Z.add] in E, Hlen.
  cbn [delayed_message bulkStore]. rewrite E.
  exists kv'. split; [reflexivity|].
  rewrite length_map, length_seq in Hlen. lia.
Qed.

End BulkFacts.

(** * Peek order and batch size *)

Section PeekAndBatch.
Context {C : Codec} `{!CodecOk C}.

(** C5.  Peek.  First, on a store whose keys are ascending,
    [PeekRecentTimeoutWithFilter] writes at most as many messages as the
    buffer has slots and leaves the store alone; the messages written are
    read from stored keys under the filter's prefix, of the filter's
    channel and type and due at [peekTs] or before, in strictly ascending
    order of their keys as byte strings.  Second, for channels shorter than
    65536 bytes that order compares the type, then the length of the
    channel, then its bytes, then the delivery time, then the id, the
    numbers as unsigned.  Third, when the store holds m1 (due 200, id 1),
    m2 (due 100, id 2) and m3 (due 200) of type 1 and one channel, m3 under
    the id [g] it was given in place of 0, a peek with deadline 300 and
    three slots returns m2, m3, m1 when [g] is 0 and m2, m1, m3 when [g] is
    greater than 1. *)
Theorem peek_ordering :
  (forall (q : DelayQueue) (results : list Message) (peekTs filterType : Z)
          (filterChannel : bytes) (q' : DelayQueue) (idx : nat) (res : list Message)
          (err : option error),
      Bolt.sorted (delayed_message (kvStore q)) ->
      PeekRecentTimeoutWithFilter q results peekTs filterType filterChannel
      = (q', (idx, res, err)) ->
      (idx <= length results)%nat /\ length res = length results
      /\ kvStore q' = kvStore q
      /\ exists ks,
           Forall2 (peeked (IsExt q) (kvStore q) peekTs filterType filterChannel)
             ks (firstn idx res)
           /\ StronglySorted bytes_lt ks)
  /\ (forall (dt : Z) (ch : bytes) (ts id : Z) (dt' : Z) (ch' : bytes) (ts' id' : Z),
        len ch < 65536 -> len ch' < 65536 ->
        bytes_compare (getDelayedMsgDBKey dt ch ts id) (getDelayedMsgDBKey dt' ch' ts' id')
        = keyOrder dt ch ts id dt' ch' ts' id')
  /\ (forall (q : DelayQueue) (ch : bytes) (m1 m2 m3 : Message) (g : Z)
             (results : list Message),
        0 < len ch < 65536 ->
        wfMessage m1 -> wfMessage m2 -> wfMessage m3 ->
        DelayedType m1 = ChannelDelayed -> DelayedType m2 = ChannelDelayed ->
        DelayedType m3 = ChannelDelayed ->
        DelayedChannel m1 = ch -> DelayedChannel m2 = ch -> DelayedChannel m3 = ch ->
        DelayedTs m1 = 200 -> ID m1 = 1 -> DelayedTs m2 = 100 -> ID m2 = 2 ->
        DelayedTs m3 = 200 -> ID m3 = g -> 0 <= g < 2 ^ 64 -> g <> 1 ->
        delayed_message (kvStore q)
        = Bolt.insert (msgKeyOf m3) (WriteDelayedTo m3 (IsExt q))
            (Bolt.insert (msgKeyOf m2) (WriteDelayedTo m2 (IsExt q))
               (Bolt.insert (msgKeyOf m1) (WriteDelayedTo m1 (IsExt q)) [])) ->
        peekIgnored q 300 ChannelDelayed ch = false ->
        length results = 3%nat ->
        snd (PeekRecentTimeoutWithFilter q results 300 ChannelDelayed ch)
        = (3%nat, (if g =? 0 then [m2; m3; m1] else [m2; m1; m3]), None)).
Proof.
  split; [|split].
  - intros. eapply peek_general; eassumption.
  - intros. now apply key_compare.
  - intros. eapply peek_three; eassumption.
Qed.

(** The batch of a pass of [emptyDelayedUntil] on an engine reached from
    an empty store: one store transaction deletes the due keys at the
    front of its cursor and stops once the count has reached
    [txMaxBatch + 1]. *)
Lemma emptyUntilPass_batch (q0 : DelayQueue) (ops : list Op) (q : DelayQueue)
  (dt peekTs id : Z) (ch : bytes) :
  kvStore q0 = emptyKV -> Forall wfOp ops -> len ops < 2 ^ 64 ->
  runOps q0 ops = Some q ->
  let due :=
    leadingDue dt peekTs id ch
      (Bolt.Seek (getDelayedMsgDBPrefixKey dt ch) (delayed_message (kvStore q))) in
  exists kv',
    emptyUntilPass (IsExt q) dt peekTs id ch (kvStore q)
    = (kv', Z.min due (txMaxBatch + 1), None)
    /\ Z.of_nat (length (delayed_message kv')) + Z.min due (txMaxBatch + 1)
       = Z.of_nat (length (delayed_message (kvStore q)))
    /\ (txMaxBatch < due -> Z.min due (txMaxBatch + 1) = 10001).
Proof.
  intros H0 Hw Hn Hr due.
  destruct (runOps_storeOk (IsExt q0) ops q0 0 q eq_refl) as [He (Hwf & _ & _)]; auto.
  { rewrite H0. apply storeOk_empty. }
  rewrite He. unfold emptyUntilPass, Update.
  destruct (emptyUntilScan_count (IsExt q0) dt peekTs id ch
              (Bolt.Seek (getDelayedMsgDBPrefixKey dt ch) (delayed_message (kvStore q)))
              0 (kvStore q) Hwf) as (kv' & E & Hlen).
  { apply ahead_Seek, Hwf. }
  { unfold txMaxBatch. lia. }
  cbn [Z.add] in E, Hlen. fold due in E, Hlen. rewrite E.
  exists kv'. split; [reflexivity|]. split; [lia|].
  unfold txMaxBatch. lia.
Qed.

End PeekAndBatch.

(** * Decimal numbers: [Itoa] and [Atoi] *)

Lemma atoiDigits_step (c : byte) (acc k : Z) (rest : bytes) :
  Z_of_byte c - 48 = k -> 0 <= k <= 9 ->
  atoiDigits acc (c :: rest) = atoiDigits (acc * 10 + k) rest.
Proof.
  intros <- Hk. cbn [atoiDigits]. cbv zeta.
  destruct (Z.leb_spec 0 (Z_of_byte c - 48)); [|lia].
  destruct (Z.leb_spec (Z_of_byte c - 48) 9); [reflexivity|lia].
Qed.

Ltac atoi_digit k :=
  unfold digitsOf;
  cbn [DecimalString.NilEmpty.string_of_uint String.list_byte_of_string
         String.list_ascii_of_string map];
  rewrite (atoiDigits_step _ _ k) by (first [reflexivity | lia]).

Lemma atoiDigits_acc (u : Decimal.uint) :
  forall p : positive,
    atoiDigits (Z.pos p) (digitsOf u) = Some (Z.pos (Pos.of_uint_acc u p)).
Proof.
  induction u; intros p; cbn [Pos.of_uint_acc]; [reflexivity|..];
    rewrite <- IHu;
    [atoi_digit 0|atoi_digit 1|atoi_digit 2|atoi_digit 3|atoi_digit 4|atoi_digit 5
    |atoi_digit 6|atoi_digit 7|atoi_digit 8|atoi_digit 9];
    f_equal; lia.
Qed.

Lemma atoiDigits_uint (u : Decimal.uint) :
  atoiDigits 0 (digitsOf u) = Some (Z.of_N (Pos.of_uint u)).
Proof.
  induction u; cbn [Pos.of_uint Z.of_N]; [reflexivity|..];
    [rewrite <- IHu; atoi_digit 0; reflexivity|..];
    rewrite <- atoiDigits_acc;
    [atoi_digit 1|atoi_digit 2|atoi_digit 3|atoi_digit 4|atoi_digit 5
    |atoi_digit 6|atoi_digit 7|atoi_digit 8|atoi_digit 9];
    reflexivity.
Qed.

Lemma digitsOf_head (u : Decimal.uint) :
  u <> Decimal.Nil ->
  exists c s, digitsOf u = c :: s
    /\ Byte.eqb c "-"%byte = false /\ Byte.eqb c "+"%byte = false.
Proof.
  intros Hn. destruct u; [contradiction| | | | | | | | | |];
    eexists; eexists; (split; [reflexivity|split; reflexivity]).
Qed.

Lemma Itoa_pos (p : positive) : Itoa (Z.pos p) = digitsOf (Pos.to_uint p).
Proof.
  unfold Itoa, digitsOf. cbn [Z.to_int DecimalString.NilZero.string_of_int].
  unfold DecimalString.NilZero.string_of_uint.
  pose proof (DecimalPos.Unsigned.to_uint_nonnil p) as Hn.
  destruct (Pos.to_uint p); [contradiction| | | | | | | | | |]; reflexivity.
Qed.

Lemma Itoa_neg (p : positive) : Itoa (Z.neg p) = "-"%byte :: digitsOf (Pos.to_uint p).
Proof.
  unfold Itoa, digitsOf. cbn [Z.to_int DecimalString.NilZero.string_of_int].
  unfold DecimalString.NilZero.string_of_uint.
  pose proof (DecimalPos.Unsigned.to_uint_nonnil p) as Hn.
  destruct (Pos.to_uint p); [contradiction| | | | | | | | | |]; reflexivity.
Qed.

(** [Atoi] reads back what [Itoa] prints. *)
Lemma Atoi_Itoa (z : Z) : is_int64 z -> Atoi (Itoa z) = Ok z.
Proof.
  intros Hz. unfold is_int64 in Hz. destruct z as [|p|p].
  - reflexivity.
  - rewrite Itoa_pos.
    destruct (digitsOf_head (Pos.to_uint p) (DecimalPos.Unsigned.to_uint_nonnil p))
      as (c & s & E & H1 & H2).
    pose proof (atoiDigits_uint (Pos.to_uint p)) as Hd.
    rewrite DecimalPos.Unsigned.of_to in Hd. rewrite E in *.
    unfold Atoi. rewrite H1, H2. cbn [orb]. rewrite Hd. cbn [Z.of_N].
    destruct (Z.leb_spec (- 2 ^ 63) (Z.pos p)); [|lia].
    destruct (Z.ltb_spec (Z.pos p) (2 ^ 63)); [reflexivity|lia].
  - rewrite Itoa_neg.
    destruct (digitsOf_head (Pos.to_uint p) (DecimalPos.Unsigned.to_uint_nonnil p))
      as (c & s & E & H1 & H2).
    pose proof (atoiDigits_uint (Pos.to_uint p)) as Hd.
    rewrite DecimalPos.Unsigned.of_to in Hd. rewrite E in *.
    unfold Atoi. cbn [Byte.eqb orb]. 
    replace (Byte.eqb "-" "-") with true by reflexivity. cbn [orb].
    rewrite Hd. cbn [Z.of_N Z.opp].
    destruct (Z.leb_spec (- 2 ^ 63) (Z.neg p)); [|lia].
    destruct (Z.ltb_spec (Z.neg p) (2 ^ 63)); [reflexivity|lia].
Qed.

(** * Keys: round trips and collisions *)

(** X1.  A primary key decodes to the fields it was built from: for a type
    in the range of [uint16], a channel shorter than 65536 bytes, a
    delivery time in [int64] and an id in [uint64],
    [decodeDelayedMsgDBKey] of [getDelayedMsgDBKey] returns exactly these
    four fields and no error. *)
Theorem key_round_trip (dt : Z) (ch : bytes) (ts id : Z) :
  0 <= dt < 65536 -> len ch < 65536 -> is_int64 ts -> is_uint64 id ->
  decodeDelayedMsgDBKey (getDelayedMsgDBKey dt ch ts id) = Ok (dt, ts, id, ch).
Proof.
  intros Hdt Hch Hts Hid. rewrite decode_key by assumption.
  rewrite uint16_small, int64_small, uint64_small by assumption. reflexivity.
Qed.

Lemma decode_index_key (dt : Z) (ch : bytes) (id : Z) :
  len ch < 65536 ->
  decodeDelayedMsgDBIndexKey (getDelayedMsgDBIndexKey dt ch id)
  = Ok (uint16 dt, uint64 id, ch).
Proof.
  intros Hch. unfold decodeDelayedMsgDBIndexKey.
  assert (Hlen : len (getDelayedMsgDBIndexKey dt ch id) = 13 + len ch).
  { unfold len. rewrite length_index_key. lia. }
  rewrite Hlen.
  assert (Hc : 0 <= len ch) by (unfold len; lia).
  destruct (Z.ltb_spec (13 + len ch) (2 + 1 + 2 + 8)) as [?|_]; [lia|].
  unfold getDelayedMsgDBIndexKey.
  set (A := PutUint16 (uint16 dt)). set (L := PutUint16 (uint16 (len ch))).
  set (N := PutUint64 (uint64 id)).
  assert (HA : length A = 2%nat) by apply length_PutUint16.
  assert (HL : length L = 2%nat) by apply length_PutUint16.
  assert (HN : length N = 8%nat) by apply length_PutUint64.
  set (K := A ++ dash :: L ++ ch ++ N).
  assert (E0 : slice 0 2 K = A) by now apply slice_0.
  assert (E3 : slice 3 5 K = L).
  { replace K with ((A ++ [dash]) ++ L ++ (ch ++ N))
      by (unfold K; now rewrite <- !app_assoc).
    apply slice_mid; rewrite ?length_app, ?HA, ?HL; reflexivity. }
  rewrite E3.
  assert (HUL : Z.to_nat (Uint L) = length ch).
  { unfold L. rewrite Uint_PutUint16, uint16_idem, uint16_small by lia. unfold len. lia. }
  rewrite !HUL.
  destruct (Z.ltb_spec (13 + len ch) (Z.of_nat (5 + length ch))) as [?|_];
    [unfold len in *; lia|].
  destruct (Z.ltb_spec (13 + len ch) (Z.of_nat (5 + length ch) + 8)) as [?|_];
    [unfold len in *; lia|].
  assert (Ech : slice 5 (5 + length ch) K = ch).
  { replace K with ((A ++ [dash] ++ L) ++ ch ++ N)
      by (unfold K; now rewrite <- !app_assoc).
    apply slice_mid; rewrite ?length_app, ?HA, ?HL; reflexivity. }
  assert (Eid : slice (5 + length ch) (5 + length ch + 8) K = N).
  { replace K with ((A ++ [dash] ++ L ++ ch) ++ N ++ [])
      by (unfold K; rewrite <- !app_assoc, app_nil_r; reflexivity).
    apply slice_mid; rewrite ?length_app, ?HA, ?HL, ?HN; cbn [length]; lia. }
  rewrite E0, Ech, Eid. unfold A, N.
  rewrite Uint_PutUint16, Uint_PutUint64, uint16_idem, uint64_idem.
  unfold MessageID. now rewrite uint64_int64, uint64_idem.
Qed.

(** X2.  An index key decodes to the fields it was built from: type,
    original id and channel come back unchanged and without error, for a
    type in [uint16], an id in [uint64] and a channel shorter than 65536
    bytes. *)
Theorem index_key_round_trip (dt : Z) (ch : bytes) (id : Z) :
  0 <= dt < 65536 -> len ch < 65536 -> is_uint64 id ->
  decodeDelayedMsgDBIndexKey (getDelayedMsgDBIndexKey dt ch id) = Ok (dt, id, ch).
Proof.
  intros Hdt Hch Hid. rewrite decode_index_key by assumption.
  rewrite uint16_small, uint64_small by assumption. reflexivity.
Qed.

(** X3.  Two primary keys are equal only when they were built from the
    same channel and from types, delivery times and ids that agree as
    [uint16] and [uint64] values: no two of the messages the key tells
    apart share a key, whatever the length of the channel. *)
Theorem key_injective (dt : Z) (ch : bytes) (ts id : Z) (dt' : Z) (ch' : bytes) (ts' id' : Z) :
  getDelayedMsgDBKey dt ch ts id = getDelayedMsgDBKey dt' ch' ts' id' ->
  uint16 dt = uint16 dt' /\ ch = ch' /\ uint64 ts = uint64 ts' /\ uint64 id = uint64 id'.
Proof.
  intros H. pose proof (f_equal (@length byte) H) as Hl. rewrite !length_key in Hl.
  unfold getDelayedMsgDBKey in H.
  apply app_eq_length in H as [HA H]; [|now rewrite !length_PutUint16].
  apply (f_equal (@tl byte)) in H; cbn [tl] in H.
  apply app_eq_length in H as [_ H]; [|now rewrite !length_PutUint16].
  apply app_eq_length in H as [Hc H]; [|lia].
  apply app_eq_length in H as [Ht Hi]; [|now rewrite !length_PutUint64].
  apply PutUint16_inj in HA. apply PutUint64_inj in Ht, Hi.
  rewrite !uint16_idem in HA. rewrite !uint64_idem in Ht, Hi. auto.
Qed.

(** X4.  A cursor walk under the prefix of a type and a channel meets only
    keys of that type and channel: a key whose channel is shorter than
    65536 bytes starts with the prefix of [(dt, ch)] exactly when its type
    agrees with [dt] as a [uint16] and its channel is [ch]. *)
Theorem prefix_scan_same_channel (t dt : Z) (c ch : bytes) (ts id : Z) :
  len c < 65536 ->
  HasPrefix (getDelayedMsgDBKey t c ts id) (getDelayedMsgDBPrefixKey dt ch) = true
  <-> (uint16 dt = uint16 t /\ ch = c).
Proof.
  intros Hc. split.
  - intros H. apply HasPrefix_key_inv in H as [HA ->]; [|assumption].
    apply PutUint16_inj in HA. rewrite !uint16_idem in HA. auto.
  - intros [Ht ->]. unfold getDelayedMsgDBPrefixKey. rewrite Ht.
    apply (HasPrefix_key_prefix t c ts id).
Qed.

(** * The log writer *)

Lemma int64_id (z : Z) : - 2 ^ 63 <= z < 2 ^ 63 -> int64 z = z.
Proof. intros. apply int64_small. exact H. Qed.

Lemma int32_id (z : Z) : - 2 ^ 31 <= z < 2 ^ 31 -> int32 z = z.
Proof.
  intros. unfold int32. rewrite Z.mod_small by lia. lia.
Qed.

Lemma len_nonneg {A} (l : list A) : 0 <= len l.
Proof. unfold len. lia. Qed.

Lemma fileSize_setFileSize_same n sz fs :
  DiskQueue.fileSize n (DiskQueue.setFileSize n sz fs) = Some sz.
Proof. unfold DiskQueue.setFileSize. cbn. now rewrite Z.eqb_refl. Qed.

Lemma fileSize_removeFile_other n m fs :
  n <> m -> DiskQueue.fileSize m (DiskQueue.removeFile n fs) = DiskQueue.fileSize m fs.
Proof.
  intros Hnm. unfold DiskQueue.removeFile.
  induction fs as [|[k sz] fs IH]; [reflexivity|]. cbn.
  destruct (Z.eqb_spec n k) as [->|Hk]; cbn.
  - destruct (Z.eqb_spec m k) as [->|_]; [congruence|exact IH].
  - destruct (Z.eqb_spec m k); [reflexivity|exact IH].
Qed.

Lemma fileSize_setFileSize_other n m sz fs :
  n <> m -> DiskQueue.fileSize m (DiskQueue.setFileSize n sz fs) = DiskQueue.fileSize m fs.
Proof.
  intros Hnm. unfold DiskQueue.setFileSize. cbn.
  destruct (Z.eqb_spec m n) as [->|_]; [congruence|].
  now apply fileSize_removeFile_other.
Qed.

Lemma fileSize_renameRolled fuel :
  forall n fs m, m < n ->
    DiskQueue.fileSize m (DiskQueue.renameRolled fuel n fs) = DiskQueue.fileSize m fs.
Proof.
  induction fuel as [|fuel IH]; intros n fs m Hm; cbn; [reflexivity|].
  destruct (DiskQueue.fileSize n fs); [|reflexivity].
  rewrite IH by lia. apply fileSize_removeFile_other. lia.
Qed.

(** The file of the write end after [truncateDiskQueueToWriteEnd] is as
    long as the write position. *)
Lemma truncate_fileSize d :
  DiskQueue.fileSize (DiskQueue.FileNum (DiskQueue.EndOffset (DiskQueue.diskWriteEnd d)))
    (DiskQueue.dataFiles (DiskQueue.truncateDiskQueueToWriteEnd d))
  = Some (DiskQueue.Pos (DiskQueue.EndOffset (DiskQueue.diskWriteEnd d))).
Proof.
  unfold DiskQueue.truncateDiskQueueToWriteEnd, DiskQueue.setFiles.
  cbv zeta. cbn [DiskQueue.dataFiles].
  rewrite fileSize_renameRolled by lia. apply fileSize_setFileSize_same.
Qed.

(** Opening the write file changes nothing but the list of files. *)
Lemma open_writeEnd d :
  DiskQueue.diskWriteEnd (DiskQueue.openWriteFile d) = DiskQueue.diskWriteEnd d.
Proof. unfold DiskQueue.openWriteFile. cbv zeta. now destruct (DiskQueue.fileSize _ _). Qed.

Lemma open_readEnd d :
  DiskQueue.diskReadEnd (DiskQueue.openWriteFile d) = DiskQueue.diskReadEnd d.
Proof. unfold DiskQueue.openWriteFile. cbv zeta. now destruct (DiskQueue.fileSize _ _). Qed.

Lemma open_start d :
  DiskQueue.diskQueueStart (DiskQueue.openWriteFile d) = DiskQueue.diskQueueStart d.
Proof. unfold DiskQueue.openWriteFile. cbv zeta. now destruct (DiskQueue.fileSize _ _). Qed.

Lemma open_maxBytes d :
  DiskQueue.maxBytesPerFile (DiskQueue.openWriteFile d) = DiskQueue.maxBytesPerFile d.
Proof. unfold DiskQueue.openWriteFile. cbv zeta. now destruct (DiskQueue.fileSize _ _). Qed.

Lemma open_minMsg d :
  DiskQueue.minMsgSize (DiskQueue.openWriteFile d) = DiskQueue.minMsgSize d.
Proof. unfold DiskQueue.openWriteFile. cbv zeta. now destruct (DiskQueue.fileSize _ _). Qed.

Lemma open_maxMsg d :
  DiskQueue.maxMsgSize (DiskQueue.openWriteFile d) = DiskQueue.maxMsgSize d.
Proof. unfold DiskQueue.openWriteFile. cbv zeta. now destruct (DiskQueue.fileSize _ _). Qed.

Lemma open_exitFlag d :
  DiskQueue.exitFlag (DiskQueue.openWriteFile d) = DiskQueue.exitFlag d.
Proof. unfold DiskQueue.openWriteFile. cbv zeta. now destruct (DiskQueue.fileSize _ _). Qed.

Lemma open_needSync d :
  DiskQueue.needSync (DiskQueue.openWriteFile d) = DiskQueue.needSync d.
Proof. unfold DiskQueue.openWriteFile. cbv zeta. now destruct (DiskQueue.fileSize _ _). Qed.

Lemma open_setEnds d we re fs :
  DiskQueue.setFiles (DiskQueue.setEnds (DiskQueue.openWriteFile d) we re) fs
  = DiskQueue.setFiles (DiskQueue.setEnds d we re) fs.
Proof.
  unfold DiskQueue.setFiles, DiskQueue.setEnds. cbn.
  now rewrite open_start, open_maxBytes, open_minMsg, open_maxMsg, open_exitFlag,
    open_needSync.
Qed.

Ltac open_fields :=
  rewrite ?open_setEnds, ?open_writeEnd, ?open_readEnd, ?open_start, ?open_maxBytes,
    ?open_minMsg, ?open_maxMsg, ?open_exitFlag, ?open_needSync.

(** The write file exists once it has been opened, empty if it was
    missing; the other files are as they were. *)
Lemma open_fileSize d :
  DiskQueue.fileSize (DiskQueue.FileNum (DiskQueue.EndOffset (DiskQueue.diskWriteEnd d)))
    (DiskQueue.dataFiles (DiskQueue.openWriteFile d))
  = Some match DiskQueue.fileSize
                 (DiskQueue.FileNum (DiskQueue.EndOffset (DiskQueue.diskWriteEnd d)))
                 (DiskQueue.dataFiles d) with
         | Some sz => sz
         | None => 0
         end.
Proof.
  unfold DiskQueue.openWriteFile. cbv zeta.
  destruct (DiskQueue.fileSize
              (DiskQueue.FileNum (DiskQueue.EndOffset (DiskQueue.diskWriteEnd d)))
              (DiskQueue.dataFiles d)) eqn:E; [exact E|].
  cbn [DiskQueue.dataFiles DiskQueue.setFiles]. apply fileSize_setFileSize_same.
Qed.

Lemma open_fileSize_other d i :
  i <> DiskQueue.FileNum (DiskQueue.EndOffset (DiskQueue.diskWriteEnd d)) ->
  DiskQueue.fileSize i (DiskQueue.dataFiles (DiskQueue.openWriteFile d))
  = DiskQueue.fileSize i (DiskQueue.dataFiles d).
Proof.
  intros Hi. unfold DiskQueue.openWriteFile. cbv zeta.
  destruct (DiskQueue.fileSize
              (DiskQueue.FileNum (DiskQueue.EndOffset (DiskQueue.diskWriteEnd d)))
              (DiskQueue.dataFiles d)); [reflexivity|].
  cbn [DiskQueue.dataFiles DiskQueue.setFiles]. now apply fileSize_setFileSize_other.
Qed.

Lemma removeFile_twice n fs :
  DiskQueue.removeFile n (DiskQueue.removeFile n fs) = DiskQueue.removeFile n fs.
Proof.
  unfold DiskQueue.removeFile. induction fs as [|e fs IH]; [reflexivity|].
  cbn [filter]. destruct (negb (n =? fst e)) eqn:E; cbn [filter]; rewrite ?E, IH; reflexivity.
Qed.

(** The size of the write file after a write that ends at [p]. *)
Lemma open_grown d p :
  0 <= p ->
  let cur := DiskQueue.FileNum (DiskQueue.EndOffset (DiskQueue.diskWriteEnd d)) in
  DiskQueue.setFileSize cur
    match DiskQueue.fileSize cur (DiskQueue.dataFiles (DiskQueue.openWriteFile d)) with
    | Some sz => Z.max sz p
    | None => p
    end (DiskQueue.dataFiles (DiskQueue.openWriteFile d))
  = DiskQueue.setFileSize cur
      match DiskQueue.fileSize cur (DiskQueue.dataFiles d) with
      | Some sz => Z.max sz p
      | None => p
      end (DiskQueue.dataFiles d).
Proof.
  intros Hp cur. subst cur.
  destruct (DiskQueue.fileSize
              (DiskQueue.FileNum (DiskQueue.EndOffset (DiskQueue.diskWriteEnd d)))
              (DiskQueue.dataFiles d)) as [sz|] eqn:E.
  - assert (Ho : DiskQueue.openWriteFile d = d)
      by (unfold DiskQueue.openWriteFile; cbv zeta; now rewrite E).
    now rewrite Ho, E.
  - assert (Ho : DiskQueue.openWriteFile d
                 = DiskQueue.setFiles d
                     (DiskQueue.setFileSize
                        (DiskQueue.FileNum (DiskQueue.EndOffset (DiskQueue.diskWriteEnd d)))
                        0 (DiskQueue.dataFiles d)))
      by (unfold DiskQueue.openWriteFile; cbv zeta; now rewrite E).
    rewrite Ho. cbn [DiskQueue.dataFiles DiskQueue.setFiles].
    rewrite fileSize_setFileSize_same, Z.max_r by assumption.
    unfold DiskQueue.setFileSize. f_equal.
    unfold DiskQueue.removeFile at 1. cbn [filter fst]. rewrite Z.eqb_refl. cbn [negb].
    apply removeFile_twice.
Qed.

(** [PutV2] on a writer that is not exiting, for a record that fits. *)
Lemma PutV2_done (d : DiskQueue.diskQueueWriter) (data : bytes) :
  DiskQueue.exitFlag d <> 1 -> wfWriter d -> len data + 4 < 2 ^ 31 ->
  roomFor d (len data + 4) ->
  DiskQueue.minMsgSize d <= len data <= DiskQueue.maxMsgSize d ->
  let we := DiskQueue.diskWriteEnd d in
  let n := len data + 4 in
  let cur := DiskQueue.FileNum (DiskQueue.EndOffset we) in
  let we1 :=
    {| DiskQueue.EndOffset :=
         {| DiskQueue.FileNum := cur;
            DiskQueue.Pos := DiskQueue.Pos (DiskQueue.EndOffset we) + n |};
       DiskQueue.virtualEnd := DiskQueue.virtualEnd we + n;
       DiskQueue.totalMsgCnt := DiskQueue.totalMsgCnt we + 1 |} in
  let fs1 :=
    DiskQueue.setFileSize cur
      match DiskQueue.fileSize cur (DiskQueue.dataFiles d) with
      | Some sz => Z.max sz (DiskQueue.Pos (DiskQueue.EndOffset we) + n)
      | None => DiskQueue.Pos (DiskQueue.EndOffset we) + n
      end (DiskQueue.dataFiles d) in
  let d1 := DiskQueue.setFiles (DiskQueue.setEnds d we1 (DiskQueue.diskReadEnd d)) fs1 in
  let we2 := DiskQueue.withPos we1 (cur + 1) 0 in
  DiskQueue.PutV2 d data
  = if DiskQueue.Pos (DiskQueue.EndOffset we) + n >=? DiskQueue.maxBytesPerFile d then
      (DiskQueue.setNeedSync (DiskQueue.setEnds (DiskQueue.sync d1) we2 we2) true,
       (DiskQueue.virtualEnd we, n, we2, None))
    else (DiskQueue.setNeedSync d1 true, (DiskQueue.virtualEnd we, n, we1, None)).
Proof.
  intros Hex [(Hp & Hv & Ht) _] Hlen (Rp & Rv & Rt & Rf & Rf') [H1 H2] we n cur we1 fs1 d1 we2.
  subst we2 d1 fs1 we1 cur n we. pose proof (len_nonneg data) as Hl.
  unfold DiskQueue.PutV2, DiskQueue.writeOne. cbv zeta. open_fields.
  destruct (Z.eqb_spec (DiskQueue.exitFlag d) 1) as [|_]; [contradiction|].
  rewrite (int32_id (len data)) by lia.
  cbn [negb andb].
  destruct (Z.ltb_spec (len data) (DiskQueue.minMsgSize d)) as [H1'|_]; [lia|]. cbn [orb].
  destruct (Z.gtb_spec (len data) (DiskQueue.maxMsgSize d)) as [H2'|_]; [lia|].
  unfold DiskQueue.Offset.
  rewrite (int64_id (len data + 4)) by lia.
  rewrite (int64_id (DiskQueue.Pos _ + _)) by lia.
  rewrite (int64_id (DiskQueue.virtualEnd _ + _)) by lia.
  rewrite (int64_id (DiskQueue.totalMsgCnt _ + _)) by lia.
  rewrite (int32_id (len data + 4)) by lia.
  rewrite (int64_id (DiskQueue.FileNum _ + 1)) by lia.
  rewrite (open_grown d) by lia.
  destruct (_ >=? _); reflexivity.
Qed.

(** [PutV2] of a record that is too short or too long. *)
Lemma PutV2_rejected (d : DiskQueue.diskQueueWriter) (data : bytes) :
  DiskQueue.exitFlag d <> 1 -> len data < 2 ^ 31 ->
  len data < DiskQueue.minMsgSize d \/ DiskQueue.maxMsgSize d < len data ->
  DiskQueue.PutV2 d data
  = (DiskQueue.setNeedSync (DiskQueue.openWriteFile d) true,
     (0, 0, DiskQueue.zeroEndInfo, Some errInvalidWriteSize)).
Proof.
  intros Hex Hlen Hbad. pose proof (len_nonneg data) as Hl.
  unfold DiskQueue.PutV2, DiskQueue.writeOne. cbv zeta. open_fields.
  destruct (Z.eqb_spec (DiskQueue.exitFlag d) 1) as [|_]; [contradiction|].
  rewrite (int32_id (len data)) by lia.
  cbn [negb andb].
  destruct (Z.ltb_spec (len data) (DiskQueue.minMsgSize d)) as [H1|H1]; cbn [orb];
    [reflexivity|].
  destruct (Z.gtb_spec (len data) (DiskQueue.maxMsgSize d)) as [H2|H2]; [reflexivity|lia].
Qed.

(** X5.  [PutV2] on a writer that is not exiting.  A record shorter than
    [minMsgSize] or longer than [maxMsgSize] is refused with the size
    error; the write end stays as it is, and so do the data files but for
    the write file, which was opened before the size was looked at: it
    exists afterwards, empty if it was missing.  Any other
    record is appended: the call returns the old virtual offset and the
    record length plus 4, the virtual end advances by that much and the
    count by one.  While the position stays below [maxBytesPerFile] the
    write stays in the file; once it reaches it the write end moves to
    position 0 of the next file and the read end follows it. *)
Theorem put_v2_effect (d : DiskQueue.diskQueueWriter) (data : bytes) :
  DiskQueue.exitFlag d <> 1 -> wfWriter d -> len data + 4 < 2 ^ 31 ->
  roomFor d (len data + 4) ->
  let we := DiskQueue.diskWriteEnd d in
  let n := len data + 4 in
  forall d' off wb e err,
    DiskQueue.PutV2 d data = (d', (off, wb, e, err)) ->
    (len data < DiskQueue.minMsgSize d \/ DiskQueue.maxMsgSize d < len data ->
     err = Some errInvalidWriteSize
     /\ DiskQueue.diskWriteEnd d' = we
     /\ DiskQueue.fileSize (DiskQueue.FileNum (DiskQueue.EndOffset we))
          (DiskQueue.dataFiles d')
        = Some match DiskQueue.fileSize (DiskQueue.FileNum (DiskQueue.EndOffset we))
                       (DiskQueue.dataFiles d) with
               | Some sz => sz
               | None => 0
               end
     /\ (forall i, i <> DiskQueue.FileNum (DiskQueue.EndOffset we) ->
         DiskQueue.fileSize i (DiskQueue.dataFiles d')
         = DiskQueue.fileSize i (DiskQueue.dataFiles d)))
    /\ (DiskQueue.minMsgSize d <= len data <= DiskQueue.maxMsgSize d ->
        err = None /\ off = DiskQueue.virtualEnd we /\ wb = n
        /\ e = DiskQueue.diskWriteEnd d'
        /\ DiskQueue.virtualEnd e = DiskQueue.virtualEnd we + n
        /\ DiskQueue.totalMsgCnt e = DiskQueue.totalMsgCnt we + 1
        /\ DiskQueue.needSync d' = true
        /\ (DiskQueue.Pos (DiskQueue.EndOffset we) + n < DiskQueue.maxBytesPerFile d ->
            DiskQueue.EndOffset e
            = {| DiskQueue.FileNum := DiskQueue.FileNum (DiskQueue.EndOffset we);
                 DiskQueue.Pos := DiskQueue.Pos (DiskQueue.EndOffset we) + n |}
            /\ DiskQueue.diskReadEnd d' = DiskQueue.diskReadEnd d)
        /\ (DiskQueue.maxBytesPerFile d <= DiskQueue.Pos (DiskQueue.EndOffset we) + n ->
            DiskQueue.EndOffset e
            = {| DiskQueue.FileNum := DiskQueue.FileNum (DiskQueue.EndOffset we) + 1;
                 DiskQueue.Pos := 0 |}
            /\ DiskQueue.diskReadEnd d' = e)).
Proof.
  intros Hex Hwf Hlen Hroom we n d' off wb e err Hput. subst we n. split.
  - intros Hbad. rewrite PutV2_rejected in Hput by (auto; lia).
    injection Hput as <- <- <- <- <-.
    cbn [DiskQueue.setNeedSync DiskQueue.diskWriteEnd DiskQueue.dataFiles].
    split; [reflexivity|]. split; [apply open_writeEnd|].
    split; [apply open_fileSize|]. intros i Hi. now apply open_fileSize_other.
  - intros Hok. rewrite (PutV2_done d data Hex Hwf Hlen Hroom Hok) in Hput.
    destruct (Z.geb_spec
                (DiskQueue.Pos (DiskQueue.EndOffset (DiskQueue.diskWriteEnd d)) + (len data + 4))
                (DiskQueue.maxBytesPerFile d)) as [H3|H3];
      injection Hput as <- <- <- <- <-; cbn;
      repeat split; intros; try reflexivity; exfalso; lia.
Qed.

(** [RollbackWriteV2] when it goes through. *)
Lemma rollback_done (d : DiskQueue.diskQueueWriter) (offset diffCnt : Z) :
  wfWriter d -> 0 <= diffCnt < 2 ^ 63 ->
  let we := DiskQueue.diskWriteEnd d in
  let start := DiskQueue.diskQueueStart d in
  DiskQueue.virtualEnd start <= offset <= DiskQueue.virtualEnd we ->
  DiskQueue.totalMsgCnt start <= DiskQueue.totalMsgCnt we - diffCnt ->
  DiskQueue.virtualEnd we - DiskQueue.Pos (DiskQueue.EndOffset we) <= offset ->
  let we' :=
    {| DiskQueue.EndOffset :=
         {| DiskQueue.FileNum := DiskQueue.FileNum (DiskQueue.EndOffset we);
            DiskQueue.Pos :=
              DiskQueue.Pos (DiskQueue.EndOffset we) - (DiskQueue.virtualEnd we - offset) |};
       DiskQueue.virtualEnd := offset;
       DiskQueue.totalMsgCnt := DiskQueue.totalMsgCnt we - diffCnt |} in
  let d1 := if DiskQueue.needSync d then DiskQueue.sync d else d in
  let re := DiskQueue.diskReadEnd d1 in
  let re' :=
    if (DiskQueue.Pos (DiskQueue.EndOffset re) >? DiskQueue.Pos (DiskQueue.EndOffset we'))
       || (DiskQueue.virtualEnd re >? offset)
    then we' else re in
  DiskQueue.RollbackWriteV2 d offset diffCnt
  = (DiskQueue.truncateDiskQueueToWriteEnd (DiskQueue.setEnds d1 we' re'), (we', None)).
Proof.
  intros [(Hp & Hv & Ht) (Hsp & Hsv & Hst)] Hdiff we start Hoff Hcnt Hfile we' d1 re re'.
  subst re' re we'. unfold DiskQueue.RollbackWriteV2, DiskQueue.TotalMsgCnt, DiskQueue.Offset.
  fold we start d1.
  assert (Hwe : DiskQueue.diskWriteEnd d1 = we)
    by (subst d1; destruct (DiskQueue.needSync d); reflexivity).
  rewrite !Hwe. fold we in Hp, Hv, Ht. fold start in Hsp, Hsv, Hst.
  rewrite (int64_id diffCnt) by lia.
  rewrite (int64_id (DiskQueue.totalMsgCnt we - diffCnt)) by lia.
  destruct (Z.ltb_spec offset (DiskQueue.virtualEnd start)); [lia|]. cbn [orb].
  destruct (Z.ltb_spec (DiskQueue.totalMsgCnt we - diffCnt) (DiskQueue.totalMsgCnt start));
    [lia|].
  destruct (Z.gtb_spec offset (DiskQueue.virtualEnd we)); [lia|].
  rewrite (int64_id (DiskQueue.virtualEnd we - DiskQueue.Pos (DiskQueue.EndOffset we))) by lia.
  destruct (Z.ltb_spec offset (DiskQueue.virtualEnd we - DiskQueue.Pos (DiskQueue.EndOffset we)));
    [lia|].
  rewrite (int64_id (DiskQueue.virtualEnd we - offset)) by lia.
  rewrite (int64_id (DiskQueue.Pos (DiskQueue.EndOffset we) - (DiskQueue.virtualEnd we - offset)))
    by lia.
  rewrite (int64_id (-1 * diffCnt)) by lia.
  rewrite (int64_id (DiskQueue.totalMsgCnt we + -1 * diffCnt)) by lia.
  replace (DiskQueue.totalMsgCnt we + -1 * diffCnt) with (DiskQueue.totalMsgCnt we - diffCnt)
    by lia.
  reflexivity.
Qed.

Lemma endInfo_eta (e : DiskQueue.diskQueueEndInfo) (f p v c : Z) :
  f = DiskQueue.FileNum (DiskQueue.EndOffset e) -> p = DiskQueue.Pos (DiskQueue.EndOffset e) ->
  v = DiskQueue.virtualEnd e -> c = DiskQueue.totalMsgCnt e ->
  {| DiskQueue.EndOffset := {| DiskQueue.FileNum := f; DiskQueue.Pos := p |};
     DiskQueue.virtualEnd := v; DiskQueue.totalMsgCnt := c |} = e.
Proof. intros -> -> -> ->. now destruct e as [[? ?] ? ?]. Qed.

(** A successful [PutV2] was not turned away for its size. *)
Lemma PutV2_size (d : DiskQueue.diskQueueWriter) (data : bytes) d1 off wb e :
  DiskQueue.exitFlag d <> 1 -> len data < 2 ^ 31 ->
  DiskQueue.PutV2 d data = (d1, (off, wb, e, None)) ->
  DiskQueue.minMsgSize d <= len data <= DiskQueue.maxMsgSize d.
Proof.
  intros Hex Hlen Hput.
  destruct (Z_lt_dec (len data) (DiskQueue.minMsgSize d)) as [Hb|Hb];
    [rewrite PutV2_rejected in Hput by (auto; lia); discriminate|].
  destruct (Z_lt_dec (DiskQueue.maxMsgSize d) (len data)) as [Hb'|Hb'];
    [rewrite PutV2_rejected in Hput by (auto; lia); discriminate|]. lia.
Qed.

(** X6.  A record appended within the current file is taken back by
    [RollbackWriteV2] at the offset the append returned and a count of 1:
    the write end is again the one before the append, the read end is set
    to it, and the write file is cut to the old position. *)
Theorem put_rollback_round_trip (d : DiskQueue.diskQueueWriter) (data : bytes) :
  DiskQueue.exitFlag d <> 1 -> wfWriter d -> len data + 4 < 2 ^ 31 ->
  roomFor d (len data + 4) ->
  let we := DiskQueue.diskWriteEnd d in
  DiskQueue.virtualEnd (DiskQueue.diskQueueStart d) <= DiskQueue.virtualEnd we ->
  DiskQueue.totalMsgCnt (DiskQueue.diskQueueStart d) <= DiskQueue.totalMsgCnt we ->
  DiskQueue.Pos (DiskQueue.EndOffset we) + len data + 4 < DiskQueue.maxBytesPerFile d ->
  forall d1 off wb e,
    DiskQueue.PutV2 d data = (d1, (off, wb, e, None)) ->
    exists d2,
      DiskQueue.RollbackWriteV2 d1 off 1 = (d2, (we, None))
      /\ DiskQueue.diskWriteEnd d2 = we
      /\ DiskQueue.diskReadEnd d2 = we
      /\ DiskQueue.fileSize (DiskQueue.FileNum (DiskQueue.EndOffset we)) (DiskQueue.dataFiles d2)
         = Some (DiskQueue.Pos (DiskQueue.EndOffset we)).
Proof.
  intros Hex Hwf Hlen Hroom we Hsv Hsc Hfit d1 off wb e Hput.
  pose proof (len_nonneg data) as Hl.
  pose proof (PutV2_size d data d1 off wb e Hex ltac:(lia) Hput) as Hok.
  rewrite (PutV2_done d data Hex Hwf Hlen Hroom Hok) in Hput.
  destruct Hwf as [(Hp & Hv & Ht) (Hsp & Hsv' & Hst)].
  destruct Hroom as (Rp & Rv & Rt & Rf & Rf').
  fold we in Hput, Hp, Hv, Ht, Rp, Rv, Rt, Rf, Rf'.
  destruct (Z.geb_spec (DiskQueue.Pos (DiskQueue.EndOffset we) + (len data + 4))
              (DiskQueue.maxBytesPerFile d)) as [H3|H3]; [lia|].
  injection Hput as <- <- <- <-.
  rewrite rollback_done; cbn [DiskQueue.diskWriteEnd DiskQueue.diskQueueStart
    DiskQueue.setNeedSync DiskQueue.setFiles DiskQueue.setEnds DiskQueue.EndOffset
    DiskQueue.Pos DiskQueue.FileNum DiskQueue.virtualEnd DiskQueue.totalMsgCnt
    DiskQueue.needSync DiskQueue.sync DiskQueue.diskReadEnd]; fold we;
    try lia.
  2:{ repeat split; cbn; fold we; lia. }
  destruct (Z.gtb_spec (DiskQueue.Pos (DiskQueue.EndOffset we) + (len data + 4))
              (DiskQueue.Pos (DiskQueue.EndOffset we) + (len data + 4)
               - (DiskQueue.virtualEnd we + (len data + 4) - DiskQueue.virtualEnd we)))
    as [_|]; [|lia]. cbn [orb].
  assert (Hwe :
    {| DiskQueue.EndOffset :=
         {| DiskQueue.FileNum := DiskQueue.FileNum (DiskQueue.EndOffset we);
            DiskQueue.Pos :=
              DiskQueue.Pos (DiskQueue.EndOffset we) + (len data + 4)
              - (DiskQueue.virtualEnd we + (len data + 4) - DiskQueue.virtualEnd we) |};
       DiskQueue.virtualEnd := DiskQueue.virtualEnd we;
       DiskQueue.totalMsgCnt := DiskQueue.totalMsgCnt we + 1 - 1 |} = we)
    by (apply endInfo_eta; lia).
  rewrite !Hwe.
  eexists. split; [reflexivity|]. split; [reflexivity|]. split; [reflexivity|].
  match goal with
  | |- DiskQueue.fileSize _ (DiskQueue.dataFiles (DiskQueue.truncateDiskQueueToWriteEnd ?x)) = _ =>
      exact (truncate_fileSize x)
  end.
Qed.
(** [RollbackWriteV2] to an offset before the start of the write file. *)
Lemma rollback_refused (d : DiskQueue.diskQueueWriter) (offset diffCnt : Z) :
  wfWriter d -> 0 <= diffCnt < 2 ^ 63 ->
  let we := DiskQueue.diskWriteEnd d in
  let start := DiskQueue.diskQueueStart d in
  DiskQueue.virtualEnd start <= offset ->
  DiskQueue.totalMsgCnt start <= DiskQueue.totalMsgCnt we - diffCnt ->
  offset < DiskQueue.virtualEnd we - DiskQueue.Pos (DiskQueue.EndOffset we) ->
  DiskQueue.RollbackWriteV2 d offset diffCnt
  = (if DiskQueue.needSync d then DiskQueue.sync d else d, (we, Some ErrInvalidOffset)).
Proof.
  intros [(Hp & Hv & Ht) (Hsp & Hsv & Hst)] Hdiff we start Hoff Hcnt Hfile.
  unfold DiskQueue.RollbackWriteV2, DiskQueue.TotalMsgCnt, DiskQueue.Offset.
  fold we start.
  assert (Hwe : DiskQueue.diskWriteEnd (if DiskQueue.needSync d then DiskQueue.sync d else d) = we)
    by (destruct (DiskQueue.needSync d); reflexivity).
  rewrite !Hwe. fold we in Hp, Hv, Ht. fold start in Hsp, Hsv, Hst.
  rewrite (int64_id diffCnt) by lia.
  rewrite (int64_id (DiskQueue.totalMsgCnt we - diffCnt)) by lia.
  destruct (Z.ltb_spec offset (DiskQueue.virtualEnd start)); [lia|]. cbn [orb].
  destruct (Z.ltb_spec (DiskQueue.totalMsgCnt we - diffCnt) (DiskQueue.totalMsgCnt start));
    [lia|].
  destruct (Z.gtb_spec offset (DiskQueue.virtualEnd we)); [reflexivity|].
  rewrite (int64_id (DiskQueue.virtualEnd we - DiskQueue.Pos (DiskQueue.EndOffset we))) by lia.
  destruct (Z.ltb_spec offset (DiskQueue.virtualEnd we - DiskQueue.Pos (DiskQueue.EndOffset we)));
    [reflexivity|lia].
Qed.

(** The walk of [ResetWriteEndV2] stops in the file that holds the target. *)
Lemma resetWalk_here fuel fs offset newEnd fileNum writePos :
  is_int64 (newEnd - writePos) -> newEnd - writePos <= offset ->
  DiskQueue.resetWalk fuel fs offset newEnd fileNum writePos = Ok (newEnd, fileNum, writePos).
Proof.
  intros Hr Hle. destruct fuel; cbn; rewrite (int64_small _ Hr);
    destruct (Z.ltb_spec offset (newEnd - writePos)); (lia || reflexivity).
Qed.

(** One step of the walk: back to the end of the file before. *)
Lemma resetWalk_back fuel fs offset newEnd fileNum writePos sz :
  is_int64 (newEnd - writePos) -> offset < newEnd - writePos ->
  0 < fileNum < 2 ^ 63 -> DiskQueue.fileSize (fileNum - 1) fs = Some sz ->
  DiskQueue.resetWalk (S fuel) fs offset newEnd fileNum writePos
  = DiskQueue.resetWalk fuel fs offset (newEnd - writePos) (fileNum - 1) sz.
Proof.
  intros Hr Hlt Hf Hsz. cbn. rewrite (int64_small _ Hr).
  destruct (Z.ltb_spec offset (newEnd - writePos)); [|lia].
  rewrite (int64_id (fileNum - 1)) by lia.
  destruct (Z.ltb_spec (fileNum - 1) 0); [lia|]. now rewrite Hsz.
Qed.

(** [ResetWriteEndV2] at an offset other than 0, once its walk has found
    the file. *)
Lemma reset_done (d : DiskQueue.diskQueueWriter) (offset totalCnt newEnd fileNum writePos : Z) :
  let we := DiskQueue.diskWriteEnd d in
  let start := DiskQueue.diskQueueStart d in
  let d1 := if DiskQueue.needSync d then DiskQueue.sync d else d in
  DiskQueue.virtualEnd start <= offset <= DiskQueue.virtualEnd we ->
  DiskQueue.totalMsgCnt start <= totalCnt -> offset <> 0 ->
  DiskQueue.resetWalk (S (Z.to_nat (DiskQueue.FileNum (DiskQueue.EndOffset we))))
    (DiskQueue.dataFiles d1) offset (DiskQueue.virtualEnd we)
    (DiskQueue.FileNum (DiskQueue.EndOffset we)) (DiskQueue.Pos (DiskQueue.EndOffset we))
  = Ok (newEnd, fileNum, writePos) ->
  let we' :=
    {| DiskQueue.EndOffset :=
         {| DiskQueue.FileNum := fileNum;
            DiskQueue.Pos := int64 (writePos - int64 (newEnd - offset)) |};
       DiskQueue.virtualEnd := offset;
       DiskQueue.totalMsgCnt := totalCnt |} in
  DiskQueue.ResetWriteEndV2 d offset totalCnt
  = (DiskQueue.truncateDiskQueueToWriteEnd (DiskQueue.setEnds d1 we' we'), (we', None)).
Proof.
  intros we start d1 Hoff Hcnt H0 Hwalk we'.
  unfold DiskQueue.ResetWriteEndV2, DiskQueue.TotalMsgCnt, DiskQueue.Offset.
  fold we start d1.
  destruct (Z.ltb_spec offset (DiskQueue.virtualEnd start)); [lia|]. cbn [orb].
  destruct (Z.ltb_spec totalCnt (DiskQueue.totalMsgCnt start)); [lia|].
  destruct (Z.gtb_spec offset (DiskQueue.virtualEnd we)); [lia|].
  destruct (Z.eqb_spec offset 0); [contradiction|].
  assert (Hwe : DiskQueue.diskWriteEnd d1 = we)
    by (subst d1; destruct (DiskQueue.needSync d); reflexivity).
  rewrite !Hwe. cbv zeta. rewrite Hwalk. reflexivity.
Qed.

(** X7.  A record that fills the write file moves the write end to the
    start of the next file.  [RollbackWriteV2] to the offset before that
    record is then refused with [ErrInvalidOffset], while
    [ResetWriteEndV2] to that offset and the old count walks back into the
    file and restores the write end as it was before the append. *)
Theorem rollback_across_roll (d : DiskQueue.diskQueueWriter) (data : bytes) :
  DiskQueue.exitFlag d <> 1 -> wfWriter d -> len data + 4 < 2 ^ 31 ->
  roomFor d (len data + 4) ->
  let we := DiskQueue.diskWriteEnd d in
  let cur := DiskQueue.FileNum (DiskQueue.EndOffset we) in
  DiskQueue.virtualEnd (DiskQueue.diskQueueStart d) <= DiskQueue.virtualEnd we ->
  DiskQueue.totalMsgCnt (DiskQueue.diskQueueStart d) <= DiskQueue.totalMsgCnt we ->
  0 < DiskQueue.virtualEnd we ->
  DiskQueue.maxBytesPerFile d <= DiskQueue.Pos (DiskQueue.EndOffset we) + len data + 4 ->
  (forall sz, DiskQueue.fileSize cur (DiskQueue.dataFiles d) = Some sz ->
              sz <= DiskQueue.Pos (DiskQueue.EndOffset we)) ->
  forall d1 off wb e,
    DiskQueue.PutV2 d data = (d1, (off, wb, e, None)) ->
    DiskQueue.EndOffset e = {| DiskQueue.FileNum := cur + 1; DiskQueue.Pos := 0 |}
    /\ (exists d2,
          DiskQueue.RollbackWriteV2 d1 off 1 = (d2, (e, Some ErrInvalidOffset))
          /\ DiskQueue.diskWriteEnd d2 = e)
    /\ (exists d3,
          DiskQueue.ResetWriteEndV2 d1 off (DiskQueue.totalMsgCnt we) = (d3, (we, None))
          /\ DiskQueue.diskWriteEnd d3 = we
          /\ DiskQueue.diskReadEnd d3 = we
          /\ DiskQueue.fileSize cur (DiskQueue.dataFiles d3)
             = Some (DiskQueue.Pos (DiskQueue.EndOffset we))).
Proof.
  intros Hex Hwf Hlen Hroom we cur Hsv Hsc Hpos Hfull Hfile d1 off wb e Hput.
  pose proof (len_nonneg data) as Hl.
  pose proof (PutV2_size d data d1 off wb e Hex ltac:(lia) Hput) as Hok.
  rewrite (PutV2_done d data Hex Hwf Hlen Hroom Hok) in Hput.
  destruct Hwf as [(Hp & Hv & Ht) (Hsp & Hsv' & Hst)].
  destruct Hroom as (Rp & Rv & Rt & Rf & Rf').
  fold we in Hput, Hp, Hv, Ht, Rp, Rv, Rt, Rf, Rf'. fold cur in Hput, Rf, Rf'.
  destruct (Z.geb_spec (DiskQueue.Pos (DiskQueue.EndOffset we) + (len data + 4))
              (DiskQueue.maxBytesPerFile d)) as [H3|H3]; [|lia].
  assert (Hgrown :
    match DiskQueue.fileSize cur (DiskQueue.dataFiles d) with
    | Some sz => Z.max sz (DiskQueue.Pos (DiskQueue.EndOffset we) + (len data + 4))
    | None => DiskQueue.Pos (DiskQueue.EndOffset we) + (len data + 4)
    end = DiskQueue.Pos (DiskQueue.EndOffset we) + (len data + 4)).
  { destruct (DiskQueue.fileSize cur (DiskQueue.dataFiles d)) as [sz|] eqn:E; [|reflexivity].
    specialize (Hfile sz eq_refl). lia. }
  rewrite Hgrown in Hput.
  injection Hput as <- <- <- <-.
  split; [reflexivity|]. split.
  - rewrite rollback_refused; cbn [DiskQueue.diskWriteEnd DiskQueue.diskQueueStart
      DiskQueue.setNeedSync DiskQueue.setFiles DiskQueue.setEnds DiskQueue.EndOffset
      DiskQueue.Pos DiskQueue.FileNum DiskQueue.virtualEnd DiskQueue.totalMsgCnt
      DiskQueue.needSync DiskQueue.sync DiskQueue.diskReadEnd DiskQueue.withPos];
      fold we; try lia.
    + eexists. split; reflexivity.
    + repeat split; cbn; fold we; lia.
  - erewrite reset_done; cbn [DiskQueue.diskWriteEnd DiskQueue.diskQueueStart
      DiskQueue.setNeedSync DiskQueue.setFiles DiskQueue.setEnds DiskQueue.EndOffset
      DiskQueue.Pos DiskQueue.FileNum DiskQueue.virtualEnd DiskQueue.totalMsgCnt
      DiskQueue.needSync DiskQueue.sync DiskQueue.diskReadEnd DiskQueue.withPos
      DiskQueue.dataFiles];
      fold we cur; try lia.
    2:{ rewrite (resetWalk_back _ _ _ _ _ _
                   (DiskQueue.Pos (DiskQueue.EndOffset we) + (len data + 4)));
          try (unfold is_int64; lia).
        - replace (cur + 1 - 1) with cur by lia.
          apply resetWalk_here; unfold is_int64; lia.
        - replace (cur + 1 - 1) with cur by lia. apply fileSize_setFileSize_same. }
    assert (Hwe :
      {| DiskQueue.EndOffset :=
           {| DiskQueue.FileNum := cur;
              DiskQueue.Pos :=
                int64 (DiskQueue.Pos (DiskQueue.EndOffset we) + (len data + 4)
                       - int64 (DiskQueue.virtualEnd we + (len data + 4) - 0
                                - DiskQueue.virtualEnd we)) |};
         DiskQueue.virtualEnd := DiskQueue.virtualEnd we;
         DiskQueue.totalMsgCnt := DiskQueue.totalMsgCnt we |} = we).
    { rewrite (int64_id (DiskQueue.virtualEnd we + (len data + 4) - 0 - DiskQueue.virtualEnd we))
        by lia.
      rewrite (int64_id (DiskQueue.Pos _ + _ - _)) by lia.
      apply endInfo_eta; subst cur; lia. }
    rewrite !Hwe.
    eexists. split; [reflexivity|]. split; [reflexivity|]. split; [reflexivity|].
    match goal with
    | |- DiskQueue.fileSize _ (DiskQueue.dataFiles (DiskQueue.truncateDiskQueueToWriteEnd ?x)) = _ =>
        exact (truncate_fileSize x)
    end.
Qed.
(** X8.  [ResetWriteEndV2] on a well-formed writer.  A target below the
    queue start, a count below that of the queue start, or a target beyond
    the write end is refused with [ErrInvalidOffset] and nothing changes.
    The target 0 puts the write end and the read end at the queue start:
    the count passed in is not used.  Any other accepted target inside the
    write file moves the write end back to it, with the count passed in,
    and the read end with it. *)
Theorem reset_write_end (d : DiskQueue.diskQueueWriter) (offset totalCnt : Z) :
  wfWriter d ->
  let we := DiskQueue.diskWriteEnd d in
  let start := DiskQueue.diskQueueStart d in
  forall d' e err,
    DiskQueue.ResetWriteEndV2 d offset totalCnt = (d', (e, err)) ->
    (offset < DiskQueue.virtualEnd start \/ totalCnt < DiskQueue.totalMsgCnt start
     \/ DiskQueue.virtualEnd we < offset ->
     err = Some ErrInvalidOffset /\ d' = d /\ e = we)
    /\ (DiskQueue.virtualEnd start <= offset <= DiskQueue.virtualEnd we ->
        DiskQueue.totalMsgCnt start <= totalCnt ->
        (offset = 0 ->
         err = None /\ e = start
         /\ DiskQueue.diskWriteEnd d' = start /\ DiskQueue.diskReadEnd d' = start)
        /\ (offset <> 0 ->
            DiskQueue.virtualEnd we - DiskQueue.Pos (DiskQueue.EndOffset we) <= offset ->
            err = None
            /\ e = {| DiskQueue.EndOffset :=
                        {| DiskQueue.FileNum := DiskQueue.FileNum (DiskQueue.EndOffset we);
                           DiskQueue.Pos :=
                             DiskQueue.Pos (DiskQueue.EndOffset we)
                             - (DiskQueue.virtualEnd we - offset) |};
                      DiskQueue.virtualEnd := offset;
                      DiskQueue.totalMsgCnt := totalCnt |}
            /\ DiskQueue.diskWriteEnd d' = e /\ DiskQueue.diskReadEnd d' = e)).
Proof.
  intros [(Hp & Hv & Ht) (Hsp & Hsv & Hst)] we start d' e err Hreset.
  fold we in Hp, Hv, Ht. fold start in Hsp, Hsv, Hst.
  split; [|intros Hoff Hcnt; split].
  - intros Hbad. revert Hreset.
    unfold DiskQueue.ResetWriteEndV2, DiskQueue.TotalMsgCnt, DiskQueue.Offset.
    fold we start.
    destruct (Z.ltb_spec offset (DiskQueue.virtualEnd start)); cbn [orb];
      [intros [= <- <- <-]; repeat split|].
    destruct (Z.ltb_spec totalCnt (DiskQueue.totalMsgCnt start));
      [intros [= <- <- <-]; repeat split|].
    destruct (Z.gtb_spec offset (DiskQueue.virtualEnd we));
      [intros [= <- <- <-]; repeat split|lia].
  - intros ->. revert Hreset.
    unfold DiskQueue.ResetWriteEndV2, DiskQueue.TotalMsgCnt, DiskQueue.Offset.
    fold we start.
    destruct (Z.ltb_spec 0 (DiskQueue.virtualEnd start)); [lia|]. cbn [orb].
    destruct (Z.ltb_spec totalCnt (DiskQueue.totalMsgCnt start)); [lia|].
    destruct (Z.gtb_spec 0 (DiskQueue.virtualEnd we)); [lia|].
    cbn [Z.eqb]. cbv zeta.
    assert (Hs : DiskQueue.diskQueueStart (if DiskQueue.needSync d then DiskQueue.sync d else d)
                 = start) by (destruct (DiskQueue.needSync d); reflexivity).
    rewrite !Hs. intros [= <- <- <-]. repeat split.
  - intros H0 Hfile.
    rewrite (reset_done d offset totalCnt (DiskQueue.virtualEnd we)
               (DiskQueue.FileNum (DiskQueue.EndOffset we))
               (DiskQueue.Pos (DiskQueue.EndOffset we))) in Hreset; try assumption.
    + fold we in Hreset.
      rewrite (int64_id (DiskQueue.virtualEnd we - offset)) in Hreset by lia.
      rewrite (int64_id (DiskQueue.Pos (DiskQueue.EndOffset we)
                         - (DiskQueue.virtualEnd we - offset))) in Hreset by lia.
      injection Hreset as <- <- <-. repeat split.
    + apply resetWalk_here; fold we; unfold is_int64; lia.
Qed.

Lemma fileSize_removeFiles lo hi i fs :
  lo <= i <= hi -> DiskQueue.fileSize i (DiskQueue.removeFiles lo hi fs) = None.
Proof.
  intros Hi. unfold DiskQueue.removeFiles.
  induction fs as [|[k sz] fs IH]; [reflexivity|]. cbn.
  destruct (Z.leb_spec lo k); cbn; [destruct (Z.leb_spec k hi); cbn|]; try exact IH;
    destruct (Z.eqb_spec i k); try lia; exact IH.
Qed.

Lemma fileSize_removeFiles_other lo hi i fs :
  i < lo \/ hi < i ->
  DiskQueue.fileSize i (DiskQueue.removeFiles lo hi fs) = DiskQueue.fileSize i fs.
Proof.
  intros Hi. unfold DiskQueue.removeFiles.
  induction fs as [|[k sz] fs IH]; [reflexivity|]. cbn.
  destruct (Z.leb_spec lo k); cbn; [destruct (Z.leb_spec k hi); cbn|];
    destruct (Z.eqb_spec i k); try lia; try exact IH; reflexivity.
Qed.

(** X9.  [Empty] on a writer that is not exiting returns no error and
    starts the queue afresh in the next file: the write end, the read end
    and the queue start all become position 0 of that file, while the
    virtual offset and the message count stay as they were.  The data files
    from 101 files before the old queue start up to the old write file are
    gone. *)
Theorem empty_restarts_in_next_file (d : DiskQueue.diskQueueWriter) :
  DiskQueue.exitFlag d <> 1 ->
  let we := DiskQueue.diskWriteEnd d in
  let cur := DiskQueue.FileNum (DiskQueue.EndOffset we) in
  let first := DiskQueue.FileNum (DiskQueue.EndOffset (DiskQueue.diskQueueStart d)) in
  0 <= first < 2 ^ 63 -> 0 <= cur -> cur + 1 < 2 ^ 63 ->
  let e :=
    {| DiskQueue.EndOffset := {| DiskQueue.FileNum := cur + 1; DiskQueue.Pos := 0 |};
       DiskQueue.virtualEnd := DiskQueue.virtualEnd we;
       DiskQueue.totalMsgCnt := DiskQueue.totalMsgCnt we |} in
  exists d',
    DiskQueue.Empty d = (d', None)
    /\ DiskQueue.diskWriteEnd d' = e /\ DiskQueue.diskReadEnd d' = e
    /\ DiskQueue.diskQueueStart d' = e
    /\ (forall i, 0 <= i -> first - 101 <= i <= cur ->
                  DiskQueue.fileSize i (DiskQueue.dataFiles d') = None)
    /\ (forall i, i < first - 101 \/ cur < i ->
                  DiskQueue.fileSize i (DiskQueue.dataFiles d')
                  = DiskQueue.fileSize i (DiskQueue.dataFiles d)).
Proof.
  intros Hex we cur first Hfirst Hcur Hcur' e.
  unfold DiskQueue.Empty, DiskQueue.deleteAllFiles.
  destruct (Z.eqb_spec (DiskQueue.exitFlag d) 1) as [|_]; [contradiction|].
  eexists. split; [reflexivity|].
  unfold DiskQueue.cleanOldData, DiskQueue.closeCurrentFile, DiskQueue.withPos,
    DiskQueue.MAX_QUEUE_OFFSET_META_DATA_KEEP.
  cbn [DiskQueue.diskWriteEnd DiskQueue.diskQueueStart DiskQueue.setStart
    DiskQueue.setFiles DiskQueue.setEnds DiskQueue.EndOffset
    DiskQueue.Pos DiskQueue.FileNum DiskQueue.virtualEnd DiskQueue.totalMsgCnt
    DiskQueue.diskReadEnd DiskQueue.dataFiles].
  fold we. fold cur. fold first.
  rewrite (int64_id (cur + 1)) by lia.
  rewrite (int64_id (first - 100 - 1)) by lia.
  split; [reflexivity|]. split; [reflexivity|]. split; [reflexivity|]. split.
  - intros i Hi Hr. apply fileSize_removeFiles.
    destruct (Z.ltb_spec (first - 100 - 1) 0); lia.
  - intros i Hi. apply fileSize_removeFiles_other.
    destruct (Z.ltb_spec (first - 100 - 1) 0); lia.
Qed.
(** X10.  After [Empty] there is no way back: the queue start is the
    write end, so [RollbackWriteV2] and [ResetWriteEndV2] to any offset
    below the write end are refused with [ErrInvalidOffset] and leave the
    writer as it is. *)
Theorem empty_no_way_back (d d' : DiskQueue.diskQueueWriter) (offset n : Z) :
  DiskQueue.Empty d = (d', None) ->
  offset < DiskQueue.virtualEnd (DiskQueue.diskWriteEnd d) ->
  DiskQueue.virtualEnd (DiskQueue.diskWriteEnd d')
  = DiskQueue.virtualEnd (DiskQueue.diskWriteEnd d)
  /\ DiskQueue.RollbackWriteV2 d' offset n
     = (d', (DiskQueue.diskWriteEnd d', Some ErrInvalidOffset))
  /\ DiskQueue.ResetWriteEndV2 d' offset n
     = (d', (DiskQueue.diskWriteEnd d', Some ErrInvalidOffset)).
Proof.
  unfold DiskQueue.Empty, DiskQueue.deleteAllFiles.
  destruct (DiskQueue.exitFlag d =? 1); [discriminate|].
  intros [= <-] Hoff.
  unfold DiskQueue.RollbackWriteV2, DiskQueue.ResetWriteEndV2.
  unfold DiskQueue.cleanOldData, DiskQueue.closeCurrentFile, DiskQueue.withPos.
  cbn [DiskQueue.diskWriteEnd DiskQueue.diskQueueStart DiskQueue.setStart
    DiskQueue.setFiles DiskQueue.setEnds DiskQueue.EndOffset
    DiskQueue.Pos DiskQueue.FileNum DiskQueue.virtualEnd DiskQueue.totalMsgCnt
    DiskQueue.diskReadEnd DiskQueue.dataFiles].
  destruct (Z.ltb_spec offset (DiskQueue.virtualEnd (DiskQueue.diskWriteEnd d))); [|lia].
  cbn [orb]. repeat split.
Qed.

Lemma sync_endsOrdered d :
  DiskQueue.virtualEnd (DiskQueue.diskQueueStart d)
    <= DiskQueue.virtualEnd (DiskQueue.diskWriteEnd d) ->
  endsOrdered (DiskQueue.sync d).
Proof. intros H. split; cbn; [exact H|lia]. Qed.

Lemma endsOrdered_start d :
  endsOrdered d ->
  DiskQueue.virtualEnd (DiskQueue.diskQueueStart d)
    <= DiskQueue.virtualEnd (DiskQueue.diskWriteEnd d).
Proof. intros [? ?]. lia. Qed.

Lemma maySync_endsOrdered d :
  endsOrdered d -> endsOrdered (if DiskQueue.needSync d then DiskQueue.sync d else d).
Proof.
  intros H. destruct (DiskQueue.needSync d); [|exact H].
  apply sync_endsOrdered, endsOrdered_start, H.
Qed.

Lemma cleanOldData_endsOrdered d : endsOrdered (DiskQueue.cleanOldData d).
Proof. split; cbn; lia. Qed.

Lemma writeOne_endsOrdered d data (isRaw : bool) msgCnt :
  endsOrdered d -> is_int64 (DiskQueue.virtualEnd (DiskQueue.diskWriteEnd d)) ->
  len data < 2 ^ 31 ->
  DiskQueue.virtualEnd (DiskQueue.diskWriteEnd d) + len data + (if isRaw then 0 else 4) < 2 ^ 63 ->
  (isRaw = false -> len data + 4 < 2 ^ 31) ->
  endsOrdered (fst (DiskQueue.writeOne d data isRaw msgCnt)).
Proof.
  intros [H1 H2] Hv Hlen Hroom Hraw. pose proof (len_nonneg data) as Hl.
  unfold DiskQueue.writeOne. cbv zeta. open_fields.
  rewrite (int32_id (len data)) by lia.
  destruct (negb isRaw && _);
    [cbn [fst]; unfold endsOrdered; open_fields; split; assumption|].
  assert (Ht : (if isRaw then len data else int64 (len data + 4))
               = len data + (if isRaw then 0 else 4)).
  { destruct isRaw; [lia|]. apply int64_id. specialize (Hraw eq_refl). lia. }
  rewrite !Ht. unfold is_int64 in Hv.
  rewrite (int64_id (DiskQueue.virtualEnd _ + _)) by (destruct isRaw; lia).
  destruct (_ >=? _); split; cbn; destruct isRaw; lia.
Qed.

(** X11.  Every operation of the writer keeps the three ends in order:
    the virtual offset of the queue start is at most that of the read end,
    which is at most that of the write end, as long as an append does not
    take the offset past the 64-bit range. *)
Theorem writer_ends_ordered (d : DiskQueue.diskQueueWriter) (op : WriterOp) :
  endsOrdered d -> is_int64 (DiskQueue.virtualEnd (DiskQueue.diskWriteEnd d)) ->
  opFits d op ->
  endsOrdered (writerStep d op).
Proof.
  intros Hord Hv Hfit. pose proof (endsOrdered_start d Hord) as Hsw.
  destruct op as [data|data msgCnt|offset diffCnt|offset totalCnt| | |qs| |];
    cbn [writerStep opFits] in *.
  - unfold DiskQueue.PutV2. destruct (DiskQueue.exitFlag d =? 1); [exact Hord|].
    pose proof (writeOne_endsOrdered d data false 0 Hord Hv ltac:(lia) ltac:(lia)
                  ltac:(intros; lia)) as H.
    destruct (DiskQueue.writeOne d data false 0) as [d' [[[? ?] ?]|?]]; exact H.
  - unfold DiskQueue.PutRawV2. destruct (DiskQueue.exitFlag d =? 1); [exact Hord|].
    pose proof (writeOne_endsOrdered d data true msgCnt Hord Hv ltac:(lia) ltac:(lia)
                  ltac:(discriminate)) as H.
    destruct (DiskQueue.writeOne d data true msgCnt) as [d' [[[? ?] ?]|?]]; exact H.
  - unfold DiskQueue.RollbackWriteV2, DiskQueue.Offset.
    destruct (Z.ltb_spec offset (DiskQueue.virtualEnd (DiskQueue.diskQueueStart d)));
      cbn [orb]; [exact Hord|].
    destruct (_ <? _); [exact Hord|].
    pose proof (maySync_endsOrdered d Hord) as [H1 H2].
    assert (Hs : DiskQueue.diskQueueStart (if DiskQueue.needSync d then DiskQueue.sync d else d)
                 = DiskQueue.diskQueueStart d) by (destruct (DiskQueue.needSync d); reflexivity).
    rewrite Hs in H1.
    remember (if DiskQueue.needSync d then DiskQueue.sync d else d) as d1 eqn:Hd1.
    destruct (Z.gtb_spec offset (DiskQueue.virtualEnd (DiskQueue.diskWriteEnd d1)));
      [split; cbn; rewrite ?Hs; assumption|].
    destruct (_ <? _); [split; cbn; rewrite ?Hs; assumption|].
    cbv zeta.
    destruct (orb _ _) eqn:E.
    { split; cbn; rewrite ?Hs; lia. }
    apply orb_false_iff in E as [_ E]. rewrite Z.gtb_ltb in E. apply Z.ltb_ge in E.
    cbn in E. split; cbn; rewrite ?Hs; lia.
  - unfold DiskQueue.ResetWriteEndV2, DiskQueue.Offset, DiskQueue.TotalMsgCnt.
    destruct (Z.ltb_spec offset (DiskQueue.virtualEnd (DiskQueue.diskQueueStart d)));
      cbn [orb]; [exact Hord|].
    destruct (_ <? _); [exact Hord|].
    destruct (Z.gtb_spec offset (DiskQueue.virtualEnd (DiskQueue.diskWriteEnd d)));
      [exact Hord|].
    pose proof (maySync_endsOrdered d Hord) as H12.
    assert (Hs : DiskQueue.diskQueueStart (if DiskQueue.needSync d then DiskQueue.sync d else d)
                 = DiskQueue.diskQueueStart d) by (destruct (DiskQueue.needSync d); reflexivity).
    remember (if DiskQueue.needSync d then DiskQueue.sync d else d) as d1 eqn:Hd1.
    destruct (offset =? 0); [split; cbn; lia|].
    cbv zeta. destruct (DiskQueue.resetWalk _ _ _ _ _ _) as [[[? ?] ?]|?]; [|exact H12].
    split; cbn; rewrite ?Hs; lia.
  - unfold DiskQueue.Flush. destruct (DiskQueue.exitFlag d =? 1); [exact Hord|].
    pose proof (maySync_endsOrdered d Hord) as H.
    destruct (DiskQueue.needSync d); exact H.
  - unfold DiskQueue.Empty. destruct (DiskQueue.exitFlag d =? 1); [exact Hord|].
    apply cleanOldData_endsOrdered.
  - split; cbn; lia.
  - split; cbn; lia.
  - apply cleanOldData_endsOrdered.
Qed.

(** * What a put leaves behind *)

Section PutFacts.
Context {C : Codec}.

Lemma writeOne_end_range d data isRaw cnt d' off wb dend :
  DiskQueue.writeOne d data isRaw cnt = (d', Ok (off, wb, dend)) ->
  is_int64 (DiskQueue.virtualEnd dend).
Proof.
  unfold DiskQueue.writeOne. cbv zeta.
  destruct (negb isRaw && _); [discriminate|].
  destruct (_ >=? _); intros [= <- <- <- <-]; cbn; apply int64_range.
Qed.

(** The write end a successful put of a message returns has its offset in
    the range of [int64]. *)
Lemma put_end_range q m0 trace cs q' id off wb dend :
  put q m0 None trace cs = (q', (id, off, wb, dend, None)) ->
  is_int64 (DiskQueue.Offset dend).
Proof.
  unfold put. cbn [putDecode].
  destruct (putAssignID q m0) as [m q1].
  unfold putAppend, writeDelayedMessageToBackendWithCheck.
  destruct (_ && _); [discriminate|].
  unfold DiskQueue.PutV2.
  destruct (DiskQueue.exitFlag (backend q1) =? 1); [discriminate|].
  destruct (DiskQueue.writeOne _ _ _ _) as [d' [[[o w] de]|e]] eqn:Ew; [|discriminate].
  apply writeOne_end_range in Ew.
  destruct (putStore _ _ _) as [kv [e|]]; [discriminate|].
  intros [= <- <- <- <- <-]. exact Ew.
Qed.

Lemma PutDelayMessage_ok `{!CodecOk C} q m q' id off wb dend :
  PutDelayMessage q m = (q', (id, off, wb, dend, None)) ->
  exists end_,
    dend = Some end_ /\ is_uint64 id /\ is_int64 (DiskQueue.Offset end_)
    /\ isExt q' = isExt q
    /\ putTx (setID m id) (msgKeyOf (setID m id)) (WriteDelayedTo (setID m id) (IsExt q))
         (DiskQueue.Offset end_) (IsExt q) (kvStore q) = (kvStore q', None).
Proof.
  unfold PutDelayMessage.
  destruct (exitFlag q =? 1); [discriminate|].
  destruct (Z.gtb_spec (ID m) 0) as [|Hid]; [discriminate|].
  destruct (negb (IsValidDelayedMessage m)); [discriminate|].
  destruct (put q m None true 0) as [q1' [[[[i o] w] de] er]] eqn:Ep.
  intros [= <- <- <- <- <- ->].
  pose proof (put_end_range _ _ _ _ _ _ _ _ _ Ep) as Hr.
  apply put_ok_store in Ep as (Hext & mm & Hmm & -> & Htx).
  destruct Hmm as [[_ ?]|(j & -> & Hj & _)]; [lia|].
  exists de. split; [reflexivity|]. split; [exact Hj|]. split; [exact Hr|].
  split; [exact Hext|exact Htx].
Qed.

Lemma PutMessageOnReplica_ok `{!CodecOk C} q m offset cs q' dend :
  PutMessageOnReplica q m offset cs = (q', Ok dend) ->
  is_int64 (DiskQueue.Offset dend) /\ isExt q' = isExt q /\
  exists m',
    ((m' = m /\ 0 < ID m) \/ exists i, m' = setID m i /\ is_uint64 i /\ ID m <= 0)
    /\ putTx m' (msgKeyOf m') (WriteDelayedTo m' (IsExt q))
         (DiskQueue.Offset dend) (IsExt q) (kvStore q) = (kvStore q', None).
Proof.
  unfold PutMessageOnReplica.
  destruct (exitFlag q =? 1); [discriminate|].
  destruct (negb (_ =? offset)); [discriminate|].
  destruct (negb (IsValidDelayedMessage m)); [discriminate|].
  destruct (put q m None false cs) as [q1' [[[[i o] w] de] er]] eqn:Ep.
  destruct er as [e|]; [discriminate|]. intros [= <- <-].
  pose proof (put_end_range _ _ _ _ _ _ _ _ _ Ep) as Hr.
  apply put_ok_store in Ep as (Hext & mm & Hmm & -> & Htx).
  split; [assumption|]. split; [assumption|]. exists mm. auto.
Qed.

Lemma putTx_stored m buf off ext tx tx' :
  putTx m (msgKeyOf m) buf off ext tx = (tx', None) ->
  Bolt.Get (msgKeyOf m) (delayed_message tx') = Some buf
  /\ Bolt.Get syncedOffsetKey (meta tx') = Some (Itoa off)
  /\ (Bolt.Get (msgKeyOf m) (delayed_message tx) <> Some buf ->
      Bolt.Get (indexKeyOf m) (delayed_message_index tx') = Some (indexValueOf m)).
Proof.
  intros H. apply putTx_ok in H as [[HG ->]|[(old & mo & HG & Hne & _ & _ & ->)|(HG & _ & ->)]];
    cbn [delayed_message delayed_message_index meta withMeta].
  - split; [assumption|]. split; [apply Get_insert_same|]. intros Hn. contradiction.
  - split; [apply Get_insert_same|]. split; [apply Get_insert_same|].
    intros _. apply Get_insert_same.
  - split; [apply Get_insert_same|]. split; [apply Get_insert_same|].
    intros _. apply Get_insert_same.
Qed.

(** X12.  A message put by [PutDelayMessage] can be looked up.  After a
    successful call the store holds, under the key built from the message
    and the id returned, the record of the message with that id, and the
    record decodes to it.  Unless that very record lay under the key
    already, the index holds the row of the message under its original id,
    and for a channel message [IsChannelMessageDelayed] answers true. *)
Theorem put_then_lookup `{!CodecOk C} (q : DelayQueue) (m : Message) (q' : DelayQueue)
  (id off wb : Z) (dend : option DiskQueue.diskQueueEndInfo) :
  wfMessage m ->
  PutDelayMessage q m = (q', (id, off, wb, dend, None)) ->
  let stored := setID m id in
  let record := WriteDelayedTo stored (IsExt q) in
  Bolt.Get (msgKeyOf stored) (delayed_message (kvStore q')) = Some record
  /\ DecodeDelayedMessage record (IsExt q') = Some stored
  /\ (Bolt.Get (msgKeyOf stored) (delayed_message (kvStore q)) <> Some record ->
      Bolt.Get (indexKeyOf m) (delayed_message_index (kvStore q'))
      = Some (indexValueOf m)
      /\ (DelayedType m = ChannelDelayed ->
          IsChannelMessageDelayed q' (DelayedOrigID m) (DelayedChannel m) = true)).
Proof.
  intros Hwf Hput stored record.
  apply PutDelayMessage_ok in Hput as (e & -> & Hid & _ & Hext & Htx).
  apply putTx_stored in Htx as (H1 & _ & H3). fold stored record in H1, H3.
  split; [exact H1|]. split.
  - rewrite (IsExt_eq _ _ Hext). apply decode_encode. now apply wfMessage_setID.
  - intros Hn. specialize (H3 Hn). change (indexKeyOf stored) with (indexKeyOf m) in H3.
    change (indexValueOf stored) with (indexValueOf m) in H3.
    split; [exact H3|]. intros Ht. unfold IsChannelMessageDelayed.
    unfold indexKeyOf in H3. rewrite Ht in H3. now rewrite H3.
Qed.

(** X13.  [GetSyncedOffset] follows the log.  After a successful
    [PutDelayMessage] or [PutMessageOnReplica] it returns the virtual
    offset of the write end the call returned.  On a store whose meta
    bucket has no [synced_offset] cell it fails: the empty string is not a
    number. *)
Theorem synced_offset_follows_put `{!CodecOk C} (q : DelayQueue) (m : Message) :
  (forall q' id off wb dend,
      PutDelayMessage q m = (q', (id, off, wb, Some dend, None)) ->
      GetSyncedOffset q' = Ok (DiskQueue.Offset dend))
  /\ (forall q' offset checkSize dend,
        PutMessageOnReplica q m offset checkSize = (q', Ok dend) ->
        GetSyncedOffset q' = Ok (DiskQueue.Offset dend))
  /\ (Bolt.Get syncedOffsetKey (meta (kvStore q)) = None ->
      GetSyncedOffset q = Err errAtoi).
Proof.
  split; [|split].
  - intros q' id off wb dend Hput.
    apply PutDelayMessage_ok in Hput as (e & [= <-] & _ & Hr & _ & Htx).
    apply putTx_stored in Htx as (_ & H2 & _).
    unfold GetSyncedOffset. rewrite H2. now apply Atoi_Itoa.
  - intros q' offset cs dend Hput.
    apply PutMessageOnReplica_ok in Hput as (Hr & _ & m' & _ & Htx).
    apply putTx_stored in Htx as (_ & H2 & _).
    unfold GetSyncedOffset. rewrite H2. now apply Atoi_Itoa.
  - intros HG. unfold GetSyncedOffset. now rewrite HG.
Qed.

(** X14.  A put that returns an error leaves the index store as it was, at
    each of the three entry points. *)
Theorem failed_put_keeps_store (q : DelayQueue) (m : Message) (e : error) :
  (forall q' id off wb dend,
      PutDelayMessage q m = (q', (id, off, wb, dend, Some e)) -> kvStore q' = kvStore q)
  /\ (forall q' rawData offset checkSize msgNum,
        PutRawDataOnReplica q rawData offset checkSize msgNum = (q', Err e) ->
        kvStore q' = kvStore q)
  /\ (forall q' offset checkSize,
        PutMessageOnReplica q m offset checkSize = (q', Err e) -> kvStore q' = kvStore q).
Proof.
  split; [|split].
  - intros q' id off wb dend. unfold PutDelayMessage.
    destruct (exitFlag q =? 1); [now intros [= <-]|].
    destruct (ID m >? 0); [now intros [= <-]|].
    destruct (negb (IsValidDelayedMessage m)); [now intros [= <-]|].
    destruct (put q m None true 0) as [q1' [[[[i o] w] de] er]] eqn:Ep.
    intros [= <- <- <- <- <- ->].
    apply put_spec in Ep as (_ & _ & [H|(? & ? & _ & _ & ? & _)]); [assumption|discriminate].
  - intros q' rawData offset cs msgNum. unfold PutRawDataOnReplica.
    destruct (exitFlag q =? 1); [now intros [= <-]|].
    destruct (negb (_ =? offset)); [now intros [= <-]|].
    destruct (negb (msgNum =? 1)); [now intros [= <-]|].
    destruct (put q zeroMessage rawData false cs) as [q1' [[[[i o] w] de] er]] eqn:Ep.
    destruct er as [e'|]; [|discriminate]. intros [= <- <-].
    destruct (ResetBackendEndNoLock_sameStore q1'
                (DiskQueue.Offset (DiskQueue.GetQueueWriteEnd (backend q)))
                (DiskQueue.TotalMsgCnt (DiskQueue.GetQueueWriteEnd (backend q)))) as (Hk & _).
    rewrite Hk.
    apply put_spec in Ep as (_ & _ & [H|(? & ? & _ & _ & ? & _)]); [assumption|discriminate].
  - intros q' offset cs. unfold PutMessageOnReplica.
    destruct (exitFlag q =? 1); [now intros [= <-]|].
    destruct (negb (_ =? offset)); [now intros [= <-]|].
    destruct (negb (IsValidDelayedMessage m)); [now intros [= <-]|].
    destruct (put q m None false cs) as [q1' [[[[i o] w] de] er]] eqn:Ep.
    destruct er as [e'|]; [|discriminate]. intros [= <- <-].
    destruct (ResetBackendEndNoLock_sameStore q1'
                (DiskQueue.Offset (DiskQueue.GetQueueWriteEnd (backend q)))
                (DiskQueue.TotalMsgCnt (DiskQueue.GetQueueWriteEnd (backend q)))) as (Hk & _).
    rewrite Hk.
    apply put_spec in Ep as (_ & _ & [H|(? & ? & _ & _ & ? & _)]); [assumption|discriminate].
Qed.

(** X15.  On the raw path of a replica a size mismatch goes unreported.
    Let the engine and its writer be running, the offset match the write
    end, and the raw record decode.  When [checkSize] is positive and
    differs from the length of the record, [PutRawDataOnReplica] returns a
    write end and no error: the record has been appended to the log, so the
    write end has moved on by its length, while the index store is as it
    was. *)
Theorem raw_size_mismatch_unreported (q : DelayQueue) (raw : bytes) (m : Message)
  (checkSize : Z) :
  exitFlag q <> 1 -> DiskQueue.exitFlag (backend q) <> 1 ->
  4 <= len raw < 2 ^ 31 ->
  DecodeDelayedMessage (skipn 4 raw) (IsExt q) = Some m ->
  0 < checkSize -> checkSize <> len raw ->
  exists q' dend,
    PutRawDataOnReplica q (Some raw) (offsetOf q) checkSize 1 = (q', Ok dend)
    /\ kvStore q' = kvStore q
    /\ DiskQueue.diskWriteEnd (backend q') = dend
    /\ DiskQueue.virtualEnd dend = int64 (offsetOf q + len raw).
Proof.
  intros Hex Hwex Hlen Hdec Hcs Hne.
  unfold PutRawDataOnReplica, offsetOf.
  destruct (Z.eqb_spec (exitFlag q) 1); [contradiction|].
  rewrite Z.eqb_refl. cbn [negb].
  unfold put, putDecode. destruct (Z.ltb_spec (len raw) 4); [lia|]. rewrite Hdec.
  destruct (putAssignID q m) as [m' q1] eqn:Ea.
  assert (Hb : backend q1 = backend q).
  { revert Ea. unfold putAssignID, nextMsgID.
    destruct (ID m <=? 0); [|now intros [= _ <-]].
    destruct (msgIDCursor q); cbn; now intros [= _ <-]. }
  apply putAssignID_spec in Ea as [(Hkv & Hext & Hexit) _].
  unfold putAppend, DiskQueue.PutRawV2. cbn [backend withPutBuffer]. rewrite Hb.
  destruct (Z.eqb_spec (DiskQueue.exitFlag (backend q)) 1); [contradiction|].
  unfold DiskQueue.writeOne. cbv zeta. open_fields. cbn [negb andb].
  rewrite !(int32_id (len raw)) by lia.
  destruct (Z.gtb_spec checkSize 0); [|lia].
  destruct (Z.eqb_spec checkSize (len raw)); [contradiction|]. cbn [negb andb].
  destruct (_ >=? _); cbn [fst snd]; eexists; eexists;
    (split; [reflexivity|]); cbn; (split; [assumption|]); split; reflexivity.
Qed.

End PutFacts.
(** * Confirming a message *)

Section ConfirmFacts.
Context {C : Codec}.

Lemma withKV_same q : withKV q (kvStore q) = q.
Proof. now destruct q. Qed.

(** X16.  [ConfirmedMessage].  When no message lies under the key built
    from the type, channel, delivery time and [DelayedOrigID] of the
    argument, the call returns [errBucketKeyNotFound] and the engine is as
    it was.  When one does, on a well-formed store, the call succeeds: that
    key is gone and every other key keeps its record, the index row of the
    stored message is gone and every other row stays, the counter of the
    type and channel goes down by one unless it reads 0, and the other
    cells of the meta bucket stay. *)
Theorem confirm_effect (q : DelayQueue) (msg : Message) :
  let K := getDelayedMsgDBKey (DelayedType msg) (DelayedChannel msg) (DelayedTs msg)
             (DelayedOrigID msg) in
  let ck := counterKey (DelayedType msg) (DelayedChannel msg) in
  (Bolt.Get K (delayed_message (kvStore q)) = None ->
   ConfirmedMessage q msg = (q, Some errBucketKeyNotFound))
  /\ (forall old,
        storeWf (IsExt q) (kvStore q) ->
        Bolt.Get K (delayed_message (kvStore q)) = Some old ->
        exists q' mo,
          ConfirmedMessage q msg = (q', None)
          /\ DecodeDelayedMessage old (IsExt q) = Some mo
          /\ Bolt.Get K (delayed_message (kvStore q')) = None
          /\ (forall k, k <> K ->
                Bolt.Get k (delayed_message (kvStore q'))
                = Bolt.Get k (delayed_message (kvStore q)))
          /\ Bolt.Get (indexKeyOf mo) (delayed_message_index (kvStore q')) = None
          /\ (forall k, k <> indexKeyOf mo ->
                Bolt.Get k (delayed_message_index (kvStore q'))
                = Bolt.Get k (delayed_message_index (kvStore q)))
          /\ readCounter (meta (kvStore q')) ck
             = Z.max 0 (readCounter (meta (kvStore q)) ck - 1)
          /\ (forall k, k <> ck ->
                Bolt.Get k (meta (kvStore q')) = Bolt.Get k (meta (kvStore q)))).
Proof.
  intros K ck. split.
  - intros HG. unfold ConfirmedMessage, Update, unitTx, deleteBucketKey.
    fold K. rewrite HG. cbn [fst snd]. now rewrite withKV_same.
  - intros old Hwf HG.
    destruct (deleteBucketKey_succeeds (IsExt q) _ _ _ _ _ _ Hwf HG) as (tx' & Hd & _).
    fold K in Hd.
    pose proof Hd as Hc. apply deleteBucketKey_cases in Hc. cbv zeta in Hc. fold K ck in Hc.
    destruct Hwf as (S1 & S2 & S3 & He).
    destruct Hc as [(E & _)|(old' & HG' & [[_ Er]|(mo & Hdec & Hc)])];
      [congruence|discriminate|].
    assert (old' = old) as -> by congruence.
    pose proof (readCounter_range (meta (kvStore q)) ck) as Hrange.
    exists (withKV q tx'), mo.
    split.
    { unfold ConfirmedMessage, Update, unitTx. now rewrite Hd. }
    split; [assumption|]. cbn [kvStore withKV].
    destruct Hc as [(Hcnt & _ & ->)|[(Hcnt & _ & ->)|(_ & e & [=] & _)]];
      cbn [delayed_message delayed_message_index meta withMeta].
    + split; [now apply Get_Delete_same|].
      split; [intros k Hk; apply Get_Delete_other; auto|].
      split; [now apply Get_Delete_same|].
      split; [intros k Hk; apply Get_Delete_other; auto|].
      split; [lia|reflexivity].
    + split; [now apply Get_Delete_same|].
      split; [intros k Hk; apply Get_Delete_other; auto|].
      split; [now apply Get_Delete_same|].
      split; [intros k Hk; apply Get_Delete_other; auto|].
      split.
      * rewrite readCounter_insert_same. rewrite uint64_small by (unfold is_uint64; lia). lia.
      * intros k Hk. apply Get_insert_other. congruence.
Qed.

End ConfirmFacts.

(** * What the empty operations delete *)

Lemma Seek_head {V} (s : bytes) (b : Bolt.Bucket V) k v rest :
  Bolt.Seek s b = (k, v) :: rest -> bytes_compare k s <> Lt.
Proof.
  induction b as [|[k' v'] b IH]; cbn [Bolt.Seek]; [discriminate|].
  destruct (bytes_compare k' s) eqn:E; [intros [= <- <- <-]; congruence|exact IH|].
  intros [= <- <- <-]; congruence.
Qed.

Lemma Seek_In {V} (s : bytes) (b : Bolt.Bucket V) k v :
  In (k, v) b -> bytes_compare k s <> Lt -> In (k, v) (Bolt.Seek s b).
Proof.
  induction b as [|[k' v'] b IH]; cbn [Bolt.Seek In]; [auto|].
  intros [[= -> ->]|Hin] Hc.
  - destruct (bytes_compare k s); [now left|contradiction|now left].
  - destruct (bytes_compare k' s); [now right|auto|now right].
Qed.

(** A key between a prefix and one of its extensions has the prefix. *)
Lemma HasPrefix_between (p k r : bytes) :
  bytes_compare k p <> Lt -> bytes_compare k (p ++ r) = Lt -> HasPrefix k p = true.
Proof.
  revert k. induction p as [|x p IH]; intros k H1 H2; [reflexivity|].
  destruct k as [|y k]; cbn [bytes_compare app HasPrefix] in *; [congruence|].
  destruct (Z.compare_spec (Z_of_byte y) (Z_of_byte x)) as [E|E|E];
    [|congruence|discriminate].
  apply Z_of_byte_inj in E. subst y.
  rewrite (proj2 (byte_eqb_eq x x) eq_refl). cbn [andb]. now apply IH.
Qed.

Lemma uint64_nonneg (z : Z) : 0 <= int64 z -> uint64 z = int64 z.
Proof.
  intros H. rewrite <- (uint64_int64 z). apply uint64_small.
  pose proof (int64_range z) as Hr. unfold is_int64, is_uint64 in *. lia.
Qed.

Section EmptyFacts.
Context {C : Codec}.
Variable ext : bool.

(** A stored key under the prefix of [(dt, ch)] decodes, and to that
    channel. *)
Lemma stored_prefix_decode tx k v dt ch :
  entriesOk ext tx -> Bolt.Get k (delayed_message tx) = Some v ->
  HasPrefix k (getDelayedMsgDBPrefixKey dt ch) = true ->
  exists m,
    k = msgKeyOf m /\ len ch < 65536 /\ DelayedChannel m = ch
    /\ uint16 (DelayedType m) = uint16 dt
    /\ decodeDelayedMsgDBKey k
       = Ok (uint16 (DelayedType m), int64 (DelayedTs m), uint64 (ID m), ch).
Proof.
  intros He HG Hp. destruct (stored_key_decode _ _ _ _ He HG) as (m & Hk & Hc & Hd).
  exists m. subst k. unfold msgKeyOf in Hp.
  apply HasPrefix_key_inv in Hp as [Ht Hch]; [|assumption]. subst ch.
  repeat split; auto. apply PutUint16_inj in Ht. now rewrite !uint16_idem in Ht.
Qed.

Lemma dueKey_stored tx k v dt peekTs id ch :
  entriesOk ext tx -> Bolt.Get k (delayed_message tx) = Some v ->
  HasPrefix k (getDelayedMsgDBPrefixKey dt ch) = true ->
  exists m,
    k = msgKeyOf m /\ len ch < 65536 /\ DelayedChannel m = ch
    /\ uint16 (DelayedType m) = uint16 dt
    /\ decodeDelayedMsgDBKey k
       = Ok (uint16 (DelayedType m), int64 (DelayedTs m), uint64 (ID m), ch)
    /\ dueKey dt peekTs id ch k
       = (int64 (DelayedTs m) <? peekTs)
         || ((int64 (DelayedTs m) =? peekTs) && (uint64 (ID m) <? id)).
Proof.
  intros He HG Hp.
  destruct (stored_prefix_decode _ _ _ _ _ He HG Hp) as (m & Hk & Hc & Hch & Ht & Hd).
  exists m. repeat split; auto. unfold dueKey.
  now rewrite Hp, Hd, bytes_eqb_refl, andb_true_r.
Qed.

(** One step of the scan of [emptyDelayedUntil] on a well-formed store. *)
Lemma emptyUntilScan_step dt peekTs id ch k v cur batched tx :
  storeWf ext tx -> ahead ((k, v) :: cur) tx ->
  let P := getDelayedMsgDBPrefixKey dt ch in
  (dueKey dt peekTs id ch k = false \/ txMaxBatch < batched ->
   emptyUntilScan ext P dt peekTs id ch ((k, v) :: cur) batched tx = (tx, batched, None))
  /\ (dueKey dt peekTs id ch k = true -> batched <= txMaxBatch ->
      exists tx1,
        emptyUntilScan ext P dt peekTs id ch ((k, v) :: cur) batched tx
        = emptyUntilScan ext P dt peekTs id ch cur (batched + 1) tx1
        /\ delayed_message tx1 = Bolt.Delete k (delayed_message tx)
        /\ storeWf ext tx1 /\ ahead cur tx1).
Proof.
  intros HI Ha P. cbn [emptyUntilScan]. fold P.
  pose proof HI as (S1 & _ & _ & He).
  destruct (proj2 Ha k v (or_introl eq_refl)) as [v' HG].
  destruct (HasPrefix k P) eqn:Hp; cbn [negb].
  2:{ split; [reflexivity|]. unfold dueKey. fold P. rewrite Hp. intros [=]. }
  destruct (dueKey_stored _ _ _ _ peekTs id _ He HG Hp) as (m & Hk & Hc & Hch & Ht & Hd & Hdue).
  rewrite Hdue, Hd, bytes_eqb_refl. cbn [negb].
  destruct (Z.gtb_spec batched txMaxBatch) as [Hg|Hg].
  { split; [reflexivity|lia]. }
  rewrite Z.geb_leb.
  destruct (Z.gtb_spec (int64 (DelayedTs m)) peekTs) as [H1|H1].
  { split; [reflexivity|].
    destruct (Z.ltb_spec (int64 (DelayedTs m)) peekTs); [lia|].
    destruct (Z.eqb_spec (int64 (DelayedTs m)) peekTs); [lia|]. cbn [orb andb]. intros [=]. }
  assert (HK : getDelayedMsgDBKey dt ch (int64 (DelayedTs m)) (uint64 (ID m)) = k).
  { subst k. apply rebuild_key_prefix; [now rewrite Hch|exact Hp]. }
  assert (Hdel : exists tx1,
    deleteBucketKey dt ch (int64 (DelayedTs m)) (uint64 (ID m)) tx ext = (tx1, None)
    /\ delayed_message tx1 = Bolt.Delete k (delayed_message tx)
    /\ storeWf ext tx1 /\ ahead cur tx1).
  { rewrite <- HK in HG.
    destruct (deleteBucketKey_succeeds _ _ _ _ _ _ _ HI HG) as (tx1 & Ed & Hdel).
    rewrite HK in Hdel. exists tx1. split; [exact Ed|]. split; [exact Hdel|]. split.
    - eapply deleteBucketKey_storeWf; [exact HI|exact Ed|now left].
    - eapply ahead_Delete; eassumption. }
  destruct Hdel as (tx1 & Ed & Hdel).
  destruct (Z.eqb_spec (int64 (DelayedTs m)) peekTs) as [H2|H2]; cbn [andb].
  - destruct (Z.ltb_spec (int64 (DelayedTs m)) peekTs); [lia|]. cbn [orb].
    destruct (Z.leb_spec id (uint64 (ID m))) as [H3|H3].
    + destruct (Z.ltb_spec (uint64 (ID m)) id); [lia|]. cbn [orb andb].
      split; [reflexivity|intros [=]].
    + destruct (Z.ltb_spec (uint64 (ID m)) id); [|lia]. cbn [orb andb].
      split; [intros [[=]|]; lia|]. intros _ _.
      exists tx1. rewrite Ed. split; [reflexivity|exact Hdel].
  - destruct (Z.ltb_spec (int64 (DelayedTs m)) peekTs); [|lia]. cbn [orb].
    split; [intros [[=]|]; lia|]. intros _ _.
    exists tx1. rewrite Ed. split; [reflexivity|exact Hdel].
Qed.

(** The scan deletes due keys only, never fails, and moves its counter
    unless the key under the cursor is not due. *)
Lemma emptyUntilScan_exact dt peekTs id ch cur :
  forall batched tx tx' b' err,
    storeWf ext tx -> ahead cur tx ->
    emptyUntilScan ext (getDelayedMsgDBPrefixKey dt ch) dt peekTs id ch cur batched tx
    = (tx', b', err) ->
    err = None /\ storeWf ext tx' /\ batched <= b'
    /\ (forall k, dueKey dt peekTs id ch k = false ->
          Bolt.Get k (delayed_message tx') = Bolt.Get k (delayed_message tx))
    /\ (forall k v, Bolt.Get k (delayed_message tx') = Some v ->
          Bolt.Get k (delayed_message tx) = Some v)
    /\ (b' = batched -> batched <= txMaxBatch ->
        forall k v rest, cur = (k, v) :: rest -> dueKey dt peekTs id ch k = false).
Proof.
  induction cur as [|[k v] cur IH]; intros batched tx tx' b' err HI Ha.
  { cbn [emptyUntilScan]. intros [= <- <- <-].
    split; [reflexivity|]. split; [assumption|]. split; [lia|].
    split; [reflexivity|]. split; [auto|]. intros _ _ k v rest [=]. }
  destruct (emptyUntilScan_step dt peekTs id ch k v cur batched tx HI Ha) as [Hstop Hgo].
  cbv zeta in Hstop, Hgo.
  destruct (dueKey dt peekTs id ch k) eqn:Hdue.
  - destruct (Z_le_gt_dec batched txMaxBatch) as [Hb|Hb].
    + destruct (Hgo eq_refl Hb) as (tx1 & -> & Hdel & HI1 & Ha1).
      intros E. apply IH in E as (He & Hwf & Hle & Hframe & Hsub & _); auto.
      pose proof HI as (S1 & _).
      split; [assumption|]. split; [assumption|]. split; [lia|]. split; [|split].
      * intros k' Hk'. rewrite Hframe, Hdel by assumption.
        apply Get_Delete_other; [congruence|assumption].
      * intros k' v' HG. apply Hsub in HG. rewrite Hdel in HG.
        destruct (bytes_eqb k k') eqn:Ek.
        -- apply bytes_eqb_eq in Ek. subst k'. rewrite Get_Delete_same in HG by assumption.
           discriminate.
        -- apply bytes_eqb_neq in Ek. now rewrite Get_Delete_other in HG by assumption.
      * intros; lia.
    + rewrite Hstop by (right; lia). intros [= <- <- <-].
      split; [reflexivity|]. split; [assumption|]. split; [lia|].
      split; [reflexivity|]. split; [auto|]. intros; lia.
  - rewrite Hstop by now left. intros [= <- <- <-].
    split; [reflexivity|]. split; [assumption|]. split; [lia|].
    split; [reflexivity|]. split; [auto|].
    intros _ _ k' v' rest [= <- _ _]. exact Hdue.
Qed.

(** Once the key at the front of the prefix range is not due, no stored
    key is, as long as the delivery times under the prefix are not
    negative. *)
Lemma head_not_due dt peekTs id ch tx :
  storeWf ext tx ->
  (forall k v t ts i c,
      Bolt.Get k (delayed_message tx) = Some v ->
      HasPrefix k (getDelayedMsgDBPrefixKey dt ch) = true ->
      decodeDelayedMsgDBKey k = Ok (t, ts, i, c) -> 0 <= ts) ->
  (forall k v rest,
      Bolt.Seek (getDelayedMsgDBPrefixKey dt ch) (delayed_message tx) = (k, v) :: rest ->
      dueKey dt peekTs id ch k = false) ->
  forall k v, Bolt.Get k (delayed_message tx) = Some v -> dueKey dt peekTs id ch k = false.
Proof.
  intros (S1 & _ & _ & He) Hnn Hhead k v HG.
  destruct (dueKey dt peekTs id ch k) eqn:Hdue; [exfalso|reflexivity].
  set (P := getDelayedMsgDBPrefixKey dt ch) in *.
  assert (Hp : HasPrefix k P = true).
  { unfold dueKey in Hdue. fold P in Hdue. now destruct (HasPrefix k P). }
  destruct (HasPrefix_inv _ _ Hp) as [r Hr].
  assert (Hin : In (k, v) (Bolt.Seek P (delayed_message tx))).
  { apply Seek_In; [now apply Get_In|]. rewrite Hr. apply bytes_compare_prefix. }
  destruct (Bolt.Seek P (delayed_message tx)) as [|[k0 v0] rest] eqn:Es; [contradiction|].
  pose proof (Hhead _ _ _ eq_refl) as Hk0.
  destruct Hin as [[= -> ->]|Hin]; [congruence|].
  pose proof (Seek_head _ _ _ _ _ Es) as Hge.
  assert (Hs : Bolt.sorted ((k0, v0) :: rest)).
  { destruct (Seek_suffix P (delayed_message tx)) as [pre E]. rewrite Es in E.
    rewrite E in S1. now apply sorted_app_r in S1. }
  assert (HG0 : Bolt.Get k0 (delayed_message tx) = Some v0).
  { apply Get_In; [assumption|].
    destruct (Seek_suffix P (delayed_message tx)) as [pre E]. rewrite Es in E.
    rewrite E. apply in_or_app. right. now left. }
  apply sorted_cons_inv in Hs as [_ Hb]. unfold below in Hb. rewrite Forall_forall in Hb.
  specialize (Hb _ Hin). cbn [fst] in Hb.
  assert (Hp0 : HasPrefix k0 P = true).
  { apply (HasPrefix_between P k0 r); [assumption|]. now rewrite <- Hr. }
  destruct (dueKey_stored _ _ _ _ peekTs id _ He HG0 Hp0)
    as (m0 & Ek0 & Hc & Hch0 & Ht0 & Hd0 & Hdue0).
  destruct (dueKey_stored _ _ _ _ peekTs id _ He HG Hp)
    as (m1 & Ek1 & _ & Hch1 & Ht1 & Hd1 & Hdue1).
  pose proof (Hnn _ _ _ _ _ _ HG0 Hp0 Hd0) as Hn0.
  pose proof (Hnn _ _ _ _ _ _ HG Hp Hd1) as Hn1.
  unfold bytes_lt in Hb. rewrite Ek0, Ek1 in Hb. unfold msgKeyOf in Hb.
  rewrite key_compare in Hb by (rewrite ?Hch0, ?Hch1; assumption).
  unfold keyOrder in Hb. rewrite Ht0, Ht1, Hch0, Hch1 in Hb.
  rewrite !Z.compare_refl, bytes_compare_refl in Hb.
  rewrite !uint64_nonneg in Hb by assumption.
  rewrite Hdue in Hdue1. rewrite Hk0 in Hdue0.
  symmetry in Hdue0, Hdue1.
  apply orb_false_iff in Hdue0 as [A0 B0]. apply Z.ltb_ge in A0.
  destruct (Z.compare_spec (int64 (DelayedTs m0)) (int64 (DelayedTs m1))) as [E|E|E];
    [|clear Hb|discriminate].
  - rewrite Z.compare_lt_iff in Hb.
    apply orb_true_iff in Hdue1 as [A1|A1]; [apply Z.ltb_lt in A1; lia|].
    apply andb_true_iff in A1 as [A1 B1]. apply Z.eqb_eq in A1. apply Z.ltb_lt in B1.
    apply andb_false_iff in B0 as [B0|B0];
      [apply Z.eqb_neq in B0; lia|apply Z.ltb_ge in B0; lia].
  - apply orb_true_iff in Hdue1 as [A1|A1]; [apply Z.ltb_lt in A1; lia|].
    apply andb_true_iff in A1 as [A1 _]. apply Z.eqb_eq in A1. lia.
Qed.

Lemma emptyUntilPass_exact dt peekTs id ch kv kv' b err :
  storeWf ext kv ->
  emptyUntilPass ext dt peekTs id ch kv = (kv', b, err) ->
  err = None /\ storeWf ext kv' /\ 0 <= b
  /\ Z.of_nat (length (delayed_message kv')) + b = Z.of_nat (length (delayed_message kv))
  /\ (forall k, dueKey dt peekTs id ch k = false ->
        Bolt.Get k (delayed_message kv') = Bolt.Get k (delayed_message kv))
  /\ (forall k v, Bolt.Get k (delayed_message kv') = Some v ->
        Bolt.Get k (delayed_message kv) = Some v)
  /\ (b = 0 ->
      forall k v rest,
        Bolt.Seek (getDelayedMsgDBPrefixKey dt ch) (delayed_message kv) = (k, v) :: rest ->
        dueKey dt peekTs id ch k = false).
Proof.
  intros Hwf Hpass.
  pose proof (emptyUntilPass_inv ext (storeWf ext) (fun _ H => H)
                (fun dt ch ts id tx tx' H E =>
                   deleteBucketKey_storeWf dt ch ts id tx ext tx' None H E (or_introl eq_refl))
                dt peekTs id ch kv kv' b err Hwf Hpass) as [_ Hlen].
  revert Hpass. unfold emptyUntilPass, Update.
  destruct (emptyUntilScan _ _ _ _ _ _ _ _ _) as [[tx' b'] err'] eqn:E.
  apply emptyUntilScan_exact in E as (-> & Hwf' & Hle & Hframe & Hsub & Hzero);
    [|assumption|apply ahead_Seek; apply Hwf].
  intros [= <- <- <-]. specialize (Hlen eq_refl) as [_ Hlen].
  split; [reflexivity|]. split; [assumption|]. split; [assumption|].
  split; [assumption|]. split; [assumption|]. split; [assumption|].
  intros Hb. apply Hzero; [assumption|unfold txMaxBatch; lia].
Qed.

Lemma emptyUntilLoop_exact dt peekTs id ch fuel :
  forall kv, storeWf ext kv -> (length (delayed_message kv) < fuel)%nat ->
    exists kv',
      emptyUntilLoop fuel ext dt peekTs id ch kv = Some (kv', None)
      /\ storeWf ext kv'
      /\ (forall k, dueKey dt peekTs id ch k = false ->
            Bolt.Get k (delayed_message kv') = Bolt.Get k (delayed_message kv))
      /\ (forall k v, Bolt.Get k (delayed_message kv') = Some v ->
            Bolt.Get k (delayed_message kv) = Some v)
      /\ (tsNonneg dt ch kv ->
          forall k v, Bolt.Get k (delayed_message kv') = Some v ->
                      dueKey dt peekTs id ch k = false).
Proof.
  induction fuel as [|fuel IH]; intros kv Hwf Hf; [lia|]. cbn [emptyUntilLoop].
  destruct (emptyUntilPass ext dt peekTs id ch kv) as [[kv1 b] e] eqn:E.
  apply emptyUntilPass_exact in E as (-> & Hwf1 & Hb & Hlen & Hframe & Hsub & Hzero);
    [|assumption].
  destruct (Z.eqb_spec b 0) as [->|Hnz].
  - exists kv1. split; [reflexivity|]. split; [assumption|]. split; [assumption|].
    split; [assumption|]. intros Hnn k v HG. apply Hsub in HG.
    exact (head_not_due dt peekTs id ch kv Hwf Hnn (Hzero eq_refl) k v HG).
  - destruct (IH kv1 Hwf1 ltac:(lia)) as (kv' & El & Hwf' & Hframe' & Hsub' & Hdone).
    exists kv'. split; [assumption|]. split; [assumption|]. split; [|split].
    + intros k Hk. now rewrite Hframe', Hframe.
    + intros k v HG. auto.
    + intros Hnn. apply Hdone. intros k v t ts i c HG. apply Hsub in HG. eauto.
Qed.

(** One step of the scan of [emptyAllDelayedType] on a well-formed store. *)
Lemma emptyAllScan_step dt ch k v cur batched tx :
  storeWf ext tx -> ahead ((k, v) :: cur) tx ->
  let P := getDelayedMsgDBPrefixKey dt ch in
  (HasPrefix k P = false \/ txMaxBatch < batched ->
   emptyAllScan ext P dt ch ((k, v) :: cur) batched tx = (tx, batched, None))
  /\ (HasPrefix k P = true -> batched <= txMaxBatch ->
      exists tx1,
        emptyAllScan ext P dt ch ((k, v) :: cur) batched tx
        = emptyAllScan ext P dt ch cur (batched + 1) tx1
        /\ delayed_message tx1 = Bolt.Delete k (delayed_message tx)
        /\ storeWf ext tx1 /\ ahead cur tx1).
Proof.
  intros HI Ha P. cbn [emptyAllScan]. fold P.
  pose proof HI as (S1 & _ & _ & He).
  destruct (proj2 Ha k v (or_introl eq_refl)) as [v' HG].
  destruct (HasPrefix k P) eqn:Hp; cbn [negb].
  2:{ split; [reflexivity|intros [=]]. }
  destruct (stored_prefix_decode _ _ _ _ _ He HG Hp) as (m & Hk & Hc & Hch & Ht & Hd).
  rewrite Hd, Ht, Z.eqb_refl, bytes_eqb_refl, andb_false_r. cbn [negb].
  destruct (Z.gtb_spec batched txMaxBatch) as [Hg|Hg].
  { split; [reflexivity|lia]. }
  split; [intros [[=]|]; lia|]. intros _ _.
  assert (HK : getDelayedMsgDBKey (uint16 dt) ch (int64 (DelayedTs m)) (uint64 (ID m)) = k).
  { subst k. rewrite <- Ht, <- Hch. apply rebuild_key. }
  rewrite <- HK in HG.
  destruct (deleteBucketKey_succeeds _ _ _ _ _ _ _ HI HG) as (tx1 & Ed & Hdel).
  rewrite HK in Hdel. exists tx1. rewrite Ed. split; [reflexivity|]. split; [exact Hdel|].
  split.
  - eapply deleteBucketKey_storeWf; [exact HI|exact Ed|now left].
  - eapply ahead_Delete; eassumption.
Qed.

Lemma emptyAllScan_exact dt ch cur :
  forall batched tx tx' b' err,
    storeWf ext tx -> ahead cur tx ->
    emptyAllScan ext (getDelayedMsgDBPrefixKey dt ch) dt ch cur batched tx = (tx', b', err) ->
    err = None /\ storeWf ext tx' /\ batched <= b'
    /\ (forall k, HasPrefix k (getDelayedMsgDBPrefixKey dt ch) = false ->
          Bolt.Get k (delayed_message tx') = Bolt.Get k (delayed_message tx))
    /\ (forall k v, Bolt.Get k (delayed_message tx') = Some v ->
          Bolt.Get k (delayed_message tx) = Some v)
    /\ (b' = batched -> batched <= txMaxBatch ->
        forall k v rest, cur = (k, v) :: rest ->
                         HasPrefix k (getDelayedMsgDBPrefixKey dt ch) = false).
Proof.
  induction cur as [|[k v] cur IH]; intros batched tx tx' b' err HI Ha.
  { cbn [emptyAllScan]. intros [= <- <- <-].
    split; [reflexivity|]. split; [assumption|]. split; [lia|].
    split; [reflexivity|]. split; [auto|]. intros _ _ k v rest [=]. }
  destruct (emptyAllScan_step dt ch k v cur batched tx HI Ha) as [Hstop Hgo].
  cbv zeta in Hstop, Hgo.
  destruct (HasPrefix k (getDelayedMsgDBPrefixKey dt ch)) eqn:Hp.
  - destruct (Z_le_gt_dec batched txMaxBatch) as [Hb|Hb].
    + destruct (Hgo eq_refl Hb) as (tx1 & -> & Hdel & HI1 & Ha1).
      intros E. apply IH in E as (He & Hwf & Hle & Hframe & Hsub & _); auto.
      pose proof HI as (S1 & _).
      split; [assumption|]. split; [assumption|]. split; [lia|]. split; [|split].
      * intros k' Hk'. rewrite Hframe, Hdel by assumption.
        apply Get_Delete_other; [congruence|assumption].
      * intros k' v' HG. apply Hsub in HG. rewrite Hdel in HG.
        destruct (bytes_eqb k k') eqn:Ek.
        -- apply bytes_eqb_eq in Ek. subst k'. rewrite Get_Delete_same in HG by assumption.
           discriminate.
        -- apply bytes_eqb_neq in Ek. now rewrite Get_Delete_other in HG by assumption.
      * intros; lia.
    + rewrite Hstop by (right; lia). intros [= <- <- <-].
      split; [reflexivity|]. split; [assumption|]. split; [lia|].
      split; [reflexivity|]. split; [auto|]. intros; lia.
  - rewrite Hstop by now left. intros [= <- <- <-].
    split; [reflexivity|]. split; [assumption|]. split; [lia|].
    split; [reflexivity|]. split; [auto|].
    intros _ _ k' v' rest [= <- _ _]. exact Hp.
Qed.

(** Once the key at the front of the prefix range lacks the prefix, no
    stored key has it. *)
Lemma head_no_prefix (P : bytes) (b : Bolt.Bucket bytes) :
  Bolt.sorted b ->
  (forall k v rest, Bolt.Seek P b = (k, v) :: rest -> HasPrefix k P = false) ->
  forall k v, Bolt.Get k b = Some v -> HasPrefix k P = false.
Proof.
  intros S1 Hhead k v HG.
  destruct (HasPrefix k P) eqn:Hp; [exfalso|reflexivity].
  destruct (HasPrefix_inv _ _ Hp) as [r Hr].
  assert (Hin : In (k, v) (Bolt.Seek P b)).
  { apply Seek_In; [now apply Get_In|]. rewrite Hr. apply bytes_compare_prefix. }
  destruct (Bolt.Seek P b) as [|[k0 v0] rest] eqn:Es; [contradiction|].
  pose proof (Hhead _ _ _ eq_refl) as Hk0.
  destruct Hin as [[= -> ->]|Hin]; [congruence|].
  pose proof (Seek_head _ _ _ _ _ Es) as Hge.
  assert (Hs : Bolt.sorted ((k0, v0) :: rest)).
  { destruct (Seek_suffix P b) as [pre E]. rewrite Es in E.
    rewrite E in S1. now apply sorted_app_r in S1. }
  apply sorted_cons_inv in Hs as [_ Hb]. unfold below in Hb. rewrite Forall_forall in Hb.
  specialize (Hb _ Hin). cbn [fst] in Hb.
  assert (Hp0 : HasPrefix k0 P = true).
  { apply (HasPrefix_between P k0 r); [assumption|]. now rewrite <- Hr. }
  congruence.
Qed.

Lemma emptyAllPass_exact dt ch kv kv' b err :
  storeWf ext kv ->
  emptyAllPass ext dt ch kv = (kv', b, err) ->
  err = None /\ storeWf ext kv' /\ 0 <= b
  /\ Z.of_nat (length (delayed_message kv')) + b = Z.of_nat (length (delayed_message kv))
  /\ (forall k, HasPrefix k (getDelayedMsgDBPrefixKey dt ch) = false ->
        Bolt.Get k (delayed_message kv') = Bolt.Get k (delayed_message kv))
  /\ (forall k v, Bolt.Get k (delayed_message kv') = Some v ->
        Bolt.Get k (delayed_message kv) = Some v)
  /\ (b = 0 ->
      forall k v rest,
        Bolt.Seek (getDelayedMsgDBPrefixKey dt ch) (delayed_message kv) = (k, v) :: rest ->
        HasPrefix k (getDelayedMsgDBPrefixKey dt ch) = false).
Proof.
  intros Hwf Hpass.
  pose proof (emptyAllPass_inv ext (storeWf ext) (fun _ H => H)
                (fun dt ch ts id tx tx' H E =>
                   deleteBucketKey_storeWf dt ch ts id tx ext tx' None H E (or_introl eq_refl))
                dt ch kv kv' b err Hwf Hpass) as [_ Hlen].
  revert Hpass. unfold emptyAllPass, Update.
  destruct (emptyAllScan _ _ _ _ _ _ _) as [[tx' b'] err'] eqn:E.
  apply emptyAllScan_exact in E as (-> & Hwf' & Hle & Hframe & Hsub & Hzero);
    [|assumption|apply ahead_Seek; apply Hwf].
  intros [= <- <- <-]. specialize (Hlen eq_refl) as [_ Hlen].
  split; [reflexivity|]. split; [assumption|]. split; [assumption|].
  split; [assumption|]. split; [assumption|]. split; [assumption|].
  intros Hb. apply Hzero; [assumption|unfold txMaxBatch; lia].
Qed.

Lemma emptyAllLoop_exact dt ch fuel :
  forall kv, storeWf ext kv -> (length (delayed_message kv) < fuel)%nat ->
    exists kv',
      emptyAllLoop fuel ext dt ch kv = Some (kv', None)
      /\ storeWf ext kv'
      /\ (forall k, HasPrefix k (getDelayedMsgDBPrefixKey dt ch) = false ->
            Bolt.Get k (delayed_message kv') = Bolt.Get k (delayed_message kv))
      /\ (forall k v, Bolt.Get k (delayed_message kv') = Some v ->
            HasPrefix k (getDelayedMsgDBPrefixKey dt ch) = false).
Proof.
  induction fuel as [|fuel IH]; intros kv Hwf Hf; [lia|]. cbn [emptyAllLoop].
  destruct (emptyAllPass ext dt ch kv) as [[kv1 b] e] eqn:E.
  apply emptyAllPass_exact in E as (-> & Hwf1 & Hb & Hlen & Hframe & Hsub & Hzero);
    [|assumption].
  destruct (Z.eqb_spec b 0) as [->|Hnz].
  - exists kv1. split; [reflexivity|]. split; [assumption|]. split; [assumption|].
    intros k v HG. apply Hsub in HG.
    exact (head_no_prefix _ _ (proj1 Hwf) (Hzero eq_refl) k v HG).
  - destruct (IH kv1 Hwf1 ltac:(lia)) as (kv' & El & Hwf' & Hframe' & Hdone).
    exists kv'. split; [assumption|]. split; [assumption|]. split; [|assumption].
    intros k Hk. now rewrite Hframe', Hframe.
Qed.

End EmptyFacts.

Lemma noNegativeTs_nonneg (dt : Z) (ch : bytes) (kv : KV) :
  Bolt.sorted (delayed_message kv) -> noNegativeTs kv = true -> tsNonneg dt ch kv.
Proof.
  intros Hs Hb k v t ts i c HG _ Hd. unfold noNegativeTs in Hb.
  rewrite forallb_forall in Hb. apply Get_In in HG; [|assumption].
  specialize (Hb _ HG). cbn [fst] in Hb. rewrite Hd in Hb. now apply Z.leb_le.
Qed.

Section EmptyOperations.
Context {C : Codec}.

(** X17.  [emptyDelayedUntil] on a well-formed store ends within
    [passBound] passes and returns no error.  It deletes due keys only:
    a key that is not under the prefix of the type and channel, or whose
    delivery time and id do not lie before [(peekTs, id)], keeps its
    record.  When no delivery time stored under the prefix is negative it
    deletes all of them: no due key is left. *)
Theorem empty_until_exact (q : DelayQueue) (dt peekTs id : Z) (ch : bytes) :
  storeWf (IsExt q) (kvStore q) ->
  exists q',
    emptyDelayedUntil (passBound q) q dt peekTs id ch = Some (q', None)
    /\ (forall k, dueKey dt peekTs id ch k = false ->
          Bolt.Get k (delayed_message (kvStore q'))
          = Bolt.Get k (delayed_message (kvStore q)))
    /\ (tsNonneg dt ch (kvStore q) ->
        forall k, dueKey dt peekTs id ch k = true ->
                  Bolt.Get k (delayed_message (kvStore q')) = None).
Proof.
  intros Hwf.
  destruct (emptyUntilLoop_exact (IsExt q) dt peekTs id ch (passBound q) (kvStore q) Hwf
              ltac:(unfold passBound; lia)) as (kv' & El & _ & Hframe & _ & Hdone).
  unfold emptyDelayedUntil. rewrite El.
  assert (Hres : forall q1, kvStore q1 = kv' ->
    (forall k, dueKey dt peekTs id ch k = false ->
       Bolt.Get k (delayed_message (kvStore q1)) = Bolt.Get k (delayed_message (kvStore q)))
    /\ (tsNonneg dt ch (kvStore q) ->
        forall k, dueKey dt peekTs id ch k = true ->
                  Bolt.Get k (delayed_message (kvStore q1)) = None)).
  { intros q1 ->. split; [assumption|]. intros Hnn k Hk.
    destruct (Bolt.Get k (delayed_message kv')) as [v|] eqn:HG; [|reflexivity].
    apply (Hdone Hnn) in HG. congruence. }
  destruct ((dt =? ChannelDelayed) && negb (isEmpty ch));
    eexists; (split; [reflexivity|]); apply Hres; reflexivity.
Qed.

(** The keys of a message lie under the prefix of its type and channel
    only. *)
Lemma msgKey_under_prefix (m : Message) (dt : Z) (ch : bytes) :
  len (DelayedChannel m) < 65536 ->
  HasPrefix (msgKeyOf m) (getDelayedMsgDBPrefixKey dt ch)
  = (uint16 (DelayedType m) =? uint16 dt) && bytes_eqb (DelayedChannel m) ch.
Proof.
  intros Hc. destruct (HasPrefix (msgKeyOf m) _) eqn:Hp.
  - unfold msgKeyOf in Hp. apply HasPrefix_key_inv in Hp as [Ht ->]; [|assumption].
    apply PutUint16_inj in Ht. rewrite !uint16_idem in Ht.
    now rewrite Ht, Z.eqb_refl, bytes_eqb_refl.
  - destruct (Z.eqb_spec (uint16 (DelayedType m)) (uint16 dt)) as [Et|]; [|reflexivity].
    destruct (bytes_eqb (DelayedChannel m) ch) eqn:Ec; [|reflexivity].
    apply bytes_eqb_eq in Ec. subst ch.
    assert (HasPrefix (msgKeyOf m)
              (getDelayedMsgDBPrefixKey dt (DelayedChannel m)) = true); [|congruence].
    apply HasPrefix_msgKey; [assumption|].
    unfold getDelayedMsgDBPrefixKey. now rewrite Et.
Qed.

(** X18.  [emptyAllDelayedType] on a well-formed store ends within
    [passBound] passes and returns no error.  Afterwards the store holds
    no message of the type (as a [uint16]) and channel given, and every
    other message is still stored under its key. *)
Theorem empty_all_exact (q : DelayQueue) (now dt : Z) (ch : bytes) :
  storeWf (IsExt q) (kvStore q) ->
  exists q',
    emptyAllDelayedType (passBound q) now q dt ch = Some (q', None)
    /\ forall k v m,
         Bolt.Get k (delayed_message (kvStore q)) = Some v ->
         DecodeDelayedMessage v (IsExt q) = Some m ->
         Bolt.Get k (delayed_message (kvStore q'))
         = if (uint16 (DelayedType m) =? uint16 dt) && bytes_eqb (DelayedChannel m) ch
           then None else Some v.
Proof.
  intros Hwf.
  destruct (emptyAllLoop_exact (IsExt q) dt ch (passBound q) (kvStore q) Hwf
              ltac:(unfold passBound; lia)) as (kv' & El & _ & Hframe & Hdone).
  unfold emptyAllDelayedType. rewrite El.
  assert (Hres : forall q1, kvStore q1 = kv' ->
    forall k v m,
      Bolt.Get k (delayed_message (kvStore q)) = Some v ->
      DecodeDelayedMessage v (IsExt q) = Some m ->
      Bolt.Get k (delayed_message (kvStore q1))
      = if (uint16 (DelayedType m) =? uint16 dt) && bytes_eqb (DelayedChannel m) ch
        then None else Some v).
  { intros q1 -> k v m HG Hd.
    destruct Hwf as (_ & _ & _ & He). destruct (He _ _ HG) as (m' & Hd' & Hk & Hl).
    assert (m' = m) as -> by congruence.
    pose proof (key_channel_short m ltac:(now rewrite <- Hk)) as Hc.
    rewrite <- (msgKey_under_prefix m dt ch Hc), <- Hk.
    destruct (HasPrefix k (getDelayedMsgDBPrefixKey dt ch)) eqn:Hp.
    - destruct (Bolt.Get k (delayed_message kv')) as [v'|] eqn:HG'; [|reflexivity].
      apply Hdone in HG'. congruence.
    - now rewrite Hframe. }
  destruct ((dt =? ChannelDelayed) && negb (isEmpty ch));
    eexists; (split; [reflexivity|]); apply Hres; reflexivity.
Qed.

(** X19.  The two public wrappers.  [EmptyDelayedChannel] refuses the empty
    channel name and leaves the engine as it is.  [EmptyDelayedType]
    empties the type under the empty channel name, so on a well-formed
    store every message that carries a channel name stays where it is,
    whatever its type. *)
Theorem empty_wrappers (q : DelayQueue) (now dt : Z) :
  (forall fuel, EmptyDelayedChannel fuel now q [] = Some (q, Some errEmptyChannelName))
  /\ (storeWf (IsExt q) (kvStore q) ->
      exists q',
        EmptyDelayedType (passBound q) now q dt = Some (q', None)
        /\ forall k v m,
             Bolt.Get k (delayed_message (kvStore q)) = Some v ->
             DecodeDelayedMessage v (IsExt q) = Some m ->
             DelayedChannel m <> [] ->
             Bolt.Get k (delayed_message (kvStore q')) = Some v).
Proof.
  split; [reflexivity|]. intros Hwf.
  destruct (emptyAllLoop_exact (IsExt q) dt [] (passBound q) (kvStore q) Hwf
              ltac:(unfold passBound; lia)) as (kv' & El & _ & Hframe & _).
  unfold EmptyDelayedType, emptyAllDelayedType. rewrite El.
  cbn [isEmpty negb]. rewrite andb_false_r.
  eexists. split; [reflexivity|]. cbn [kvStore withKV].
  intros k v m HG Hd Hne.
  destruct Hwf as (_ & _ & _ & He). destruct (He _ _ HG) as (m' & Hd' & Hk & Hl).
  assert (m' = m) as -> by congruence.
  pose proof (key_channel_short m ltac:(now rewrite <- Hk)) as Hc.
  rewrite Hframe; [assumption|].
  rewrite Hk, (msgKey_under_prefix m dt [] Hc).
  destruct (bytes_eqb (DelayedChannel m) []) eqn:E; [|apply andb_false_r].
  apply bytes_eqb_eq in E. contradiction.
Qed.

End EmptyOperations.

(** * What a peek returns *)

Section PeekComplete.
Context {C : Codec} `{!CodecOk C}.

(** On a well-formed store the scan of a peek meets no key it cannot
    decode. *)
Lemma peekScan_no_error ext kv prefix peekTs filterType filterChannel cur :
  entriesOk ext kv ->
  (forall k v, In (k, v) cur -> Bolt.Get k (delayed_message kv) = Some v) ->
  forall oldest idx results,
    snd (peekScan ext prefix peekTs filterType filterChannel cur oldest idx results) = None.
Proof.
  intros He. induction cur as [|[k v] cur IH]; intros Hin oldest idx results;
    cbn [peekScan]; [reflexivity|].
  assert (Hin' : forall k0 v0, In (k0, v0) cur -> Bolt.Get k0 (delayed_message kv) = Some v0)
    by (intros; apply Hin; now right).
  destruct (HasPrefix k prefix); cbn [negb]; [|reflexivity].
  destruct (stored_key_decode _ _ _ _ He (Hin k v (or_introl eq_refl))) as (m & _ & _ & ->).
  destruct (_ || _); [reflexivity|].
  destruct (_ && _); [now apply IH|].
  destruct (DecodeDelayedMessage v ext); [|now apply IH].
  destruct (_ && _); now apply IH.
Qed.

(** The scan under the prefix of a type and a channel misses no message
    that is due, unless the result slice is full. *)
Lemma peekScan_complete ext kv peekTs filterType filterChannel cur :
  let P := getDelayedMsgDBPrefixKey filterType filterChannel in
  0 < filterType ->
  storeWf ext kv -> tsNonneg filterType filterChannel kv ->
  Bolt.sorted cur ->
  (forall k v, In (k, v) cur -> Bolt.Get k (delayed_message kv) = Some v) ->
  (forall k v, In (k, v) cur -> bytes_compare k P <> Lt) ->
  forall oldest idx results oldest' idx' results' err,
    peekScan ext P peekTs filterType filterChannel cur oldest idx results
    = (oldest', idx', results', err) ->
    (idx <= length results)%nat -> (idx' < length results)%nat ->
    forall k v m,
      In (k, v) cur -> DecodeDelayedMessage v ext = Some m ->
      DelayedType m = filterType -> DelayedChannel m = filterChannel ->
      DelayedTs m <= peekTs ->
      In m (firstn idx' results').
Proof.
  intros P Hft Hwf Hnn. pose proof Hwf as (S1 & _ & _ & He).
  assert (Hpre : P = peekPrefix filterType filterChannel).
  { unfold peekPrefix. destruct (Z.gtb_spec filterType 0); [reflexivity|lia]. }
  (* a stored message of the type and channel, with its key *)
  assert (Hkey : forall k v m,
            Bolt.Get k (delayed_message kv) = Some v -> DecodeDelayedMessage v ext = Some m ->
            DelayedType m = filterType -> DelayedChannel m = filterChannel ->
            k = msgKeyOf m /\ len filterChannel < 65536 /\ HasPrefix k P = true
            /\ decodeDelayedMsgDBKey k
               = Ok (uint16 filterType, DelayedTs m, uint64 (ID m), filterChannel)).
  { intros k v m HG Hd Ht Hc. destruct (He _ _ HG) as (m' & Hd' & Hk & Hl).
    assert (m' = m) as -> by congruence.
    pose proof (key_channel_short m ltac:(now rewrite <- Hk)) as Hs.
    pose proof (decode_wf _ _ _ Hd) as (_ & _ & _ & _ & Hts & _).
    split; [assumption|]. split; [now rewrite <- Hc|]. split.
    - subst k P. rewrite <- Ht, <- Hc. apply HasPrefix_key_prefix.
    - subst k. unfold msgKeyOf. rewrite decode_key by assumption.
      now rewrite Ht, Hc, (int64_small _ Hts). }
  induction cur as [|[k0 v0] cur IH]; intros Hs Hin Hge oldest idx results
    oldest' idx' results' err; [intros _ _ _ k v m []|].
  cbn [peekScan].
  pose proof (sorted_cons_inv _ _ _ Hs) as [Hs' Hb].
  unfold below in Hb. rewrite Forall_forall in Hb.
  assert (Hin' : forall k v, In (k, v) cur -> Bolt.Get k (delayed_message kv) = Some v)
    by (intros; apply Hin; now right).
  assert (Hge' : forall k v, In (k, v) cur -> bytes_compare k P <> Lt)
    by (intros; eapply Hge; right; eassumption).
  pose proof (Hin k0 v0 (or_introl eq_refl)) as HG0.
  pose proof (Hge k0 v0 (or_introl eq_refl)) as Hge0.
  (* the rest of the cursor, when the key under it is passed over *)
  assert (Skip : forall o,
            (forall m, DecodeDelayedMessage v0 ext = Some m ->
                       DelayedType m = filterType -> DelayedChannel m = filterChannel ->
                       False) ->
            peekScan ext P peekTs filterType filterChannel cur o idx results
            = (oldest', idx', results', err) ->
            (idx <= length results)%nat -> (idx' < length results)%nat ->
            forall k v m,
              In (k, v) ((k0, v0) :: cur) -> DecodeDelayedMessage v ext = Some m ->
              DelayedType m = filterType -> DelayedChannel m = filterChannel ->
              DelayedTs m <= peekTs -> In m (firstn idx' results')).
  { intros o Hno Hr Hi Hi' k v m [[= <- <-]|Hk] Hd Ht Hc Hts.
    - exfalso. eauto.
    - eapply (IH Hs' Hin' Hge'); eauto. }
  destruct (HasPrefix k0 P) eqn:Hp0; cbn [negb].
  2:{ (* the prefix range is over: no later key has the prefix *)
    intros [= <- <- <- <-] Hi Hi' k v m Hk Hd Ht Hc Hts. exfalso.
    destruct (Hkey k v m (Hin _ _ Hk) Hd Ht Hc) as (_ & _ & Hp & _).
    destruct Hk as [[= <- <-]|Hk]; [congruence|].
    specialize (Hb _ Hk). cbn [fst] in Hb.
    destruct (HasPrefix_inv _ _ Hp) as [r Hr].
    rewrite (HasPrefix_between P k0 r) in Hp0; [discriminate|assumption|].
    now rewrite <- Hr. }
  destruct (dueKey_stored ext kv k0 v0 filterType peekTs 0 filterChannel He HG0 Hp0)
    as (m0 & Ek0 & Hc & Hch0 & Ht0 & Hd0 & _).
  rewrite Hd0.
  set (o1 := if (oldest =? 0) && (filterType =? ChannelDelayed) && negb (isEmpty filterChannel)
             then int64 (DelayedTs m0) else oldest).
  pose proof (Hnn _ _ _ _ _ _ HG0 Hp0 Hd0) as Hn0.
  destruct (Z.gtb_spec (int64 (DelayedTs m0)) peekTs) as [Hts0|Hts0]; cbn [orb].
  { (* the first key past the deadline: every later one is past it too *)
    intros [= <- <- <- <-] Hi Hi' k v m Hk Hd Ht Hc' Hts. exfalso.
    destruct (Hkey k v m (Hin _ _ Hk) Hd Ht Hc') as (Ek & _ & Hp & Hdk).
    destruct Hk as [[= <- <-]|Hk].
    - rewrite Hd0 in Hdk. injection Hdk as _ E _. lia.
    - specialize (Hb _ Hk). cbn [fst] in Hb. unfold bytes_lt in Hb.
      pose proof (Hnn _ _ _ _ _ _ (Hin' _ _ Hk) Hp Hdk) as Hn1.
      rewrite Ek0, Ek in Hb. unfold msgKeyOf in Hb.
      rewrite key_compare in Hb by (rewrite ?Hch0, ?Hc'; assumption).
      unfold keyOrder in Hb. rewrite Ht0, Ht, Hch0, Hc' in Hb.
      rewrite !Z.compare_refl, bytes_compare_refl in Hb.
      pose proof (decode_wf _ _ _ Hd) as (_ & _ & _ & _ & Hr & _).
      rewrite (uint64_nonneg (DelayedTs m0)) in Hb by assumption.
      rewrite (uint64_nonneg (DelayedTs m)) in Hb by (rewrite int64_small; assumption).
      rewrite (int64_small (DelayedTs m)) in Hb by assumption.
      destruct (Z.compare_spec (int64 (DelayedTs m0)) (DelayedTs m)); try discriminate; lia. }
  destruct (Z.geb_spec (Z.of_nat idx) (len results)) as [Hfull|Hfull].
  { intros [= <- <- <- <-] Hi Hi'. unfold len in Hfull. lia. }
  rewrite bytes_eqb_refl, andb_false_r.
  destruct (DecodeDelayedMessage v0 ext) as [m0'|] eqn:Ed0.
  2:{ apply Skip. intros m [=]. }
  destruct ((filterType >=? 0) && negb (filterType =? DelayedType m0')) eqn:Hty.
  { apply Skip. intros m [= ->] Ht _. rewrite Ht, Z.eqb_refl, andb_false_r in Hty.
    discriminate. }
  intros Hr Hi Hi'. unfold len in Hfull.
  assert (Hlt : (idx < length results)%nat) by lia.
  pose proof Hr as Hspec.
  eapply (peekScan_spec ext kv) in Hspec; eauto; [|rewrite length_update; lia].
  destruct Hspec as (ks & msgs & H1 & H2 & H3 & H4 & _).
  rewrite firstn_update in H1 by assumption. rewrite length_update in H3, H4.
  intros k v m [[= <- <-]|Hk] Hd Ht Hc' Hts.
  - assert (m0' = m) as -> by congruence.
    rewrite H1. apply in_or_app. left. apply in_or_app. right. now left.
  - eapply (IH Hs' Hin' Hge' _ _ _ _ _ _ _ Hr); eauto.
    + rewrite length_update. lia.
    + rewrite length_update. lia.
Qed.

(** X20.  A peek under a type and a channel misses nothing.  On a
    well-formed store, with a positive filter type, when the early exit on
    the channel's oldest known delivery time is not taken and no delivery
    time stored under the prefix is negative, [PeekRecentTimeoutWithFilter]
    returns no error, and if it filled fewer slots than the slice has, every
    stored message of that type and channel that is due by [peekTs] is among
    the messages returned. *)
Theorem peek_complete (q : DelayQueue) (results : list Message) (peekTs filterType : Z)
  (filterChannel : bytes) (q' : DelayQueue) (idx : nat) (res : list Message)
  (err : option error) :
  storeWf (IsExt q) (kvStore q) -> 0 < filterType ->
  peekIgnored q peekTs filterType filterChannel = false ->
  tsNonneg filterType filterChannel (kvStore q) ->
  PeekRecentTimeoutWithFilter q results peekTs filterType filterChannel
  = (q', (idx, res, err)) ->
  err = None
  /\ ((idx < length results)%nat ->
      forall k v m,
        Bolt.Get k (delayed_message (kvStore q)) = Some v ->
        DecodeDelayedMessage v (IsExt q) = Some m ->
        DelayedType m = filterType -> DelayedChannel m = filterChannel ->
        DelayedTs m <= peekTs ->
        In m (firstn idx res)).
Proof.
  intros Hwf Hft Hig Hnn. unfold PeekRecentTimeoutWithFilter. rewrite Hig.
  assert (Hpre : peekPrefix filterType filterChannel
                 = getDelayedMsgDBPrefixKey filterType filterChannel).
  { unfold peekPrefix. destruct (Z.gtb_spec filterType 0); [reflexivity|lia]. }
  rewrite Hpre. set (P := getDelayedMsgDBPrefixKey filterType filterChannel).
  pose proof Hwf as (S1 & _ & _ & He).
  destruct (Seek_suffix P (delayed_message (kvStore q))) as [pre Ep].
  assert (Hstored : forall k v, In (k, v) (Bolt.Seek P (delayed_message (kvStore q))) ->
                                Bolt.Get k (delayed_message (kvStore q)) = Some v).
  { intros k v Hin. apply Get_In; [assumption|]. rewrite Ep. apply in_or_app. now right. }
  assert (Hsorted : Bolt.sorted (Bolt.Seek P (delayed_message (kvStore q)))).
  { rewrite Ep in S1. now apply sorted_app_r in S1. }
  assert (Hge : forall k v, In (k, v) (Bolt.Seek P (delayed_message (kvStore q))) ->
                            bytes_compare k P <> Lt).
  { intros k v Hin.
    destruct (Bolt.Seek P (delayed_message (kvStore q))) as [|[k0 v0] rest] eqn:Es;
      [contradiction|].
    pose proof (Seek_head _ _ _ _ _ Es) as H0.
    destruct Hin as [[= <- <-]|Hin]; [assumption|].
    apply sorted_cons_inv in Hsorted as [_ Hb]. unfold below in Hb.
    rewrite Forall_forall in Hb. specialize (Hb _ Hin). cbn [fst] in Hb.
    intros Hlt. apply H0. exact (bytes_lt_trans _ _ _ Hb Hlt). }
  pose proof (peekScan_no_error (IsExt q) (kvStore q) P peekTs filterType filterChannel
                _ He Hstored 0 O results) as Hne.
  destruct (peekScan _ _ _ _ _ _ _ _ _) as [[[oldest i] r] e] eqn:E.
  cbn [snd] in Hne. subst e.
  assert (Hall : (i < length results)%nat ->
            forall k v m,
              Bolt.Get k (delayed_message (kvStore q)) = Some v ->
              DecodeDelayedMessage v (IsExt q) = Some m ->
              DelayedType m = filterType -> DelayedChannel m = filterChannel ->
              DelayedTs m <= peekTs -> In m (firstn i r)).
  { intros Hi k v m HG Hd Ht Hc Hts.
    eapply (peekScan_complete (IsExt q) (kvStore q) peekTs filterType filterChannel
              _ Hft Hwf Hnn Hsorted Hstored Hge _ _ _ _ _ _ _ E); eauto; [lia|].
    apply Seek_In; [exact (proj1 (Get_In _ _ _ S1) HG)|].
    destruct (He _ _ HG) as (m' & Hd' & Hk & Hl).
    assert (m' = m) as -> by congruence.
    subst k. unfold msgKeyOf. rewrite key_prefix. subst P. rewrite Ht, Hc.
    apply bytes_compare_prefix. }
  destruct (oldest >? 0); intros [= <- <- <- <-]; split; auto.
Qed.

(** X21.  A peek never fails on a well-formed store, whatever the type and
    the channel it filters on: every key the scan meets under the prefix
    can be decoded. *)
Theorem peek_no_error (q : DelayQueue) (results : list Message) (peekTs filterType : Z)
  (filterChannel : bytes) :
  storeWf (IsExt q) (kvStore q) ->
  snd (snd (PeekRecentTimeoutWithFilter q results peekTs filterType filterChannel)) = None.
Proof.
  intros (S1 & _ & _ & He). unfold PeekRecentTimeoutWithFilter.
  destruct (peekIgnored q peekTs filterType filterChannel); [reflexivity|].
  set (P := peekPrefix filterType filterChannel).
  destruct (Seek_suffix P (delayed_message (kvStore q))) as [pre Ep].
  assert (Hstored : forall k v, In (k, v) (Bolt.Seek P (delayed_message (kvStore q))) ->
                                Bolt.Get k (delayed_message (kvStore q)) = Some v).
  { intros k v Hin. apply Get_In; [assumption|]. rewrite Ep. apply in_or_app. now right. }
  pose proof (peekScan_no_error (IsExt q) (kvStore q) P peekTs filterType filterChannel
                _ He Hstored 0 O results) as Hne.
  destruct (peekScan _ _ _ _ _ _ _ _ _) as [[[oldest i] r] e].
  cbn [snd] in Hne. subst e. destruct (oldest >? 0); reflexivity.
Qed.

End PeekComplete.

(** * The engine's put and its log *)

(** What a successful [PutV2] leaves in the writer. *)
Lemma PutV2_ok_writer (d : DiskQueue.diskQueueWriter) (data : bytes) d1 off wb e :
  wfWriter d -> len data + 4 < 2 ^ 31 -> roomFor d (len data + 4) ->
  DiskQueue.PutV2 d data = (d1, (off, wb, e, None)) ->
  let we := DiskQueue.diskWriteEnd d in
  DiskQueue.exitFlag d <> 1
  /\ off = DiskQueue.virtualEnd we /\ wb = len data + 4
  /\ DiskQueue.diskWriteEnd d1 = e
  /\ DiskQueue.virtualEnd e = DiskQueue.virtualEnd we + (len data + 4)
  /\ DiskQueue.totalMsgCnt e = DiskQueue.totalMsgCnt we + 1
  /\ DiskQueue.needSync d1 = true
  /\ DiskQueue.exitFlag d1 = DiskQueue.exitFlag d
  /\ DiskQueue.diskQueueStart d1 = DiskQueue.diskQueueStart d
  /\ (DiskQueue.Pos (DiskQueue.EndOffset we) + (len data + 4) < DiskQueue.maxBytesPerFile d ->
      DiskQueue.EndOffset e
      = {| DiskQueue.FileNum := DiskQueue.FileNum (DiskQueue.EndOffset we);
           DiskQueue.Pos := DiskQueue.Pos (DiskQueue.EndOffset we) + (len data + 4) |}).
Proof.
  intros Hwf Hlen Hroom Hput we. pose proof (len_nonneg data) as Hl.
  assert (Hex : DiskQueue.exitFlag d <> 1).
  { intros Hx. unfold DiskQueue.PutV2 in Hput. rewrite Hx in Hput. discriminate. }
  pose proof (PutV2_size d data d1 off wb e Hex ltac:(lia) Hput) as Hok.
  rewrite (PutV2_done d data Hex Hwf Hlen Hroom Hok) in Hput. fold we in Hput.
  destruct (Z.geb_spec (DiskQueue.Pos (DiskQueue.EndOffset we) + (len data + 4))
              (DiskQueue.maxBytesPerFile d));
    injection Hput as <- <- <- <-; cbn; repeat split; try assumption;
    intros; (reflexivity || lia).
Qed.

(** With [needSync] set, a rollback after a [sync] is the rollback. *)
Lemma rollback_after_sync (d : DiskQueue.diskQueueWriter) (offset diffCnt : Z) :
  DiskQueue.needSync d = true ->
  DiskQueue.RollbackWriteV2 (DiskQueue.sync d) offset diffCnt
  = (if (offset <? DiskQueue.virtualEnd (DiskQueue.diskQueueStart d))
        || (int64 (DiskQueue.TotalMsgCnt (DiskQueue.diskWriteEnd d) - int64 diffCnt)
            <? DiskQueue.TotalMsgCnt (DiskQueue.diskQueueStart d))
     then (DiskQueue.sync d, (DiskQueue.diskWriteEnd d, Some ErrInvalidOffset))
     else DiskQueue.RollbackWriteV2 d offset diffCnt).
Proof.
  intros Hn. unfold DiskQueue.RollbackWriteV2. rewrite Hn.
  cbn [DiskQueue.sync DiskQueue.setNeedSync DiskQueue.setEnds DiskQueue.diskQueueStart
       DiskQueue.diskWriteEnd DiskQueue.needSync].
  destruct (_ || _); reflexivity.
Qed.

Section PutAccounting.
Context {C : Codec}.

(** The log and the flush state after a successful [put] of a message
    without an id: the record of the message under its new id was appended,
    and the engine flushed or it did not. *)
Lemma put_backend q m0 trace cs q' id off wb dend :
  ID m0 <= 0 ->
  put q m0 None trace cs = (q', (id, off, wb, dend, None)) ->
  exists d1,
    DiskQueue.PutV2 (backend q) (WriteDelayedTo (setID m0 id) (IsExt q))
    = (d1, (off, wb, dend, None))
    /\ ((backend q' = d1 /\ needFlush q' = 1 /\ SyncEvery q <> 1)
        \/ (backend q' = fst (DiskQueue.Flush d1) /\ needFlush q' = 0
            /\ lastSyncCnt q' = DiskQueue.totalMsgCnt (DiskQueue.diskWriteEnd d1))).
Proof.
  intros Hid. unfold put. cbn [putDecode].
  destruct (putAssignID q m0) as [m q1] eqn:Ea.
  assert (Hq1 : backend q1 = backend q /\ isExt q1 = isExt q /\ SyncEvery q1 = SyncEvery q
                /\ kvStore q1 = kvStore q /\ m = setID m0 (ID m)).
  { unfold putAssignID in Ea. destruct (Z.leb_spec (ID m0) 0); [|lia].
    unfold nextMsgID in Ea. destruct (msgIDCursor q) as [g|];
      [destruct (NextID g) as [i g']|]; injection Ea as <- <-; repeat split. }
  destruct Hq1 as (Hb & He & Hs & Hk & Hm).
  unfold putAppend, writeDelayedMessageToBackendWithCheck.
  destruct (_ && _); [discriminate|].
  replace (IsExt q1) with (IsExt q) by (unfold IsExt; now rewrite He).
  rewrite Hb.
  destruct (DiskQueue.PutV2 (backend q) (WriteDelayedTo m (IsExt q)))
    as [d1 [[[o w] de] er]] eqn:Ep.
  destruct er as [e|]; [discriminate|].
  destruct (putStore _ m de) as [kv [e|]] eqn:Est; [discriminate|].
  intros [= <- <- <- <- <-]. rewrite <- Hm. exists d1. split; [exact Ep|].
  set (q5 := withKV _ kv).
  assert (H6 : backend (putOldest q5 m) = d1 /\ needFlush (putOldest q5 m) = 1
               /\ SyncEvery (putOldest q5 m) = SyncEvery q
               /\ kvStore (putOldest q5 m) = kv).
  { unfold putOldest. destruct (_ =? _); [|subst q5; cbn; auto].
    destruct (Bolt.Get _ _); [destruct (_ || _)|]; subst q5; cbn; auto. }
  destruct H6 as (B6 & F6 & S6 & K6).
  unfold putSync. destruct (SyncEvery (putOldest q5 m) =? 1) eqn:E1; cbn [orb].
  - right. unfold flush. rewrite F6. cbn [Z.eqb Pos.eqb]. cbv zeta.
      cbn [backend withLastSyncCnt withNeedFlush]. rewrite B6.
      destruct (DiskQueue.Flush d1) as [d2 er] eqn:Ef. cbn.
      repeat split.
  - destruct (_ >=? _).
    + right. unfold flush. rewrite F6. cbn [Z.eqb Pos.eqb]. cbv zeta.
        cbn [backend withLastSyncCnt withNeedFlush]. rewrite B6.
        destruct (DiskQueue.Flush d1) as [d2 er] eqn:Ef. cbn.
        repeat split.
    + left. rewrite S6 in E1. apply Z.eqb_neq in E1. auto.
Qed.
(** X22.  The accounting of a put.  After a successful [PutDelayMessage] on
    an engine whose log writer has its ends in range and room for the
    record, the returned offset is the data size before the put, the bytes
    written are the length of the stored record plus 4, the returned end is
    the write end of the log, the data size has grown by the bytes written
    and the message count by one.  With [SyncEvery] at 1 the put has
    already flushed; in any case a flush after the put succeeds, clears
    [needFlush] and takes the read end of the log to the returned end. *)
Theorem put_accounting (q q' : DelayQueue) (m : Message) (id off wb : Z)
  (dend : DiskQueue.diskQueueEndInfo) :
  wfWriter (backend q) ->
  PutDelayMessage q m = (q', (id, off, wb, Some dend, None)) ->
  let n := len (WriteDelayedTo (setID m id) (IsExt q)) + 4 in
  n < 2 ^ 31 -> roomFor (backend q) n ->
  off = TotalDataSize q /\ wb = n
  /\ DiskQueue.GetQueueWriteEnd (backend q') = dend
  /\ TotalDataSize q' = TotalDataSize q + n
  /\ TotalMessageCnt q' = TotalMessageCnt q + 1
  /\ (SyncEvery q = 1 ->
      needFlush q' = 0 /\ DiskQueue.GetQueueReadEnd (backend q') = dend)
  /\ snd (flush q') = None
  /\ needFlush (fst (flush q')) = 0
  /\ DiskQueue.GetQueueReadEnd (backend (fst (flush q'))) = dend
  /\ DiskQueue.GetQueueWriteEnd (backend (fst (flush q'))) = dend
  /\ lastSyncCnt (fst (flush q')) = DiskQueue.TotalMsgCnt dend.
Proof.
  intros Hwf Hput n Hn Hroom. unfold PutDelayMessage in Hput.
  destruct (exitFlag q =? 1); [discriminate|].
  destruct (Z.gtb_spec (ID m) 0) as [|Hid]; [discriminate|].
  destruct (negb (IsValidDelayedMessage m)); [discriminate|].
  destruct (put q m None true 0) as [q1 [[[[i o] w] de] er]] eqn:Ep.
  injection Hput as -> -> -> -> -> ->.
  apply put_backend in Ep as (d1 & Hp & Hcase); [|assumption].
  pose proof Hwf as [(_ & Hv & Ht) _].
  pose proof Hroom as (_ & Rv & Rt & _).
  destruct (PutV2_ok_writer _ _ _ _ _ _ Hwf Hn Hroom Hp)
    as (Hex & -> & -> & Hwe & Hve & Htc & Hns & Hex1 & _).
  fold n in Hve.
  assert (Hfl : DiskQueue.Flush d1 = (DiskQueue.sync d1, None)).
  { unfold DiskQueue.Flush. rewrite Hns.
    destruct (Z.eqb_spec (DiskQueue.exitFlag d1) 1); [congruence|reflexivity]. }
  unfold TotalDataSize, TotalMessageCnt, DiskQueue.GetQueueWriteEnd,
    DiskQueue.GetQueueReadEnd, DiskQueue.Offset, DiskQueue.TotalMsgCnt.
  assert (Hw' : DiskQueue.diskWriteEnd (backend q') = dend).
  { destruct Hcase as [(-> & _)|(-> & _)]; [assumption|now rewrite Hfl]. }
  split; [reflexivity|]. split; [reflexivity|]. split; [exact Hw'|].
  rewrite Hw', Hve, Htc. split; [reflexivity|].
  split; [rewrite !uint64_small by (unfold is_uint64; lia); reflexivity|].
  destruct Hcase as [(Hb & Hf & Hs)|(Hb & Hf & Hl)].
  - split; [intros; contradiction|].
    unfold flush. rewrite Hf. cbn [Z.eqb Pos.eqb]. cbv zeta.
    cbn [backend withLastSyncCnt withNeedFlush]. rewrite Hb, Hfl. cbn.
    rewrite Hwe. repeat split.
    unfold DiskQueue.TotalMsgCnt, DiskQueue.GetQueueWriteEnd. now rewrite Hwe.
  - rewrite Hfl in Hb. cbn [fst] in Hb.
    split; [intros _; split; [assumption|rewrite Hb; cbn; assumption]|].
    unfold flush. rewrite Hf. cbn [Z.eqb fst snd]. rewrite Hb. cbn.
    rewrite Hl, Hwe. repeat split; assumption.
Qed.

(** X23.  The engine's rollback takes the log back and leaves the index
    store alone.  When a put stayed within the write file, on a log whose
    queue start is not beyond its write end, [RollbackNoLock] at the offset
    the put returned and a count of 1 succeeds, the data size and the
    message count are again those before the put and [needFlush] is set,
    yet the message is still stored under its key. *)
Theorem rollback_keeps_index `{!CodecOk C} (q q' : DelayQueue) (m : Message) (id off wb : Z)
  (dend : DiskQueue.diskQueueEndInfo) :
  wfMessage m -> wfWriter (backend q) ->
  PutDelayMessage q m = (q', (id, off, wb, Some dend, None)) ->
  let n := len (WriteDelayedTo (setID m id) (IsExt q)) + 4 in
  let we := DiskQueue.GetQueueWriteEnd (backend q) in
  n < 2 ^ 31 -> roomFor (backend q) n ->
  DiskQueue.virtualEnd (DiskQueue.diskQueueStart (backend q)) <= DiskQueue.virtualEnd we ->
  DiskQueue.totalMsgCnt (DiskQueue.diskQueueStart (backend q)) <= DiskQueue.totalMsgCnt we ->
  DiskQueue.Pos (DiskQueue.EndOffset we) + n < DiskQueue.maxBytesPerFile (backend q) ->
  exists q'',
    RollbackNoLock q' off 1 = (q'', None)
    /\ DiskQueue.GetQueueWriteEnd (backend q'') = we
    /\ TotalDataSize q'' = TotalDataSize q
    /\ TotalMessageCnt q'' = TotalMessageCnt q
    /\ needFlush q'' = 1
    /\ Bolt.Get (msgKeyOf (setID m id)) (delayed_message (kvStore q''))
       = Some (WriteDelayedTo (setID m id) (IsExt q)).
Proof.
  intros Hm Hwf Hput n we Hn Hroom Hsv Hsc Hfit.
  pose proof (put_then_lookup q m q' id off wb _ Hm Hput) as Hlook. cbv zeta in Hlook.
  destruct Hlook as (Hget & _).
  unfold PutDelayMessage in Hput.
  destruct (exitFlag q =? 1); [discriminate|].
  destruct (Z.gtb_spec (ID m) 0) as [|Hid]; [discriminate|].
  destruct (negb (IsValidDelayedMessage m)); [discriminate|].
  destruct (put q m None true 0) as [q1 [[[[i o] w] de] er]] eqn:Ep.
  injection Hput as -> -> -> -> -> ->.
  apply put_backend in Ep as (d1 & Hp & Hcase); [|assumption].
  destruct (PutV2_ok_writer _ _ _ _ _ _ Hwf Hn Hroom Hp)
    as (Hex & Hoff & _ & Hwe & Hve & Htc & Hns & Hex1 & _).
  destruct (put_rollback_round_trip (backend q) _ Hex Hwf Hn Hroom Hsv Hsc
              ltac:(fold n; unfold we, DiskQueue.GetQueueWriteEnd in Hfit; lia)
              d1 off wb dend Hp) as (d2 & Hr & Hw2 & _).
  assert (Hrb : DiskQueue.RollbackWriteV2 (backend q') off 1
                = (d2, (DiskQueue.diskWriteEnd (backend q), None))).
  { destruct Hcase as [(-> & _)|(-> & _)]; [exact Hr|].
    unfold DiskQueue.Flush. rewrite Hns.
    destruct (Z.eqb_spec (DiskQueue.exitFlag d1) 1); [congruence|]. cbn [fst].
    rewrite rollback_after_sync by assumption.
    destruct (_ || _) eqn:E; [|exact Hr].
    unfold DiskQueue.RollbackWriteV2 in Hr. rewrite E in Hr. discriminate. }
  exists (withNeedFlush (withBackend q' d2) 1).
  unfold RollbackNoLock. rewrite Hrb.
  unfold TotalDataSize, TotalMessageCnt, DiskQueue.GetQueueWriteEnd. cbn.
  rewrite Hw2. repeat split. exact Hget.
Qed.

(** The log after a failed [put]: the write end has not moved, or the
    record was appended and the engine holds the writer as [PutV2] left
    it. *)
Lemma put_backend_error q m0 trace cs q' id off wb dend e :
  put q m0 None trace cs = (q', (id, off, wb, dend, Some e)) ->
  let stored := fst (putAssignID q m0) in
  (DiskQueue.diskWriteEnd (backend q') = DiskQueue.diskWriteEnd (backend q))
  \/ exists o w,
       DiskQueue.PutV2 (backend q) (WriteDelayedTo stored (IsExt q))
       = (backend q', (o, w, dend, None)).
Proof.
  unfold put. cbn [putDecode].
  destruct (putAssignID q m0) as [m q1] eqn:Ea. cbn [fst].
  assert (Hq1 : backend q1 = backend q /\ isExt q1 = isExt q).
  { unfold putAssignID in Ea. destruct (ID m0 <=? 0); [|now injection Ea as <- <-].
    unfold nextMsgID in Ea. destruct (msgIDCursor q) as [g|];
      [destruct (NextID g) as [i g']|]; injection Ea as <- <-; repeat split. }
  destruct Hq1 as (Hb & He).
  unfold putAppend, writeDelayedMessageToBackendWithCheck.
  replace (IsExt q1) with (IsExt q) by (unfold IsExt; now rewrite He).
  rewrite Hb.
  destruct (_ && _); [intros [= <- <- <- <- <- <-]; left; reflexivity|].
  destruct (DiskQueue.PutV2 (backend q) (WriteDelayedTo m (IsExt q)))
    as [d1 [[[o w] de] er]] eqn:Ep.
  destruct er as [e'|].
  - intros [= <- <- <- <- <- <-]. left. cbn. revert Ep. unfold DiskQueue.PutV2.
    destruct (DiskQueue.exitFlag (backend q) =? 1); [now intros [= <- _ _ _ _]|].
    unfold DiskQueue.writeOne. cbv zeta.
    destruct (negb false && _);
      [intros [= <- _ _ _ _]; cbn [DiskQueue.setNeedSync DiskQueue.diskWriteEnd];
       apply open_writeEnd|].
    destruct (_ >=? _); discriminate.
  - destruct (putStore _ m de) as [kv [e'|]]; [|discriminate].
    intros [= <- <- <- <- <- <-]. right. exists o, w. reflexivity.
Qed.

(** X24.  A replica put that fails leaves the log where it was.  On an
    engine whose log has its ends in range, with the queue start not beyond
    the write end, the write end past offset 0 and room in the write file
    for the record, whenever
    [PutMessageOnReplica] returns an error the write end of the log, the
    data size and the message count are those before the call: a record
    that was appended before the index store refused the message is taken
    back. *)
Theorem failed_replica_put_restores_log (q q' : DelayQueue) (m : Message)
  (offset checkSize : Z) (e : error) :
  wfWriter (backend q) ->
  let n := len (WriteDelayedTo (fst (putAssignID q m)) (IsExt q)) + 4 in
  let we := DiskQueue.GetQueueWriteEnd (backend q) in
  n < 2 ^ 31 -> roomFor (backend q) n ->
  0 < DiskQueue.virtualEnd we ->
  DiskQueue.virtualEnd (DiskQueue.diskQueueStart (backend q)) <= DiskQueue.virtualEnd we ->
  DiskQueue.totalMsgCnt (DiskQueue.diskQueueStart (backend q)) <= DiskQueue.totalMsgCnt we ->
  DiskQueue.Pos (DiskQueue.EndOffset we) + n < DiskQueue.maxBytesPerFile (backend q) ->
  PutMessageOnReplica q m offset checkSize = (q', Err e) ->
  DiskQueue.GetQueueWriteEnd (backend q') = we
  /\ TotalDataSize q' = TotalDataSize q
  /\ TotalMessageCnt q' = TotalMessageCnt q.
Proof.
  intros Hwf n we Hn Hroom Hpos Hsv Hsc Hfit Hput.
  enough (Hw : DiskQueue.diskWriteEnd (backend q') = DiskQueue.diskWriteEnd (backend q)).
  { unfold TotalDataSize, TotalMessageCnt, we, DiskQueue.GetQueueWriteEnd. now rewrite Hw. }
  unfold we, DiskQueue.GetQueueWriteEnd in *. clear we.
  revert Hput. unfold PutMessageOnReplica.
  destruct (exitFlag q =? 1); [now intros [= <- _]|].
  destruct (negb (_ =? offset)); [now intros [= <- _]|].
  destruct (negb (IsValidDelayedMessage m)); [now intros [= <- _]|].
  destruct (put q m None false checkSize) as [q1 [[[[i o] w] de] er]] eqn:Ep.
  destruct er as [e'|]; [|discriminate]. intros [= <- _].
  apply put_backend_error in Ep. cbv zeta in Ep.
  unfold ResetBackendEndNoLock, DiskQueue.GetQueueWriteEnd, DiskQueue.Offset,
    DiskQueue.TotalMsgCnt.
  destruct Ep as [Hsame|(o' & w' & Hp)].
  - rewrite Hsame, !Z.eqb_refl. cbn [andb fst]. exact Hsame.
  - destruct (PutV2_ok_writer _ _ _ _ _ _ Hwf Hn Hroom Hp)
      as (Hex & _ & _ & Hwe & Hve & Htc & Hns & Hex1 & Hst & Hend).
    fold n in Hve, Hend. specialize (Hend Hfit).
    pose proof Hwf as [(Hp0 & Hv0 & Ht0) Hws].
    pose proof Hroom as (Rp & Rv & Rt & _).
    rewrite Hwe, Hve.
    destruct (Z.eqb_spec (DiskQueue.virtualEnd (DiskQueue.diskWriteEnd (backend q)) + n)
                (DiskQueue.virtualEnd (DiskQueue.diskWriteEnd (backend q)))) as [|_];
      [unfold n in *; pose proof (len_nonneg (WriteDelayedTo (fst (putAssignID q m)) (IsExt q)));
       lia|].
    cbn [andb].
    destruct (DiskQueue.ResetWriteEndV2 (backend q1) _ _) as [d2 [e2 er2]] eqn:Er.
    cbn [fst backend withNeedFlush withBackend].
    assert (Hwf1 : wfWriter (backend q1)).
    { split; [|now rewrite Hst]. rewrite Hwe. unfold wfEnd.
      rewrite Hend, Hve, Htc. cbn. unfold n in *.
      pose proof (len_nonneg (WriteDelayedTo (fst (putAssignID q m)) (IsExt q))). lia. }
    pose proof (reset_write_end (backend q1) _ _ Hwf1 d2 e2 er2 Er) as [_ Hok].
    rewrite Hst, Hwe, Hve, Hend in Hok. cbn [DiskQueue.Pos DiskQueue.FileNum] in Hok.
    unfold n in *.
    pose proof (len_nonneg (WriteDelayedTo (fst (putAssignID q m)) (IsExt q))) as Hl.
    destruct (Hok ltac:(lia) ltac:(lia)) as [_ Hk].
    destruct (Hk ltac:(lia) ltac:(lia)) as (_ & He2 & Hw2 & _).
    rewrite Hw2, He2. apply endInfo_eta; lia.
Qed.

End PutAccounting.

(** * The index lookup *)

Section IndexLookup.
Context {C : Codec} `{!CodecOk C}.

(** X25.  [IsChannelMessageDelayed] answers yes only for a stored message.
    On an engine reached from an empty store by operations that all
    succeeded, when it returns true for an id and a channel shorter than
    65536 bytes, the store holds a message of that channel whose original
    id is the id, as a [uint64], and whose type is [ChannelDelayed] in its
    low 16 bits. *)
Theorem is_delayed_sound (q0 q : DelayQueue) (ops : list Op) (msgID : Z) (ch : bytes) :
  kvStore q0 = emptyKV -> Forall wfOp ops -> runOps q0 ops = Some q ->
  len ch < 65536 ->
  IsChannelMessageDelayed q msgID ch = true ->
  exists k v m,
    Bolt.Get k (delayed_message (kvStore q)) = Some v
    /\ DecodeDelayedMessage v (IsExt q) = Some m
    /\ uint16 (DelayedType m) = ChannelDelayed
    /\ DelayedChannel m = ch
    /\ DelayedOrigID m = uint64 msgID.
Proof.
  intros H0 Hw Hrun Hch Hyes.
  destruct (runOps_rowsInv (IsExt q0) ops q0 q eq_refl) as [He [Hwf Hrows]]; try assumption.
  { rewrite H0. destruct (pairedInv_empty (IsExt q0)) as (? & ? & _). now split. }
  unfold IsChannelMessageDelayed in Hyes.
  destruct (Bolt.Get _ (delayed_message_index (kvStore q))) as [iv|] eqn:Ei; [|discriminate].
  destruct (Hrows _ _ Ei) as (k & v & m & HG & Hd & Hik & _).
  exists k, v, m. rewrite He. split; [assumption|]. split; [assumption|].
  destruct Hwf as (_ & _ & _ & Hent).
  destruct (Hent _ _ HG) as (m' & Hd' & Hk & Hl).
  assert (m' = m) as -> by congruence.
  pose proof (key_channel_short m ltac:(now rewrite <- Hk)) as Hs.
  pose proof (decode_wf _ _ _ Hd) as (_ & _ & _ & _ & _ & Ho).
  apply (f_equal decodeDelayedMsgDBIndexKey) in Hik. unfold indexKeyOf in Hik.
  rewrite !decode_index_key in Hik by assumption.
  injection Hik as E1 E2 E3.
  rewrite (uint64_small _ Ho) in E2.
  assert (E0 : uint16 ChannelDelayed = ChannelDelayed) by reflexivity.
  repeat split; congruence.
Qed.

End IndexLookup.

(** * The oldest keys *)

Section OldestFacts.
Context {C : Codec}.
Variable ext : bool.
Variable kv : KV.
Hypothesis Hwf : storeWf ext kv.

(** The scan from the seek position finds the least stored key under the
    prefix, and nothing when no stored key is under it. *)
Lemma oldestScan_Seek (dt : Z) (ch : bytes) :
  let P := getDelayedMsgDBPrefixKey dt ch in
  let b := delayed_message kv in
  exists found,
    oldestScan P ch (Bolt.Seek P b) = Ok found
    /\ (forall k, found = Some k ->
        exists v, Bolt.Get k b = Some v /\ HasPrefix k P = true)
    /\ (forall k' v', Bolt.Get k' b = Some v' -> HasPrefix k' P = true ->
        exists k, found = Some k /\ bytes_compare k k' <> Gt).
Proof.
  intros P b. pose proof Hwf as (S1 & _ & _ & He). fold b in S1.
  destruct (Seek_suffix P b) as [pre Ep].
  assert (Hin : forall k' v', Bolt.Get k' b = Some v' -> HasPrefix k' P = true ->
                              In (k', v') (Bolt.Seek P b)).
  { intros k' v' HG Hp. apply Seek_In; [exact (proj1 (Get_In _ _ _ S1) HG)|].
    destruct (HasPrefix_inv _ _ Hp) as [r ->]. apply bytes_compare_prefix. }
  destruct (Bolt.Seek P b) as [|[k v] rest] eqn:Es.
  - exists None. split; [reflexivity|]. split; [discriminate|].
    intros k' v' HG Hp. destruct (Hin _ _ HG Hp).
  - assert (HG : Bolt.Get k b = Some v).
    { apply Get_In; [assumption|]. rewrite Ep. apply in_or_app. right. now left. }
    assert (Hs : Bolt.sorted ((k, v) :: rest)).
    { rewrite Ep in S1. now apply sorted_app_r in S1. }
    apply sorted_cons_inv in Hs as [_ Hb]. unfold below in Hb. rewrite Forall_forall in Hb.
    pose proof (Seek_head _ _ _ _ _ Es) as Hge.
    cbn [oldestScan]. destruct (HasPrefix k P) eqn:Hp; cbn [negb].
    + destruct (stored_prefix_decode ext kv k v dt ch He HG Hp) as (m & _ & _ & _ & _ & Hd).
      rewrite Hd, bytes_eqb_refl. cbn [negb].
      exists (Some k). split; [reflexivity|]. split.
      * intros k0 [= <-]. exists v. auto.
      * intros k' v' HG' Hp'. exists k. split; [reflexivity|].
        destruct (Hin _ _ HG' Hp') as [[= <- <-]|Hr].
        -- rewrite bytes_compare_refl. discriminate.
        -- specialize (Hb _ Hr). cbn [fst] in Hb. unfold bytes_lt in Hb.
           rewrite Hb. discriminate.
    + exists None. split; [reflexivity|]. split; [discriminate|].
      intros k' v' HG' Hp'. exfalso.
      destruct (Hin _ _ HG' Hp') as [[= <- <-]|Hr]; [congruence|].
      specialize (Hb _ Hr). cbn [fst] in Hb.
      destruct (HasPrefix_inv _ _ Hp') as [r Hr'].
      rewrite (HasPrefix_between P k r) in Hp; [discriminate|assumption|].
      now rewrite <- Hr'.
Qed.

(** The key list over a list of types and channels. *)
Lemma oldestKeys_spec (targets : list (Z * bytes)) :
  let b := delayed_message kv in
  let P := getDelayedMsgDBPrefixKey in
  exists ks,
    oldestKeys b (map (fun t => (P (fst t) (snd t), snd t)) targets) = Ok ks
    /\ (forall k, In k ks ->
        exists dt ch v,
          In (dt, ch) targets /\ Bolt.Get k b = Some v /\ HasPrefix k (P dt ch) = true
          /\ forall k' v', Bolt.Get k' b = Some v' -> HasPrefix k' (P dt ch) = true ->
                           bytes_compare k k' <> Gt)
    /\ (forall dt ch k' v',
          In (dt, ch) targets -> Bolt.Get k' b = Some v' -> HasPrefix k' (P dt ch) = true ->
          exists k, In k ks /\ HasPrefix k (P dt ch) = true /\ bytes_compare k k' <> Gt).
Proof.
  intros b P. induction targets as [|[dt ch] targets (ks & E & H1 & H2)]; cbn [map oldestKeys].
  - exists []. split; [reflexivity|]. split; [intros k []|intros dt ch k' v' []].
  - cbn [fst snd]. destruct (oldestScan_Seek dt ch) as (found & Ef & F1 & F2).
    fold b in Ef, F1, F2. fold (P dt ch) in Ef, F1, F2. rewrite Ef, E.
    eexists. split; [reflexivity|]. split.
    + intros k Hk.
      assert (Hcase : found = Some k \/ In k ks)
        by (destruct found; [destruct Hk as [<-|]|]; auto).
      destruct Hcase as [->|Hk'].
      * destruct (F1 k eq_refl) as (v & HG & Hp). exists dt, ch, v.
        split; [now left|]. split; [assumption|]. split; [assumption|].
        intros k' v' HG' Hp'. destruct (F2 _ _ HG' Hp') as (k0 & [= <-] & Hle). exact Hle.
      * destruct (H1 k Hk') as (dt' & ch' & v & Hin & Hrest).
        exists dt', ch', v. split; [now right|exact Hrest].
    + intros dt' ch' k' v' [[= <- <-]|Hin] HG Hp.
      * destruct (F2 _ _ HG Hp) as (k & -> & Hle). exists k.
        split; [now left|]. split; [|assumption].
        destruct (F1 k eq_refl) as (v & _ & Hpk). exact Hpk.
      * destruct (H2 _ _ _ _ Hin HG Hp) as (k & Hk & Hrest). exists k.
        split; [|exact Hrest]. destruct found; [now right|assumption].
Qed.

End OldestFacts.

Section OldestState.
Context {C : Codec}.

(** The counters of a list of types. *)
Lemma otherCounts_spec (q : DelayQueue) (types : list Z) :
  countersOk (kvStore q) ->
  otherCounts q types = Ok (map (fun t => (t, keyCount (kvStore q) t [])) types).
Proof.
  intros Hc. induction types as [|t types IH]; cbn [otherCounts map]; [reflexivity|].
  now rewrite (GetCurrentDelayedCnt_counter q t [] Hc), IH.
Qed.

(** The counters of a list of channels. *)
Lemma channelCounts_spec (q : DelayQueue) (chList : list bytes) :
  countersOk (kvStore q) ->
  forall acc,
    exists m,
      channelCounts q chList acc = Ok m
      /\ (forall ch, In ch chList ->
          Bolt.Get ch m = Some (keyCount (kvStore q) ChannelDelayed ch))
      /\ (forall ch, ~ In ch chList -> Bolt.Get ch m = Bolt.Get ch acc).
Proof.
  intros Hc. induction chList as [|c chList IH]; intros acc; cbn [channelCounts].
  - exists acc. split; [reflexivity|]. split; [intros ch []|reflexivity].
  - rewrite (GetCurrentDelayedCnt_counter q ChannelDelayed c Hc).
    destruct (IH (Bolt.insert c (keyCount (kvStore q) ChannelDelayed c) acc))
      as (m & E & H1 & H2).
    exists m. split; [exact E|]. split.
    + intros ch [<-|Hin]; [|now apply H1].
      destruct (in_dec (list_eq_dec Byte.byte_eq_dec) c chList) as [Hi|Hi]; [now apply H1|].
      rewrite (H2 _ Hi). apply Get_insert_same.
    + intros ch Hn. rewrite H2 by (intros Hi; apply Hn; now right).
      apply Get_insert_other. intros ->. apply Hn. now left.
Qed.

(** [GetOldestConsumedState] on a well-formed store with sound counters. *)
Lemma GetOldestConsumedState_spec (q : DelayQueue) (chList : list bytes)
  (includeOthers : bool) :
  storeWf (IsExt q) (kvStore q) -> countersOk (kvStore q) ->
  let b := delayed_message (kvStore q) in
  let P := getDelayedMsgDBPrefixKey in
  let targets := consumedTargets chList includeOthers in
  exists keyList channelCntList,
    GetOldestConsumedState q chList includeOthers
    = Ok (keyList,
          map (fun t => (t, keyCount (kvStore q) t []))
            (if includeOthers then [PubDelayed; TransactionDelayed] else []),
          channelCntList)
    /\ (forall k, In k keyList ->
        exists dt ch v,
          In (dt, ch) targets /\ Bolt.Get k b = Some v /\ HasPrefix k (P dt ch) = true
          /\ forall k' v', Bolt.Get k' b = Some v' -> HasPrefix k' (P dt ch) = true ->
                           bytes_compare k k' <> Gt)
    /\ (forall dt ch k' v',
          In (dt, ch) targets -> Bolt.Get k' b = Some v' -> HasPrefix k' (P dt ch) = true ->
          exists k, In k keyList /\ HasPrefix k (P dt ch) = true /\ bytes_compare k k' <> Gt)
    /\ (forall ch, In ch chList ->
        Bolt.Get ch channelCntList = Some (keyCount (kvStore q) ChannelDelayed ch))
    /\ (forall ch cnt, Bolt.Get ch channelCntList = Some cnt ->
        cnt = keyCount (kvStore q) ChannelDelayed ch).
Proof.
  intros Hwf Hc b P targets. unfold GetOldestConsumedState.
  rewrite (otherCounts_spec q _ Hc).
  destruct (channelCounts_spec q chList Hc []) as (m & Em & M1 & M2). rewrite Em.
  destruct (oldestKeys_spec (IsExt q) (kvStore q) Hwf targets) as (ks & Ek & K1 & K2).
  assert (Hpl :
    map (fun t => (getDelayedMsgDBPrefixKey t [], []))
      (if includeOthers then otherTypes else [])
    ++ map (fun ch => (getDelayedMsgDBPrefixKey ChannelDelayed ch, ch)) chList
    = map (fun t => (getDelayedMsgDBPrefixKey (fst t) (snd t), snd t)) targets).
  { unfold targets, consumedTargets. rewrite map_app, map_map. cbn [fst snd].
    destruct includeOthers; reflexivity. }
  cbv zeta. rewrite Hpl, Ek.
  exists ks, m. split; [destruct includeOthers; reflexivity|].
  split; [exact K1|]. split; [exact K2|]. split; [exact M1|].
  intros ch cnt HG.
  destruct (in_dec (list_eq_dec Byte.byte_eq_dec) ch chList) as [Hi|Hi].
  - rewrite (M1 _ Hi) in HG. now injection HG.
  - rewrite (M2 _ Hi) in HG. discriminate.
Qed.

(** X26.  [GetOldestConsumedState] on a well-formed store with sound
    counters returns, for each type and channel it is asked about, the least
    stored key under the prefix of that type and channel, and nothing for a
    prefix without keys: every key returned is stored under the prefix of
    one of them and no stored key under that prefix is smaller, and every
    prefix with a stored key has its least key in the list.  The channel
    counters map each channel of the list to its number of stored keys, the
    other counters list the publish and transaction types with theirs. *)
Theorem oldest_consumed_state (q : DelayQueue) (chList : list bytes) (includeOthers : bool) :
  storeWf (IsExt q) (kvStore q) -> countersOk (kvStore q) ->
  let b := delayed_message (kvStore q) in
  let P := getDelayedMsgDBPrefixKey in
  let targets := consumedTargets chList includeOthers in
  exists keyList cntList channelCntList,
    GetOldestConsumedState q chList includeOthers = Ok (keyList, cntList, channelCntList)
    /\ (forall k, In k keyList ->
        exists dt ch v,
          In (dt, ch) targets /\ Bolt.Get k b = Some v /\ HasPrefix k (P dt ch) = true
          /\ forall k' v', Bolt.Get k' b = Some v' -> HasPrefix k' (P dt ch) = true ->
                           bytes_compare k k' <> Gt)
    /\ (forall dt ch k' v',
          In (dt, ch) targets -> Bolt.Get k' b = Some v' -> HasPrefix k' (P dt ch) = true ->
          exists k, In k keyList /\ HasPrefix k (P dt ch) = true /\ bytes_compare k k' <> Gt)
    /\ (forall ch, In ch chList ->
        Bolt.Get ch channelCntList = Some (keyCount (kvStore q) ChannelDelayed ch))
    /\ cntList
       = map (fun t => (t, keyCount (kvStore q) t []))
           (if includeOthers then [PubDelayed; TransactionDelayed] else []).
Proof.
  intros Hwf Hc b P targets.
  destruct (GetOldestConsumedState_spec q chList includeOthers Hwf Hc)
    as (ks & m & E & K1 & K2 & M1 & _).
  exists ks, (map (fun t => (t, keyCount (kvStore q) t []))
                (if includeOthers then [PubDelayed; TransactionDelayed] else [])), m.
  split; [exact E|]. split; [exact K1|]. split; [exact K2|]. split; [exact M1|reflexivity].
Qed.

End OldestState.

(** * The consumed state, taken and applied *)

Lemma prefix_uint16 (dt : Z) (ch : bytes) :
  getDelayedMsgDBPrefixKey (uint16 dt) ch = getDelayedMsgDBPrefixKey dt ch.
Proof. unfold getDelayedMsgDBPrefixKey. now rewrite uint16_idem. Qed.

(** A counter of zero: no stored key under the prefix. *)
Lemma keyCount_zero (kv : KV) (dt : Z) (ch : bytes) :
  Bolt.sorted (delayed_message kv) -> keyCount kv dt ch = 0 ->
  forall k v, Bolt.Get k (delayed_message kv) = Some v ->
              HasPrefix k (getDelayedMsgDBPrefixKey dt ch) = false.
Proof.
  intros Hs Hz k v HG. apply Get_In in HG; [|assumption].
  unfold keyCount, countKeys in Hz.
  destruct (HasPrefix k _) eqn:Hp; [exfalso|reflexivity].
  assert (Hin : In k (filter (fun k => HasPrefix k (getDelayedMsgDBPrefixKey dt ch))
                        (Bolt.keys (delayed_message kv)))).
  { apply filter_In. split; [|assumption]. unfold Bolt.keys.
    change k with (fst (k, v)). now apply in_map. }
  destruct (filter _ _); [contradiction|]. cbn [length] in Hz. lia.
Qed.

Section NothingToEmpty.
Context {C : Codec}.

(** [emptyDelayedUntil] when no stored key is due. *)
Lemma emptyDelayedUntil_noop (q : DelayQueue) (dt peekTs id : Z) (ch : bytes) :
  storeWf (IsExt q) (kvStore q) ->
  (forall k v, Bolt.Get k (delayed_message (kvStore q)) = Some v ->
               dueKey dt peekTs id ch k = false) ->
  exists q',
    emptyDelayedUntil (passBound q) q dt peekTs id ch = Some (q', None)
    /\ sameMessages (kvStore q) q q'.
Proof.
  intros Hwf Hnone.
  destruct (emptyUntilLoop_exact (IsExt q) dt peekTs id ch (passBound q) (kvStore q) Hwf
              ltac:(unfold passBound; lia)) as (kv' & El & Hwf' & Hframe & Hsub & _).
  unfold emptyDelayedUntil. rewrite El.
  assert (Hres : forall q1, kvStore q1 = kv' -> IsExt q1 = IsExt q ->
                            sameMessages (kvStore q) q q1).
  { intros q1 Hk He. split; [assumption|]. rewrite Hk. split; [assumption|].
    intros k. destruct (dueKey dt peekTs id ch k) eqn:Hd; [|now apply Hframe].
    destruct (Bolt.Get k (delayed_message kv')) as [v|] eqn:HG.
    - apply Hsub in HG. rewrite (Hnone _ _ HG) in Hd. discriminate.
    - destruct (Bolt.Get k (delayed_message (kvStore q))) as [v|] eqn:HG0; [|reflexivity].
      rewrite (Hnone _ _ HG0) in Hd. discriminate. }
  destruct ((dt =? ChannelDelayed) && negb (isEmpty ch));
    eexists; (split; [reflexivity|]); apply Hres; reflexivity.
Qed.

(** [emptyAllDelayedType] when no stored key is under the prefix. *)
Lemma emptyAll_noop (q : DelayQueue) (now dt : Z) (ch : bytes) :
  storeWf (IsExt q) (kvStore q) ->
  (forall k v, Bolt.Get k (delayed_message (kvStore q)) = Some v ->
               HasPrefix k (getDelayedMsgDBPrefixKey dt ch) = false) ->
  exists q',
    emptyAllDelayedType (passBound q) now q dt ch = Some (q', None)
    /\ sameMessages (kvStore q) q q'.
Proof.
  intros Hwf Hnone.
  destruct (emptyAllLoop_exact (IsExt q) dt ch (passBound q) (kvStore q) Hwf
              ltac:(unfold passBound; lia)) as (kv' & El & Hwf' & Hframe & Hdone).
  unfold emptyAllDelayedType. rewrite El.
  assert (Hres : forall q1, kvStore q1 = kv' -> IsExt q1 = IsExt q ->
                            sameMessages (kvStore q) q q1).
  { intros q1 Hk He. split; [assumption|]. rewrite Hk. split; [assumption|].
    intros k. destruct (HasPrefix k (getDelayedMsgDBPrefixKey dt ch)) eqn:Hp;
      [|now apply Hframe].
    destruct (Bolt.Get k (delayed_message kv')) as [v|] eqn:HG.
    - apply Hdone in HG. congruence.
    - destruct (Bolt.Get k (delayed_message (kvStore q))) as [v|] eqn:HG0; [|reflexivity].
      rewrite (Hnone _ _ HG0) in Hp. discriminate. }
  destruct ((dt =? ChannelDelayed) && negb (isEmpty ch));
    eexists; (split; [reflexivity|]); apply Hres; reflexivity.
Qed.

End NothingToEmpty.
Section ConsumedRoundTrip.
Context {C : Codec}.
Variable q0 : DelayQueue.
Hypothesis Hwf0 : storeWf (IsExt q0) (kvStore q0).

Lemma sameMessages_step (q' q'' : DelayQueue) :
  sameMessages (kvStore q0) q0 q' -> sameMessages (kvStore q') q' q'' -> sameMessages (kvStore q0) q0 q''.
Proof.
  intros (E1 & W1 & G1) (E2 & W2 & G2). unfold sameMessages.
  split; [congruence|]. split; [now rewrite <- E1|].
  intros k. now rewrite G2.
Qed.

(** Emptying up to the least key of a prefix deletes nothing. *)
Lemma updateKeys_noop (keyList : list bytes) :
  forall q', sameMessages (kvStore q0) q0 q' -> (forall k, In k keyList -> leastKey (kvStore q0) k) ->
    exists q'', updateKeys q' keyList = Some (Ok q'') /\ sameMessages (kvStore q0) q0 q''.
Proof.
  induction keyList as [|k keyList IH]; intros q' HJ Hleast; cbn [updateKeys].
  - exists q'. auto.
  - destruct (Hleast k (or_introl eq_refl)) as (dt & ch & v & HG0 & Hp & Hnn & Hmin).
    pose proof HJ as (E1 & W1 & G1). pose proof W1 as (S1 & _ & _ & He1).
    assert (HG : Bolt.Get k (delayed_message (kvStore q')) = Some v) by now rewrite G1.
    destruct (stored_prefix_decode (IsExt q0) (kvStore q') k v dt ch He1 HG Hp)
      as (m & Hk & Hc & Hch & Ht & Hd).
    rewrite Hd.
    assert (Hpre : getDelayedMsgDBPrefixKey (uint16 (DelayedType m)) ch
                   = getDelayedMsgDBPrefixKey dt ch).
    { now rewrite prefix_uint16, <- (prefix_uint16 dt), <- Ht, prefix_uint16. }
    assert (Hself : dueKey (uint16 (DelayedType m)) (int64 (DelayedTs m)) (uint64 (ID m)) ch k
                    = false).
    { unfold dueKey. rewrite Hd, !Z.ltb_irrefl. cbn [orb].
      now rewrite andb_false_r, andb_false_l, andb_false_r. }
    destruct (emptyDelayedUntil_noop q' (uint16 (DelayedType m)) (int64 (DelayedTs m))
                (uint64 (ID m)) ch) as (q'' & Ee & Hsame).
    { now rewrite E1. }
    { apply (head_not_due (IsExt q0)); [assumption| |].
      - rewrite Hpre. intros k1 v1 t ts i c HG1 Hp1 Hd1.
        rewrite G1 in HG1. exact (Hnn _ _ _ _ _ _ HG1 Hp1 Hd1).
      - rewrite Hpre. intros k1 v1 rest Es.
        enough (k1 = k) by (subst k1; exact Hself).
        set (P := getDelayedMsgDBPrefixKey dt ch) in *.
        destruct (Seek_suffix P (delayed_message (kvStore q'))) as [pre Ep].
        pose proof (Seek_head _ _ _ _ _ Es) as Hge.
        assert (Hs : Bolt.sorted ((k1, v1) :: rest)).
        { rewrite Es in Ep. rewrite Ep in S1. now apply sorted_app_r in S1. }
        apply sorted_cons_inv in Hs as [_ Hb]. unfold below in Hb.
        rewrite Forall_forall in Hb.
        assert (HG1 : Bolt.Get k1 (delayed_message (kvStore q')) = Some v1).
        { apply Get_In; [assumption|]. rewrite Ep, Es. apply in_or_app. right. now left. }
        destruct (HasPrefix_inv _ _ Hp) as [r Hr].
        assert (Hin : In (k, v) (Bolt.Seek P (delayed_message (kvStore q')))).
        { apply Seek_In; [exact (proj1 (Get_In _ _ _ S1) HG)|].
          rewrite Hr. apply bytes_compare_prefix. }
        rewrite Es in Hin. destruct Hin as [[= -> _]|Hin]; [reflexivity|exfalso].
        specialize (Hb _ Hin). cbn [fst] in Hb.
        assert (Hp1 : HasPrefix k1 P = true).
        { apply (HasPrefix_between P k1 r); [assumption|]. now rewrite <- Hr. }
        rewrite G1 in HG1. apply (Hmin _ _ HG1 Hp1).
        rewrite bytes_compare_antisym. unfold bytes_lt in Hb. now rewrite Hb. }
    rewrite Ee. cbn [afterEmpty].
    apply IH; [exact (sameMessages_step _ _ HJ Hsame)|].
    intros k' Hk'. apply Hleast. now right.
Qed.

(** Emptying a type whose counter is zero deletes nothing. *)
Lemma updateTypes_noop (cntList : list (Z * Z * Z)) :
  forall q', sameMessages (kvStore q0) q0 q' ->
    (forall dt cnt now, In (dt, cnt, now) cntList -> cnt = keyCount (kvStore q0) dt []) ->
    exists q'', updateTypes q' cntList = Some (Ok q'') /\ sameMessages (kvStore q0) q0 q''.
Proof.
  induction cntList as [|[[dt cnt] now] cntList IH]; intros q' HJ Hcnt; cbn [updateTypes].
  - exists q'. auto.
  - assert (Hrest : forall dt cnt now, In (dt, cnt, now) cntList ->
                                       cnt = keyCount (kvStore q0) dt [])
      by (intros; eapply Hcnt; right; eassumption).
    destruct ((cnt =? 0) && negb (dt =? ChannelDelayed)) eqn:E; [|now apply IH].
    apply andb_true_iff in E as [E _]. apply Z.eqb_eq in E.
    pose proof HJ as (E1 & W1 & G1).
    destruct (emptyAll_noop q' now dt []) as (q'' & Ee & Hsame).
    { now rewrite E1. }
    { intros k v HG. rewrite G1 in HG.
      apply (keyCount_zero (kvStore q0) dt [] (proj1 Hwf0)) with (v := v); [|assumption].
      rewrite <- (Hcnt dt cnt now (or_introl eq_refl)). exact E. }
    unfold EmptyDelayedType. rewrite Ee. cbn [afterEmpty].
    apply IH; [exact (sameMessages_step _ _ HJ Hsame)|assumption].
Qed.

(** Emptying a channel whose counter is zero deletes nothing. *)
Lemma updateChannels_noop (channelCntList : list (bytes * Z * Z)) :
  forall q', sameMessages (kvStore q0) q0 q' ->
    (forall ch cnt now, In (ch, cnt, now) channelCntList ->
                        cnt = keyCount (kvStore q0) ChannelDelayed ch) ->
    exists q'', updateChannels q' channelCntList = Some (Ok q'') /\ sameMessages (kvStore q0) q0 q''.
Proof.
  induction channelCntList as [|[[ch cnt] now] channelCntList IH]; intros q' HJ Hcnt;
    cbn [updateChannels].
  - exists q'. auto.
  - assert (Hrest : forall ch cnt now, In (ch, cnt, now) channelCntList ->
                                       cnt = keyCount (kvStore q0) ChannelDelayed ch)
      by (intros; eapply Hcnt; right; eassumption).
    destruct (Z.eqb_spec cnt 0) as [E|_]; [|now apply IH].
    unfold EmptyDelayedChannel. destruct (isEmpty ch); [cbn [afterEmpty]; now apply IH|].
    pose proof HJ as (E1 & W1 & G1).
    destruct (emptyAll_noop q' now ChannelDelayed ch) as (q'' & Ee & Hsame).
    { now rewrite E1. }
    { intros k v HG. rewrite G1 in HG.
      apply (keyCount_zero (kvStore q0) ChannelDelayed ch (proj1 Hwf0)) with (v := v);
        [|assumption].
      rewrite <- (Hcnt ch cnt now (or_introl eq_refl)). exact E. }
    rewrite Ee. cbn [afterEmpty].
    apply IH; [exact (sameMessages_step _ _ HJ Hsame)|assumption].
Qed.

End ConsumedRoundTrip.

Section ConsumedState.
Context {C : Codec}.

(** X27.  Applying the consumed state of a store to an engine with that
    store deletes nothing.  On a well-formed store with sound counters and
    no negative delivery time under the prefixes asked about, when
    [GetOldestConsumedState] returns a key list and the two counter maps,
    [UpdateConsumedState] on these, with the entries of the maps visited in
    any order, runs to its end and leaves under every key of the message
    bucket what was there before. *)
Theorem consumed_state_round_trip (q : DelayQueue) (chList : list bytes)
  (includeOthers : bool) (keyList : list bytes) (cntList : list (Z * Z))
  (channelCntList : ChannelMap) :
  storeWf (IsExt q) (kvStore q) -> countersOk (kvStore q) ->
  (forall dt ch, In (dt, ch) (consumedTargets chList includeOthers) ->
                 tsNonneg dt ch (kvStore q)) ->
  GetOldestConsumedState q chList includeOthers = Ok (keyList, cntList, channelCntList) ->
  forall (cntOrder : list (Z * Z * Z)) (channelOrder : list (bytes * Z * Z)),
    (forall dt cnt now, In (dt, cnt, now) cntOrder -> In (dt, cnt) cntList) ->
    (forall ch cnt now, In (ch, cnt, now) channelOrder ->
                        Bolt.Get ch channelCntList = Some cnt) ->
    exists q',
      UpdateConsumedState q keyList cntOrder channelOrder = Some (Ok q')
      /\ forall k, Bolt.Get k (delayed_message (kvStore q'))
                   = Bolt.Get k (delayed_message (kvStore q)).
Proof.
  intros Hwf Hc Hnn Hget cntOrder channelOrder Hco Hcho.
  destruct (GetOldestConsumedState_spec q chList includeOthers Hwf Hc)
    as (ks & m & E & K1 & _ & _ & M2).
  rewrite E in Hget. injection Hget as <- <- <-.
  assert (J0 : sameMessages (kvStore q) q q) by (repeat split; apply Hwf).
  destruct (updateKeys_noop q ks q J0) as (q1 & E1 & J1).
  { intros k Hk. destruct (K1 k Hk) as (dt & ch & v & Hin & HG & Hp & Hmin).
    exists dt, ch, v. repeat split; auto. }
  destruct (updateTypes_noop q Hwf cntOrder q1 J1) as (q2 & E2 & J2).
  { intros dt cnt now Hin. apply Hco in Hin. apply in_map_iff in Hin as (t & [= <- <-] & _).
    reflexivity. }
  destruct (updateChannels_noop q Hwf channelOrder q2 J2) as (q3 & E3 & J3).
  { intros ch cnt now Hin. apply (M2 ch cnt). exact (Hcho _ _ _ Hin). }
  exists q3. unfold UpdateConsumedState. rewrite E1, E2, E3.
  split; [reflexivity|]. apply J3.
Qed.

End ConsumedState.

(** * Ids and the end of a writer *)

Section PutIds.
Context {C : Codec}.

(** The id counter after [put], whatever its outcome. *)
Lemma put_ids q m0 trace cs q' id off wb dend err :
  msgIDCursor q = None -> ID m0 <= 0 ->
  put q m0 None trace cs = (q', (id, off, wb, dend, err)) ->
  id = uint64 (defaultIDSeq q + 1) /\ defaultIDSeq q' = id /\ msgIDCursor q' = None.
Proof.
  intros Hg Hid. unfold put. cbn [putDecode].
  unfold putAssignID. destruct (Z.leb_spec (ID m0) 0) as [_|]; [|lia].
  unfold nextMsgID. rewrite Hg. cbv zeta. unfold MessageID. rewrite uint64_idem.
  set (i := uint64 (defaultIDSeq q + 1)).
  set (q1 := withIDs q None i).
  unfold putAppend, writeDelayedMessageToBackendWithCheck.
  destruct (_ && _); [intros [= <- <- <- <- <- <-]; repeat split|].
  destruct (DiskQueue.PutV2 _ _) as [d1 [[[o w] de] er]].
  destruct er as [e|]; [intros [= <- <- <- <- <- <-]; repeat split|].
  destruct (putStore _ _ de) as [kv [e|]]; [intros [= <- <- <- <- <- <-]; repeat split|].
  intros [= <- <- <- <- <- <-]. split; [reflexivity|].
  set (q5 := withKV _ kv).
  assert (H6 : defaultIDSeq (putOldest q5 (setID m0 i)) = i
               /\ msgIDCursor (putOldest q5 (setID m0 i)) = None).
  { unfold putOldest. destruct (_ =? _); [|subst q5; cbn; auto].
    destruct (Bolt.Get _ _); [destruct (_ || _)|]; subst q5; cbn; auto. }
  unfold putSync. destruct (_ || _); [|exact H6].
  unfold flush. destruct (needFlush _ =? 1); [|exact H6].
  destruct (DiskQueue.Flush _). exact H6.
Qed.

(** X28.  The ids of an engine without an injected generator come in
    sequence.  A [PutDelayMessage] that gets past its three checks returns
    the id one after the last one handed out, as a [uint64], and that id
    is then the last one handed out, whether the put succeeded or not: a
    put that fails while writing uses its id up. *)
Theorem put_id_sequence (q : DelayQueue) (m : Message) (q' : DelayQueue) (id off wb : Z)
  (dend : option DiskQueue.diskQueueEndInfo) (err : option error) :
  msgIDCursor q = None -> exitFlag q <> 1 -> ID m <= 0 -> IsValidDelayedMessage m = true ->
  PutDelayMessage q m = (q', (id, off, wb, dend, err)) ->
  id = uint64 (defaultIDSeq q + 1) /\ defaultIDSeq q' = id /\ msgIDCursor q' = None.
Proof.
  intros Hg Hex Hid Hv. unfold PutDelayMessage.
  destruct (Z.eqb_spec (exitFlag q) 1); [contradiction|].
  destruct (Z.gtb_spec (ID m) 0); [lia|].
  rewrite Hv. cbn [negb].
  destruct (put q m None true 0) as [q1 [[[[i o] w] de] er]] eqn:Ep.
  intros [= <- <- <- <- <- <-]. exact (put_ids _ _ _ _ _ _ _ _ _ _ Hg Hid Ep).
Qed.

End PutIds.

Ltac writer_fields :=
  cbn [DiskQueue.diskWriteEnd DiskQueue.diskReadEnd DiskQueue.diskQueueStart
       DiskQueue.maxBytesPerFile DiskQueue.minMsgSize DiskQueue.maxMsgSize
       DiskQueue.exitFlag DiskQueue.needSync DiskQueue.dataFiles
       DiskQueue.sync DiskQueue.setExitFlag DiskQueue.setNeedSync DiskQueue.setEnds
       DiskQueue.setFiles fst snd].

(** The exit flag plays no part in a rollback or a reset. *)
Lemma rollback_closed (d : DiskQueue.diskQueueWriter) (offset n : Z) :
  snd (DiskQueue.RollbackWriteV2 (DiskQueue.sync (DiskQueue.setExitFlag d 1)) offset n)
  = snd (DiskQueue.RollbackWriteV2 (DiskQueue.sync d) offset n).
Proof.
  unfold DiskQueue.RollbackWriteV2. writer_fields.
  destruct (_ || _); [reflexivity|]. cbv zeta. writer_fields.
  destruct (_ >? _); [reflexivity|]. destruct (_ <? _); [reflexivity|].
  unfold DiskQueue.truncateDiskQueueToWriteEnd. cbv zeta. writer_fields. reflexivity.
Qed.

Lemma reset_closed (d : DiskQueue.diskQueueWriter) (offset n : Z) :
  snd (DiskQueue.ResetWriteEndV2 (DiskQueue.sync (DiskQueue.setExitFlag d 1)) offset n)
  = snd (DiskQueue.ResetWriteEndV2 (DiskQueue.sync d) offset n).
Proof.
  unfold DiskQueue.ResetWriteEndV2. writer_fields.
  destruct (_ || _); [reflexivity|]. destruct (_ >? _); [reflexivity|].
  cbv zeta. writer_fields.
  destruct (_ =? _).
  - unfold DiskQueue.truncateDiskQueueToWriteEnd. cbv zeta. writer_fields. reflexivity.
  - destruct (DiskQueue.resetWalk _ _ _ _ _ _) as [[[newEnd fileNum] writePos]|e];
      [|reflexivity].
    unfold DiskQueue.truncateDiskQueueToWriteEnd. cbv zeta. writer_fields. reflexivity.
Qed.

(** X29.  [Close] ends a writer for appends only.  It returns no error,
    sets the read end to the write end and clears [needSync].  Afterwards
    [PutV2], [PutRawV2], [Flush] and [Empty] return the error of an exiting
    writer and change nothing, while [RollbackWriteV2] and
    [ResetWriteEndV2] do not look at the exit flag: they return the end and
    the error they return on the writer that [sync] leaves. *)
Theorem writer_close_final (d : DiskQueue.diskQueueWriter) :
  let d' := fst (DiskQueue.Close d) in
  snd (DiskQueue.Close d) = None
  /\ DiskQueue.diskWriteEnd d' = DiskQueue.diskWriteEnd d
  /\ DiskQueue.diskReadEnd d' = DiskQueue.diskWriteEnd d
  /\ DiskQueue.needSync d' = false
  /\ (forall data,
        DiskQueue.PutV2 d' data = (d', (0, 0, DiskQueue.zeroEndInfo, Some errExitingNew)))
  /\ (forall data n,
        DiskQueue.PutRawV2 d' data n
        = (d', (0, 0, DiskQueue.zeroEndInfo, Some errExitingNew)))
  /\ DiskQueue.Flush d' = (d', Some errExitingNew)
  /\ DiskQueue.Empty d' = (d', Some errExitingNew)
  /\ (forall offset n,
        snd (DiskQueue.RollbackWriteV2 d' offset n)
        = snd (DiskQueue.RollbackWriteV2 (DiskQueue.sync d) offset n))
  /\ (forall offset n,
        snd (DiskQueue.ResetWriteEndV2 d' offset n)
        = snd (DiskQueue.ResetWriteEndV2 (DiskQueue.sync d) offset n)).
Proof.
  cbv zeta. unfold DiskQueue.Close, DiskQueue.exit. cbn [fst snd].
  split; [reflexivity|]. split; [reflexivity|]. split; [reflexivity|].
  split; [reflexivity|]. split; [reflexivity|]. split; [reflexivity|].
  split; [reflexivity|]. split; [reflexivity|].
  split; [apply rollback_closed|apply reset_closed].
Qed.

(** * The statements on concrete engines *)

Import PlainCodec PlainCodecFacts.

Ltac wf_message :=
  first [exact I
        | unfold wfOp, wfMessage, is_uint64, is_int64, is_int32; cbn;
          unfold ChannelDelayed; lia].

Ltac wf_ops := repeat (apply Forall_cons; [wf_message|]); apply Forall_nil.

(** The counter of channel c after two puts. *)
Lemma counter_consistency_witness :
  GetCurrentDelayedCnt afterTwoPuts ChannelDelayed chanC
  = Ok (keyCount (kvStore afterTwoPuts) ChannelDelayed chanC).
Proof.
  apply (counter_consistency exampleQueue twoPuts afterTwoPuts).
  - reflexivity.
  - unfold twoPuts. wf_ops.
  - vm_compute. reflexivity.
  - vm_compute. reflexivity.
Defined.

(** On an engine that is exiting, a replica put at offset 150 against a
    log that ends at 100 returns [ErrExiting]. *)
Lemma replica_offset_mismatch_exiting :
  offsetOf exitingQueue = 100
  /\ PutRawDataOnReplica exitingQueue None 150 0 1 = (exitingQueue, Err ErrExiting)
  /\ PutMessageOnReplica exitingQueue msgOne 150 0 = (exitingQueue, Err ErrExiting)
  /\ snd (PutMessageOnReplica exitingQueue msgOne 150 0) <> Err ErrWriteOffsetMismatch.
Proof. repeat split. discriminate. Qed.

(** The follower at offset 100 turns away a put at offset 150. *)
Lemma replica_offset_mismatch_witness :
  PutRawDataOnReplica follower None 150 0 1 = (follower, Err ErrWriteOffsetMismatch)
  /\ PutMessageOnReplica follower msgOne 150 0 = (follower, Err ErrWriteOffsetMismatch).
Proof.
  apply (replica_offset_mismatch follower None msgOne 150 0 1).
  vm_compute. discriminate.
Defined.

(** On an engine that is exiting, a put with the id 1 returns the error of
    the exit guard. *)
Lemma put_assigned_id_exiting :
  ID msgOne > 0
  /\ PutDelayMessage exitingQueue msgOne = (exitingQueue, (0, 0, 0, None, Some errExitingNew))
  /\ snd (snd (PutDelayMessage exitingQueue msgOne)) <> Some ErrInvalidMessageID.
Proof. repeat split. discriminate. Qed.

(** The fresh engine turns away a message that carries the id 1. *)
Lemma put_rejects_assigned_id_witness :
  PutDelayMessage exampleQueue msgOne
  = (exampleQueue, (0, 0, 0, None, Some ErrInvalidMessageID)).
Proof. apply (put_rejects_assigned_id exampleQueue msgOne). reflexivity. Defined.

(** On an engine that is exiting, a raw replica put of two messages at the
    offset of the write end returns [ErrExiting]. *)
Lemma raw_message_number_exiting :
  offsetOf exitingQueue = 100
  /\ PutRawDataOnReplica exitingQueue (Some []) 100 0 2 = (exitingQueue, Err ErrExiting)
  /\ snd (PutRawDataOnReplica exitingQueue (Some []) 100 0 2) <> Err errRawMessageNumber.
Proof. repeat split. discriminate. Qed.

(** The follower turns away a raw put of two messages. *)
Lemma raw_replica_message_number_witness :
  PutRawDataOnReplica follower (Some []) 100 0 2 = (follower, Err errRawMessageNumber).
Proof.
  apply (raw_replica_message_number follower (Some []) 100 0 2).
  - reflexivity.
  - discriminate.
Defined.

(** A channel-delayed message with delivery time 0 is turned away. *)
Lemma put_validity_witness :
  PutDelayMessage exampleQueue (channelMessage 0 0 5 chanC [])
  = (exampleQueue, (0, 0, 0, None, Some errInvalidDelayedMessage))
  /\ invalidDelayed (channelMessage 0 0 5 chanC []).
Proof.
  split; [reflexivity|].
  apply (proj1 (put_validity exampleQueue (channelMessage 0 0 5 chanC [])
                  ltac:(discriminate) eq_refl exampleQueue 0 0 0 None
                  (Some errInvalidDelayedMessage) eq_refl)).
  split; reflexivity.
Defined.

(** Two puts share the original id 5; emptying the earlier one deletes the
    row they share, and the later key is left without a row. *)
Lemma index_pairing_shared_orig :
  Forall wfOp sharedOrigOps
  /\ runOps exampleQueue sharedOrigOps = Some afterSharedOrig
  /\ length (delayed_message (kvStore afterSharedOrig)) = 1%nat
  /\ delayed_message_index (kvStore afterSharedOrig) = []
  /\ ~ everyKeyHasRow (IsExt afterSharedOrig) (kvStore afterSharedOrig).
Proof.
  split; [unfold sharedOrigOps; wf_ops|].
  split; [vm_compute; reflexivity|].
  split; [vm_compute; reflexivity|].
  assert (E : delayed_message_index (kvStore afterSharedOrig) = [])
    by (vm_compute; reflexivity).
  split; [exact E|].
  intros H.
  destruct (delayed_message (kvStore afterSharedOrig)) as [|[k v] b] eqn:Eb.
  - vm_compute in Eb. discriminate.
  - destruct (H k v) as (m & _ & _ & HG).
    + rewrite Eb. cbn [Bolt.Get]. now rewrite bytes_compare_refl.
    + rewrite E in HG. discriminate.
Qed.

(** Keys and rows after two puts with different original ids. *)
Lemma index_pairing_witness :
  (rowsMatched (IsExt afterTwoPuts) (kvStore afterTwoPuts)
   /\ NoDup (Bolt.keys (delayed_message_index (kvStore afterTwoPuts))))
  /\ everyKeyHasRow (IsExt afterTwoPuts) (kvStore afterTwoPuts).
Proof.
  assert (H0 : kvStore exampleQueue = emptyKV) by reflexivity.
  assert (Hw : Forall wfOp twoPuts) by (unfold twoPuts; wf_ops).
  split.
  - apply (proj1 (index_pairing exampleQueue twoPuts afterTwoPuts H0 Hw)).
    vm_compute. reflexivity.
  - apply (proj2 (index_pairing exampleQueue twoPuts afterTwoPuts H0 Hw)).
    vm_compute. reflexivity.
Defined.

(** On the fresh engine the third message, put with id 0, is given the id
    1 and takes the place of the first: the peek returns two messages. *)
Lemma peek_ordering_zero_id :
  putThreeErrors exampleQueue = [None; None; None]
  /\ length (delayed_message (kvStore (putThree exampleQueue))) = 2%nat
  /\ snd (PeekRecentTimeoutWithFilter (putThree exampleQueue) threeSlots 300
            ChannelDelayed chanC)
     = (2%nat, [msgTwo; setID msgThree 1; zeroMessage], None)
  /\ snd (PeekRecentTimeoutWithFilter (putThree exampleQueue) threeSlots 300
            ChannelDelayed chanC)
     <> (3%nat, [msgTwo; msgThree; msgOne], None).
Proof.
  split; [vm_compute; reflexivity|].
  split; [vm_compute; reflexivity|].
  assert (E : snd (PeekRecentTimeoutWithFilter (putThree exampleQueue) threeSlots 300
                     ChannelDelayed chanC)
              = (2%nat, [msgTwo; setID msgThree 1; zeroMessage], None))
    by (vm_compute; reflexivity).
  split; [exact E|]. rewrite E. discriminate.
Qed.

(** With a generator that hands out the id 3 the peek returns the three
    messages in the order of their keys, the third one last; with a
    generator that hands out the id 0 the third one comes before the
    first. *)
Lemma peek_ordering_witness :
  snd (PeekRecentTimeoutWithFilter (putThree generatorQueue) threeSlots 300
         ChannelDelayed chanC)
  = (3%nat, [msgTwo; msgOne; setID msgThree 3], None)
  /\ putThreeErrors generatorQueue = [None; None; None]
  /\ bytes_compare (msgKeyOf msgTwo) (msgKeyOf msgOne) = Lt
  /\ bytes_compare (msgKeyOf msgOne) (msgKeyOf (setID msgThree 3)) = Lt
  /\ kvStore (fst (PeekRecentTimeoutWithFilter (putThree generatorQueue) threeSlots 300
                     ChannelDelayed chanC))
     = kvStore (putThree generatorQueue)
  /\ putThreeErrors zeroGenQueue = [None; None; None]
  /\ snd (PeekRecentTimeoutWithFilter (putThree zeroGenQueue) threeSlots 300
            ChannelDelayed chanC)
     = (3%nat, [msgTwo; msgThree; msgOne], None).
Proof.
  destruct (peek_ordering (C := codec)) as (Hgen & Hord & Hthree).
  split; [|split; [vm_compute; reflexivity|split; [|split; [|split; [|split]]]]].
  - apply (Hthree (putThree generatorQueue) chanC msgOne msgTwo (setID msgThree 3) 3 threeSlots);
      try reflexivity; try wf_message; lia.
  - unfold msgKeyOf. rewrite Hord by (vm_compute; reflexivity). reflexivity.
  - unfold msgKeyOf. rewrite Hord by (vm_compute; reflexivity). reflexivity.
  - destruct (PeekRecentTimeoutWithFilter (putThree generatorQueue) threeSlots 300
                ChannelDelayed chanC) as [q' [[idx res] err]] eqn:E.
    apply Hgen in E; [apply E|].
    change (delayed_message (kvStore (putThree generatorQueue)))
      with (Bolt.insert (msgKeyOf (setID msgThree 3)) (WriteDelayedTo (setID msgThree 3) false)
              (Bolt.insert (msgKeyOf msgTwo) (WriteDelayedTo msgTwo false)
                 (Bolt.insert (msgKeyOf msgOne) (WriteDelayedTo msgOne false) []))).
    repeat apply sorted_insert. apply sorted_nil.
  - vm_compute. reflexivity.
  - apply (Hthree (putThree zeroGenQueue) chanC msgOne msgTwo msgThree 0 threeSlots);
      try reflexivity; try wf_message; lia.
Defined.

(** Confirming with the fields of the message that was put finds no key:
    the key was stored under the assigned id 1, not under the original id
    5.  With the ids swapped the confirm succeeds and the meta bucket keeps
    its two cells. *)
Lemma put_confirm_same_fields :
  wfMessage firstMsg
  /\ snd (snd (PutDelayMessage exampleQueue firstMsg)) = None
  /\ snd (ConfirmedMessage afterFirstPut firstMsg) = Some errBucketKeyNotFound
  /\ GetCurrentDelayedCnt exampleQueue ChannelDelayed chanC = Ok 0
  /\ GetCurrentDelayedCnt (fst (ConfirmedMessage afterFirstPut firstMsg)) ChannelDelayed chanC
     = Ok 1
  /\ length (delayed_message (kvStore (fst (ConfirmedMessage afterFirstPut firstMsg))))
     = 1%nat
  /\ snd (ConfirmedMessage afterFirstPut firstSwapped) = None
  /\ meta (kvStore exampleQueue) = []
  /\ length (meta (kvStore (fst (ConfirmedMessage afterFirstPut firstSwapped)))) = 2%nat.
Proof.
  split; [wf_message|]. vm_compute. repeat split.
Qed.

(** A third put and its confirm, after two puts. *)
Lemma put_confirm_round_trip_witness :
  exists q2,
    ConfirmedMessage (fst thirdPut) thirdSwapped = (q2, None)
    /\ delayed_message (kvStore q2) = delayed_message (kvStore afterTwoPuts)
    /\ delayed_message_index (kvStore q2) = delayed_message_index (kvStore afterTwoPuts)
    /\ GetCurrentDelayedCnt q2 ChannelDelayed chanC
       = GetCurrentDelayedCnt afterTwoPuts ChannelDelayed chanC.
Proof.
  destruct (put_confirm_round_trip exampleQueue twoPuts afterTwoPuts thirdMsg
              (fst thirdPut) 3 102 51 (snd (fst (snd thirdPut))) thirdSwapped)
    as (q2 & end_ & H1 & _ & H3 & H4 & H5 & _).
  - reflexivity.
  - unfold twoPuts. wf_ops.
  - vm_compute. reflexivity.
  - vm_compute. reflexivity.
  - wf_message.
  - vm_compute. reflexivity.
  - vm_compute. reflexivity.
  - vm_compute. reflexivity.
  - reflexivity.
  - reflexivity.
  - reflexivity.
  - reflexivity.
  - exists q2. repeat split; auto.
Defined.

(** The shape of [bulkStore]: three puts on the fresh engine build its two
    buckets and its counter. *)
Lemma bulkStore_puts :
  match runOps exampleQueue (bulkPuts 3) with
  | Some q =>
      delayed_message (kvStore q) = delayed_message (bulkStore false 3)
      /\ delayed_message_index (kvStore q) = delayed_message_index (bulkStore false 3)
      /\ Bolt.Get (counterKey ChannelDelayed chanC) (meta (kvStore q))
         = Bolt.Get (counterKey ChannelDelayed chanC) (meta (bulkStore false 3))
  | None => False
  end.
Proof. vm_compute. repeat split. Qed.

(** C8.  The batch of a pass of [emptyDelayedUntil].  The store holds 10002
    messages of channel c, all due at time 100, with their index rows and
    their counter.  The first pass of [emptyDelayedUntil] up to time 30000
    deletes 10001 of them in its one store transaction, one more than
    [txMaxBatch], and leaves one. *)
Theorem empty_until_overrun :
  exists kv',
    emptyUntilPass false ChannelDelayed 30000 0 chanC (bulkStore false overBatch)
    = (kv', txMaxBatch + 1, None)
    /\ Z.of_nat (length (delayed_message (bulkStore false overBatch))) = txMaxBatch + 2
    /\ Z.of_nat (length (delayed_message kv')) = 1.
Proof.
  assert (Hn : Z.of_nat overBatch = txMaxBatch + 2).
  { unfold overBatch. apply Z2Nat.id. unfold txMaxBatch. lia. }
  destruct (bulk_pass false 30000 0 overBatch) as (kv' & E & L).
  - lia.
  - rewrite Hn. unfold txMaxBatch. lia.
  - rewrite Hn in E, L.
    replace (Z.min (txMaxBatch + 2) (txMaxBatch + 1)) with (txMaxBatch + 1) in E, L
      by (unfold txMaxBatch; lia).
    exists kv'. split; [exact E|]. split.
    + unfold bulkStore. cbn [delayed_message]. rewrite length_map, length_seq. exact Hn.
    + lia.
Qed.

(** * The further statements on concrete inputs *)

Ltac in_range := unfold is_int64, is_uint64, len, ChannelDelayed, PubDelayed, chanC; simpl; lia.

Lemma key_round_trip_witness :
  decodeDelayedMsgDBKey (getDelayedMsgDBKey ChannelDelayed chanC 100 7)
  = Ok (ChannelDelayed, 100, 7, chanC).
Proof. apply key_round_trip; in_range. Defined.

Lemma index_key_round_trip_witness :
  decodeDelayedMsgDBIndexKey (getDelayedMsgDBIndexKey ChannelDelayed chanC 7)
  = Ok (ChannelDelayed, 7, chanC).
Proof. apply index_key_round_trip; in_range. Defined.

(** The types 1 and 65537 give the same key. *)
Lemma key_injective_witness :
  uint16 1 = uint16 65537 /\ chanC = chanC /\ uint64 100 = uint64 100
  /\ uint64 7 = uint64 7.
Proof. apply (key_injective 1 chanC 100 7 65537 chanC 100 7). reflexivity. Defined.

Lemma prefix_scan_same_channel_witness :
  HasPrefix (getDelayedMsgDBKey ChannelDelayed chanC 100 7)
    (getDelayedMsgDBPrefixKey ChannelDelayed chanC) = true.
Proof.
  apply (proj2 (prefix_scan_same_channel ChannelDelayed ChannelDelayed chanC chanC 100 7
                  ltac:(in_range))).
  split; reflexivity.
Defined.

Ltac writer_facts :=
  unfold wfWriter, wfEnd, roomFor, endsOrdered, opFits, is_int64, exampleRecord, len;
  cbn; lia.

(** A record of three bytes goes into the log at offset 100.  An empty
    record is refused by the writer whose least record size is 1: the write
    end stays at 0, and the write file, missing before, is there and
    empty. *)
Lemma put_v2_effect_witness :
  (snd (snd examplePut) = None
   /\ fst (fst (fst (snd examplePut))) = 100
   /\ snd (fst (fst (snd examplePut))) = 7
   /\ DiskQueue.virtualEnd (DiskQueue.diskWriteEnd (fst examplePut)) = 107
   /\ DiskQueue.totalMsgCnt (DiskQueue.diskWriteEnd (fst examplePut)) = 6)
  /\ DiskQueue.fileSize 0 (DiskQueue.dataFiles freshWriter) = None
  /\ snd (snd refusedPut) = Some errInvalidWriteSize
  /\ DiskQueue.diskWriteEnd (fst refusedPut) = DiskQueue.zeroEndInfo
  /\ DiskQueue.fileSize 0 (DiskQueue.dataFiles (fst refusedPut)) = Some 0.
Proof.
  split.
  - destruct (put_v2_effect (exampleWriter 100) exampleRecord
                ltac:(discriminate) ltac:(writer_facts) ltac:(writer_facts) ltac:(writer_facts)
                (fst examplePut) (fst (fst (fst (snd examplePut))))
                (snd (fst (fst (snd examplePut)))) (snd (fst (snd examplePut)))
                (snd (snd examplePut)) eq_refl) as [_ H].
    destruct (H ltac:(writer_facts)) as (H1 & H2 & H3 & H4 & H5 & H6 & _).
    rewrite <- H4. repeat split; assumption.
  - split; [reflexivity|].
    destruct (put_v2_effect freshWriter []
                ltac:(discriminate) ltac:(writer_facts) ltac:(writer_facts) ltac:(writer_facts)
                (fst refusedPut) (fst (fst (fst (snd refusedPut))))
                (snd (fst (fst (snd refusedPut)))) (snd (fst (snd refusedPut)))
                (snd (snd refusedPut)) eq_refl) as [H _].
    destruct (H ltac:(left; writer_facts)) as (H1 & H2 & H3 & _).
    split; [exact H1|]. split; [exact H2|exact H3].
Defined.

(** The append is taken back: the write end is at offset 100 again. *)
Lemma put_rollback_round_trip_witness :
  exists d2,
    DiskQueue.RollbackWriteV2 (fst examplePut) 100 1 = (d2, (exampleEnd 100, None))
    /\ DiskQueue.diskWriteEnd d2 = exampleEnd 100
    /\ DiskQueue.diskReadEnd d2 = exampleEnd 100
    /\ DiskQueue.fileSize 0 (DiskQueue.dataFiles d2) = Some 100.
Proof.
  apply (put_rollback_round_trip (exampleWriter 100) exampleRecord
           ltac:(discriminate) ltac:(writer_facts) ltac:(writer_facts) ltac:(writer_facts)
           ltac:(writer_facts) ltac:(writer_facts) ltac:(writer_facts)
           (fst examplePut) 100 7 (snd (fst (snd examplePut))) eq_refl).
Defined.

(** At position 1020 of a file of 1024 bytes the record fills the file. *)
Lemma rollback_across_roll_witness :
  DiskQueue.EndOffset (snd (fst (snd rollingPut)))
  = {| DiskQueue.FileNum := 1; DiskQueue.Pos := 0 |}
  /\ (exists d2,
        DiskQueue.RollbackWriteV2 (fst rollingPut) 1020 1
        = (d2, (snd (fst (snd rollingPut)), Some ErrInvalidOffset))
        /\ DiskQueue.diskWriteEnd d2 = snd (fst (snd rollingPut)))
  /\ (exists d3,
        DiskQueue.ResetWriteEndV2 (fst rollingPut) 1020 5 = (d3, (exampleEnd 1020, None))
        /\ DiskQueue.diskWriteEnd d3 = exampleEnd 1020
        /\ DiskQueue.diskReadEnd d3 = exampleEnd 1020
        /\ DiskQueue.fileSize 0 (DiskQueue.dataFiles d3) = Some 1020).
Proof.
  apply (rollback_across_roll (exampleWriter 1020) exampleRecord
           ltac:(discriminate) ltac:(writer_facts) ltac:(writer_facts) ltac:(writer_facts)
           ltac:(writer_facts) ltac:(writer_facts) ltac:(writer_facts) ltac:(writer_facts)
           ltac:(cbn; intros sz [= <-]; lia)
           (fst rollingPut) 1020 7 (snd (fst (snd rollingPut))) eq_refl).
Defined.

(** A reset of the log that ends at 100 to offset 40 and count 2. *)
Lemma reset_write_end_witness :
  snd (snd (DiskQueue.ResetWriteEndV2 (exampleWriter 100) 40 2)) = None
  /\ fst (snd (DiskQueue.ResetWriteEndV2 (exampleWriter 100) 40 2))
     = {| DiskQueue.EndOffset := {| DiskQueue.FileNum := 0; DiskQueue.Pos := 40 |};
          DiskQueue.virtualEnd := 40; DiskQueue.totalMsgCnt := 2 |}.
Proof.
  destruct (reset_write_end (exampleWriter 100) 40 2 ltac:(writer_facts)
              (fst (DiskQueue.ResetWriteEndV2 (exampleWriter 100) 40 2))
              (fst (snd (DiskQueue.ResetWriteEndV2 (exampleWriter 100) 40 2)))
              (snd (snd (DiskQueue.ResetWriteEndV2 (exampleWriter 100) 40 2)))
              eq_refl) as [_ H].
  destruct (H ltac:(writer_facts) ltac:(writer_facts)) as [_ H'].
  destruct (H' ltac:(discriminate) ltac:(writer_facts)) as (H1 & H2 & _).
  split; assumption.
Defined.

(** Emptying the log that ends at 100. *)
Lemma empty_restarts_in_next_file_witness :
  exists d',
    DiskQueue.Empty (exampleWriter 100) = (d', None)
    /\ DiskQueue.diskWriteEnd d'
       = {| DiskQueue.EndOffset := {| DiskQueue.FileNum := 1; DiskQueue.Pos := 0 |};
            DiskQueue.virtualEnd := 100; DiskQueue.totalMsgCnt := 5 |}
    /\ DiskQueue.fileSize 0 (DiskQueue.dataFiles d') = None.
Proof.
  destruct (empty_restarts_in_next_file (exampleWriter 100)
              ltac:(discriminate) ltac:(writer_facts) ltac:(writer_facts) ltac:(writer_facts))
    as (d' & H1 & H2 & _ & _ & H5 & _).
  exists d'. split; [exact H1|]. split; [exact H2|].
  apply H5; cbn; lia.
Defined.

(** After the emptying a rollback to offset 40 is refused. *)
Lemma empty_no_way_back_witness :
  DiskQueue.RollbackWriteV2 (fst (DiskQueue.Empty (exampleWriter 100))) 40 1
  = (fst (DiskQueue.Empty (exampleWriter 100)),
     (DiskQueue.diskWriteEnd (fst (DiskQueue.Empty (exampleWriter 100))),
      Some ErrInvalidOffset)).
Proof.
  apply (empty_no_way_back (exampleWriter 100) (fst (DiskQueue.Empty (exampleWriter 100)))
           40 1 eq_refl ltac:(writer_facts)).
Defined.

(** The ends stay in order over an append. *)
Lemma writer_ends_ordered_witness :
  endsOrdered (writerStep (exampleWriter 100) (WPutV2 exampleRecord)).
Proof.
  apply (writer_ends_ordered (exampleWriter 100) (WPutV2 exampleRecord));
    writer_facts.
Defined.

(** The store after the two puts is well formed. *)
Lemma afterTwoPuts_wf : storeWf (IsExt afterTwoPuts) (kvStore afterTwoPuts).
Proof.
  destruct (runOps_storeOk (IsExt exampleQueue) twoPuts exampleQueue 0 afterTwoPuts eq_refl)
    as [_ (Hwf & _)].
  - apply storeOk_empty.
  - unfold twoPuts. wf_ops.
  - vm_compute. reflexivity.
  - vm_compute. reflexivity.
  - exact Hwf.
Qed.

(** The first put on the fresh engine: id 1, offset 0, 51 bytes. *)
Lemma firstPut_result :
  PutDelayMessage exampleQueue firstMsg
  = (afterFirstPut,
     (1, 0, 51,
      Some {| DiskQueue.EndOffset := {| DiskQueue.FileNum := 0; DiskQueue.Pos := 51 |};
              DiskQueue.virtualEnd := 51; DiskQueue.totalMsgCnt := 6 |}, None)).
Proof. vm_compute. reflexivity. Qed.

(** The first put on the fresh engine gets the id 1 and can be looked up
    under it. *)
Lemma put_then_lookup_witness :
  Bolt.Get (msgKeyOf (setID firstMsg 1)) (delayed_message (kvStore afterFirstPut))
  = Some (WriteDelayedTo (setID firstMsg 1) (IsExt exampleQueue))
  /\ IsChannelMessageDelayed afterFirstPut (DelayedOrigID firstMsg) (DelayedChannel firstMsg)
     = true.
Proof.
  pose proof (put_then_lookup exampleQueue firstMsg afterFirstPut 1 0 51 _
                ltac:(wf_message) firstPut_result) as H.
  cbv zeta in H. destruct H as (H1 & _ & H3).
  split; [exact H1|].
  apply H3; [vm_compute; discriminate|reflexivity].
Defined.

(** The synced offset after the first put is the offset the log reached;
    the fresh engine has none. *)
Lemma synced_offset_follows_put_witness :
  GetSyncedOffset afterFirstPut = Ok 51
  /\ GetSyncedOffset exampleQueue = Err errAtoi.
Proof.
  destruct (synced_offset_follows_put exampleQueue firstMsg) as (H1 & _ & H3).
  split.
  - exact (H1 afterFirstPut 1 0 51 _ firstPut_result).
  - apply H3. reflexivity.
Defined.

(** A replica put with a wrong size check fails. *)
Lemma failedPut_result :
  PutMessageOnReplica follower msgOne 100 999 = (afterFailedPut, Err errWriteSizeMismatch).
Proof. vm_compute. reflexivity. Qed.

(** It leaves the store as it was. *)
Lemma failed_put_keeps_store_witness : kvStore afterFailedPut = kvStore follower.
Proof.
  exact (proj2 (proj2 (failed_put_keeps_store follower msgOne errWriteSizeMismatch))
           afterFailedPut 100 999 failedPut_result).
Defined.

(** The raw record of [msgOne] with a size check of 1. *)
Lemma raw_size_mismatch_unreported_witness :
  exists q' dend,
    PutRawDataOnReplica follower (Some rawOne) (offsetOf follower) 1 1 = (q', Ok dend)
    /\ kvStore q' = kvStore follower
    /\ DiskQueue.diskWriteEnd (backend q') = dend
    /\ DiskQueue.virtualEnd dend = int64 (offsetOf follower + len rawOne).
Proof.
  apply (raw_size_mismatch_unreported follower rawOne msgOne 1).
  - discriminate.
  - discriminate.
  - vm_compute. split; [discriminate|reflexivity].
  - vm_compute. reflexivity.
  - lia.
  - vm_compute. discriminate.
Defined.

(** The store after the first put is well formed. *)
Lemma afterFirstPut_wf : storeWf (IsExt afterFirstPut) (kvStore afterFirstPut).
Proof.
  destruct (runOps_storeOk (IsExt exampleQueue) [OpPutDelayMessage firstMsg] exampleQueue 0
              afterFirstPut eq_refl) as [_ (Hwf & _)].
  - apply storeOk_empty.
  - wf_ops.
  - vm_compute. reflexivity.
  - vm_compute. reflexivity.
  - exact Hwf.
Qed.

(** The record the first put stored under the id 1. *)
Lemma firstPut_stored :
  Bolt.Get (getDelayedMsgDBKey (DelayedType firstSwapped) (DelayedChannel firstSwapped)
              (DelayedTs firstSwapped) (DelayedOrigID firstSwapped))
    (delayed_message (kvStore afterFirstPut))
  = Some (WriteDelayedTo (setID firstMsg 1) false).
Proof. vm_compute. reflexivity. Qed.

(** Confirming on the fresh engine finds nothing.  After the first put,
    confirming with the assigned id 1 in the place of the original id
    finds the message: its key and its index row are gone and the counter
    of the channel is down by one. *)
Lemma confirm_effect_witness :
  ConfirmedMessage exampleQueue firstMsg = (exampleQueue, Some errBucketKeyNotFound)
  /\ exists q' mo,
       ConfirmedMessage afterFirstPut firstSwapped = (q', None)
       /\ DecodeDelayedMessage (WriteDelayedTo (setID firstMsg 1) false) (IsExt afterFirstPut)
          = Some mo
       /\ Bolt.Get (getDelayedMsgDBKey (DelayedType firstSwapped)
                      (DelayedChannel firstSwapped) (DelayedTs firstSwapped)
                      (DelayedOrigID firstSwapped))
            (delayed_message (kvStore q')) = None
       /\ Bolt.Get (indexKeyOf mo) (delayed_message_index (kvStore q')) = None
       /\ readCounter (meta (kvStore q'))
            (counterKey (DelayedType firstSwapped) (DelayedChannel firstSwapped))
          = Z.max 0
              (readCounter (meta (kvStore afterFirstPut))
                 (counterKey (DelayedType firstSwapped) (DelayedChannel firstSwapped)) - 1).
Proof.
  split.
  - pose proof (confirm_effect exampleQueue firstMsg) as H. cbv zeta in H.
    destruct H as [H _]. apply H. vm_compute. reflexivity.
  - pose proof (confirm_effect afterFirstPut firstSwapped) as H. cbv zeta in H.
    destruct H as [_ H].
    destruct (H _ afterFirstPut_wf firstPut_stored)
      as (q' & mo & H1 & H2 & H3 & _ & H5 & _ & H7 & _).
    exists q', mo.
    split; [exact H1|]. split; [exact H2|]. split; [exact H3|]. split; [exact H5|exact H7].
Defined.

(** The delivery times stored after the two puts are 100 and 200. *)
Lemma afterTwoPuts_nonneg : tsNonneg ChannelDelayed chanC (kvStore afterTwoPuts).
Proof.
  apply noNegativeTs_nonneg; [apply afterTwoPuts_wf|]. vm_compute. reflexivity.
Qed.

(** Emptying channel c up to time 150 deletes the message due at 100 and
    keeps the one due at 200. *)
Lemma empty_until_exact_witness :
  exists q',
    emptyDelayedUntil (passBound afterTwoPuts) afterTwoPuts ChannelDelayed 150 0 chanC
    = Some (q', None)
    /\ Bolt.Get (getDelayedMsgDBKey ChannelDelayed chanC 200 2)
         (delayed_message (kvStore q'))
       = Bolt.Get (getDelayedMsgDBKey ChannelDelayed chanC 200 2)
           (delayed_message (kvStore afterTwoPuts))
    /\ Bolt.Get (getDelayedMsgDBKey ChannelDelayed chanC 100 1)
         (delayed_message (kvStore q')) = None.
Proof.
  destruct (empty_until_exact afterTwoPuts ChannelDelayed 150 0 chanC afterTwoPuts_wf)
    as (q' & H1 & H2 & H3).
  exists q'. split; [exact H1|]. split.
  - apply H2. vm_compute. reflexivity.
  - apply (H3 afterTwoPuts_nonneg). vm_compute. reflexivity.
Defined.

(** Emptying channel c altogether. *)
Lemma empty_all_exact_witness :
  exists q',
    emptyAllDelayedType (passBound afterTwoPuts) 0 afterTwoPuts ChannelDelayed chanC
    = Some (q', None)
    /\ Bolt.Get (getDelayedMsgDBKey ChannelDelayed chanC 200 2)
         (delayed_message (kvStore q')) = None.
Proof.
  destruct (empty_all_exact afterTwoPuts 0 ChannelDelayed chanC afterTwoPuts_wf)
    as (q' & H1 & H2).
  exists q'. split; [exact H1|].
  apply (H2 _ (WriteDelayedTo (channelMessage 2 200 6 chanC []) false)
           (channelMessage 2 200 6 chanC [])); vm_compute; reflexivity.
Defined.

(** Emptying the channel type by [EmptyDelayedType] keeps the message of
    channel c that is due at 200. *)
Lemma empty_wrappers_witness :
  exists q',
    EmptyDelayedType (passBound afterTwoPuts) 0 afterTwoPuts ChannelDelayed = Some (q', None)
    /\ Bolt.Get (getDelayedMsgDBKey ChannelDelayed chanC 200 2)
         (delayed_message (kvStore q'))
       = Some (WriteDelayedTo (channelMessage 2 200 6 chanC []) false).
Proof.
  destruct (proj2 (empty_wrappers afterTwoPuts 0 ChannelDelayed) afterTwoPuts_wf)
    as (q' & H1 & H2).
  exists q'. split; [exact H1|].
  apply (H2 _ _ (channelMessage 2 200 6 chanC []));
    [vm_compute; reflexivity|vm_compute; reflexivity|discriminate].
Defined.

(** A peek result, taken apart. *)
Lemma peek_parts (r : DelayQueue * (nat * list Message * option error)) :
  r = (fst r, (fst (fst (snd r)), snd (fst (snd r)), snd (snd r))).
Proof. now destruct r as [q [[i l] e]]. Qed.

(** After the two puts a peek of channel c with deadline 150 returns the
    message due at 100. *)
Lemma peek_complete_witness :
  snd (snd (PeekRecentTimeoutWithFilter afterTwoPuts threeSlots 150 ChannelDelayed chanC))
  = None
  /\ In (channelMessage 1 100 5 chanC [])
       (firstn
          (fst (fst (snd (PeekRecentTimeoutWithFilter afterTwoPuts threeSlots 150
                            ChannelDelayed chanC))))
          (snd (fst (snd (PeekRecentTimeoutWithFilter afterTwoPuts threeSlots 150
                            ChannelDelayed chanC))))).
Proof.
  assert (Hig : peekIgnored afterTwoPuts 150 ChannelDelayed chanC = false)
    by (vm_compute; reflexivity).
  destruct (peek_complete afterTwoPuts threeSlots 150 ChannelDelayed chanC _ _ _ _
              afterTwoPuts_wf ltac:(unfold ChannelDelayed; lia) Hig afterTwoPuts_nonneg
              (peek_parts _)) as [H1 H2].
  split; [exact H1|].
  apply (H2 ltac:(vm_compute; repeat constructor)
            (getDelayedMsgDBKey ChannelDelayed chanC 100 1)
            (WriteDelayedTo (channelMessage 1 100 5 chanC []) false)).
  - vm_compute. reflexivity.
  - vm_compute. reflexivity.
  - reflexivity.
  - reflexivity.
  - cbn. lia.
Defined.

(** A peek of everything after the two puts does not fail. *)
Lemma peek_no_error_witness : snd (snd (PeekAll afterTwoPuts 0 threeSlots)) = None.
Proof.
  exact (peek_no_error afterTwoPuts threeSlots _ (-1) [] afterTwoPuts_wf).
Defined.

Ltac by_compute :=
  vm_compute; repeat split; solve [reflexivity | discriminate | intros; discriminate].

(** The first put on the fresh engine: 51 bytes at offset 0, six messages
    in the log, and a flush takes the read end to offset 51. *)
Lemma put_accounting_witness :
  TotalDataSize afterFirstPut = TotalDataSize exampleQueue + 51
  /\ TotalMessageCnt afterFirstPut = TotalMessageCnt exampleQueue + 1
  /\ snd (flush afterFirstPut) = None
  /\ DiskQueue.virtualEnd (DiskQueue.GetQueueReadEnd (backend (fst (flush afterFirstPut))))
     = 51.
Proof.
  pose proof (put_accounting exampleQueue afterFirstPut firstMsg 1 0 51 _
                ltac:(writer_facts) firstPut_result) as H.
  cbv zeta in H.
  destruct (H ltac:(by_compute) ltac:(by_compute))
    as (_ & Hn & _ & H4 & H5 & _ & H7 & _ & H9 & _).
  rewrite <- Hn in H4.
  split; [exact H4|]. split; [exact H5|]. split; [exact H7|].
  rewrite H9. reflexivity.
Defined.

(** The first put taken back: the log is empty again and the message is
    still in the index store. *)
Lemma rollback_keeps_index_witness :
  exists q'',
    RollbackNoLock afterFirstPut 0 1 = (q'', None)
    /\ DiskQueue.GetQueueWriteEnd (backend q'')
       = DiskQueue.GetQueueWriteEnd (backend exampleQueue)
    /\ TotalDataSize q'' = TotalDataSize exampleQueue
    /\ TotalMessageCnt q'' = TotalMessageCnt exampleQueue
    /\ needFlush q'' = 1
    /\ Bolt.Get (msgKeyOf (setID firstMsg 1)) (delayed_message (kvStore q''))
       = Some (WriteDelayedTo (setID firstMsg 1) (IsExt exampleQueue)).
Proof.
  exact (rollback_keeps_index exampleQueue afterFirstPut firstMsg 1 0 51 _
           ltac:(wf_message) ltac:(writer_facts) firstPut_result
           ltac:(by_compute) ltac:(by_compute) ltac:(by_compute) ltac:(by_compute)
           ltac:(by_compute)).
Defined.

(** The replica put with the wrong size check leaves the log at offset
    100. *)
Lemma failed_replica_put_restores_log_witness :
  DiskQueue.GetQueueWriteEnd (backend afterFailedPut)
  = DiskQueue.GetQueueWriteEnd (backend follower)
  /\ TotalDataSize afterFailedPut = TotalDataSize follower
  /\ TotalMessageCnt afterFailedPut = TotalMessageCnt follower.
Proof.
  pose proof (failed_replica_put_restores_log follower afterFailedPut msgOne 100 999
                errWriteSizeMismatch ltac:(writer_facts)) as H.
  cbv zeta in H.
  exact (H ltac:(by_compute) ltac:(by_compute) ltac:(by_compute) ltac:(by_compute)
           ltac:(by_compute) ltac:(by_compute) failedPut_result).
Defined.
(** The two puts, run from the fresh engine. *)
Lemma twoPuts_run : runOps exampleQueue twoPuts = Some afterTwoPuts.
Proof. vm_compute. reflexivity. Qed.

(** The original id 5 is delayed on channel c after the two puts, and the
    message is in the store. *)
Lemma is_delayed_sound_witness :
  exists k v m,
    Bolt.Get k (delayed_message (kvStore afterTwoPuts)) = Some v
    /\ DecodeDelayedMessage v (IsExt afterTwoPuts) = Some m
    /\ uint16 (DelayedType m) = ChannelDelayed
    /\ DelayedChannel m = chanC
    /\ DelayedOrigID m = uint64 5.
Proof.
  apply (is_delayed_sound exampleQueue afterTwoPuts twoPuts 5 chanC eq_refl
           ltac:(unfold twoPuts; wf_ops) twoPuts_run ltac:(by_compute)).
  vm_compute. reflexivity.
Defined.

(** The counters after the two puts are sound. *)
Lemma afterTwoPuts_counters : countersOk (kvStore afterTwoPuts).
Proof.
  destruct (runOps_storeOk (IsExt exampleQueue) twoPuts exampleQueue 0 afterTwoPuts eq_refl)
    as [_ (_ & Hc & _)].
  - apply storeOk_empty.
  - unfold twoPuts. wf_ops.
  - vm_compute. reflexivity.
  - exact twoPuts_run.
  - exact Hc.
Qed.

(** After the two puts the oldest key of channel c is in the key list and
    the channel has its counter. *)
Lemma oldest_consumed_state_witness :
  exists keyList cntList channelCntList,
    GetOldestConsumedState afterTwoPuts [chanC] true = Ok (keyList, cntList, channelCntList)
    /\ Bolt.Get chanC channelCntList
       = Some (keyCount (kvStore afterTwoPuts) ChannelDelayed chanC)
    /\ exists k,
         In k keyList
         /\ HasPrefix k (getDelayedMsgDBPrefixKey ChannelDelayed chanC) = true
         /\ bytes_compare k (getDelayedMsgDBKey ChannelDelayed chanC 200 2) <> Gt.
Proof.
  pose proof (oldest_consumed_state afterTwoPuts [chanC] true afterTwoPuts_wf
                afterTwoPuts_counters) as H.
  cbv zeta in H. destruct H as (ks & cl & cm & E & _ & K2 & M & _).
  exists ks, cl, cm. split; [exact E|]. split; [apply M; now left|].
  apply (K2 ChannelDelayed chanC (getDelayedMsgDBKey ChannelDelayed chanC 200 2)
           (WriteDelayedTo (channelMessage 2 200 6 chanC []) false)).
  - right. right. now left.
  - vm_compute. reflexivity.
  - vm_compute. reflexivity.
Defined.
(** The consumed state after the two puts: the key of the message due at
    100, no message of the other types, two messages on channel c. *)
Lemma oldestState_result :
  GetOldestConsumedState afterTwoPuts [chanC] true
  = Ok ([getDelayedMsgDBKey ChannelDelayed chanC 100 1],
        [(PubDelayed, 0); (TransactionDelayed, 0)], [(chanC, 2)]).
Proof. vm_compute. reflexivity. Qed.

(** Applied to the same engine, with the counters of the types visited in
    the other order, it deletes nothing. *)
Lemma consumed_state_round_trip_witness :
  exists q',
    UpdateConsumedState afterTwoPuts [getDelayedMsgDBKey ChannelDelayed chanC 100 1]
      [(TransactionDelayed, 0, 7); (PubDelayed, 0, 8)] [(chanC, 2, 9)] = Some (Ok q')
    /\ forall k, Bolt.Get k (delayed_message (kvStore q'))
                 = Bolt.Get k (delayed_message (kvStore afterTwoPuts)).
Proof.
  apply (consumed_state_round_trip afterTwoPuts [chanC] true
           [getDelayedMsgDBKey ChannelDelayed chanC 100 1]
           [(PubDelayed, 0); (TransactionDelayed, 0)] [(chanC, 2)] afterTwoPuts_wf
           afterTwoPuts_counters).
  - intros dt ch _. apply noNegativeTs_nonneg; [apply afterTwoPuts_wf|].
    vm_compute. reflexivity.
  - exact oldestState_result.
  - intros dt cnt now [[= <- <- <-]|[[= <- <- <-]|[]]]; [right|]; now left.
  - intros ch cnt now [[= <- <- <-]|[]]. reflexivity.
Defined.
(** The first put on the fresh engine gets the id 1, and 1 is then the last
    id handed out. *)
Lemma put_id_sequence_witness :
  1 = uint64 (defaultIDSeq exampleQueue + 1)
  /\ defaultIDSeq afterFirstPut = 1 /\ msgIDCursor afterFirstPut = None.
Proof.
  apply (put_id_sequence exampleQueue firstMsg afterFirstPut 1 0 51 _ None eq_refl
           ltac:(by_compute) ltac:(by_compute) ltac:(by_compute) firstPut_result).
Defined.
